(** * videolibrary: path sanitisation, directory walking and range streaming

    A shallow embedding of the request-handling core of [server.js]:
    [sanitizePath], [readDirectoryRecursive], [searchVideosRecursive] with
    its inner [searchDir], and the [/api/browse] and [/api/video] handlers,
    together with the parts of the JavaScript runtime they call (string
    methods, [parseInt], Node's POSIX [path] module, [fs] as an explicit
    file-system value). *)

From Stdlib Require Import ZArith List String Ascii Bool Lia.
From Stdlib Require Decimal DecimalString DecimalFacts DecimalPos DecimalN DecimalZ.
Import ListNotations.

Local Open Scope list_scope.
Local Open Scope string_scope.

(* ================================================================== *)
(** ** JavaScript strings and numbers *)
(* ================================================================== *)

Module Js.

(** Strings are byte strings.  A path, a file name and a query parameter
    are held in UTF-8; a header value and a request body read as [binary]
    hold one byte for every character (Latin-1).  The characters the code
    looks for ([/], [.], [-], [\], digits) are ASCII, one byte in both. *)

(** [s.startsWith(p)] *)
Fixpoint startsWith (s p : string) {struct p} : bool :=
  match p, s with
  | EmptyString, _ => true
  | String _ _, EmptyString => false
  | String b p', String a s' => Ascii.eqb a b && startsWith s' p'
  end.

(** [s.slice(n)] for [0 <= n] *)
Fixpoint drop (n : nat) (s : string) : string :=
  match n, s with
  | O, _ => s
  | S _, EmptyString => EmptyString
  | S n', String _ s' => drop n' s'
  end.

(** [s.slice(0, n)] for [0 <= n] *)
Fixpoint take (n : nat) (s : string) : string :=
  match n, s with
  | O, _ => EmptyString
  | S _, EmptyString => EmptyString
  | S n', String a s' => String a (take n' s')
  end.

(** [s.includes(q)] *)
Fixpoint includes (s q : string) : bool :=
  startsWith s q ||
  match s with
  | EmptyString => false
  | String _ s' => includes s' q
  end.

(** A string of ASCII characters only. *)
Fixpoint ascii_only (s : string) : bool :=
  match s with
  | EmptyString => true
  | String a s' => (nat_of_ascii a <? 128)%nat && ascii_only s'
  end.

(** The lower-case mapping of an ASCII character: the letters [A] to [Z]
    move to [a] to [z]. *)
Definition lower_ascii (c : ascii) : ascii :=
  let n := nat_of_ascii c in
  if (65 <=? n)%nat && (n <=? 90)%nat then ascii_of_nat (n + 32) else c.

Fixpoint lower_letters (s : string) : string :=
  match s with
  | EmptyString => EmptyString
  | String a s' => String (lower_ascii a) (lower_letters s')
  end.

(** [s.split(c)] for a one-character separator: never the empty array. *)
Fixpoint split (c : ascii) (s : string) : list string :=
  match s with
  | EmptyString => [EmptyString]
  | String a s' =>
      if Ascii.eqb a c then EmptyString :: split c s'
      else match split c s' with
           | [] => [String a EmptyString]
           | h :: t => String a h :: t
           end
  end.

(** [l.join(sep)] *)
Definition join (sep : string) (l : list string) : string := String.concat sep l.

(** [s.replace(/pat/, '')] for a literal pattern: the first occurrence
    is removed. *)
Fixpoint remove_first (pat s : string) : string :=
  if startsWith s pat then drop (String.length pat) s
  else match s with
       | EmptyString => EmptyString
       | String a s' => String a (remove_first pat s')
       end.

(** [s.replace(/^(\.\.(\/|\\|$))+/, '')]: the longest run of leading
    [../], [..\] groups, possibly closed by a final [..] that ends the
    string, is removed. *)
Fixpoint strip_parent_prefix (s : string) : string :=
  match s with
  | String "." (String "." rest) =>
      match rest with
      | EmptyString => EmptyString
      | String c rest' =>
          if Ascii.eqb c "/" || Ascii.eqb c "\" then strip_parent_prefix rest'
          else s
      end
  | _ => s
  end.

(** Truthiness of a string value: only the empty string is falsy. *)
Definition truthy (s : string) : bool :=
  match s with EmptyString => false | _ => true end.

(** A JavaScript number as far as the handlers see it: [NaN] or an
    integer.  [parseInt] yields the exact integer; every place where the
    result is used is guarded by the read stream's own range check
    ([0 <= v <= 2^53 - 1], see [Fs.createReadStream]), below which doubles
    are exact, and a digit string denoting more than [2^53 - 1] rounds to a
    double that is still above that bound. *)
Inductive number := NaN | Inf (negative : bool) | Num (z : Z).

(** Digit strings denoting at least this much round to [Infinity]:
    the midpoint between the largest double and [2^1024]. *)
Definition overflow_threshold : Z := (2 ^ 54 - 1) * 2 ^ 970.

(** The white space [parseInt] skips, as far as one byte can hold it: tab
    to carriage return, the space and the no-break space. *)
Definition is_ws (c : ascii) : bool :=
  let n := nat_of_ascii c in
  ((9 <=? n)%nat && (n <=? 13)%nat) || (n =? 32)%nat || (n =? 160)%nat.

Fixpoint skip_ws (s : string) : string :=
  match s with
  | String c s' => if is_ws c then skip_ws s' else s
  | EmptyString => s
  end.

(** The longest prefix of decimal digits, as a decimal numeral. *)
Fixpoint leading_digits (s : string) : Decimal.uint :=
  match s with
  | EmptyString => Decimal.Nil
  | String c s' =>
      match c with
      | "0"%char => Decimal.D0 (leading_digits s')
      | "1"%char => Decimal.D1 (leading_digits s')
      | "2"%char => Decimal.D2 (leading_digits s')
      | "3"%char => Decimal.D3 (leading_digits s')
      | "4"%char => Decimal.D4 (leading_digits s')
      | "5"%char => Decimal.D5 (leading_digits s')
      | "6"%char => Decimal.D6 (leading_digits s')
      | "7"%char => Decimal.D7 (leading_digits s')
      | "8"%char => Decimal.D8 (leading_digits s')
      | "9"%char => Decimal.D9 (leading_digits s')
      | _ => Decimal.Nil
      end
  end.

(** [parseInt(s, 10)] *)
Definition parseInt (s : string) : number :=
  let s1 := skip_ws s in
  let '(neg, s2) :=
    match s1 with
    | String "-" r => (true, r)
    | String "+" r => (false, r)
    | _ => (false, s1)
    end in
  match leading_digits s2 with
  | Decimal.Nil => NaN
  | d =>
      let v := Z.of_uint d in
      if (overflow_threshold <=? v)%Z then Inf neg
      else Num (if neg then - v else v)%Z
  end.

(** [String(z)] / template interpolation of an integer below [10^21]. *)
Definition toString (z : Z) : string := DecimalString.NilEmpty.string_of_int (Z.to_int z).

Definition number_toString (n : number) : string :=
  match n with
  | NaN => "NaN"
  | Inf false => "Infinity"
  | Inf true => "-Infinity"
  | Num z => toString z
  end.

(** [a - b] and [a + b] on these numbers. *)
Definition sub (a b : number) : number :=
  match a, b with
  | NaN, _ | _, NaN => NaN
  | Num x, Num y => Num (x - y)
  | Inf s, Num _ => Inf s
  | Num _, Inf s => Inf (negb s)
  | Inf s, Inf t => if Bool.eqb s t then NaN else Inf s
  end.

Definition add (a b : number) : number :=
  match a, b with
  | NaN, _ | _, NaN => NaN
  | Num x, Num y => Num (x + y)
  | Inf s, Num _ => Inf s
  | Num _, Inf s => Inf s
  | Inf s, Inf t => if Bool.eqb s t then Inf s else NaN
  end.

(** What the runtime decides and this development leaves open: the lower
    case and the length in UTF-16 units of a string with characters beyond
    ASCII, which rest on the Unicode tables of the engine, and the message of
    the [RangeError] that Node's read-stream constructor throws for a given
    [start] and [end]. *)
Class Runtime := {
  lower_beyond_ascii : string -> string;
  units_beyond_ascii : string -> nat;
  range_error_message : number -> number -> string
}.

(** [s.toLowerCase()]: on ASCII the letters [A] to [Z] are folded. *)
Definition toLowerCase {rt : Runtime} (s : string) : string :=
  if ascii_only s then lower_letters s else lower_beyond_ascii s.

(** [s.length]: on ASCII one unit for every byte. *)
Definition string_length {rt : Runtime} (s : string) : nat :=
  if ascii_only s then String.length s else units_beyond_ascii s.

End Js.

(* ================================================================== *)
(** ** Node's POSIX [path] module *)
(* ================================================================== *)

Module Path.

Definition sep : string := "/".

Definition isAbsolute (p : string) : bool := Js.startsWith p "/".

Fixpoint endsWithSlash (p : string) : bool :=
  match p with
  | EmptyString => false
  | String c EmptyString => Ascii.eqb c "/"
  | String _ p' => endsWithSlash p'
  end.

(** [normalizeString] works on the [/]-separated segments: empty and [.]
    segments vanish, [..] pops the last kept segment unless that is itself
    [..] (or nothing is kept), in which case it is kept only when
    [allowAboveRoot].  [stack] holds the kept segments, last first. *)
Fixpoint normalizeSegs (allowAboveRoot : bool) (stack segs : list string)
  : list string :=
  match segs with
  | [] => rev stack
  | seg :: rest =>
      if (seg =? EmptyString) || (seg =? ".") then normalizeSegs allowAboveRoot stack rest
      else if seg =? ".." then
        match stack with
        | top :: below =>
            if top =? ".." then
              normalizeSegs allowAboveRoot
                (if allowAboveRoot then ".." :: stack else stack) rest
            else normalizeSegs allowAboveRoot below rest
        | [] =>
            normalizeSegs allowAboveRoot
              (if allowAboveRoot then [".."] else []) rest
        end
      else normalizeSegs allowAboveRoot (seg :: stack) rest
  end.

Definition normalizeString (p : string) (allowAboveRoot : bool) : string :=
  Js.join "/" (normalizeSegs allowAboveRoot [] (Js.split "/" p)).

(** [path.normalize(p)] *)
Definition normalize (p : string) : string :=
  if p =? EmptyString then "."
  else
    let isAbs := isAbsolute p in
    let trailingSeparator := endsWithSlash p in
    let q := normalizeString p (negb isAbs) in
    if q =? EmptyString then
      if isAbs then "/" else if trailingSeparator then "./" else "."
    else
      let q' := if trailingSeparator then q ++ "/" else q in
      if isAbs then "/" ++ q' else q'.

(** The right-to-left loop of [path.resolve]: [rargs] are the arguments
    last first; when none of them is absolute the working directory is
    prepended. *)
Fixpoint resolve_loop (cwd : string) (rargs : list string) (resolvedPath : string)
  : string * bool :=
  match rargs with
  | [] =>
      if cwd =? EmptyString then (resolvedPath, false)
      else (cwd ++ "/" ++ resolvedPath, isAbsolute cwd)
  | p :: rest =>
      if p =? EmptyString then resolve_loop cwd rest resolvedPath
      else
        let r := p ++ "/" ++ resolvedPath in
        if isAbsolute p then (r, true) else resolve_loop cwd rest r
  end.

(** [path.resolve(...args)] with [process.cwd() = cwd] *)
Definition resolve (cwd : string) (args : list string) : string :=
  let '(resolvedPath, resolvedAbsolute) := resolve_loop cwd (rev args) EmptyString in
  let q := normalizeString resolvedPath (negb resolvedAbsolute) in
  if resolvedAbsolute then "/" ++ q
  else if q =? EmptyString then "." else q.

(** [path.join(...args)] *)
Definition join (args : list string) : string :=
  match filter Js.truthy args with
  | [] => "."
  | l => normalize (Js.join "/" l)
  end.

(** The segments of an absolute, normalised path. *)
Definition abs_segments (p : string) : list string :=
  filter Js.truthy (Js.split "/" p).

Fixpoint drop_common (xs ys : list string) : list string * list string :=
  match xs, ys with
  | x :: xs', y :: ys' => if x =? y then drop_common xs' ys' else (xs, ys)
  | _, _ => (xs, ys)
  end.

(** [path.relative(from, to)]: one [..] for every segment of [from] below
    the common ancestor, then what is left of [to]. *)
Definition relative (cwd from to : string) : string :=
  if from =? to then EmptyString
  else
    let f := resolve cwd [from] in
    let t := resolve cwd [to] in
    if f =? t then EmptyString
    else
      let '(fs, ts) := drop_common (abs_segments f) (abs_segments t) in
      Js.join "/" (map (fun _ => "..") fs ++ ts)%list.

(** The backwards scan of [path.dirname]: [r] holds the characters at
    indices [i, i-1, ..., 1]. *)
Fixpoint dirname_scan (r : list ascii) (i : nat) (matchedSlash : bool)
  : option nat :=
  match r with
  | [] => None
  | c :: r' =>
      if Ascii.eqb c "/" then
        if matchedSlash then dirname_scan r' (i - 1) true else Some i
      else dirname_scan r' (i - 1) false
  end.

(** [path.dirname(p)] *)
Definition dirname (p : string) : string :=
  match p with
  | EmptyString => "."
  | String c0 tl =>
      let hasRoot := Ascii.eqb c0 "/" in
      match dirname_scan (rev (list_ascii_of_string tl)) (String.length tl) true with
      | None => if hasRoot then "/" else "."
      | Some e => if hasRoot && (e =? 1)%nat then "//" else Js.take e p
      end
  end.

(** State of the backwards scan of [path.extname]; [-1] is [None]. *)
Record ext_state := {
  startDot : option nat;
  startPart : nat;
  ext_end : option nat;
  matchedSlash : bool;
  preDotState : Z;
  stopped : bool
}.

Definition extname_step (st : ext_state) (ic : nat * ascii) : ext_state :=
  let '(i, c) := ic in
  if stopped st then st
  else if Ascii.eqb c "/" then
    if negb (matchedSlash st) then
      {| startDot := startDot st; startPart := i + 1; ext_end := ext_end st;
         matchedSlash := matchedSlash st; preDotState := preDotState st;
         stopped := true |}
    else st
  else
    let '(e, ms) :=
      match ext_end st with
      | None => (Some (i + 1), false)
      | Some e => (Some e, matchedSlash st)
      end in
    if Ascii.eqb c "." then
      match startDot st with
      | None =>
          {| startDot := Some i; startPart := startPart st; ext_end := e;
             matchedSlash := ms; preDotState := preDotState st; stopped := false |}
      | Some _ =>
          {| startDot := startDot st; startPart := startPart st; ext_end := e;
             matchedSlash := ms; preDotState := 1; stopped := false |}
      end
    else
      match startDot st with
      | None =>
          {| startDot := None; startPart := startPart st; ext_end := e;
             matchedSlash := ms; preDotState := preDotState st; stopped := false |}
      | Some _ =>
          {| startDot := startDot st; startPart := startPart st; ext_end := e;
             matchedSlash := ms; preDotState := (-1); stopped := false |}
      end.

(** The characters of [p] paired with their indices, last first. *)
Definition indexed_rev (p : string) : list (nat * ascii) :=
  rev (combine (seq 0 (String.length p)) (list_ascii_of_string p)).

(** [path.extname(p)] *)
Definition extname (p : string) : string :=
  let st := fold_left extname_step (indexed_rev p)
              {| startDot := None; startPart := 0; ext_end := None;
                 matchedSlash := true; preDotState := 0; stopped := false |} in
  match startDot st, ext_end st with
  | Some sd, Some e =>
      if (preDotState st =? 0)%Z
         || ((preDotState st =? 1)%Z && (sd =? e - 1)%nat && (sd =? startPart st + 1)%nat)
      then EmptyString
      else Js.drop sd (Js.take e p)
  | _, _ => EmptyString
  end.

End Path.

(* ================================================================== *)
(** ** The file system and the HTTP response, as the handlers use them *)
(* ================================================================== *)

(** A computation that may throw: [Throw msg] is a thrown [Error] whose
    [message] is [msg]. *)
Inductive result (A : Type) : Type :=
| Ok (a : A)
| Throw (msg : string).
Arguments Ok {A} a.
Arguments Throw {A} msg.

Definition bind {A B : Type} (r : result A) (k : A -> result B) : result B :=
  match r with
  | Ok a => k a
  | Throw m => Throw m
  end.

Notation "x <- r ;; k" := (bind r (fun x => k))
  (at level 61, r at next level, right associativity).

Module Fs.

(** What [fs.Dirent] answers to [isDirectory()] and [isFile()]; a symbolic
    link, socket or device is neither. *)
Inductive kind := Directory | RegularFile | Other.

Record Dirent := { name : string; dirent_kind : kind }.

Definition isDirectory (d : Dirent) : bool :=
  match dirent_kind d with Directory => true | _ => false end.

Definition isFile (d : Dirent) : bool :=
  match dirent_kind d with RegularFile => true | _ => false end.

Record Stats := {
  stats_isFile : bool;
  stats_isDirectory : bool;
  size : Z;
  mtime : Z
}.

(** The file system seen through the three calls the server makes.
    [readdir] is [fs.promises.readdir(p, {withFileTypes: true})], [stat]
    is [fs.promises.stat(p)]; both may reject.  [content p] holds the bytes
    of the regular file at [p]. *)
Record t := {
  readdir : string -> result (list Dirent);
  stat : string -> result Stats;
  content : string -> list Byte.byte
}.

(** An open read stream: the bytes it will deliver are those of the file
    from offset [rs_start] up to offset [rs_end] included ([None]: to the
    end of the file), cut at the end of the file. *)
Record ReadStream := {
  rs_path : string;
  rs_start : Z;
  rs_end : option Z
}.

(** [validateInteger(v, name, 0)]: an integer within
    [0 .. Number.MAX_SAFE_INTEGER]. *)
Definition validateInteger (v : Js.number) : bool :=
  match v with
  | Js.Num z => (0 <=? z)%Z && (z <=? 2 ^ 53 - 1)%Z
  | _ => false
  end.

(** [fs.createReadStream(p, {start, end})]: the constructor validates
    [start], then [end] unless it is [Infinity], then [start <= end], and
    throws a [RangeError] synchronously otherwise. *)
Definition createReadStream {rt : Js.Runtime} (p : string)
    (start end_ : Js.number) : result ReadStream :=
  match start with
  | Js.Num s =>
      if negb (validateInteger start) then
        Throw (Js.range_error_message start end_)
      else
        match end_ with
        | Js.Inf false => Ok {| rs_path := p; rs_start := s; rs_end := None |}
        | Js.Num e =>
            if negb (validateInteger end_) then
              Throw (Js.range_error_message start end_)
            else if (e <? s)%Z then
              Throw (Js.range_error_message start end_)
            else Ok {| rs_path := p; rs_start := s; rs_end := Some e |}
        | _ => Throw (Js.range_error_message start end_)
        end
  | _ => Throw (Js.range_error_message start end_)
  end.

(** [fs.createReadStream(p)] *)
Definition createReadStreamWhole (p : string) : ReadStream :=
  {| rs_path := p; rs_start := 0; rs_end := None |}.

(** The bytes a read stream delivers. *)
Definition stream_bytes (fs : t) (rs : ReadStream) : list Byte.byte :=
  let from := skipn (Z.to_nat (rs_start rs)) (content fs (rs_path rs)) in
  match rs_end rs with
  | None => from
  | Some e => firstn (Z.to_nat (e - rs_start rs + 1)) from
  end.

End Fs.

(* ================================================================== *)
(** ** server.js *)
(* ================================================================== *)

(** [config.json], as far as the core reads it. *)
Record Config := {
  videoDirectory : string;
  maxRecursionDepth : Z;
  allowedExtensions : list string;
  allowedImageExtensions : option (list string)
}.

(** [l.includes(x)] on an array of strings. *)
Definition array_includes (l : list string) (x : string) : bool :=
  existsb (String.eqb x) l.

(** One entry of [result.folders]. *)
Record FolderEntry := {
  folder_name : string;
  folder_path : string
}.

(** One entry of [result.files]. *)
Record FileEntry := {
  file_name : string;
  file_path : string;
  file_type : string;
  file_size : Z;
  file_modified : Z
}.

(** What [readDirectoryRecursive] returns: the [{error: ...}] object or
    the [{folders, files}] object. *)
Inductive Listing :=
| ListingError (error : string)
| ListingOk (folders : list FolderEntry) (files : list FileEntry).

(** One element of the [results] array of the search. *)
Record SearchResult := {
  sr_name : string;
  sr_path : string;
  sr_folder : string;
  sr_type : string;
  sr_size : Z;
  sr_modified : Z
}.

(** A value of a response header. *)
Inductive header_value := HStr (s : string) | HNum (n : Js.number).

Inductive Body :=
| JsonError (error : string)
| JsonListing (l : Listing)
| JsonSearch (results : list SearchResult) (count : Z)
| Piped (rs : Fs.ReadStream).

Record Response := {
  status : Z;
  headers : list (string * header_value);
  body : Body
}.

(** [res.status(code).json({error: msg})] *)
Definition json_error (code : Z) (msg : string) : Response :=
  {| status := code; headers := []; body := JsonError msg |}.

(** [res.json(v)] *)
Definition json_ok (b : Body) : Response :=
  {| status := 200; headers := []; body := b |}.

(** The bytes of file content a response carries. *)
Definition file_bytes (fs : Fs.t) (r : Response) : list Byte.byte :=
  match body r with
  | Piped rs => Fs.stream_bytes fs rs
  | _ => []
  end.

(** A value the query parser of Express hands over: a string, an array for
    a parameter that is given more than once or with brackets, an object for
    a parameter with named members.  Of an array the search looks at the
    number of its elements only, of an object at whether its [length] member
    compares below 2. *)
Inductive QueryValue :=
| QString (s : string)
| QArray (elements : nat)
| QObject (short : bool).

(** The part of an incoming request the core looks at; [query_path] is
    the [path] parameter given once, as a string. *)
Record Request := {
  host : option string;
  authenticated : bool;
  query_path : option string;
  query_q : option QueryValue;
  range : option string
}.

(** [v || ''] for an optional string. *)
Definition or_empty (v : option string) : string :=
  match v with Some s => s | None => EmptyString end.

(** [v || ''] for a value of the query: the empty string is falsy, an
    array and an object are not. *)
Definition query_or_empty (v : option QueryValue) : QueryValue :=
  match v with
  | Some q => q
  | None => QString EmptyString
  end.

(** [!query] *)
Definition query_falsy (q : QueryValue) : bool :=
  match q with
  | QString s => negb (Js.truthy s)
  | _ => false
  end.

(** [query.length < 2] *)
Definition query_short {rt : Js.Runtime} (q : QueryValue) : bool :=
  match q with
  | QString s => (Js.string_length s <? 2)%nat
  | QArray n => (n <? 2)%nat
  | QObject short => short
  end.

(** An access to the file system made by the search, in order. *)
Inductive Event :=
| Readdir (dirPath : string) (depth : Z)
| Stat (itemPath : string).

(** The [results] array captured by [searchDir], with the log of the
    file-system calls made so far. *)
Record SearchState := {
  results : list SearchResult;
  trace : list Event
}.

Section Server.

Context {rt : Js.Runtime}.

Variable config : Config.
(** [process.cwd()] *)
Variable cwd : string.

(** [sanitizePath(userPath)] *)
Definition sanitizePath (userPath : string) : result string :=
  let baseDir := Path.resolve cwd [videoDirectory config] in
  if negb (Js.truthy userPath) || (userPath =? EmptyString) then Ok baseDir
  else
    let normalized := Js.strip_parent_prefix (Path.normalize userPath) in
    let fullPath := Path.resolve cwd [baseDir; normalized] in
    if negb (Js.startsWith fullPath (baseDir ++ Path.sep))
       && negb (fullPath =? baseDir)
    then Throw "Invalid path: directory traversal detected"
    else Ok fullPath.

(** [isVideoFile(filename)] *)
Definition isVideoFile (filename : string) : bool :=
  let ext := Js.toLowerCase (Path.extname filename) in
  array_includes (allowedExtensions config) ext.

(** [isImageFile(filename)] *)
Definition isImageFile (filename : string) : bool :=
  let imageExts :=
    match allowedImageExtensions config with
    | Some l => l
    | None => [".jpg"; ".jpeg"; ".png"; ".gif"; ".webp"; ".bmp"; ".svg"]
    end in
  let ext := Js.toLowerCase (Path.extname filename) in
  array_includes imageExts ext.

(** [isMediaFile()] *)
Definition isMediaFile (filename : string) : bool := true.

(** [getFileType(filename)] *)
Definition getFileType (filename : string) : string :=
  if isVideoFile filename then "video"
  else if isImageFile filename then "image"
  else
    let ext := Js.toLowerCase (Path.extname filename) in
    if array_includes [".pdf"; ".doc"; ".docx"; ".txt"; ".rtf"; ".odt"] ext
    then "document"
    else if array_includes
              [".mp3"; ".wav"; ".flac"; ".aac"; ".ogg"; ".m4a"; ".wma"] ext
    then "audio"
    else if array_includes [".zip"; ".rar"; ".7z"; ".tar"; ".gz"; ".bz2"] ext
    then "archive"
    else if array_includes
              [".js"; ".py"; ".java"; ".cpp"; ".c"; ".html"; ".css"; ".json"; ".xml"]
              ext
    then "code"
    else "file".

Definition mimeTypes : list (string * string) :=
  [ (".mp4", "video/mp4"); (".m4v", "video/mp4"); (".webm", "video/webm");
    (".avi", "video/x-msvideo"); (".mkv", "video/x-matroska");
    (".mov", "video/quicktime"); (".wmv", "video/x-ms-wmv");
    (".flv", "video/x-flv"); (".mpeg", "video/mpeg"); (".mpg", "video/mpeg") ].

Fixpoint lookup (k : string) (table : list (string * string)) : option string :=
  match table with
  | [] => None
  | (k', v) :: rest => if k =? k' then Some v else lookup k rest
  end.

(** [getMimeType(filename)] *)
Definition getMimeType (filename : string) : string :=
  let ext := Js.toLowerCase (Path.extname filename) in
  match lookup ext mimeTypes with
  | Some m => m
  | None => "video/mp4"
  end.

Variable fs : Fs.t.

(** The body of the [for (const item of items)] loop of
    [readDirectoryRecursive], over the items still to visit. *)
Fixpoint readDirectory_loop (dirPath : string) (items : list Fs.Dirent)
    (folders : list FolderEntry) (files : list FileEntry) : result Listing :=
  match items with
  | [] => Ok (ListingOk folders files)
  | item :: rest =>
      let itemPath := Path.join [dirPath; Fs.name item] in
      let relativePath := Path.relative cwd (videoDirectory config) itemPath in
      if Js.startsWith (Fs.name item) "." then
        readDirectory_loop dirPath rest folders files
      else if Fs.isDirectory item then
        readDirectory_loop dirPath rest
          (folders ++ [{| folder_name := Fs.name item;
                          folder_path := relativePath |}])%list
          files
      else if Fs.isFile item && isMediaFile (Fs.name item) then
        stats <- Fs.stat fs itemPath ;;
        readDirectory_loop dirPath rest folders
          (files ++ [{| file_name := Fs.name item;
                        file_path := relativePath;
                        file_type := getFileType (Fs.name item);
                        file_size := Fs.size stats;
                        file_modified := Fs.mtime stats |}])%list
      else readDirectory_loop dirPath rest folders files
  end.

(** [readDirectoryRecursive(dirPath, currentDepth)] *)
Definition readDirectoryRecursive (dirPath : string) (currentDepth : Z)
  : result Listing :=
  if (maxRecursionDepth config <? currentDepth)%Z then
    Ok (ListingError "Maximum recursion depth exceeded")
  else
    match (items <- Fs.readdir fs dirPath ;;
           readDirectory_loop dirPath items [] []) with
    | Ok l => Ok l
    | Throw m => Throw ("Failed to read directory: " ++ m)
    end.

(** The object pushed by [searchDir] for a matching file. *)
Definition search_result (item : Fs.Dirent) (relativePath : string)
    (stats : Fs.Stats) : SearchResult :=
  {| sr_name := Fs.name item;
     sr_path := relativePath;
     sr_folder := (let d := Path.dirname relativePath in
                   if Js.truthy d then d else "Home");
     sr_type := getFileType (Fs.name item);
     sr_size := Fs.size stats;
     sr_modified := Fs.mtime stats |}.

Definition log (e : Event) (st : SearchState) : SearchState :=
  {| results := results st; trace := (trace st ++ [e])%list |}.

Definition push (r : SearchResult) (st : SearchState) : SearchState :=
  {| results := (results st ++ [r])%list; trace := trace st |}.

(** The [for (const item of items)] loop of [searchDir], over the items
    still to visit; [self] is [searchDir] itself, for the visit of a
    sub-directory.  A rejected [stat] throws out of the loop, into the
    [catch] of the enclosing [searchDir]. *)
Fixpoint searchDir_loop (self : string -> Z -> SearchState -> option SearchState)
    (lowerQuery dirPath : string) (depth : Z) (items : list Fs.Dirent)
    (st : SearchState) : option SearchState :=
  match items with
  | [] => Some st
  | item :: rest =>
      if Js.startsWith (Fs.name item) "." then
        searchDir_loop self lowerQuery dirPath depth rest st
      else
        let itemPath := Path.join [dirPath; Fs.name item] in
        let relativePath := Path.relative cwd (videoDirectory config) itemPath in
        if Fs.isDirectory item then
          match self itemPath (depth + 1)%Z st with
          | None => None
          | Some st' => searchDir_loop self lowerQuery dirPath depth rest st'
          end
        else if Fs.isFile item && isMediaFile (Fs.name item) then
          if Js.includes (Js.toLowerCase (Fs.name item)) lowerQuery then
            match Fs.stat fs itemPath with
            | Throw _ => Some (log (Stat itemPath) st)
            | Ok stats =>
                searchDir_loop self lowerQuery dirPath depth rest
                  (push (search_result item relativePath stats)
                     (log (Stat itemPath) st))
            end
          else searchDir_loop self lowerQuery dirPath depth rest st
        else searchDir_loop self lowerQuery dirPath depth rest st
  end.

(** [searchDir(dirPath, depth)], closed over [lowerQuery], [maxResults]
    and the shared [results] array, which is threaded as state.  The
    function never throws: a rejected [readdir] or [stat] lands in its
    [catch], which ends the visit of [dirPath] and keeps what was found.
    [fuel] bounds the nesting of the calls; [None] is: not enough fuel. *)
Fixpoint searchDir (lowerQuery : string) (maxResults : Z) (fuel : nat)
    (dirPath : string) (depth : Z) (st : SearchState) : option SearchState :=
  match fuel with
  | O => None
  | S fuel' =>
      if (maxRecursionDepth config <? depth)%Z
         || (maxResults <=? Z.of_nat (List.length (results st)))%Z
      then Some st
      else
        match Fs.readdir fs dirPath with
        | Throw _ => Some (log (Readdir dirPath depth) st)
        | Ok items =>
            searchDir_loop (searchDir lowerQuery maxResults fuel')
              lowerQuery dirPath depth items (log (Readdir dirPath depth) st)
        end
  end.

(** Fuel that is enough for any call at depth [0]: the nesting never
    exceeds [maxRecursionDepth + 2]. *)
Definition search_fuel : nat := Z.to_nat (maxRecursionDepth config) + 2.

(** [searchVideosRecursive(startPath, query, maxResults)], returning the
    final state of the search. *)
Definition searchVideosRecursive_run (fuel : nat) (startPath query : string)
    (maxResults : Z) : option SearchState :=
  searchDir (Js.toLowerCase query) maxResults fuel startPath 0
    {| results := []; trace := [] |}.

(** [searchVideosRecursive(startPath, query, maxResults)] *)
Definition searchVideosRecursive (startPath query : string) (maxResults : Z)
  : option (list SearchResult) :=
  option_map results
    (searchVideosRecursive_run search_fuel startPath query maxResults).

(** The default of the [maxResults] parameter. *)
Definition default_maxResults : Z := 100.

End Server.

Section Handlers.

Context {rt : Js.Runtime}.

Variable config : Config.
Variable cwd : string.
Variable fs : Fs.t.

(** The network-isolation middleware: the host name without its port
    must be one of the two local names. *)
Definition host_allowed (h : option string) : bool :=
  let hostname :=
    match h with
    | Some s => if Js.truthy s then hd EmptyString (Js.split ":" s) else EmptyString
    | None => EmptyString
    end in
  array_includes ["127.0.0.1"; "localhost"] hostname.

(** The middleware chain in front of a route registered with
    [requireAuth]. *)
Definition with_middleware {A : Type} (inject : Response -> A)
    (handler : Request -> A) (req : Request) : A :=
  if negb (host_allowed (host req)) then inject (json_error 403 "Access denied")
  else if negb (authenticated req) then inject (json_error 401 "Unauthorized")
  else handler req.

(** [try { ... } catch (error) { res.status(500).json({error: error.message}) }] *)
Definition catch (r : result Response) : Response :=
  match r with
  | Ok resp => resp
  | Throw m => json_error 500 m
  end.

(** The handler of [GET /api/browse]. *)
Definition browse_handler (req : Request) : Response :=
  catch (
    let requestedPath :=
      let p := or_empty (query_path req) in
      if Js.truthy p then p else EmptyString in
    fullPath <- sanitizePath config cwd requestedPath ;;
    stats <- Fs.stat fs fullPath ;;
    if negb (Fs.stats_isDirectory stats) then
      Ok (json_error 400 "Path is not a directory")
    else
      contents <- readDirectoryRecursive config cwd fs fullPath 0 ;;
      Ok (json_ok (JsonListing contents))).

(** The handler of [GET /api/search]; [None] only if the search ran out
    of fuel. *)
Definition search_handler (req : Request) : option Response :=
  let query := query_or_empty (query_q req) in
  let startPath := or_empty (query_path req) in
  if query_falsy query || query_short query then
    Some (json_ok (JsonSearch [] 0))
  else
    match sanitizePath config cwd startPath with
    | Throw m => Some (json_error 500 m)
    | Ok fullPath =>
        match query with
        | QString query =>
            match searchVideosRecursive config cwd fs fullPath query
                    default_maxResults with
            | None => None
            | Some rs =>
                Some (json_ok (JsonSearch rs (Z.of_nat (List.length rs))))
            end
        | _ =>
            (* [query.toLowerCase()] on an array or an object *)
            Some (json_error 500 "query.toLowerCase is not a function")
        end
    end.

(** The two header-derived numbers of a range request. *)
Definition range_start (range : string) : Js.number :=
  let parts := Js.split "-" (Js.remove_first "bytes=" range) in
  Js.parseInt (nth 0 parts EmptyString).

Definition range_end (range : string) (fileSize : Z) : Js.number :=
  let parts := Js.split "-" (Js.remove_first "bytes=" range) in
  match nth_error parts 1 with
  | Some p1 => if Js.truthy p1 then Js.parseInt p1 else Js.Num (fileSize - 1)
  | None => Js.Num (fileSize - 1)
  end.

(** The handler of [GET /api/video]. *)
Definition video_handler (req : Request) : Response :=
  catch (
    let requestedPath := or_empty (query_path req) in
    if negb (Js.truthy requestedPath) then
      Ok (json_error 400 "Path parameter required")
    else
      fullPath <- sanitizePath config cwd requestedPath ;;
      stats <- Fs.stat fs fullPath ;;
      if negb (Fs.stats_isFile stats) || negb (isVideoFile config fullPath) then
        Ok (json_error 400 "Invalid video file")
      else
        let fileSize := Fs.size stats in
        if Js.truthy (or_empty (range req)) then
          let range := or_empty (range req) in
          let start := range_start range in
          let end_ := range_end range fileSize in
          let chunkSize := Js.add (Js.sub end_ start) (Js.Num 1) in
          fileStream <- Fs.createReadStream fullPath start end_ ;;
          Ok {| status := 206;
                headers :=
                  [ ("Content-Range",
                     HStr ("bytes " ++ Js.number_toString start ++ "-"
                           ++ Js.number_toString end_ ++ "/"
                           ++ Js.toString fileSize));
                    ("Accept-Ranges", HStr "bytes");
                    ("Content-Length", HNum chunkSize);
                    ("Content-Type", HStr (getMimeType fullPath)) ];
                body := Piped fileStream |}
        else
          Ok {| status := 200;
                headers :=
                  [ ("Content-Length", HNum (Js.Num fileSize));
                    ("Content-Type", HStr (getMimeType fullPath)) ];
                body := Piped (Fs.createReadStreamWhole fullPath) |}).

(** [GET /api/browse], [GET /api/search] and [GET /api/video] behind the
    middleware. *)
Definition api_browse : Request -> Response :=
  with_middleware (fun r => r) browse_handler.

Definition api_search : Request -> option Response :=
  with_middleware Some search_handler.

Definition api_video : Request -> Response :=
  with_middleware (fun r => r) video_handler.

End Handlers.

(* ================================================================== *)
(** ** The first server: the same core without sessions or database *)
(* ================================================================== *)

Module Legacy.

(** [sanitizePath(userPath)] of the first server: the stripped path is
    joined onto the configured directory as it is written, and the guard is
    a plain prefix test. *)
Definition sanitizePath (config : Config) (userPath : string) : result string :=
  let normalized := Js.strip_parent_prefix (Path.normalize userPath) in
  let fullPath := Path.join [videoDirectory config; normalized] in
  if negb (Js.startsWith fullPath (videoDirectory config)) then
    Throw "Invalid path: directory traversal detected"
  else Ok fullPath.

End Legacy.

(* ================================================================== *)
(** ** A small library: [/lib/movies/a.mp4] and [/lib/.hidden/b.mp4] *)
(* ================================================================== *)

Module Scenario.

Definition config : Config :=
  {| videoDirectory := "/lib";
     maxRecursionDepth := 10;
     allowedExtensions :=
       [".mp4"; ".avi"; ".mkv"; ".mov"; ".wmv"; ".flv"; ".webm"; ".m4v";
        ".mpeg"; ".mpg"];
     allowedImageExtensions := None |}.

(** The same with the recursion cap at 0. *)
Definition flat_config : Config :=
  {| videoDirectory := "/lib";
     maxRecursionDepth := 0;
     allowedExtensions := allowedExtensions config;
     allowedImageExtensions := None |}.

(** The same with a negative recursion cap: [server.js] takes the number
    from [config.json] as it is. *)
Definition negative_config : Config :=
  {| videoDirectory := "/lib";
     maxRecursionDepth := -1;
     allowedExtensions := allowedExtensions config;
     allowedImageExtensions := None |}.

Definition cwd : string := "/app".

(** A runtime to run the worked examples on.  Their strings are ASCII, on
    which every runtime answers alike, and none of them looks at the text of
    a range error. *)
#[global] Instance runtime : Js.Runtime :=
  {| Js.lower_beyond_ascii := fun s => s;
     Js.units_beyond_ascii := String.length;
     Js.range_error_message := fun _ _ => "RangeError" |}.

Definition dir_stats : Fs.Stats :=
  {| Fs.stats_isFile := false; Fs.stats_isDirectory := true;
     Fs.size := 4096; Fs.mtime := 0 |}.

Definition file_stats (n : Z) : Fs.Stats :=
  {| Fs.stats_isFile := true; Fs.stats_isDirectory := false;
     Fs.size := n; Fs.mtime := 0 |}.

Definition dirent (n : string) (k : Fs.kind) : Fs.Dirent :=
  {| Fs.name := n; Fs.dirent_kind := k |}.

(** [a.mp4] is 500000 bytes long; its bytes are all zero. *)
Definition fs : Fs.t :=
  {| Fs.readdir := fun p =>
       if p =? "/lib" then
         Ok [dirent ".hidden" Fs.Directory; dirent "movies" Fs.Directory]
       else if p =? "/lib/movies" then Ok [dirent "a.mp4" Fs.RegularFile]
       else if p =? "/lib/.hidden" then Ok [dirent "b.mp4" Fs.RegularFile]
       else Throw "ENOENT: no such file or directory";
     Fs.stat := fun p =>
       if (p =? "/lib") || (p =? "/lib/movies") || (p =? "/lib/.hidden")
       then Ok dir_stats
       else if p =? "/lib/movies/a.mp4" then Ok (file_stats 500000)
       else if p =? "/lib/.hidden/b.mp4" then Ok (file_stats 1000)
       else Throw "ENOENT: no such file or directory";
     Fs.content := fun p =>
       if p =? "/lib/movies/a.mp4" then
         repeat Byte.x00 (Z.to_nat 500000)
       else if p =? "/lib/.hidden/b.mp4" then
         repeat Byte.x00 (Z.to_nat 1000)
       else [] |}.

Definition request (p : option string) (q : option string)
    (r : option string) : Request :=
  {| host := Some "localhost:3000"; authenticated := true;
     query_path := p; query_q := option_map QString q; range := r |}.

End Scenario.

(* ================================================================== *)
(** ** Two more libraries: one short clip, and a crowded folder *)
(* ================================================================== *)

Module Clip.

(** [/lib/clip.mp4], ten bytes long. *)
Definition bytes : list Byte.byte :=
  [Byte.x00; Byte.x01; Byte.x02; Byte.x03; Byte.x04;
   Byte.x05; Byte.x06; Byte.x07; Byte.x08; Byte.x09].

Definition fs : Fs.t :=
  {| Fs.readdir := fun p =>
       if p =? "/lib" then Ok [Scenario.dirent "clip.mp4" Fs.RegularFile]
       else Throw "ENOENT: no such file or directory";
     Fs.stat := fun p =>
       if p =? "/lib" then Ok Scenario.dir_stats
       else if p =? "/lib/clip.mp4" then Ok (Scenario.file_stats 10)
       else Throw "ENOENT: no such file or directory";
     Fs.content := fun p => if p =? "/lib/clip.mp4" then bytes else [] |}.

Definition request (r : option string) : Request :=
  Scenario.request (Some "clip.mp4") None r.

End Clip.

Module Crowded.

(** [/lib] holds [clip0.mp4] ... [clip100.mp4]: 101 files. *)
Definition names : list string :=
  map (fun i => "clip" ++ Js.toString (Z.of_nat i) ++ ".mp4") (seq 0 101).

Definition fs : Fs.t :=
  {| Fs.readdir := fun p =>
       if p =? "/lib" then
         Ok (map (fun n => Scenario.dirent n Fs.RegularFile) names)
       else Throw "ENOTDIR: not a directory";
     Fs.stat := fun p =>
       if p =? "/lib" then Ok Scenario.dir_stats
       else Ok (Scenario.file_stats 1000);
     Fs.content := fun _ => [] |}.

End Crowded.

(* ================================================================== *)
(** ** Vocabulary of the statements *)
(* ================================================================== *)

(** [c] occurs in [s]. *)
Fixpoint has_char (c : ascii) (s : string) : bool :=
  match s with
  | EmptyString => false
  | String a s' => Ascii.eqb a c || has_char c s'
  end.

(** A segment that [normalizeString] keeps as it is: not empty, not [.]
    and not [..]. *)
Definition plain_seg (s : string) : bool :=
  negb (s =? EmptyString) && negb (s =? ".") && negb (s =? "..").

(** A plain segment without a separator in it. *)
Definition clean_seg (s : string) : bool :=
  plain_seg s && negb (has_char "/" s).

(** [p] is [root] or lies below it: [root], a separator, and more. *)
Definition within (root p : string) : Prop :=
  p = root \/ exists rest, p = root ++ Path.sep ++ rest.

(** The kept segments of a relative path: some [..], then plain ones.
    On the stack they are stored last first. *)
Definition updown (stack : list string) : Prop :=
  exists k M, stack = (M ++ repeat ".." k)%list
              /\ Forall (fun s => plain_seg s = true) M.

(** A first segment the regular expression leaves alone. *)
Definition unstrippable (m : string) : Prop :=
  plain_seg m = true /\ has_char "/" m = false /\ has_char "\" m = false.

(** The request [req] reaches the streaming part of [/api/video]: it
    passes the middleware, its path resolves to [fullPath], and [fullPath]
    is a regular file with an allowed video extension, described by
    [stats]. *)
Definition serves_video {rt : Js.Runtime} (config : Config) (cwd : string) (fs : Fs.t)
    (req : Request) (fullPath : string) (stats : Fs.Stats) : Prop :=
  host_allowed (host req) = true
  /\ authenticated req = true
  /\ (exists p, query_path req = Some p /\ Js.truthy p = true
                /\ sanitizePath config cwd p = Ok fullPath)
  /\ Fs.stat fs fullPath = Ok stats
  /\ Fs.stats_isFile stats = true
  /\ isVideoFile config fullPath = true.

(** The header [bytes=<start>-<end>], the end being optional. *)
Definition range_header (start : Z) (end_ : option Z) : string :=
  "bytes=" ++ Js.toString start ++ "-"
  ++ match end_ with Some e => Js.toString e | None => EmptyString end.

(** The end of the span asked for: the given one, or the last byte. *)
Definition effective_end (end_ : option Z) (fileSize : Z) : Z :=
  match end_ with Some e => e | None => (fileSize - 1)%Z end.

(** [req] with another [Range] header. *)
Definition with_range (req : Request) (r : option string) : Request :=
  {| host := host req; authenticated := authenticated req;
     query_path := query_path req; query_q := query_q req; range := r |}.

(** [p] is reached from [start] in [d] steps, each step entering a
    directory that the directory before it lists under a name that does not
    start with a dot. *)
Inductive visible_below (fs : Fs.t) (start : string) : string -> Z -> Prop :=
| visible_start : visible_below fs start start 0
| visible_step (p : string) (d : Z) (items : list Fs.Dirent)
    (item : Fs.Dirent) :
    visible_below fs start p d ->
    Fs.readdir fs p = Ok items ->
    In item items ->
    Js.startsWith (Fs.name item) "." = false ->
    Fs.isDirectory item = true ->
    visible_below fs start (Path.join [p; Fs.name item]) (d + 1).

(** A state of the search all of whose results satisfy [R] and all of
    whose logged file-system calls satisfy [E]. *)
Definition good_state (R : SearchResult -> Prop) (E : Event -> Prop)
    (st : SearchState) : Prop :=
  Forall R (results st) /\ Forall E (trace st).

(** A file-system call the search is entitled to: reading a directory
    that is visible below the start and not deeper than the cap, or
    inspecting a visible regular file listed in such a directory. *)
Definition entitled_event (config : Config) (fs : Fs.t) (startPath : string)
    (e : Event) : Prop :=
  match e with
  | Readdir p d =>
      visible_below fs startPath p d /\ (d <= maxRecursionDepth config)%Z
  | Stat p =>
      exists dir d items item,
        visible_below fs startPath dir d
        /\ (d <= maxRecursionDepth config)%Z
        /\ Fs.readdir fs dir = Ok items /\ In item items
        /\ Js.startsWith (Fs.name item) "." = false
        /\ Fs.isFile item = true
        /\ p = Path.join [dir; Fs.name item]
  end.

(** A result the search is entitled to: built from a visible regular
    file, listed in a directory visible below the start, whose lower-cased
    name contains the query. *)
Definition entitled_result {rt : Js.Runtime} (config : Config) (cwd : string) (fs : Fs.t)
    (startPath lowerQuery : string) (r : SearchResult) : Prop :=
  exists dir d items item stats,
    visible_below fs startPath dir d
    /\ (d <= maxRecursionDepth config)%Z
    /\ Fs.readdir fs dir = Ok items /\ In item items
    /\ Js.startsWith (Fs.name item) "." = false
    /\ Fs.isFile item = true
    /\ Js.includes (Js.toLowerCase (Fs.name item)) lowerQuery = true
    /\ Fs.stat fs (Path.join [dir; Fs.name item]) = Ok stats
    /\ r = search_result config item
             (Path.relative cwd (videoDirectory config)
                (Path.join [dir; Fs.name item])) stats.

(** A file system whose listings name their entries as [readdir] does: a
    name is one segment, not empty, not [.] and not [..]. *)
Definition tidy (fs : Fs.t) : Prop :=
  forall p items,
    Fs.readdir fs p = Ok items ->
    Forall (fun item => clean_seg (Fs.name item) = true) items.

(** [st'] is [st] with more results and more logged calls at the end. *)
Definition extends (st st' : SearchState) : Prop :=
  (exists rs, results st' = (results st ++ rs)%list)
  /\ (exists es, trace st' = (trace st ++ es)%list).

(** [q] is reached from [p] by entering the directories [names] one after
    the other, each listed by the one before it under a name that does not
    start with a dot. *)
Fixpoint descends (fs : Fs.t) (p : string) (names : list string) (q : string)
  : Prop :=
  match names with
  | [] => q = p
  | n :: rest =>
      (exists items item,
          Fs.readdir fs p = Ok items /\ In item items /\ Fs.name item = n
          /\ Js.startsWith n "." = false /\ Fs.isDirectory item = true)
      /\ descends fs (Path.join [p; n]) rest q
  end.

(** The path a file-system call of the search goes to. *)
Definition event_path (e : Event) : string :=
  match e with
  | Readdir p _ => p
  | Stat p => p
  end.

(** The name of an entry the listing and the search look at, as [readdir]
    gives it. *)
Definition visible_seg (n : string) : bool :=
  clean_seg n && negb (Js.startsWith n ".").

(** [p] is, or lies below, an entry whose name starts with a dot,
    somewhere in the tree under the directory with the segments [B]. *)
Definition below_hidden (B : list string) (p : string) : Prop :=
  exists D h,
    Forall (fun s => clean_seg s = true) D
    /\ clean_seg h = true
    /\ Js.startsWith h "." = true
    /\ within ("/" ++ Js.join "/" (B ++ D ++ [h])%list) p.

(** The only [..] segments of [s] are in front. *)
Definition parents_in_front (s : string) : Prop :=
  exists k M, Js.split "/" s = (repeat ".." k ++ M)%list /\ ~ In ".." M.

(** [p] is an absolute path in normal form with at least one segment. *)
Definition rooted (p : string) : Prop :=
  exists b B, p = "/" ++ Js.join "/" (b :: B)
              /\ Forall (fun s => clean_seg s = true) (b :: B).

(* ================================================================== *)
(** ** A library with trouble: a vanished file and a locked folder *)
(* ================================================================== *)

Module Flaky.

(** The entries of [/lib] in front of [gone.mp4], and [gone.mp4]. *)
Definition before_gone : list Fs.Dirent :=
  [Scenario.dirent "first.mp4" Fs.RegularFile;
   Scenario.dirent "locked" Fs.Directory;
   Scenario.dirent "sub" Fs.Directory;
   Scenario.dirent "link.mp4" Fs.Other].

Definition gone : Fs.Dirent := Scenario.dirent "gone.mp4" Fs.RegularFile.

(** [/lib] lists [first.mp4], [gone.mp4], [last.mp4], the folder [locked],
    which cannot be read, the folder [sub] with [deep.mp4], and a symbolic
    link [link.mp4]; [gone.mp4] has vanished by the time it is inspected. *)
Definition fs : Fs.t :=
  {| Fs.readdir := fun p =>
       if p =? "/lib" then
         Ok [Scenario.dirent "first.mp4" Fs.RegularFile;
             Scenario.dirent "locked" Fs.Directory;
             Scenario.dirent "sub" Fs.Directory;
             Scenario.dirent "link.mp4" Fs.Other;
             Scenario.dirent "gone.mp4" Fs.RegularFile;
             Scenario.dirent "last.mp4" Fs.RegularFile]
       else if p =? "/lib/sub" then
         Ok [Scenario.dirent "deep.mp4" Fs.RegularFile]
       else if p =? "/lib/locked" then Throw "EACCES: permission denied"
       else Throw "ENOENT: no such file or directory";
     Fs.stat := fun p =>
       if (p =? "/lib") || (p =? "/lib/sub") || (p =? "/lib/locked")
       then Ok Scenario.dir_stats
       else if (p =? "/lib/first.mp4") || (p =? "/lib/last.mp4")
               || (p =? "/lib/sub/deep.mp4")
       then Ok (Scenario.file_stats 7)
       else Throw "ENOENT: no such file or directory";
     Fs.content := fun _ => [] |}.

End Flaky.

(* ================================================================== *)
(** ** Vocabulary for the listing, the search and the middleware *)
(* ================================================================== *)

(** An entry the listing and the search look at: its name does not start
    with a dot. *)
Definition visible (item : Fs.Dirent) : bool :=
  negb (Js.startsWith (Fs.name item) ".").

(** The folder entry the listing of [dirPath] builds for [item]. *)
Definition folder_entry_of (config : Config) (cwd dirPath : string)
    (item : Fs.Dirent) : FolderEntry :=
  {| folder_name := Fs.name item;
     folder_path := Path.relative cwd (videoDirectory config)
                      (Path.join [dirPath; Fs.name item]) |}.

(** The file entry the listing of [dirPath] builds for [item]. *)
Definition file_entry_of {rt : Js.Runtime} (config : Config) (cwd dirPath : string)
    (item : Fs.Dirent) (stats : Fs.Stats) : FileEntry :=
  {| file_name := Fs.name item;
     file_path := Path.relative cwd (videoDirectory config)
                    (Path.join [dirPath; Fs.name item]);
     file_type := getFileType config (Fs.name item);
     file_size := Fs.size stats;
     file_modified := Fs.mtime stats |}.

(** The visible directories among [items], as folder entries, in order. *)
Definition listed_folders (config : Config) (cwd dirPath : string)
    (items : list Fs.Dirent) : list FolderEntry :=
  map (folder_entry_of config cwd dirPath)
    (filter (fun item => visible item && Fs.isDirectory item) items).

(** The visible regular files among [items] whose [stat] succeeds, as
    file entries, in order. *)
Definition listed_files {rt : Js.Runtime} (config : Config) (cwd : string) (fs : Fs.t)
    (dirPath : string) (items : list Fs.Dirent) : list FileEntry :=
  flat_map
    (fun item =>
       if visible item && Fs.isFile item then
         match Fs.stat fs (Path.join [dirPath; Fs.name item]) with
         | Ok stats => [file_entry_of config cwd dirPath item stats]
         | Throw _ => []
         end
       else [])
    items.

(** The message of the first visible regular file among [items] whose
    [stat] rejects. *)
Fixpoint first_stat_error (fs : Fs.t) (dirPath : string)
    (items : list Fs.Dirent) : option string :=
  match items with
  | [] => None
  | item :: rest =>
      if visible item && Fs.isFile item then
        match Fs.stat fs (Path.join [dirPath; Fs.name item]) with
        | Ok _ => first_stat_error fs dirPath rest
        | Throw m => Some m
        end
      else first_stat_error fs dirPath rest
  end.

(** None of the visible regular files among [items] whose name contains
    the query fails to be inspected. *)
Definition inspectable {rt : Js.Runtime} (fs : Fs.t)
    (lowerQuery dirPath : string) (items : list Fs.Dirent) : Prop :=
  Forall (fun x =>
            Js.startsWith (Fs.name x) "." = false ->
            Fs.isFile x = true ->
            Js.includes (Js.toLowerCase (Fs.name x)) lowerQuery = true ->
            exists stats, Fs.stat fs (Path.join [dirPath; Fs.name x]) = Ok stats)
    items.

(** No inspection of a file that matches the query fails, in any
    directory. *)
Definition stat_succeeds {rt : Js.Runtime} (fs : Fs.t) (lowerQuery : string)
  : Prop :=
  forall dir items,
    Fs.readdir fs dir = Ok items -> inspectable fs lowerQuery dir items.

(** [req] with another [q] parameter. *)
Definition with_query (req : Request) (q : option string) : Request :=
  {| host := host req; authenticated := authenticated req;
     query_path := query_path req; query_q := option_map QString q;
     range := range req |}.

(** [fs'] is [fs] except that directories [fs] cannot read are empty in
    [fs']. *)
Definition unreadable_as_empty (fs fs' : Fs.t) : Prop :=
  (forall p, Fs.stat fs' p = Fs.stat fs p)
  /\ (forall p,
        Fs.readdir fs' p = Fs.readdir fs p
        \/ ((exists m, Fs.readdir fs p = Throw m) /\ Fs.readdir fs' p = Ok [])).

(** [fs] with every directory it cannot read turned into an empty one. *)
Definition unreadable_emptied (fs : Fs.t) : Fs.t :=
  {| Fs.readdir := fun p =>
       match Fs.readdir fs p with
       | Ok items => Ok items
       | Throw _ => Ok []
       end;
     Fs.stat := Fs.stat fs;
     Fs.content := Fs.content fs |}.

(* ================================================================== *)
(** ** The routes that change the library *)
(* ================================================================== *)

(** The calls that change the file system, and the one statement the
    rename route runs against the album database.  A call fails with a
    message or yields the file system after it. *)
Module Os.

Record t := {
  unlink : Fs.t -> string -> result Fs.t;
  rename : Fs.t -> string -> string -> result Fs.t;
  mkdir : Fs.t -> string -> result Fs.t;
  writeFile : Fs.t -> string -> list Byte.byte -> result Fs.t;
  update_album_paths : string -> string -> result unit
}.

End Os.

(** The changing calls made, in order, whether they succeeded or not. *)
Inductive Effect :=
| Unlink (fullPath : string)
| RenameFile (oldFullPath newFullPath : string)
| Mkdir (newFolderPath : string)
| WriteFile (filePath : string) (data : list Byte.byte)
| UpdateAlbumPaths (newRelativePath oldPath : string).

Record World := {
  world_fs : Fs.t;
  effects : list Effect
}.

(** The call [e] was made and left the file system [fs']. *)
Definition performed (e : Effect) (fs' : Fs.t) (w : World) : World :=
  {| world_fs := fs'; effects := (effects w ++ [e])%list |}.

(** What a changing route answers: an error object with its status, or
    its success object. *)
Inductive Reply (A : Type) :=
| Refused (code : Z) (error : string)
| Done (a : A).

Arguments Refused {A} code error.
Arguments Done {A} a.

(** [fs.existsSync(p)] *)
Definition existsSync (fs : Fs.t) (p : string) : bool :=
  match Fs.stat fs p with
  | Ok _ => true
  | Throw _ => false
  end.

(** The body of [DELETE /api/video]: [path] and [paths], either of which
    may be missing; [paths] is an array of strings. *)
Record DeleteBody := {
  delete_path : option string;
  delete_paths : option (list string)
}.

Record Failure := {
  failure_path : string;
  failure_error : string
}.

Record DeleteResults := {
  deleted : list string;
  failed : list Failure
}.

Record DeleteSummary := {
  deleted_count : Z;
  failed_count : Z;
  details : DeleteResults
}.

(** The body of [PATCH /api/video/rename]. *)
Record RenameBody := {
  rename_path : option string;
  rename_newName : option string
}.

Record RenameSummary := {
  summary_oldPath : string;
  summary_newPath : string
}.

(** The body of [POST /api/folder]. *)
Record FolderBody := {
  folder_parent : option string;
  folder_new_name : option string
}.

(** What [parseMultipartData] hands to the upload route. *)
Record UploadFile := {
  filename : string;
  data : list Byte.byte
}.

Record Parts := {
  fields_path : option string;
  files : list UploadFile
}.

Record UploadFailure := {
  upload_failure_filename : string;
  upload_failure_error : string
}.

Record UploadResults := {
  uploaded : list string;
  upload_failed : list UploadFailure
}.

Record UploadSummary := {
  uploaded_count : Z;
  upload_failed_count : Z;
  upload_details : UploadResults
}.

Section Changes.

Context {rt : Js.Runtime}.

Variable config : Config.
Variable cwd : string.
Variable os : Os.t.

Definition push_failed (filePath error : string) (r : DeleteResults)
  : DeleteResults :=
  {| deleted := deleted r;
     failed := (failed r ++ [{| failure_path := filePath;
                                failure_error := error |}])%list |}.

Definition push_deleted (filePath : string) (r : DeleteResults)
  : DeleteResults :=
  {| deleted := (deleted r ++ [filePath])%list; failed := failed r |}.

(** The [for (const filePath of pathsToDelete)] loop of the delete route,
    each round in its own [try]/[catch]. *)
Fixpoint delete_loop (pathsToDelete : list string) (w : World)
    (results : DeleteResults) : World * DeleteResults :=
  match pathsToDelete with
  | [] => (w, results)
  | filePath :: rest =>
      match sanitizePath config cwd filePath with
      | Throw m => delete_loop rest w (push_failed filePath m results)
      | Ok fullPath =>
          match Fs.stat (world_fs w) fullPath with
          | Throw m => delete_loop rest w (push_failed filePath m results)
          | Ok stats =>
              if negb (Fs.stats_isFile stats)
                 || negb (isVideoFile config fullPath)
              then delete_loop rest w
                     (push_failed filePath "Invalid video file" results)
              else
                match Os.unlink os (world_fs w) fullPath with
                | Throw m =>
                    delete_loop rest
                      (performed (Unlink fullPath) (world_fs w) w)
                      (push_failed filePath m results)
                | Ok fs' =>
                    delete_loop rest (performed (Unlink fullPath) fs' w)
                      (push_deleted filePath results)
                end
          end
      end
  end.

(** [multiplePaths || (singlePath ? [singlePath] : [])] *)
Definition pathsToDelete (body : DeleteBody) : list string :=
  match delete_paths body with
  | Some multiplePaths => multiplePaths
  | None =>
      match delete_path body with
      | Some singlePath => if Js.truthy singlePath then [singlePath] else []
      | None => []
      end
  end.

(** The handler of [DELETE /api/video]. *)
Definition delete_handler (body : DeleteBody) (w : World)
  : World * Reply DeleteSummary :=
  if (List.length (pathsToDelete body) =? 0)%nat then
    (w, Refused 400 "No files specified for deletion")
  else
    let '(w', results) :=
      delete_loop (pathsToDelete body) w {| deleted := []; failed := [] |} in
    (w', Done {| deleted_count := Z.of_nat (List.length (deleted results));
                 failed_count := Z.of_nat (List.length (failed results));
                 details := results |}).

(** The handler of [PATCH /api/video/rename]. *)
Definition rename_handler (body : RenameBody) (w : World)
  : World * Reply RenameSummary :=
  let oldPath := or_empty (rename_path body) in
  let newName := or_empty (rename_newName body) in
  if negb (Js.truthy oldPath) || negb (Js.truthy newName) then
    (w, Refused 400 "Path and new name required")
  else if Js.includes newName "/" || Js.includes newName "\" then
    (w, Refused 400 "Invalid filename")
  else if negb (isVideoFile config newName) then
    (w, Refused 400 "New name must have a valid video extension")
  else
    match sanitizePath config cwd oldPath with
    | Throw m => (w, Refused 500 m)
    | Ok oldFullPath =>
        let directory := Path.dirname oldFullPath in
        let newFullPath := Path.join [directory; newName] in
        if existsSync (world_fs w) newFullPath then
          (w, Refused 400 "A file with that name already exists")
        else
          match Os.rename os (world_fs w) oldFullPath newFullPath with
          | Throw m =>
              (performed (RenameFile oldFullPath newFullPath) (world_fs w) w,
               Refused 500 m)
          | Ok fs' =>
              let newRelativePath :=
                Path.relative cwd (videoDirectory config) newFullPath in
              let w' :=
                performed (UpdateAlbumPaths newRelativePath oldPath) fs'
                  (performed (RenameFile oldFullPath newFullPath) fs' w) in
              match Os.update_album_paths os newRelativePath oldPath with
              | Throw m => (w', Refused 500 m)
              | Ok _ =>
                  (w', Done {| summary_oldPath := oldPath;
                               summary_newPath := newRelativePath |})
              end
          end
    end.

(** The handler of [POST /api/folder]; its success object carries the
    relative path of the new folder. *)
Definition folder_handler (body : FolderBody) (w : World)
  : World * Reply string :=
  let parentPath := or_empty (folder_parent body) in
  let name := or_empty (folder_new_name body) in
  if negb (Js.truthy name) then (w, Refused 400 "Folder name required")
  else if Js.includes name "/" || Js.includes name "\" || Js.includes name ".."
  then (w, Refused 400 "Invalid folder name")
  else
    match (if Js.truthy parentPath then sanitizePath config cwd parentPath
           else Ok (videoDirectory config)) with
    | Throw m => (w, Refused 500 m)
    | Ok basePath =>
        let newFolderPath := Path.join [basePath; name] in
        if existsSync (world_fs w) newFolderPath then
          (w, Refused 400 "Folder already exists")
        else
          match Os.mkdir os (world_fs w) newFolderPath with
          | Throw m =>
              (performed (Mkdir newFolderPath) (world_fs w) w, Refused 500 m)
          | Ok fs' =>
              (performed (Mkdir newFolderPath) fs' w,
               Done (Path.relative cwd (videoDirectory config) newFolderPath))
          end
    end.

Definition push_upload_failed (name error : string) (r : UploadResults)
  : UploadResults :=
  {| uploaded := uploaded r;
     upload_failed :=
       (upload_failed r ++ [{| upload_failure_filename := name;
                               upload_failure_error := error |}])%list |}.

Definition push_uploaded (name : string) (r : UploadResults) : UploadResults :=
  {| uploaded := (uploaded r ++ [name])%list;
     upload_failed := upload_failed r |}.

(** The [for (const file of files)] loop of the upload route. *)
Fixpoint upload_loop (uploadDir : string) (fls : list UploadFile) (w : World)
    (results : UploadResults) : World * UploadResults :=
  match fls with
  | [] => (w, results)
  | file :: rest =>
      let filePath := Path.join [uploadDir; filename file] in
      match Os.writeFile os (world_fs w) filePath (data file) with
      | Throw m =>
          upload_loop uploadDir rest
            (performed (WriteFile filePath (data file)) (world_fs w) w)
            (push_upload_failed (filename file) m results)
      | Ok fs' =>
          upload_loop uploadDir rest
            (performed (WriteFile filePath (data file)) fs' w)
            (push_uploaded (filename file) results)
      end
  end.

(** The upload route once the request body has been read and split into
    its parts: the body of the [end] callback after [parseMultipartData]. *)
Definition upload_parts (parts : Parts) (w : World)
  : World * Reply UploadSummary :=
  let folderPath := or_empty (fields_path parts) in
  if (List.length (files parts) =? 0)%nat then
    (w, Refused 400 "No files provided")
  else
    match (if Js.truthy folderPath then sanitizePath config cwd folderPath
           else Ok (videoDirectory config)) with
    | Throw m => (w, Refused 500 m)
    | Ok uploadDir =>
        if negb (existsSync (world_fs w) uploadDir) then
          (w, Refused 400 "Upload directory does not exist")
        else
          let '(w', results) :=
            upload_loop uploadDir (files parts) w
              {| uploaded := []; upload_failed := [] |} in
          (w', Done {| uploaded_count :=
                         Z.of_nat (List.length (uploaded results));
                       upload_failed_count :=
                         Z.of_nat (List.length (upload_failed results));
                       upload_details := results |})
    end.

(** A changing route behind the middleware. *)
Definition guarded {A : Type} (handler : World -> World * Reply A)
    (req : Request) (w : World) : World * Reply A :=
  if negb (host_allowed (host req)) then (w, Refused 403 "Access denied")
  else if negb (authenticated req) then (w, Refused 401 "Unauthorized")
  else handler w.

Definition api_delete (req : Request) (body : DeleteBody) :=
  guarded (delete_handler body) req.

Definition api_rename (req : Request) (body : RenameBody) :=
  guarded (rename_handler body) req.

Definition api_folder (req : Request) (body : FolderBody) :=
  guarded (folder_handler body) req.

End Changes.

(* ================================================================== *)
(** ** The first server: sessions and listing *)
(* ================================================================== *)

Module FirstServer.

(** The keys of the [sessions] map, in insertion order. *)
Definition Sessions := list string.

(** [sessions.has(token)] *)
Definition has (sessions : Sessions) (token : string) : bool :=
  existsb (String.eqb token) sessions.

(** [sessions.set(token, ...)] *)
Definition set (sessions : Sessions) (token : string) : Sessions :=
  if has sessions token then sessions else (sessions ++ [token])%list.

(** [sessions.delete(token)] *)
Definition delete (sessions : Sessions) (token : string) : Sessions :=
  filter (fun k => negb (k =? token)) sessions.

(** [requireAuth]: the [x-session-token] header names a stored session. *)
Definition requireAuth (sessions : Sessions) (token : option string) : bool :=
  match token with
  | Some t => Js.truthy t && has sessions t
  | None => false
  end.

(** A request as far as the sessions are concerned.  [fresh] is the
    token [generateSessionToken()] draws for this login. *)
Inductive Call :=
| Login (password : option string) (fresh : string)
| Logout (token : option string)
| Protected (token : option string).

(** What the session layer does with a call: the sessions after it and
    the status it lets through ([200] stands for: the route runs).
    [configured] is [config.password], a string; [password] is the
    [password] member of the request body, if it has one. *)
Definition step (configured : string) (sessions : Sessions) (c : Call)
  : Sessions * Z :=
  match c with
  | Login password fresh =>
      match password with
      | Some p =>
          if p =? configured then (set sessions fresh, 200%Z)
          else (sessions, 401%Z)
      | None => (sessions, 401%Z)
      end
  | Logout token =>
      if requireAuth sessions token then
        (delete sessions (or_empty token), 200%Z)
      else (sessions, 401%Z)
  | Protected token =>
      if requireAuth sessions token then (sessions, 200%Z)
      else (sessions, 401%Z)
  end.

(** The calls of a run of the server, oldest first, from server start. *)
Fixpoint run (configured : string) (sessions : Sessions) (calls : list Call)
  : Sessions * list Z :=
  match calls with
  | [] => (sessions, [])
  | c :: rest =>
      let '(sessions', code) := step configured sessions c in
      let '(final, codes) := run configured sessions' rest in
      (final, code :: codes)
  end.

(** One entry of [result.files] of the first server. *)
Record FileEntry := {
  file_name : string;
  file_path : string;
  file_size : Z;
  file_modified : Z
}.

Section Listing.

Context {rt : Js.Runtime}.

Variable config : Config.
Variable cwd : string.
Variable fs : Fs.t.

(** The loop of the first server's [readDirectoryRecursive]. *)
Fixpoint readDirectory_loop (dirPath : string) (items : list Fs.Dirent)
    (folders : list FolderEntry) (files : list FileEntry)
  : result (list FolderEntry * list FileEntry) :=
  match items with
  | [] => Ok (folders, files)
  | item :: rest =>
      let itemPath := Path.join [dirPath; Fs.name item] in
      let relativePath := Path.relative cwd (videoDirectory config) itemPath in
      if Js.startsWith (Fs.name item) "." then
        readDirectory_loop dirPath rest folders files
      else if Fs.isDirectory item then
        readDirectory_loop dirPath rest
          (folders ++ [{| folder_name := Fs.name item;
                          folder_path := relativePath |}])%list
          files
      else if Fs.isFile item && isVideoFile config (Fs.name item) then
        stats <- Fs.stat fs itemPath ;;
        readDirectory_loop dirPath rest folders
          (files ++ [{| file_name := Fs.name item;
                        file_path := relativePath;
                        file_size := Fs.size stats;
                        file_modified := Fs.mtime stats |}])%list
      else readDirectory_loop dirPath rest folders files
  end.

(** The first server's [readDirectoryRecursive(dirPath, currentDepth)];
    [inl] is the [{error: ...}] object. *)
Definition readDirectoryRecursive (dirPath : string) (currentDepth : Z)
  : result (string + list FolderEntry * list FileEntry) :=
  if (maxRecursionDepth config <? currentDepth)%Z then
    Ok (inl "Maximum recursion depth exceeded")
  else
    match (items <- Fs.readdir fs dirPath ;;
           readDirectory_loop dirPath items [] []) with
    | Ok l => Ok (inr l)
    | Throw m => Throw ("Failed to read directory: " ++ m)
    end.

End Listing.

End FirstServer.

(** The entry of the first server for a file entry of the second. *)
Definition without_type (f : FileEntry) : FirstServer.FileEntry :=
  {| FirstServer.file_name := file_name f;
     FirstServer.file_path := file_path f;
     FirstServer.file_size := file_size f;
     FirstServer.file_modified := file_modified f |}.

(** A little operating system for the scenarios: every changing call
    succeeds and leaves the file system as it was, except [unlink], after
    which the file is gone. *)
Module Calm.

Definition unlink (fs : Fs.t) (p : string) : result Fs.t :=
  match Fs.stat fs p with
  | Throw m => Throw m
  | Ok _ =>
      Ok {| Fs.readdir := Fs.readdir fs;
            Fs.stat := fun q =>
              if q =? p then Throw "ENOENT: no such file or directory"
              else Fs.stat fs q;
            Fs.content := Fs.content fs |}
  end.

Definition os : Os.t :=
  {| Os.unlink := unlink;
     Os.rename := fun fs _ _ => Ok fs;
     Os.mkdir := fun fs _ => Ok fs;
     Os.writeFile := fun fs _ _ => Ok fs;
     Os.update_album_paths := fun _ _ => Ok tt |}.

Definition world : World := {| world_fs := Scenario.fs; effects := [] |}.

End Calm.

(* ================================================================== *)
(** ** The download route *)
(* ================================================================== *)

(** The backwards scan of [path.basename]: [r] holds the characters last
    first; trailing separators are skipped, then the characters up to the
    next separator are kept. *)
Fixpoint basename_scan (r : list ascii) (matchedSlash : bool) (kept : string)
  : string :=
  match r with
  | [] => kept
  | c :: r' =>
      if Ascii.eqb c "/" then
        if matchedSlash then basename_scan r' true kept else kept
      else basename_scan r' false (String c kept)
  end.

(** [path.basename(p)] *)
Definition basename (p : string) : string :=
  basename_scan (rev (list_ascii_of_string p)) true EmptyString.

(** The double quote. *)
Definition quote : string := String (ascii_of_nat 34) EmptyString.

Section Download.

Context {rt : Js.Runtime}.

Variable config : Config.
Variable cwd : string.
Variable fs : Fs.t.
(** Whether [res.setHeader] accepts a value; it throws on a character it
    does not allow in a header. *)
Variable header_ok : string -> bool.

(** [res.setHeader(name, value)] on the headers set so far. *)
Definition setHeader (name : string) (value : header_value)
    (hs : list (string * header_value)) : result (list (string * header_value)) :=
  match value with
  | HStr s =>
      if header_ok s then Ok (hs ++ [(name, value)])%list
      else Throw ("Invalid character in header content [" ++ quote ++ name
                  ++ quote ++ "]")
  | HNum _ => Ok (hs ++ [(name, value)])%list
  end.

(** The handler of [GET /api/download]. *)
Definition download_handler (req : Request) : Response :=
  catch (
    let requestedPath := or_empty (query_path req) in
    if negb (Js.truthy requestedPath) then
      Ok (json_error 400 "Path parameter required")
    else
      fullPath <- sanitizePath config cwd requestedPath ;;
      stats <- Fs.stat fs fullPath ;;
      if negb (Fs.stats_isFile stats) then Ok (json_error 400 "Invalid file")
      else
        let fileName := basename fullPath in
        h1 <- setHeader "Content-Disposition"
                (HStr ("attachment; filename=" ++ quote ++ fileName ++ quote))
                [] ;;
        h2 <- setHeader "Content-Type" (HStr "application/octet-stream") h1 ;;
        h3 <- setHeader "Content-Length" (HNum (Js.Num (Fs.size stats))) h2 ;;
        Ok {| status := 200; headers := h3;
              body := Piped (Fs.createReadStreamWhole fullPath) |}).

Definition api_download : Request -> Response :=
  with_middleware (fun r => r) download_handler.

End Download.

(* ================================================================== *)
(** ** The routes of the first server *)
(* ================================================================== *)

Module FirstRoutes.

(** What the first server's browse route sends: an error object, or the
    value of [readDirectoryRecursive]. *)
Inductive Sent :=
| SentError (error : string)
| SentContents (c : string + list FolderEntry * list FirstServer.FileEntry).

Record Answer := {
  code : Z;
  sent : Sent
}.

Section Routes.

Context {rt : Js.Runtime}.

Variable config : Config.
Variable cwd : string.
Variable fs : Fs.t.

(** The handler of the first server's [GET /api/browse]. *)
Definition browse_handler (req : Request) : Answer :=
  let requestedPath :=
    let p := or_empty (query_path req) in
    if Js.truthy p then p else EmptyString in
  match (fullPath <- Legacy.sanitizePath config requestedPath ;;
         stats <- Fs.stat fs fullPath ;;
         if negb (Fs.stats_isDirectory stats) then
           Ok {| code := 400; sent := SentError "Path is not a directory" |}
         else
           contents <- FirstServer.readDirectoryRecursive config cwd fs
                         fullPath 0 ;;
           Ok {| code := 200; sent := SentContents contents |}) with
  | Ok r => r
  | Throw m => {| code := 500; sent := SentError m |}
  end.

(** The handler of the first server's [GET /api/video]. *)
Definition video_handler (req : Request) : Response :=
  catch (
    let requestedPath := or_empty (query_path req) in
    if negb (Js.truthy requestedPath) then
      Ok (json_error 400 "Path parameter required")
    else
      fullPath <- Legacy.sanitizePath config requestedPath ;;
      stats <- Fs.stat fs fullPath ;;
      if negb (Fs.stats_isFile stats) || negb (isVideoFile config fullPath) then
        Ok (json_error 400 "Invalid video file")
      else
        let fileSize := Fs.size stats in
        if Js.truthy (or_empty (range req)) then
          let range := or_empty (range req) in
          let start := range_start range in
          let end_ := range_end range fileSize in
          let chunkSize := Js.add (Js.sub end_ start) (Js.Num 1) in
          fileStream <- Fs.createReadStream fullPath start end_ ;;
          Ok {| status := 206;
                headers :=
                  [ ("Content-Range",
                     HStr ("bytes " ++ Js.number_toString start ++ "-"
                           ++ Js.number_toString end_ ++ "/"
                           ++ Js.toString fileSize));
                    ("Accept-Ranges", HStr "bytes");
                    ("Content-Length", HNum chunkSize);
                    ("Content-Type", HStr "video/mp4") ];
                body := Piped fileStream |}
        else
          Ok {| status := 200;
                headers :=
                  [ ("Content-Length", HNum (Js.Num fileSize));
                    ("Content-Type", HStr "video/mp4") ];
                body := Piped (Fs.createReadStreamWhole fullPath) |}).

End Routes.

End FirstRoutes.

(** [r] with every [Content-Type] header set to [value]. *)
Definition with_content_type (value : string) (r : Response) : Response :=
  {| status := status r;
     headers := map (fun h => if fst h =? "Content-Type"
                              then (fst h, HStr value) else h) (headers r);
     body := body r |}.

(** What the first server's browse route sends for an answer of the
    second: the same status and error, and of a listing the folders and
    the videos. *)
Definition first_view {rt : Js.Runtime} (config : Config) (r : Response) : FirstRoutes.Answer :=
  {| FirstRoutes.code := status r;
     FirstRoutes.sent :=
       match body r with
       | JsonError m => FirstRoutes.SentError m
       | JsonListing (ListingError m) => FirstRoutes.SentContents (inl m)
       | JsonListing (ListingOk folders files) =>
           FirstRoutes.SentContents
             (inr (folders,
                   map without_type
                     (filter (fun f => isVideoFile config (file_name f)) files)))
       | _ => FirstRoutes.SentError EmptyString
       end |}.

(* ================================================================== *)
(** ** The multipart parser of the upload route *)
(* ================================================================== *)

(** More of the string methods.  The request body is read with
    [buffer.toString('binary')]: one character for every byte. *)
Module Text.

(** [s.indexOf(pat)]; [None] is [-1]. *)
Fixpoint indexOf (s pat : string) {struct s} : option nat :=
  if Js.startsWith s pat then Some 0
  else match s with
       | EmptyString => None
       | String _ s' => option_map S (indexOf s' pat)
       end.

(** [s.lastIndexOf(pat)]; [None] is [-1]. *)
Fixpoint lastIndexOf (s pat : string) {struct s} : option nat :=
  match s with
  | EmptyString => if Js.startsWith s pat then Some 0 else None
  | String _ s' =>
      match lastIndexOf s' pat with
      | Some n => Some (S n)
      | None => if Js.startsWith s pat then Some 0 else None
      end
  end.

(** [s.substring(a, b)] for indices that are not negative: the two are
    swapped when [a > b], and cut at the length of [s]. *)
Definition substring (a b : nat) (s : string) : string :=
  Js.take (Nat.max a b - Nat.min a b) (Js.drop (Nat.min a b) s).

(** [s.split(sep)] for a separator that is not empty: [skip] counts the
    characters of a separator just found that are still to be passed. *)
Fixpoint split_go (sep s : string) (skip : nat) : list string :=
  match s with
  | EmptyString => [EmptyString]
  | String c s' =>
      match skip with
      | S k => split_go sep s' k
      | O =>
          if Js.startsWith s sep then
            EmptyString :: split_go sep s' (String.length sep - 1)
          else
            match split_go sep s' 0 with
            | [] => [String c EmptyString]
            | h :: t => String c h :: t
            end
      end
  end.

Definition split (sep s : string) : list string := split_go sep s 0.

(** White space as [trim] sees it, among the characters below 256. *)
Definition is_space (c : ascii) : bool :=
  let n := nat_of_ascii c in
  ((9 <=? n)%nat && (n <=? 13)%nat) || (n =? 32)%nat || (n =? 160)%nat.

Fixpoint trimStart (s : string) : string :=
  match s with
  | String c s' => if is_space c then trimStart s' else s
  | EmptyString => s
  end.

Fixpoint trimEnd (s : string) : string :=
  match s with
  | EmptyString => EmptyString
  | String c s' =>
      let t := trimEnd s' in
      if is_space c && (t =? EmptyString) then EmptyString else String c t
  end.

(** [s.trim()] *)
Definition trim (s : string) : string := trimEnd (trimStart s).

(** The longest prefix without a double quote, and what follows it. *)
Fixpoint span_unquoted (s : string) : string * string :=
  match s with
  | EmptyString => (EmptyString, EmptyString)
  | String c s' =>
      if Ascii.eqb c (ascii_of_nat 34) then (EmptyString, s)
      else let '(run, rest) := span_unquoted s' in (String c run, rest)
  end.

(** [s.match(re)] for the regular expressions of the parser, giving the
    captured group of the leftmost match: [key], a double quote, at least
    one character that is not a double quote (the group), and a double
    quote. *)
Fixpoint match_quoted (key s : string) {struct s} : option string :=
  let here :=
    if Js.startsWith s (key ++ quote) then
      let '(run, rest) := span_unquoted (Js.drop (String.length key + 1) s) in
      if Js.truthy run && Js.startsWith rest quote then Some run else None
    else None in
  match here with
  | Some run => Some run
  | None =>
      match s with
      | EmptyString => None
      | String _ s' => match_quoted key s'
      end
  end.

End Text.

(** Carriage return and line feed. *)
Definition cr : ascii := ascii_of_nat 13.
Definition crlf : string := String cr (String (ascii_of_nat 10) EmptyString).

(** The body of the [for] loop of [parseMultipartData] for one piece of
    the body; [acc] holds [parts.fields], as the assignments made so far,
    and [parts.files]. *)
Definition parse_part (part : string)
    (acc : list (string * string) * list UploadFile)
  : list (string * string) * list UploadFile :=
  if negb (Js.truthy part) || (Text.trim part =? "--") then acc
  else
    match Text.indexOf part (crlf ++ crlf) with
    | None => acc
    | Some headerEndIndex =>
        let headers := Text.substring 0 headerEndIndex part in
        let dataStart := headerEndIndex + 4 in
        let dataEnd :=
          match Text.lastIndexOf part crlf with
          | Some n => n
          | None => 0
          end in
        let data := Text.substring dataStart dataEnd part in
        match Text.match_quoted "name=" headers with
        | None => acc
        | Some name =>
            match Text.match_quoted "filename=" headers with
            | Some filename =>
                (fst acc,
                 (snd acc ++ [{| filename := filename;
                                 data := list_byte_of_string data |}])%list)
            | None => ((fst acc ++ [(name, Text.trim data)])%list, snd acc)
            end
        end
    end.

(** The pieces with index [1 .. length - 2]. *)
Definition inner_pieces (lines : list string) : list string :=
  removelast (tl lines).

(** The value last assigned to [name]. *)
Fixpoint assigned (name : string) (fields : list (string * string))
  : option string :=
  match fields with
  | [] => None
  | (k, v) :: rest =>
      match assigned name rest with
      | Some v' => Some v'
      | None => if k =? name then Some v else None
      end
  end.

(** [parseMultipartData(buffer, boundary)], as far as the upload route
    reads its result: [parts.fields.path] and [parts.files]. *)
Definition parseMultipartData (buffer boundary : string) : Parts :=
  let boundaryStr := "--" ++ boundary in
  let lines := Text.split boundaryStr buffer in
  let '(fields, fls) :=
    fold_left (fun acc part => parse_part part acc) (inner_pieces lines)
      ([], []) in
  {| fields_path := assigned "path" fields; files := fls |}.

Section Upload.

Context {rt : Js.Runtime}.

Variable config : Config.
Variable cwd : string.
Variable os : Os.t.

(** The handler of [POST /api/upload]: [contentType] is the
    [content-type] header, [body] the bytes of the request body. *)
Definition upload_handler (contentType : option string) (body : string)
    (w : World) : World * Reply UploadSummary :=
  let ct := or_empty contentType in
  if negb (Js.truthy ct) || negb (Js.includes ct "multipart/form-data") then
    (w, Refused 400 "Must be multipart/form-data")
  else
    match nth_error (Text.split "boundary=" ct) 1 with
    | Some boundary =>
        if negb (Js.truthy boundary) then (w, Refused 400 "No boundary found")
        else upload_parts config cwd os (parseMultipartData body boundary) w
    | None => (w, Refused 400 "No boundary found")
    end.

Definition api_upload (req : Request) (contentType : option string)
    (body : string) :=
  guarded (upload_handler contentType body) req.

End Upload.

(** A part of a request body as a browser writes it: the [path] field
    with its value, or a file of the [files] field with its name, its
    media type and its content. *)
Inductive Piece :=
| PathField (value : string)
| FilePart (name mime content : string).

Definition piece_headers (p : Piece) : string :=
  match p with
  | PathField _ =>
      "Content-Disposition: form-data; name=" ++ quote ++ "path" ++ quote
  | FilePart name mime _ =>
      "Content-Disposition: form-data; name=" ++ quote ++ "files" ++ quote
      ++ "; filename=" ++ quote ++ name ++ quote ++ crlf
      ++ "Content-Type: " ++ mime
  end.

Definition piece_data (p : Piece) : string :=
  match p with
  | PathField value => value
  | FilePart _ _ content => content
  end.

(** What stands between two boundary lines for [p]. *)
Definition piece_text (p : Piece) : string :=
  crlf ++ piece_headers p ++ crlf ++ crlf ++ piece_data p ++ crlf.

(** The request body for the parts [ps] under [boundary]. *)
Definition multipart_body (boundary : string) (ps : list Piece) : string :=
  String.concat EmptyString
    (map (fun p => "--" ++ boundary ++ piece_text p) ps)
  ++ "--" ++ boundary ++ "--" ++ crlf.

(** What follows the first boundary line of a body whose parts are [ps]
    and that ends with [last]. *)
Fixpoint after_boundary (boundary last : string) (ps : list Piece) : string :=
  match ps with
  | [] => last
  | p :: rest =>
      piece_text p ++ ("--" ++ boundary) ++ after_boundary boundary last rest
  end.

(** The boundary line does not occur inside the part, and a file has a
    name without quote or carriage return and a media type without
    carriage return. *)
Definition well_formed (boundary : string) (p : Piece) : Prop :=
  Text.indexOf (piece_text p ++ "--" ++ boundary) ("--" ++ boundary)
  = Some (String.length (piece_text p))
  /\ match p with
     | PathField _ => True
     | FilePart name mime _ =>
         name <> EmptyString
         /\ has_char (ascii_of_nat 34) name = false
         /\ has_char cr name = false
         /\ has_char cr mime = false
     end.

(** The files of [ps], as the upload route should see them. *)
Definition sent_files (ps : list Piece) : list UploadFile :=
  flat_map (fun p =>
              match p with
              | PathField _ => []
              | FilePart name _ content =>
                  [{| filename := name; data := list_byte_of_string content |}]
              end) ps.

(** The value of the last [path] field of [ps], trimmed. *)
Fixpoint sent_path (ps : list Piece) : option string :=
  match ps with
  | [] => None
  | p :: rest =>
      match sent_path rest with
      | Some v => Some v
      | None =>
          match p with
          | PathField value => Some (Text.trim value)
          | FilePart _ _ _ => None
          end
      end
  end.

(** A body as a browser sends it: one file into the folder [movies]. *)
Module Browser.

Definition boundary : string := "----Boundary7MA4YWxk".

Definition pieces : list Piece :=
  [PathField "movies"; FilePart "new.mp4" "video/mp4" "abc"].

Definition body : string := multipart_body boundary pieces.

Definition contentType : string := "multipart/form-data; boundary=" ++ boundary.

End Browser.

Module ScenarioTests.
Import Scenario.

Example t_sanitize_1 : sanitizePath config cwd "movies" = Ok "/lib/movies".
Proof. reflexivity. Qed.
Example t_sanitize_2 :
  sanitizePath config cwd "../../etc/passwd" = Ok "/lib/etc/passwd".
Proof. reflexivity. Qed.
Example t_sanitize_3 :
  sanitizePath config cwd "/etc/passwd"
  = Throw "Invalid path: directory traversal detected".
Proof. reflexivity. Qed.
Example t_sanitize_4 :
  sanitizePath config cwd "..\/etc/passwd"
  = Throw "Invalid path: directory traversal detected".
Proof. reflexivity. Qed.
Example t_sanitize_5 : sanitizePath config cwd "/lib/movies/" = Ok "/lib/movies".
Proof. reflexivity. Qed.
Example t_legacy_1 :
  Legacy.sanitizePath config "../../etc/passwd" = Ok "/lib/etc/passwd".
Proof. reflexivity. Qed.
Example t_legacy_2 :
  Legacy.sanitizePath config "/etc/passwd" = Ok "/lib/etc/passwd".
Proof. reflexivity. Qed.
Example t_legacy_3 : Legacy.sanitizePath config "movies/" = Ok "/lib/movies/".
Proof. reflexivity. Qed.
Example t_flat_search :
  searchVideosRecursive_run flat_config cwd fs (search_fuel flat_config)
    "/lib" "mp4" default_maxResults
  = Some {| results := []; trace := [Readdir "/lib" 0] |}.
Proof. reflexivity. Qed.
Example t_video_whole_range :
  api_video config cwd Clip.fs (Clip.request (Some "bytes=0-"))
  = {| status := 206;
       headers := [("Content-Range", HStr "bytes 0-9/10");
                   ("Accept-Ranges", HStr "bytes");
                   ("Content-Length", HNum (Js.Num 10));
                   ("Content-Type", HStr "video/mp4")];
       body := Piped {| Fs.rs_path := "/lib/clip.mp4"; Fs.rs_start := 0;
                        Fs.rs_end := Some 9%Z |} |}.
Proof. reflexivity. Qed.
Example t_video_no_range :
  api_video config cwd Clip.fs (Clip.request None)
  = {| status := 200;
       headers := [("Content-Length", HNum (Js.Num 10));
                   ("Content-Type", HStr "video/mp4")];
       body := Piped (Fs.createReadStreamWhole "/lib/clip.mp4") |}.
Proof. reflexivity. Qed.
Example t_unauthenticated :
  status (api_video config cwd fs
            {| host := Some "localhost:3000"; authenticated := false;
               query_path := Some "movies/a.mp4"; query_q := None;
               range := None |}) = 401%Z.
Proof. reflexivity. Qed.
Example t_browse :
  api_browse config cwd fs (request (Some "movies") None None)
  = json_ok (JsonListing (ListingOk []
      [{| file_name := "a.mp4"; file_path := "movies/a.mp4";
          file_type := "video"; file_size := 500000; file_modified := 0 |}])).
Proof. reflexivity. Qed.
Example t_video_trav :
  api_video config cwd fs (request (Some "../../etc/passwd") None None)
  = json_error 500 "ENOENT: no such file or directory".
Proof. reflexivity. Qed.
Example t_video_range :
  api_video config cwd fs (request (Some "movies/a.mp4") None (Some "bytes=100-199"))
  = {| status := 206;
       headers := [("Content-Range", HStr "bytes 100-199/500000");
                   ("Accept-Ranges", HStr "bytes");
                   ("Content-Length", HNum (Js.Num 100));
                   ("Content-Type", HStr "video/mp4")];
       body := Piped {| Fs.rs_path := "/lib/movies/a.mp4"; Fs.rs_start := 100;
                        Fs.rs_end := Some 199%Z |} |}.
Proof. reflexivity. Qed.
Example t_search :
  api_search config cwd fs (request None (Some "mp4") None)
  = Some (json_ok (JsonSearch
      [{| sr_name := "a.mp4"; sr_path := "movies/a.mp4"; sr_folder := "movies";
          sr_type := "video"; sr_size := 500000; sr_modified := 0 |}] 1)).
Proof. reflexivity. Qed.
Example t_search_repeated_q :
  api_search config cwd fs
    {| host := Some "localhost:3000"; authenticated := true;
       query_path := None; query_q := Some (QArray 2); range := None |}
  = Some (json_error 500 "query.toLowerCase is not a function").
Proof. reflexivity. Qed.
Example t_search_bracket_q :
  api_search config cwd fs
    {| host := Some "localhost:3000"; authenticated := true;
       query_path := None; query_q := Some (QArray 1); range := None |}
  = Some (json_ok (JsonSearch [] 0)).
Proof. reflexivity. Qed.
Example t_search_short_q :
  api_search config cwd fs (request (Some "/etc") (Some "m") None)
  = Some (json_ok (JsonSearch [] 0)).
Proof. reflexivity. Qed.
Example t_parse_nbsp :
  Js.parseInt (String (ascii_of_nat 160) "2") = Js.Num 2.
Proof. reflexivity. Qed.
Example t_parse_browser :
  parseMultipartData Browser.body Browser.boundary
  = {| fields_path := Some "movies";
       files := [{| filename := "new.mp4";
                    data := list_byte_of_string "abc" |}] |}.
Proof. reflexivity. Qed.
Example t_upload_browser :
  effects (fst (upload_handler Scenario.config Scenario.cwd Calm.os
                  (Some Browser.contentType) Browser.body Calm.world))
  = [WriteFile "/lib/movies/new.mp4" (list_byte_of_string "abc")].
Proof. reflexivity. Qed.
End ScenarioTests.
Module PathTests.
Import Path.
Example normalize_1 : normalize "../../etc/passwd" = "../../etc/passwd".
Proof. reflexivity. Qed.
Example normalize_2 : normalize "a/./b/../../c/" = "c/".
Proof. reflexivity. Qed.
Example normalize_3 : normalize "/../x//y" = "/x/y".
Proof. reflexivity. Qed.
Example normalize_4 : normalize "./" = "./".
Proof. reflexivity. Qed.
Example normalize_5 : normalize "a/../.." = "..".
Proof. reflexivity. Qed.
Example resolve_1 : resolve "/home/u" ["videos"; "../x"] = "/home/u/x".
Proof. reflexivity. Qed.
Example resolve_2 : resolve "/home/u" ["/lib"; "/etc/passwd"] = "/etc/passwd".
Proof. reflexivity. Qed.
Example resolve_3 : resolve "/home/u" ["/lib"; EmptyString] = "/lib".
Proof. reflexivity. Qed.
Example join_1 : join ["/lib/"; "a.mp4"] = "/lib/a.mp4".
Proof. reflexivity. Qed.
Example relative_1 : relative "/" "/lib" "/lib/movies/a.mp4" = "movies/a.mp4".
Proof. reflexivity. Qed.
Example relative_2 : relative "/" "/lib/x" "/lib/movies/a.mp4" = "../movies/a.mp4".
Proof. reflexivity. Qed.
Example relative_3 : relative "/" "/" "/foo" = "foo".
Proof. reflexivity. Qed.
Example dirname_1 : dirname "a.mp4" = ".".
Proof. reflexivity. Qed.
Example dirname_2 : dirname "movies/a.mp4" = "movies".
Proof. reflexivity. Qed.
Example dirname_3 : dirname "/a" = "/".
Proof. reflexivity. Qed.
Example dirname_4 : dirname "//a" = "//".
Proof. reflexivity. Qed.
Example dirname_5 : dirname "a/b/" = "a".
Proof. reflexivity. Qed.
Example dirname_6 : dirname "/a/b//" = "/a".
Proof. reflexivity. Qed.
Example extname_1 : extname "/lib/movies/a.MP4" = ".MP4".
Proof. reflexivity. Qed.
Example extname_2 : extname ".bashrc" = EmptyString.
Proof. reflexivity. Qed.
Example extname_3 : extname "a.b/c" = EmptyString.
Proof. reflexivity. Qed.
Example extname_4 : extname ".." = EmptyString.
Proof. reflexivity. Qed.
Example extname_5 : extname "..." = ".".
Proof. reflexivity. Qed.
Example extname_6 : extname "x/a.tar.gz/" = ".gz".
Proof. reflexivity. Qed.
Example extname_7 : extname "..a" = ".a".
Proof. reflexivity. Qed.
Example parse_1 : Js.parseInt "100" = Js.Num 100.
Proof. reflexivity. Qed.
Example parse_2 : Js.parseInt EmptyString = Js.NaN.
Proof. reflexivity. Qed.
Example parse_3 : Js.parseInt " +12abc" = Js.Num 12.
Proof. reflexivity. Qed.
Example tostr_1 : Js.toString 500000 = "500000".
Proof. reflexivity. Qed.
Example tostr_2 : Js.toString 0 = "0".
Proof. reflexivity. Qed.
Example strip_1 : Js.strip_parent_prefix "../../etc/passwd" = "etc/passwd".
Proof. reflexivity. Qed.
Example strip_2 : Js.strip_parent_prefix ".." = EmptyString.
Proof. reflexivity. Qed.
Example strip_3 : Js.strip_parent_prefix "..\/etc" = "/etc".
Proof. reflexivity. Qed.
Example split_1 : Js.split "-" "100-199" = ["100"; "199"].
Proof. reflexivity. Qed.
Example split_2 : Js.split "-" "0-" = ["0"; EmptyString].
Proof. reflexivity. Qed.
Example rm_1 : Js.remove_first "bytes=" "bytes=0-" = "0-".
Proof. reflexivity. Qed.
End PathTests.

(* ================================================================== *)
(** ** Facts about strings *)
(* ================================================================== *)

Module JsFacts.
Import Js.

Lemma append_nil_r (s : string) : s ++ EmptyString = s.
Proof. induction s as [|a s IH]; simpl; congruence. Qed.

Lemma append_assoc (a b c : string) : (a ++ b) ++ c = a ++ (b ++ c).
Proof. induction a as [|x a IH]; simpl; congruence. Qed.

Lemma append_inv_head (a b c : string) : a ++ b = a ++ c -> b = c.
Proof.
  induction a as [|x a IH]; simpl; intros H; [assumption|].
  injection H as H. auto.
Qed.

Lemma startsWith_spec (s p : string) :
  startsWith s p = true <-> exists rest, s = p ++ rest.
Proof.
  revert s; induction p as [|b p IH]; intros s.
  - destruct s; simpl; split; eauto.
  - destruct s as [|a s]; simpl.
    + split; [discriminate | intros [r H]; discriminate].
    + rewrite andb_true_iff, Ascii.eqb_eq, IH. split.
      * intros [-> [r ->]]. exists r. reflexivity.
      * intros [r H]. injection H as -> ->. split; eauto.
Qed.

Lemma split_not_nil (c : ascii) (s : string) : split c s <> [].
Proof.
  destruct s as [|a s]; simpl; [discriminate|].
  destruct (Ascii.eqb a c); [discriminate|].
  destruct (split c s); discriminate.
Qed.

Lemma split_app_sep (c : ascii) (a b : string) :
  split c (a ++ String c b) = (split c a ++ split c b)%list.
Proof.
  induction a as [|x a IH]; simpl.
  - rewrite Ascii.eqb_refl. reflexivity.
  - destruct (Ascii.eqb x c); rewrite IH; [reflexivity|].
    destruct (split c a) eqn:E; [|reflexivity].
    exfalso. exact (split_not_nil _ _ E).
Qed.

Lemma split_no_char (c : ascii) (s : string) :
  has_char c s = false -> split c s = [s].
Proof.
  induction s as [|a s IH]; simpl; [reflexivity|].
  intros H. apply orb_false_iff in H as [H1 H2].
  rewrite H1, (IH H2). reflexivity.
Qed.

Lemma In_split_no_char (c : ascii) (s seg : string) :
  In seg (split c s) -> has_char c seg = false.
Proof.
  revert seg; induction s as [|a s IH]; simpl; intros seg H.
  - destruct H as [<-|[]]. reflexivity.
  - destruct (Ascii.eqb a c) eqn:E.
    + destruct H as [<-|H]; [reflexivity | auto].
    + destruct (split c s) as [|h t] eqn:Es.
      * destruct H as [<-|[]]. simpl. rewrite E. reflexivity.
      * destruct H as [<-|H].
        -- simpl. rewrite E. simpl. apply IH. left; reflexivity.
        -- apply IH. right; assumption.
Qed.

Lemma split_join (c : ascii) (l : list string) :
  l <> [] ->
  Forall (fun s => has_char c s = false) l ->
  split c (join (String c EmptyString) l) = l.
Proof.
  induction l as [|x l IH]; [congruence|].
  intros _ H. inversion H as [|? ? Hx Hl]; subst.
  destruct l as [|y l].
  - simpl. apply split_no_char; assumption.
  - change (join (String c EmptyString) (x :: y :: l))
      with (x ++ String c (join (String c EmptyString) (y :: l))).
    rewrite split_app_sep, (split_no_char _ _ Hx), IH; [reflexivity| discriminate | assumption].
Qed.

End JsFacts.

(* ================================================================== *)
(** ** Facts about the path module *)
(* ================================================================== *)

Module PathFacts.
Import Js JsFacts Path.

Lemma plain_seg_spec (s : string) :
  plain_seg s = true <-> s <> EmptyString /\ s <> "." /\ s <> "..".
Proof.
  unfold plain_seg. rewrite !andb_true_iff, !negb_true_iff, !String.eqb_neq.
  tauto.
Qed.

Lemma normalizeSegs_In (a : bool) (segs : list string) :
  forall stack s,
    In s (normalizeSegs a stack segs) -> In s stack \/ In s segs.
Proof.
  induction segs as [|seg rest IH]; intros stack s H; simpl in H.
  - left. apply in_rev. assumption.
  - destruct ((seg =? EmptyString) || (seg =? ".")) eqn:E1.
    { destruct (IH _ _ H); [left | right; right]; assumption. }
    destruct (seg =? "..") eqn:E2.
    + apply String.eqb_eq in E2; subst seg.
      destruct stack as [|top below].
      * destruct a; apply IH in H; destruct H as [H|H]; simpl in *; intuition.
      * destruct (top =? "..").
        -- destruct a; apply IH in H; destruct H as [H|H]; simpl in *; intuition.
        -- apply IH in H; destruct H as [H|H]; simpl in *; intuition.
    + apply IH in H. destruct H as [H|H]; simpl in *; intuition.
Qed.

Lemma normalizeSegs_false_plain (segs : list string) :
  forall stack,
    Forall (fun s => plain_seg s = true) stack ->
    Forall (fun s => plain_seg s = true) (normalizeSegs false stack segs).
Proof.
  induction segs as [|seg rest IH]; intros stack Hs; simpl.
  - apply Forall_rev. assumption.
  - destruct ((seg =? EmptyString) || (seg =? ".")) eqn:E1; [auto|].
    destruct (seg =? "..") eqn:E2.
    + destruct stack as [|top below]; [auto|].
      destruct (top =? ".."); [auto|].
      apply IH. inversion Hs; assumption.
    + apply IH. constructor; [|assumption].
      apply orb_false_iff in E1 as [Ea Eb].
      unfold plain_seg. rewrite Ea, Eb, E2. reflexivity.
Qed.

Lemma normalizeSegs_plain (a : bool) (segs : list string) :
  forall stack,
    Forall (fun s => plain_seg s = true) segs ->
    normalizeSegs a stack segs = (rev stack ++ segs)%list.
Proof.
  induction segs as [|seg rest IH]; intros stack H; simpl.
  - rewrite app_nil_r. reflexivity.
  - inversion H as [|? ? Hseg Hrest]; subst.
    unfold plain_seg in Hseg.
    apply andb_true_iff in Hseg as [Hseg H3].
    apply andb_true_iff in Hseg as [H1 H2].
    apply negb_true_iff in H1, H2, H3. rewrite H1, H2, H3. simpl.
    rewrite IH by assumption. simpl. rewrite <- app_assoc. reflexivity.
Qed.

Lemma normalizeSegs_app (a : bool) (xs ys : list string) :
  forall stack,
    normalizeSegs a stack (xs ++ ys)
    = normalizeSegs a (rev (normalizeSegs a stack xs)) ys.
Proof.
  induction xs as [|x xs IH]; intros stack; simpl.
  - rewrite rev_involutive. reflexivity.
  - destruct ((x =? EmptyString) || (x =? ".")); [apply IH|].
    destruct (x =? "..").
    + destruct stack as [|top below]; [apply IH|].
      destruct (top =? ".."); apply IH.
    + apply IH.
Qed.

Lemma resolve_loop_absolute (cwd : string) (rargs : list string) :
  forall acc, isAbsolute cwd = true -> snd (resolve_loop cwd rargs acc) = true.
Proof.
  induction rargs as [|p rest IH]; intros acc Hcwd; simpl.
  - destruct (cwd =? EmptyString) eqn:E.
    + apply String.eqb_eq in E. subst. discriminate.
    + assumption.
  - destruct (p =? EmptyString); [auto|].
    destruct (isAbsolute p); [reflexivity | auto].
Qed.

(** With an absolute working directory, [path.resolve] answers [/]
    followed by clean segments joined by [/]. *)
Lemma resolve_normal_form (cwd : string) (args : list string) :
  isAbsolute cwd = true ->
  exists segs,
    resolve cwd args = "/" ++ Js.join "/" segs
    /\ Forall (fun s => clean_seg s = true) segs.
Proof.
  intros Hcwd. unfold resolve.
  pose proof (resolve_loop_absolute cwd (rev args) EmptyString Hcwd) as Habs.
  destruct (resolve_loop cwd (rev args) EmptyString) as [rp ra].
  simpl in Habs. subst ra. simpl.
  exists (normalizeSegs false [] (Js.split "/" rp)). split; [reflexivity|].
  apply Forall_forall. intros s Hs. unfold clean_seg.
  apply andb_true_iff. split.
  - pose proof (normalizeSegs_false_plain (Js.split "/" rp) [] (Forall_nil _)) as HP.
    rewrite Forall_forall in HP. auto.
  - apply normalizeSegs_In in Hs. destruct Hs as [[]|Hs].
    apply In_split_no_char in Hs. rewrite Hs. reflexivity.
Qed.

Lemma clean_no_slash (segs : list string) :
  Forall (fun s => clean_seg s = true) segs ->
  Forall (fun s => has_char "/" s = false) segs.
Proof.
  apply Forall_impl. intros s H. unfold clean_seg in H.
  apply andb_true_iff in H as [_ H]. apply negb_true_iff in H. assumption.
Qed.

Lemma clean_plain (segs : list string) :
  Forall (fun s => clean_seg s = true) segs ->
  Forall (fun s => plain_seg s = true) segs.
Proof.
  apply Forall_impl. intros s H. unfold clean_seg in H.
  apply andb_true_iff in H as [H _]. assumption.
Qed.

(** The segments of [/] followed by clean segments. *)
Lemma split_absolute (segs : list string) :
  Forall (fun s => clean_seg s = true) segs ->
  Js.split "/" ("/" ++ Js.join "/" segs)
  = match segs with
    | [] => [EmptyString; EmptyString]
    | _ => EmptyString :: segs
    end.
Proof.
  intros H. destruct segs as [|x l]; [reflexivity|].
  change ("/" ++ Js.join "/" (x :: l))
    with (EmptyString ++ String "/" (Js.join "/" (x :: l))).
  rewrite split_app_sep. simpl (Js.split "/" EmptyString).
  rewrite split_join; [reflexivity | discriminate | apply clean_no_slash; assumption].
Qed.

End PathFacts.

(* ================================================================== *)
(** ** Path resolution: [sanitizePath] *)
(* ================================================================== *)

Section SanitizePath.

Context {rt : Js.Runtime}.

Import Js JsFacts Path PathFacts.

Variable config : Config.
Variable cwd : string.

Let root : string := Path.resolve cwd [videoDirectory config].

Lemma sanitizePath_empty : sanitizePath config cwd EmptyString = Ok root.
Proof. reflexivity. Qed.

(** What a successful call has checked. *)
Lemma sanitizePath_Ok_inv (userPath r : string) :
  sanitizePath config cwd userPath = Ok r ->
  r = root
  \/ (r = Path.resolve cwd [root; Js.strip_parent_prefix (Path.normalize userPath)]
      /\ (Js.startsWith r (root ++ Path.sep) = true \/ r = root)).
Proof.
  unfold sanitizePath. fold root.
  destruct (negb (truthy userPath) || (userPath =? EmptyString)).
  - intros H. injection H as <-. left. reflexivity.
  - set (full := Path.resolve cwd [root; _]).
    destruct (startsWith full (root ++ Path.sep)) eqn:E1; simpl.
    + intros H. injection H as H. subst r. right.
      split; [reflexivity | left; exact E1].
    + destruct (full =? root) eqn:E2; simpl; [|discriminate].
      intros H. injection H as H. subst r. apply String.eqb_eq in E2.
      left. assumption.
Qed.

Lemma sanitizePath_within (userPath r : string) :
  sanitizePath config cwd userPath = Ok r -> within root r.
Proof.
  intros H. apply sanitizePath_Ok_inv in H.
  destruct H as [-> | [_ [H | ->]]]; [left; reflexivity| |left; reflexivity].
  right. apply startsWith_spec in H as [rest ->].
  exists rest. apply append_assoc.
Qed.

(** The result of a successful call is a resolved path: no segment of it
    is [..]. *)
Lemma sanitizePath_no_dotdot (userPath r : string) :
  Path.isAbsolute cwd = true ->
  sanitizePath config cwd userPath = Ok r ->
  ~ In ".." (Js.split "/" r).
Proof.
  intros Hcwd H.
  assert (Hnf : exists segs, r = "/" ++ Js.join "/" segs
                             /\ Forall (fun s => clean_seg s = true) segs).
  { apply sanitizePath_Ok_inv in H. destruct H as [-> | [-> _]];
      apply resolve_normal_form; assumption. }
  destruct Hnf as (segs & -> & Hclean).
  rewrite (split_absolute _ Hclean).
  apply clean_plain in Hclean. rewrite Forall_forall in Hclean.
  intros Hin.
  assert (Hin' : In ".." segs).
  { destruct segs as [|x l].
    - destruct Hin as [E|[E|[]]]; discriminate E.
    - destruct Hin as [E|Hin]; [discriminate E | exact Hin]. }
  apply Hclean in Hin'. discriminate.
Qed.

End SanitizePath.

(** C2.  Whenever [sanitizePath] succeeds, what it returns is the resolved
    root or lies below it, in the sense of the guard of the function: the
    root, then the separator, then more.  The empty input resolves to the
    root itself; a path that continues the root with any character other
    than the separator (a sibling such as [RootEvil]) is never returned; and
    no segment of the returned path is [..], so that "below" is meant
    literally. *)
Theorem sanitizePath_confined (config : Config) (cwd userPath r : string) :
  Path.isAbsolute cwd = true ->
  sanitizePath config cwd userPath = Ok r ->
  sanitizePath config cwd EmptyString
    = Ok (Path.resolve cwd [videoDirectory config])
  /\ within (Path.resolve cwd [videoDirectory config]) r
  /\ (forall c tail,
        r = Path.resolve cwd [videoDirectory config] ++ String c tail ->
        c = "/"%char)
  /\ ~ In ".." (Js.split "/" r).
Proof.
  intros Hcwd H. split; [reflexivity|].
  pose proof (sanitizePath_within config cwd userPath r H) as Hw.
  split; [assumption|]. split.
  - intros c tail E. destruct Hw as [Hw|[rest Hw]].
    + rewrite Hw in E at 1.
      rewrite <- (JsFacts.append_nil_r (Path.resolve cwd [videoDirectory config])) in E at 1.
      apply JsFacts.append_inv_head in E. discriminate.
    + rewrite Hw in E. apply JsFacts.append_inv_head in E.
      simpl in E. congruence.
  - exact (sanitizePath_no_dotdot config cwd userPath r Hcwd H).
Qed.

Lemma sanitizePath_confined_witness :
  sanitizePath Scenario.config Scenario.cwd EmptyString = Ok "/lib"
  /\ within "/lib" "/lib/movies"
  /\ (forall c tail, "/lib/movies" = "/lib" ++ String c tail -> c = "/"%char)
  /\ ~ In ".." (Js.split "/" "/lib/movies").
Proof.
  exact (sanitizePath_confined Scenario.config Scenario.cwd "movies"
           "/lib/movies" eq_refl eq_refl).
Defined.

(* ================================================================== *)
(** ** Leading parent segments are stripped, not rejected *)
(* ================================================================== *)

Module StripFacts.
Import Js JsFacts Path PathFacts.

Lemma has_char_split (d c : ascii) (s seg : string) :
  has_char d s = false -> In seg (split c s) -> has_char d seg = false.
Proof.
  revert seg; induction s as [|a s IH]; simpl; intros seg Hd H.
  - destruct H as [<-|[]]. reflexivity.
  - apply orb_false_iff in Hd as [Ha Hs].
    destruct (Ascii.eqb a c).
    + destruct H as [<-|H]; [reflexivity | auto].
    + destruct (split c s) as [|h t] eqn:Es.
      * destruct H as [<-|[]]. simpl. rewrite Ha. reflexivity.
      * destruct H as [<-|H].
        -- simpl. rewrite Ha. simpl. apply IH; [assumption | left; reflexivity].
        -- apply IH; [assumption | right; assumption].
Qed.

Lemma normalizeSegs_true_updown (segs : list string) :
  forall stack, updown stack -> updown (rev (normalizeSegs true stack segs)).
Proof.
  induction segs as [|seg rest IH]; intros stack Hst; simpl.
  - rewrite rev_involutive. assumption.
  - destruct ((seg =? EmptyString) || (seg =? ".")) eqn:E1; [auto|].
    destruct (seg =? "..") eqn:E2.
    + destruct Hst as (k & M & -> & HM).
      destruct M as [|m M]; simpl.
      * destruct k as [|k]; simpl.
        -- apply IH. exists 1%nat, []. split; [reflexivity | constructor].
        -- apply IH. exists (S (S k)), []. split; [reflexivity | constructor].
      * inversion HM as [|? ? Hm HM']; subst.
        assert (Em : (m =? "..") = false).
        { apply plain_seg_spec in Hm. apply String.eqb_neq. tauto. }
        rewrite Em. apply IH. exists k, M. split; [reflexivity | assumption].
    + destruct Hst as (k & M & -> & HM).
      apply IH. exists k, (seg :: M). split; [reflexivity|].
      constructor; [|assumption].
      apply orb_false_iff in E1 as [Ea Eb].
      unfold plain_seg. rewrite Ea, Eb, E2. reflexivity.
Qed.

Lemma rev_repeat {A : Type} (x : A) (k : nat) : rev (repeat x k) = repeat x k.
Proof.
  induction k as [|k IH]; [reflexivity|].
  simpl. rewrite IH. symmetry. apply repeat_cons.
Qed.

(** [normalizeString(p, true)] keeps some [..] and then plain segments. *)
Lemma normalizeSegs_true_shape (segs : list string) :
  exists k M,
    normalizeSegs true [] segs = (repeat ".." k ++ M)%list
    /\ Forall (fun s => plain_seg s = true) M.
Proof.
  destruct (normalizeSegs_true_updown segs []) as (k & M & E & HM).
  { exists 0%nat, []. split; [reflexivity | constructor]. }
  exists k, (rev M). split.
  - rewrite <- (rev_involutive (normalizeSegs true [] segs)), E.
    rewrite rev_app_distr, rev_repeat. reflexivity.
  - apply Forall_rev. assumption.
Qed.

Lemma join_cons2 (x y : string) (l : list string) :
  Js.join "/" (x :: y :: l) = x ++ "/" ++ Js.join "/" (y :: l).
Proof. reflexivity. Qed.

Lemma strip_plain_head (m tl : string) :
  unstrippable m ->
  tl = EmptyString \/ (exists t, tl = "/" ++ t) ->
  strip_parent_prefix (m ++ tl) = m ++ tl.
Proof.
  intros (Hp & Hs & Hb) Htl.
  apply plain_seg_spec in Hp. destruct Hp as (H0 & H1 & H2).
  destruct m as [|a [|b [|c m]]]; try congruence.
  - (* one character *)
    assert (a <> "."%char) by congruence.
    simpl. destruct (Ascii.eqb_spec a "."%char); [contradiction|].
    destruct a as [[] [] [] [] [] [] [] []]; try reflexivity; try contradiction;
      destruct tl as [|[[] [] [] [] [] [] [] []] ]; reflexivity.
  - (* two characters, not both dots *)
    simpl.
    destruct (Ascii.eqb_spec a "."%char) as [->|Ha].
    + destruct (Ascii.eqb_spec b "."%char) as [->|Hb']; [congruence|].
      destruct b as [[] [] [] [] [] [] [] []]; try reflexivity; contradiction.
    + destruct a as [[] [] [] [] [] [] [] []]; try reflexivity; contradiction.
  - (* three characters or more: the third is neither slash *)
    simpl in Hs, Hb.
    apply orb_false_iff in Hs as [_ Hs]. apply orb_false_iff in Hs as [_ Hs].
    apply orb_false_iff in Hs as [Hs _].
    apply orb_false_iff in Hb as [_ Hb]. apply orb_false_iff in Hb as [_ Hb].
    apply orb_false_iff in Hb as [Hb _].
    simpl.
    destruct a as [[] [] [] [] [] [] [] []]; try reflexivity;
      destruct b as [[] [] [] [] [] [] [] []]; try reflexivity.
    rewrite Hs, Hb. reflexivity.
Qed.

End StripFacts.

Module ResolveFacts.
Import Js JsFacts Path PathFacts StripFacts.

Lemma strip_dotdots (k : nat) (trail : string) :
  trail = EmptyString \/ trail = "/" ->
  strip_parent_prefix (Js.join "/" (repeat ".." (S k)) ++ trail) = EmptyString.
Proof.
  intros Ht. induction k as [|k IH].
  - destruct Ht as [->| ->]; reflexivity.
  - change (repeat ".." (S (S k))) with (".." :: ".." :: repeat ".." k).
    rewrite join_cons2. exact IH.
Qed.

Lemma strip_shape (k : nat) (m : string) (M : list string) (trail : string) :
  unstrippable m ->
  trail = EmptyString \/ trail = "/" ->
  strip_parent_prefix (Js.join "/" (repeat ".." k ++ m :: M)%list ++ trail)
  = Js.join "/" (m :: M) ++ trail.
Proof.
  intros Hm Ht. induction k as [|k IH].
  - simpl repeat. simpl app. destruct M as [|y M].
    + simpl Js.join. apply strip_plain_head; [assumption|].
      destruct Ht as [->| ->]; [left; reflexivity | right; exists EmptyString; reflexivity].
    + rewrite join_cons2, !append_assoc.
      apply strip_plain_head; [assumption|]. right. eexists. reflexivity.
  - simpl repeat. simpl app.
    destruct (repeat ".." k ++ m :: M)%list as [|y l] eqn:E.
    { destruct (repeat ".." k); discriminate. }
    rewrite join_cons2. exact IH.
Qed.

Lemma join_nonempty (x : string) (l : list string) :
  x <> EmptyString -> Js.join "/" (x :: l) <> EmptyString.
Proof.
  intros Hx. destruct l as [|y l]; [exact Hx|].
  rewrite join_cons2. destruct x; [congruence | discriminate].
Qed.

(** The segments of a resolved root normalise to themselves. *)
Lemma normalizeSegs_root (B : list string) :
  Forall (fun s => clean_seg s = true) B ->
  normalizeSegs false [] (Js.split "/" ("/" ++ Js.join "/" B)) = B.
Proof.
  intros HB. rewrite (split_absolute _ HB).
  destruct B as [|b B]; [reflexivity|].
  simpl. apply (normalizeSegs_plain false (b :: B) []).
  apply clean_plain. assumption.
Qed.

(** Resolving a relative path [S] against a resolved root: normalise the
    segments of [S] on top of those of the root. *)
Lemma resolve_below (cwd S : string) (B : list string) :
  Forall (fun s => clean_seg s = true) B ->
  isAbsolute S = false ->
  resolve cwd ["/" ++ Js.join "/" B; S]
  = "/" ++ Js.join "/"
             (normalizeSegs false (rev B)
                (if S =? EmptyString then [EmptyString]
                 else Js.split "/" (S ++ "/"))).
Proof.
  intros HB HS.
  assert (Hloop :
    resolve_loop cwd [S; "/" ++ Js.join "/" B] EmptyString
    = (("/" ++ Js.join "/" B)
         ++ String "/" (if S =? EmptyString then EmptyString else S ++ "/"),
       true)).
  { simpl. destruct (S =? EmptyString); [reflexivity|].
    rewrite HS. reflexivity. }
  unfold resolve.
  change (rev ["/" ++ Js.join "/" B; S]) with [S; "/" ++ Js.join "/" B].
  rewrite Hloop.
  unfold normalizeString. simpl negb.
  rewrite split_app_sep, normalizeSegs_app, normalizeSegs_root by assumption.
  destruct (S =? EmptyString); reflexivity.
Qed.

Lemma normalizeSegs_empties (a : bool) (stack : list string) (n : nat) :
  normalizeSegs a stack (repeat EmptyString n) = rev stack.
Proof. induction n as [|n IH]; simpl; [reflexivity | exact IH]. Qed.

(** Plain segments, then only empty ones: the plain ones are kept. *)
Lemma normalizeSegs_plain_then_empties (a : bool) (B M : list string) (n : nat) :
  Forall (fun s => plain_seg s = true) M ->
  normalizeSegs a (rev B) (M ++ repeat EmptyString n) = (B ++ M)%list.
Proof.
  intros HM. rewrite normalizeSegs_app, (normalizeSegs_plain a M (rev B) HM).
  rewrite normalizeSegs_empties, !rev_involutive. reflexivity.
Qed.

Lemma split_trailing (M : list string) (trail : string) :
  M <> [] ->
  Forall (fun s => has_char "/" s = false) M ->
  trail = EmptyString \/ trail = "/" ->
  exists n, Js.split "/" ((Js.join "/" M ++ trail) ++ "/")
            = (M ++ repeat EmptyString n)%list.
Proof.
  intros HM Hs [->| ->].
  - exists 1%nat. rewrite append_nil_r.
    change (Js.join "/" M ++ "/") with (Js.join "/" M ++ String "/" EmptyString).
    rewrite split_app_sep, split_join by assumption. reflexivity.
  - exists 2%nat. rewrite append_assoc.
    change (Js.join "/" M ++ "/" ++ "/")
      with (Js.join "/" M ++ String "/" (EmptyString ++ String "/" EmptyString)).
    rewrite split_app_sep, split_app_sep, split_join by assumption. reflexivity.
Qed.

Lemma join_app_below (b : string) (B M : list string) (m : string) :
  Js.join "/" ((b :: B) ++ m :: M)%list
  = Js.join "/" (b :: B) ++ "/" ++ Js.join "/" (m :: M).
Proof.
  revert b; induction B as [|b' B IH]; intros b.
  - reflexivity.
  - change (Js.join "/" ((b :: b' :: B) ++ m :: M)%list)
      with (b ++ "/" ++ Js.join "/" ((b' :: B) ++ m :: M)%list).
    rewrite IH, join_cons2, !append_assoc. reflexivity.
Qed.

End ResolveFacts.

Section StripParents.

Import Js JsFacts Path PathFacts StripFacts ResolveFacts.

Lemma isAbsolute_append (m tl : string) :
  m <> EmptyString -> has_char "/" m = false -> isAbsolute (m ++ tl) = false.
Proof.
  intros Hm Hs. destruct m as [|a m]; [congruence|].
  simpl in Hs. apply orb_false_iff in Hs as [Ha _].
  unfold isAbsolute. simpl. rewrite Ha. reflexivity.
Qed.

(** What is left of a relative path without backslashes once it is
    normalised and stripped: plain segments [M], to be put under the
    segments [B] of the root. *)
Lemma strip_normalize_shape (userPath : string) :
  userPath <> EmptyString ->
  isAbsolute userPath = false ->
  has_char "\" userPath = false ->
  isAbsolute (strip_parent_prefix (normalize userPath)) = false
  /\ exists M,
       Forall (fun s => plain_seg s = true) M
       /\ forall B,
            normalizeSegs false (rev B)
              (if strip_parent_prefix (normalize userPath) =? EmptyString
               then [EmptyString]
               else Js.split "/" (strip_parent_prefix (normalize userPath) ++ "/"))
            = (B ++ M)%list.
Proof.
  intros Hne Hrel Hbs. unfold normalize.
  apply String.eqb_neq in Hne. rewrite Hne, Hrel. simpl negb.
  unfold normalizeString.
  destruct (normalizeSegs_true_shape (Js.split "/" userPath)) as (k & M0 & EN & HM0).
  assert (Hin : forall s, In s M0 ->
                  has_char "/" s = false /\ has_char "\" s = false).
  { intros s Hs.
    assert (Hs' : In s (normalizeSegs true [] (Js.split "/" userPath))).
    { rewrite EN. apply in_or_app. right. assumption. }
    apply normalizeSegs_In in Hs'. destruct Hs' as [[]|Hs'].
    split; [eapply In_split_no_char | eapply has_char_split]; eassumption. }
  rewrite EN.
  set (trail := if endsWithSlash userPath then "/" else EmptyString).
  assert (Htrail : trail = EmptyString \/ trail = "/").
  { unfold trail. destruct (endsWithSlash userPath); auto. }
  destruct M0 as [|m M'].
  - rewrite app_nil_r. destruct k as [|k].
    + (* nothing is kept: [.] or [./] *)
      simpl. destruct (endsWithSlash userPath); simpl;
        (split; [reflexivity|]); exists []; (split; [constructor|]);
        intros B; rewrite rev_involutive, app_nil_r; reflexivity.
    + (* only parent segments are kept *)
      assert (Eq : (Js.join "/" (repeat ".." (S k)) =? EmptyString) = false).
      { apply String.eqb_neq. apply join_nonempty. discriminate. }
      rewrite Eq.
      replace (if endsWithSlash userPath
               then Js.join "/" (repeat ".." (S k)) ++ "/"
               else Js.join "/" (repeat ".." (S k)))
        with (Js.join "/" (repeat ".." (S k)) ++ trail)
        by (unfold trail; destruct (endsWithSlash userPath);
            [reflexivity | apply append_nil_r]).
      rewrite (strip_dotdots k trail Htrail). simpl.
      split; [reflexivity|]. exists []. split; [constructor|].
      intros B. rewrite rev_involutive, app_nil_r. reflexivity.
  - (* plain segments are left *)
    inversion HM0 as [|? ? Hm HM']; subst.
    destruct (Hin m (or_introl eq_refl)) as [Hms Hmb].
    assert (Hm0 : m <> EmptyString) by (apply plain_seg_spec in Hm; tauto).
    assert (Eq : (Js.join "/" (repeat ".." k ++ m :: M')%list =? EmptyString) = false).
    { apply String.eqb_neq. destruct k; simpl repeat; simpl app.
      - apply join_nonempty. assumption.
      - apply join_nonempty. discriminate. }
    rewrite Eq.
    replace (if endsWithSlash userPath
             then Js.join "/" (repeat ".." k ++ m :: M')%list ++ "/"
             else Js.join "/" (repeat ".." k ++ m :: M')%list)
      with (Js.join "/" (repeat ".." k ++ m :: M')%list ++ trail)
      by (unfold trail; destruct (endsWithSlash userPath);
          [reflexivity | apply append_nil_r]).
    rewrite (strip_shape k m M' trail (conj Hm (conj Hms Hmb)) Htrail).
    assert (Hrel' : isAbsolute (Js.join "/" (m :: M') ++ trail) = false).
    { destruct M' as [|y M'']; [|rewrite join_cons2, append_assoc];
        apply isAbsolute_append; assumption. }
    split; [assumption|].
    exists (m :: M'). split; [assumption|]. intros B.
    assert (Ene : (Js.join "/" (m :: M') ++ trail =? EmptyString) = false).
    { apply String.eqb_neq. intros E.
      apply (join_nonempty m M' Hm0).
      destruct (Js.join "/" (m :: M')); [reflexivity | discriminate]. }
    rewrite Ene.
    destruct (split_trailing (m :: M') trail) as [n En];
      [discriminate | | assumption |].
    { apply Forall_forall. intros s Hs. apply Hin. assumption. }
    rewrite En. apply normalizeSegs_plain_then_empties. assumption.
Qed.

Variable config : Config.
Variable cwd : string.

Lemma sanitizePath_relative_Ok (userPath : string) :
  isAbsolute cwd = true ->
  resolve cwd [videoDirectory config] <> "/" ->
  isAbsolute userPath = false ->
  has_char "\" userPath = false ->
  exists r, sanitizePath config cwd userPath = Ok r.
Proof.
  intros Hcwd Hroot Hrel Hbs.
  destruct (resolve_normal_form cwd [videoDirectory config] Hcwd)
    as (B & EB & HB).
  unfold sanitizePath. rewrite EB in *.
  destruct userPath as [|c u] eqn:Eu; [eexists; reflexivity|].
  rewrite <- Eu in *.
  assert (Hne : userPath <> EmptyString) by (rewrite Eu; discriminate).
  replace (negb (truthy userPath) || (userPath =? EmptyString)) with false
    by (rewrite Eu; reflexivity).
  destruct (strip_normalize_shape userPath Hne Hrel Hbs) as (HS & M & HM & HN).
  rewrite (resolve_below cwd _ B HB HS), HN.
  destruct B as [|b B]; [exfalso; apply Hroot; reflexivity|].
  destruct M as [|m M].
  - rewrite app_nil_r, String.eqb_refl, andb_false_r. eexists; reflexivity.
  - rewrite join_app_below.
    replace (startsWith
               ("/" ++ Js.join "/" (b :: B) ++ "/" ++ Js.join "/" (m :: M))
               (("/" ++ Js.join "/" (b :: B)) ++ sep))
      with true.
    + simpl. eexists; reflexivity.
    + symmetry. apply startsWith_spec. exists (Js.join "/" (m :: M)).
      unfold sep. rewrite !append_assoc. reflexivity.
Qed.

End StripParents.

(* ================================================================== *)
(** ** [path.dirname] and [path.relative] on what the search builds *)
(* ================================================================== *)

Module RelativeFacts.
Import Js JsFacts Path PathFacts StripFacts ResolveFacts.

Lemma length_list_ascii (s : string) :
  List.length (list_ascii_of_string s) = String.length s.
Proof. induction s as [|a s IH]; simpl; congruence. Qed.

Lemma dirname_scan_ge (r : list ascii) :
  forall i ms e,
    (List.length r <= i)%nat -> dirname_scan r i ms = Some e -> (1 <= e)%nat.
Proof.
  induction r as [|c r IH]; intros i ms e Hlen H; simpl in *; [discriminate|].
  destruct (Ascii.eqb c "/").
  - destruct ms.
    + apply (IH (i - 1)%nat true e); [lia | assumption].
    + injection H as <-. lia.
  - apply (IH (i - 1)%nat false e); [lia | assumption].
Qed.

(** [path.dirname] never answers the empty string. *)
Lemma dirname_truthy (p : string) : truthy (dirname p) = true.
Proof.
  destruct p as [|c0 tl]; [reflexivity|]. unfold dirname.
  destruct (dirname_scan (rev (list_ascii_of_string tl)) (String.length tl) true)
    as [e|] eqn:E.
  - apply dirname_scan_ge in E;
      [|rewrite length_rev, length_list_ascii; apply le_n].
    destruct (Ascii.eqb c0 "/" && (e =? 1)%nat); [reflexivity|].
    destruct e as [|e]; [lia | reflexivity].
  - destruct (Ascii.eqb c0 "/"); reflexivity.
Qed.

Lemma dirname_scan_no_slash (r : list ascii) :
  Forall (fun c => Ascii.eqb c "/" = false) r ->
  forall i ms, dirname_scan r i ms = None.
Proof.
  induction 1 as [|c r Hc Hr IH]; intros i ms; simpl; [reflexivity|].
  rewrite Hc. apply IH.
Qed.

Lemma has_char_list (c : ascii) (s : string) :
  has_char c s = false ->
  Forall (fun a => Ascii.eqb a c = false) (list_ascii_of_string s).
Proof.
  induction s as [|a s IH]; simpl; intros H; [constructor|].
  apply orb_false_iff in H as [Ha Hs]. constructor; auto.
Qed.

(** The directory name of a bare file name is [.]. *)
Lemma dirname_bare (name : string) :
  has_char "/" name = false -> dirname name = ".".
Proof.
  intros H. destruct name as [|c0 tl]; [reflexivity|].
  simpl in H. apply orb_false_iff in H as [Hc Htl].
  unfold dirname. rewrite dirname_scan_no_slash.
  - rewrite Hc. reflexivity.
  - apply Forall_rev. apply has_char_list. assumption.
Qed.

Lemma clean_seg_spec (s : string) :
  clean_seg s = true ->
  plain_seg s = true /\ has_char "/" s = false /\ s <> EmptyString.
Proof.
  unfold clean_seg. intros H. apply andb_true_iff in H as [Hp Hs].
  apply negb_true_iff in Hs. repeat split; try assumption.
  apply plain_seg_spec in Hp. tauto.
Qed.

Lemma filter_truthy_clean (segs : list string) :
  Forall (fun s => clean_seg s = true) segs -> filter truthy segs = segs.
Proof.
  induction 1 as [|s segs Hs _ IH]; [reflexivity|].
  simpl. apply clean_seg_spec in Hs. destruct Hs as (_ & _ & Hne).
  destruct s; [congruence|]. simpl. rewrite IH. reflexivity.
Qed.

Lemma abs_segments_clean (segs : list string) :
  Forall (fun s => clean_seg s = true) segs ->
  abs_segments ("/" ++ Js.join "/" segs) = segs.
Proof.
  intros H. unfold abs_segments. rewrite (split_absolute _ H).
  destruct segs as [|x l]; [reflexivity|].
  change (filter truthy (EmptyString :: x :: l)) with (filter truthy (x :: l)).
  apply filter_truthy_clean. assumption.
Qed.

Lemma rooted_injective (xs ys : list string) :
  Forall (fun s => clean_seg s = true) xs ->
  Forall (fun s => clean_seg s = true) ys ->
  "/" ++ Js.join "/" xs = "/" ++ Js.join "/" ys -> xs = ys.
Proof.
  intros Hx Hy E.
  rewrite <- (abs_segments_clean xs Hx), <- (abs_segments_clean ys Hy), E.
  reflexivity.
Qed.

(** Resolving a resolved path gives it back. *)
Lemma resolve_abs_clean (cwd : string) (segs : list string) :
  Forall (fun s => clean_seg s = true) segs ->
  resolve cwd ["/" ++ Js.join "/" segs] = "/" ++ Js.join "/" segs.
Proof.
  intros H. unfold resolve.
  change (resolve_loop cwd (rev ["/" ++ Js.join "/" segs]) EmptyString)
    with (("/" ++ Js.join "/" segs) ++ String "/" EmptyString, true).
  unfold normalizeString. simpl negb.
  rewrite split_app_sep, normalizeSegs_app, normalizeSegs_root by assumption.
  simpl. rewrite rev_involutive. reflexivity.
Qed.

Lemma endsWithSlash_app (a b : string) :
  b <> EmptyString -> endsWithSlash (a ++ b) = endsWithSlash b.
Proof.
  intros Hb. induction a as [|x a IH]; [reflexivity|].
  simpl. rewrite IH.
  destruct (a ++ b) eqn:E; [|reflexivity].
  destruct a; simpl in E; [congruence | discriminate].
Qed.

Lemma endsWithSlash_no_slash (s : string) :
  has_char "/" s = false -> endsWithSlash s = false.
Proof.
  induction s as [|a s IH]; [reflexivity|].
  simpl. intros H. apply orb_false_iff in H as [Ha Hs].
  destruct s; [assumption | auto].
Qed.

Lemma normalize_absolute (p : string) :
  isAbsolute p = true ->
  endsWithSlash p = false ->
  normalizeString p false <> EmptyString ->
  normalize p = "/" ++ normalizeString p false.
Proof.
  intros Ha He Hq. unfold normalize. rewrite Ha, He. simpl negb.
  apply String.eqb_neq in Hq. rewrite Hq.
  destruct p; [discriminate | reflexivity].
Qed.

(** Joining a clean name onto a resolved path appends one segment. *)
Lemma join_child (B : list string) (name : string) :
  Forall (fun s => clean_seg s = true) B ->
  clean_seg name = true ->
  Path.join ["/" ++ Js.join "/" B; name] = "/" ++ Js.join "/" (B ++ [name])%list.
Proof.
  intros HB Hn. destruct (clean_seg_spec name Hn) as (Hp & Hs & Hne).
  assert (Ht : truthy name = true) by (destruct name; [congruence | reflexivity]).
  assert (Ej : Path.join ["/" ++ Js.join "/" B; name]
               = normalize (("/" ++ Js.join "/" B) ++ String "/" name)).
  { unfold Path.join. simpl filter. rewrite Ht. reflexivity. }
  assert (Eq : normalizeString (("/" ++ Js.join "/" B) ++ String "/" name) false
               = Js.join "/" (B ++ [name])%list).
  { unfold normalizeString.
    rewrite split_app_sep, normalizeSegs_app, normalizeSegs_root by assumption.
    rewrite (split_no_char "/" name Hs).
    rewrite normalizeSegs_plain by (constructor; [assumption | constructor]).
    rewrite rev_involutive. reflexivity. }
  rewrite Ej, normalize_absolute, Eq; [reflexivity | reflexivity | | ].
  - change (String "/" name) with ("/" ++ name).
    rewrite <- append_assoc, endsWithSlash_app by assumption.
    apply endsWithSlash_no_slash. assumption.
  - rewrite Eq. destruct B as [|b B]; simpl app.
    + assumption.
    + apply join_nonempty. inversion HB as [|? ? Hb _]; subst.
      apply clean_seg_spec in Hb. tauto.
Qed.

Lemma drop_common_app (B X : list string) :
  drop_common B (B ++ X)%list = ([], X).
Proof.
  induction B as [|b B IH]; simpl.
  - destruct X; reflexivity.
  - rewrite String.eqb_refl. exact IH.
Qed.

(** The path of an entry of the root, relative to the configured video
    directory, is the name of the entry. *)
Lemma relative_root_child (cwd videoDir name : string) :
  isAbsolute cwd = true ->
  clean_seg name = true ->
  relative cwd videoDir (Path.join [resolve cwd [videoDir]; name]) = name.
Proof.
  intros Hcwd Hn.
  destruct (resolve_normal_form cwd [videoDir] Hcwd) as (B & EB & HB).
  assert (HBn : Forall (fun s => clean_seg s = true) (B ++ [name])%list).
  { apply Forall_app. split; [assumption | constructor; [assumption | constructor]]. }
  assert (Hneq : "/" ++ Js.join "/" (B ++ [name])%list <> "/" ++ Js.join "/" B).
  { intros E. apply rooted_injective in E; [|assumption|assumption].
    apply (f_equal (@List.length string)) in E.
    rewrite length_app in E. simpl in E. lia. }
  rewrite EB, (join_child B name HB Hn).
  unfold relative.
  assert (E1 : (videoDir =? "/" ++ Js.join "/" (B ++ [name])%list) = false).
  { apply String.eqb_neq. intros ->.
    rewrite (resolve_abs_clean cwd _ HBn) in EB. contradiction. }
  rewrite E1, EB, (resolve_abs_clean cwd _ HBn).
  assert (E2 : ("/" ++ Js.join "/" B =? "/" ++ Js.join "/" (B ++ [name])%list)
               = false).
  { apply String.eqb_neq. intros E. apply Hneq. symmetry. exact E. }
  rewrite E2, (abs_segments_clean B HB), (abs_segments_clean _ HBn).
  rewrite drop_common_app. reflexivity.
Qed.

End RelativeFacts.

(* ================================================================== *)
(** ** The first server's [sanitizePath] *)
(* ================================================================== *)

Module LegacyFacts.
Import Js JsFacts Path PathFacts StripFacts ResolveFacts RelativeFacts.

Lemma strip_other_head (a : ascii) (s : string) :
  a <> "."%char -> strip_parent_prefix (String a s) = String a s.
Proof.
  intros Ha.
  destruct a as [[] [] [] [] [] [] [] []]; try reflexivity. contradiction.
Qed.

Lemma strip_other_second (b : ascii) (s : string) :
  b <> "."%char ->
  strip_parent_prefix (String "." (String b s)) = String "." (String b s).
Proof.
  intros Hb.
  destruct b as [[] [] [] [] [] [] [] []]; try reflexivity. contradiction.
Qed.

(** The four ways the regular expression meets a string. *)
Lemma strip_cases (s : string) :
  (s = ".." /\ strip_parent_prefix s = EmptyString)
  \/ (exists s', s = "../" ++ s' /\ strip_parent_prefix s = strip_parent_prefix s')
  \/ (exists s', s = "..\" ++ s' /\ strip_parent_prefix s = strip_parent_prefix s')
  \/ (strip_parent_prefix s = s /\ s <> ".."
      /\ forall s', s <> "../" ++ s').
Proof.
  destruct s as [|a s1].
  { right; right; right.
    split; [reflexivity | split; [discriminate | intros s'; discriminate]]. }
  destruct (Ascii.eqb_spec a "."%char) as [->|Ha].
  2:{ right; right; right.
      split; [apply strip_other_head; assumption|].
      split; [congruence | intros s' E; injection E; congruence]. }
  destruct s1 as [|b s2].
  { right; right; right.
    split; [reflexivity | split; [discriminate | intros s'; discriminate]]. }
  destruct (Ascii.eqb_spec b "."%char) as [->|Hb].
  2:{ right; right; right.
      split; [apply strip_other_second; assumption|].
      split; [congruence | intros s' E; injection E; congruence]. }
  destruct s2 as [|c s3].
  { left. split; reflexivity. }
  destruct (Ascii.eqb_spec c "/"%char) as [->|Hc].
  { right; left. exists s3. split; reflexivity. }
  destruct (Ascii.eqb_spec c "\"%char) as [->|Hc'].
  { right; right; left. exists s3. split; reflexivity. }
  right; right; right. split; [|split].
  - simpl. apply Ascii.eqb_neq in Hc, Hc'. rewrite Hc, Hc'. reflexivity.
  - discriminate.
  - intros s' E. injection E. congruence.
Qed.

Lemma split_cons_other (a : ascii) (s : string) :
  a <> "/"%char ->
  exists h t, split "/" s = h :: t /\ split "/" (String a s) = String a h :: t.
Proof.
  intros Ha. simpl. apply Ascii.eqb_neq in Ha. rewrite Ha.
  destruct (split "/" s) as [|h t] eqn:E; [exfalso; exact (split_not_nil _ _ E)|].
  eauto.
Qed.

(** A path whose first segment is [..] is [..] or starts with [../]. *)
Lemma first_segment_dotdot (s : string) (rest : list string) :
  split "/" s = ".." :: rest -> s = ".." \/ exists s', s = "../" ++ s'.
Proof.
  intros H.
  destruct s as [|a s1]; [discriminate|].
  destruct (Ascii.eqb_spec a "/"%char) as [->|Ha]; [discriminate|].
  destruct (split_cons_other a s1 Ha) as (h & t & E1 & E2).
  rewrite E2 in H. injection H as -> -> _.
  destruct s1 as [|b s2]; [discriminate|].
  destruct (Ascii.eqb_spec b "/"%char) as [->|Hb]; [discriminate|].
  destruct (split_cons_other b s2 Hb) as (h' & t' & E3 & E4).
  rewrite E4 in E1. injection E1 as -> -> _.
  destruct s2 as [|c s3]; [left; reflexivity|].
  destruct (Ascii.eqb_spec c "/"%char) as [->|Hc].
  - right. exists s3. reflexivity.
  - destruct (split_cons_other c s3 Hc) as (h'' & t'' & _ & E6).
    rewrite E6 in E3. discriminate.
Qed.

Lemma repeat_cons_inv (k : nat) (M : list string) (x : string) (l : list string) :
  (repeat ".." k ++ M)%list = x :: l ->
  (k = 0%nat /\ M = x :: l)
  \/ (exists k', k = S k' /\ x = ".." /\ l = (repeat ".." k' ++ M)%list).
Proof.
  destruct k as [|k]; simpl; intros H.
  - left. split; [reflexivity | assumption].
  - right. injection H as <- <-. eauto.
Qed.

(** Once stripped, a path whose [..] segments were all in front has
    none. *)
Lemma strip_no_dotdot (n : nat) :
  forall s,
    (String.length s <= n)%nat ->
    parents_in_front s ->
    ~ In ".." (split "/" (strip_parent_prefix s)).
Proof.
  induction n as [|n IH]; intros s Hlen (k & M & Esplit & HM).
  - destruct s; [|simpl in Hlen; lia].
    simpl. intros [E|[]]. discriminate.
  - destruct (strip_cases s)
      as [[-> ->]|[(s' & -> & ->)|[(s' & -> & ->)|(-> & Hne & Hnp)]]].
    + simpl. intros [E|[]]. discriminate.
    + apply IH; [simpl in Hlen; lia|].
      change ("../" ++ s') with (".." ++ String "/" s') in Esplit.
      rewrite split_app_sep in Esplit. simpl app in Esplit.
      symmetry in Esplit.
      destruct (repeat_cons_inv _ _ _ _ Esplit) as [[_ E]|(k' & _ & _ & E)].
      * exfalso. apply HM. rewrite E. left. reflexivity.
      * exists k', M. split; assumption.
    + apply IH; [simpl in Hlen; lia|].
      destruct (split "/" s') as [|h t] eqn:Es';
        [exfalso; exact (split_not_nil _ _ Es')|].
      assert (E : split "/" ("..\" ++ s') = ("..\" ++ h) :: t).
      { simpl. rewrite Es'. reflexivity. }
      rewrite E in Esplit. symmetry in Esplit.
      destruct (repeat_cons_inv _ _ _ _ Esplit) as [[_ EM]|(k' & _ & Ex & _)];
        [|discriminate].
      destruct (string_dec h "..") as [->|Hh].
      * exists 1%nat, t. split; [exact Es'|].
        intros Hin. apply HM. rewrite EM. right. assumption.
      * exists 0%nat, (h :: t). split; [exact Es'|].
        intros [Hin|Hin]; [congruence|].
        apply HM. rewrite EM. right. assumption.
    + destruct k as [|k]; [simpl in Esplit; rewrite Esplit; assumption|].
      simpl in Esplit. apply first_segment_dotdot in Esplit.
      destruct Esplit as [E|[s' E]]; [contradiction | exfalso; eapply Hnp; eassumption].
Qed.

Lemma split_join_trail (N : list string) (t : bool) :
  N <> [] ->
  Forall (fun s => has_char "/" s = false) N ->
  split "/" (if t then Js.join "/" N ++ "/" else Js.join "/" N)
  = (N ++ if t then [EmptyString] else [])%list.
Proof.
  intros HN Hs. destruct t.
  - change (Js.join "/" N ++ "/") with (Js.join "/" N ++ String "/" EmptyString).
    rewrite split_app_sep, split_join by assumption. reflexivity.
  - rewrite split_join, app_nil_r by assumption. reflexivity.
Qed.

Lemma not_in_plain_tail (M : list string) (t : bool) :
  Forall (fun s => plain_seg s = true) M ->
  ~ In ".." (M ++ if t then [EmptyString] else [])%list.
Proof.
  intros HM Hin. apply in_app_or in Hin. destruct Hin as [Hin|Hin].
  - rewrite Forall_forall in HM. apply HM in Hin. discriminate.
  - destruct t; simpl in Hin; intuition discriminate.
Qed.

(** A normalised path has its [..] segments in front. *)
Lemma normalize_parents_in_front (p : string) : parents_in_front (normalize p).
Proof.
  unfold normalize.
  destruct (p =? EmptyString).
  { exists 0%nat, ["."]. split; [reflexivity|]. intros [E|[]]. discriminate. }
  unfold normalizeString.
  set (N := normalizeSegs (negb (isAbsolute p)) [] (split "/" p)).
  assert (HNs : Forall (fun s => has_char "/" s = false) N).
  { apply Forall_forall. intros s Hs. apply normalizeSegs_In in Hs.
    destruct Hs as [[]|Hs]. eapply In_split_no_char. eassumption. }
  destruct (isAbsolute p) eqn:Habs; simpl negb in N.
  - (* absolute: no [..] at all *)
    assert (HNp : Forall (fun s => plain_seg s = true) N).
    { apply normalizeSegs_false_plain. constructor. }
    destruct (Js.join "/" N =? EmptyString) eqn:Eq.
    + exists 0%nat, [EmptyString; EmptyString]. split; [reflexivity|].
      intros [E|[E|[]]]; discriminate.
    + assert (HN : N <> []).
      { intros E. rewrite E in Eq. discriminate. }
      exists 0%nat, (EmptyString :: N ++ if endsWithSlash p then [EmptyString] else [])%list.
      split.
      * change ("/" ++ ?x) with (EmptyString ++ String "/" x).
        rewrite split_app_sep, split_join_trail by assumption. reflexivity.
      * intros [E|Hin]; [discriminate|].
        exact (not_in_plain_tail N _ HNp Hin).
  - (* relative: some [..], then plain segments *)
    destruct (normalizeSegs_true_shape (split "/" p)) as (k & M & EN & HM).
    fold N in EN.
    destruct (Js.join "/" N =? EmptyString) eqn:Eq.
    + exists 0%nat.
      destruct (endsWithSlash p);
        [exists ["."; EmptyString] | exists ["."]];
        (split; [reflexivity|]); simpl; intuition discriminate.
    + assert (HN : N <> []).
      { intros E. rewrite E in Eq. discriminate. }
      exists k, (M ++ if endsWithSlash p then [EmptyString] else [])%list.
      split.
      * rewrite split_join_trail by assumption.
        rewrite EN, <- app_assoc. reflexivity.
      * apply not_in_plain_tail. assumption.
Qed.

(** Without [..] among them, segments normalise to the plain ones put on
    top of what was kept. *)
Lemma normalizeSegs_no_dotdot (a : bool) (segs : list string) :
  ~ In ".." segs ->
  forall stack,
    normalizeSegs a stack segs = (rev stack ++ filter plain_seg segs)%list.
Proof.
  induction segs as [|seg rest IH]; intros Hno stack; simpl.
  - rewrite app_nil_r. reflexivity.
  - assert (Hrest : ~ In ".." rest) by (intros H; apply Hno; right; assumption).
    assert (Hseg : (seg =? "..") = false).
    { apply String.eqb_neq. intros ->. apply Hno. left. reflexivity. }
    unfold plain_seg at 1. rewrite Hseg.
    destruct (seg =? EmptyString); simpl; [apply IH; assumption|].
    destruct (seg =? "."); simpl; [apply IH; assumption|].
    rewrite IH by assumption. simpl. rewrite <- app_assoc. reflexivity.
Qed.

Lemma normalize_absolute_trail (p : string) :
  isAbsolute p = true ->
  normalizeString p false <> EmptyString ->
  normalize p
  = "/" ++ normalizeString p false ++ (if endsWithSlash p then "/" else EmptyString).
Proof.
  intros Ha Hq. unfold normalize. rewrite Ha. simpl negb.
  apply String.eqb_neq in Hq. rewrite Hq.
  destruct p; [discriminate|].
  destruct (endsWithSlash (String a p)); [reflexivity|].
  rewrite append_nil_r. reflexivity.
Qed.

(** Joining a path without [..] onto a rooted directory stays within
    it. *)
Lemma join_within (dir R : string) :
  rooted dir ->
  ~ In ".." (split "/" R) ->
  within dir (Path.join [dir; R]).
Proof.
  intros (b & B & -> & HB) Hno.
  assert (Hb : b <> EmptyString).
  { inversion HB as [|? ? Hb _]; subst. apply clean_seg_spec in Hb. tauto. }
  set (dir := "/" ++ Js.join "/" (b :: B)).
  assert (Ej : Path.join [dir; R]
               = normalize (if truthy R then dir ++ String "/" R else dir)).
  { unfold Path.join. simpl filter. destruct (truthy R); reflexivity. }
  rewrite Ej.
  set (M := filter plain_seg
              (if truthy R then split "/" R else [])).
  assert (Eq : normalizeString (if truthy R then dir ++ String "/" R else dir) false
               = Js.join "/" ((b :: B) ++ M)%list).
  { unfold normalizeString, M. destruct (truthy R).
    - unfold dir.
      rewrite split_app_sep, normalizeSegs_app, normalizeSegs_root by assumption.
      rewrite normalizeSegs_no_dotdot by assumption.
      rewrite rev_involutive. reflexivity.
    - unfold dir. rewrite normalizeSegs_root by assumption.
      simpl filter. rewrite app_nil_r. reflexivity. }
  rewrite normalize_absolute_trail;
    [ | destruct (truthy R); reflexivity
      | rewrite Eq; apply join_nonempty; assumption ].
  rewrite Eq.
  set (trail := if endsWithSlash (if truthy R then dir ++ String "/" R else dir)
                then "/" else EmptyString).
  destruct M as [|m M'].
  - rewrite app_nil_r. fold dir.
    assert (Ht : trail = EmptyString \/ trail = "/").
    { unfold trail. destruct (endsWithSlash _); auto. }
    destruct Ht as [-> | ->].
    + left. unfold dir. rewrite append_nil_r. reflexivity.
    + right. exists EmptyString. unfold dir, sep.
      rewrite !append_assoc. reflexivity.
  - right. exists (Js.join "/" (m :: M') ++ trail).
    rewrite join_app_below. unfold dir, sep. rewrite !append_assoc. reflexivity.
Qed.

(** Whatever the input, the first server's [sanitizePath] answers the
    configured directory or a path below it, provided that directory is
    written in normal form. *)
Lemma legacy_result_confined (config : Config) (userPath : string) :
  rooted (videoDirectory config) ->
  exists r, Legacy.sanitizePath config userPath = Ok r
            /\ within (videoDirectory config) r.
Proof.
  intros Hroot. unfold Legacy.sanitizePath.
  set (R := strip_parent_prefix (normalize userPath)).
  assert (Hno : ~ In ".." (split "/" R)).
  { apply (strip_no_dotdot (String.length (normalize userPath)));
      [apply le_n | apply normalize_parents_in_front]. }
  pose proof (join_within (videoDirectory config) R Hroot Hno) as Hw.
  assert (Hs : startsWith (Path.join [videoDirectory config; R])
                 (videoDirectory config) = true).
  { apply startsWith_spec. destruct Hw as [-> | [rest ->]].
    - exists EmptyString. symmetry. apply append_nil_r.
    - eauto. }
  rewrite Hs. simpl. eauto.
Qed.

End LegacyFacts.

Section StrippedRelative.

Context {rt : Js.Runtime}.

Import Js JsFacts Path PathFacts StripFacts ResolveFacts RelativeFacts LegacyFacts.

Variable config : Config.
Variable cwd : string.

(** [sanitizePath] succeeds whenever what is left after stripping is a
    relative path. *)
Lemma sanitizePath_stripped_relative_Ok (userPath : string) :
  isAbsolute cwd = true ->
  resolve cwd [videoDirectory config] <> "/" ->
  isAbsolute (strip_parent_prefix (normalize userPath)) = false ->
  exists r, sanitizePath config cwd userPath = Ok r.
Proof.
  intros Hcwd Hroot HS.
  destruct (resolve_normal_form cwd [videoDirectory config] Hcwd)
    as (B & EB & HB).
  unfold sanitizePath. rewrite EB in *.
  destruct (negb (truthy userPath) || (userPath =? EmptyString));
    [eexists; reflexivity|].
  set (S := strip_parent_prefix (normalize userPath)) in *.
  assert (Hno : ~ In ".." (split "/" S)).
  { apply (strip_no_dotdot (String.length (normalize userPath)));
      [apply le_n | apply normalize_parents_in_front]. }
  rewrite (resolve_below cwd S B HB HS).
  assert (Hno' : ~ In ".." (if S =? EmptyString then [EmptyString]
                            else split "/" (S ++ "/"))).
  { destruct (S =? EmptyString).
    - intros [E|[]]. discriminate.
    - change (S ++ "/") with (S ++ String "/" EmptyString).
      rewrite split_app_sep. intros Hin. apply in_app_or in Hin.
      destruct Hin as [Hin|[E|[]]]; [contradiction | discriminate]. }
  rewrite (normalizeSegs_no_dotdot false _ Hno'), rev_involutive.
  set (M := filter plain_seg _).
  destruct B as [|b B]; [exfalso; apply Hroot; reflexivity|].
  destruct M as [|m M'].
  - rewrite app_nil_r, String.eqb_refl, andb_false_r. eexists; reflexivity.
  - rewrite join_app_below.
    replace (startsWith
               ("/" ++ Js.join "/" (b :: B) ++ "/" ++ Js.join "/" (m :: M'))
               (("/" ++ Js.join "/" (b :: B)) ++ sep))
      with true.
    + simpl. eexists; reflexivity.
    + symmetry. apply startsWith_spec. exists (Js.join "/" (m :: M')).
      unfold sep. rewrite !append_assoc. reflexivity.
Qed.

End StrippedRelative.

(** C3, as the code has it.  An input whose [..] segments would lead out
    of the root is not rejected: normalisation leaves those segments in
    front, the regular expression strips them, and what remains is resolved
    below the root.  The call succeeds, with the root or a path below it,
    whenever the stripped path is relative, which is the case of every
    relative input without a backslash; and whatever the input, the call
    either throws the traversal error or returns such a path.  The
    function reads its configuration and the working directory only: it
    takes no file system. *)
Theorem sanitizePath_strips_parents (config : Config) (cwd : string) :
  Path.isAbsolute cwd = true ->
  Path.resolve cwd [videoDirectory config] <> "/" ->
  (forall p,
      Path.isAbsolute p = false ->
      has_char "\" p = false ->
      exists r, sanitizePath config cwd p = Ok r
                /\ within (Path.resolve cwd [videoDirectory config]) r)
  /\ (forall p,
        Path.isAbsolute (Js.strip_parent_prefix (Path.normalize p)) = false ->
        exists r, sanitizePath config cwd p = Ok r
                  /\ within (Path.resolve cwd [videoDirectory config]) r)
  /\ (forall p,
        sanitizePath config cwd p
          = Throw "Invalid path: directory traversal detected"
        \/ exists r, sanitizePath config cwd p = Ok r
                     /\ within (Path.resolve cwd [videoDirectory config]) r).
Proof.
  intros Hcwd Hroot. split; [|split].
  - intros p Hrel Hbs.
    destruct (sanitizePath_relative_Ok config cwd p Hcwd Hroot Hrel Hbs)
      as [r Hr].
    exists r. split; [assumption|].
    exact (sanitizePath_within config cwd p r Hr).
  - intros p HS.
    destruct (sanitizePath_stripped_relative_Ok config cwd p Hcwd Hroot HS)
      as [r Hr].
    exists r. split; [assumption|].
    exact (sanitizePath_within config cwd p r Hr).
  - intros p. destruct (sanitizePath config cwd p) as [r|m] eqn:E.
    + right. exists r. split; [reflexivity|].
      exact (sanitizePath_within config cwd p r E).
    + left. unfold sanitizePath in E.
      destruct (negb (Js.truthy p) || (p =? EmptyString)); [discriminate|].
      match type of E with
      | (if ?c then _ else _) = _ => destruct c; [congruence | discriminate]
      end.
Qed.

Lemma sanitizePath_strips_parents_witness :
  (forall p,
      Path.isAbsolute p = false ->
      has_char "\" p = false ->
      exists r, sanitizePath Scenario.config Scenario.cwd p = Ok r
                /\ within "/lib" r)
  /\ (forall p,
        Path.isAbsolute (Js.strip_parent_prefix (Path.normalize p)) = false ->
        exists r, sanitizePath Scenario.config Scenario.cwd p = Ok r
                  /\ within "/lib" r)
  /\ (forall p,
        sanitizePath Scenario.config Scenario.cwd p
          = Throw "Invalid path: directory traversal detected"
        \/ exists r, sanitizePath Scenario.config Scenario.cwd p = Ok r
                     /\ within "/lib" r).
Proof.
  apply (sanitizePath_strips_parents Scenario.config Scenario.cwd);
    [reflexivity | discriminate].
Defined.

(** C3 as stated fails: resolved naively against the root [/lib], the
    input [../../etc/passwd] leads to [/etc/passwd], outside the root, yet
    [sanitizePath] does not throw on it; it returns [/lib/etc/passwd]. *)
Lemma sanitizePath_parents_counterexample :
  Path.resolve Scenario.cwd ["/lib"; "../../etc/passwd"] = "/etc/passwd"
  /\ sanitizePath Scenario.config Scenario.cwd "../../etc/passwd"
     = Ok "/lib/etc/passwd".
Proof. split; reflexivity. Qed.

(* ================================================================== *)
(** ** What a path outside the root is answered *)
(* ================================================================== *)

Section TraversalStatus.

Context {rt : Js.Runtime}.

Variable config : Config.
Variable cwd : string.

Lemma sanitizePath_Throw_nonempty (p m : string) :
  sanitizePath config cwd p = Throw m -> Js.truthy p = true.
Proof.
  destruct p; [discriminate | reflexivity].
Qed.

Lemma video_handler_Throw (fs : Fs.t) (req : Request) (p m : string) :
  query_path req = Some p ->
  sanitizePath config cwd p = Throw m ->
  video_handler config cwd fs req = json_error 500 m.
Proof.
  intros Hq Hs. unfold video_handler. rewrite Hq. simpl or_empty.
  rewrite (sanitizePath_Throw_nonempty p m Hs). simpl negb. cbv iota.
  rewrite Hs. reflexivity.
Qed.

Lemma browse_handler_Throw (fs : Fs.t) (req : Request) (p m : string) :
  query_path req = Some p ->
  sanitizePath config cwd p = Throw m ->
  browse_handler config cwd fs req = json_error 500 m.
Proof.
  intros Hq Hs. unfold browse_handler. rewrite Hq. simpl or_empty.
  rewrite (sanitizePath_Throw_nonempty p m Hs). cbv zeta.
  rewrite Hs. reflexivity.
Qed.

End TraversalStatus.

(** C4, as the code has it.  When [sanitizePath] rejects the path of an
    authenticated request, the exception lands in the handler's catch-all:
    both [/api/video] and [/api/browse] answer 500 with the message of the
    error.  The answer carries no byte of any file and is the same whatever
    the file system holds. *)
Theorem rejected_path_answered_500 {rt : Js.Runtime}
    (config : Config) (cwd : string) (fs : Fs.t) (req : Request) (p m : string) :
  host_allowed (host req) = true ->
  authenticated req = true ->
  query_path req = Some p ->
  sanitizePath config cwd p = Throw m ->
  api_video config cwd fs req = json_error 500 m
  /\ api_browse config cwd fs req = json_error 500 m
  /\ file_bytes fs (api_video config cwd fs req) = []
  /\ file_bytes fs (api_browse config cwd fs req) = []
  /\ (forall fs', api_video config cwd fs' req = api_video config cwd fs req)
  /\ (forall fs', api_browse config cwd fs' req = api_browse config cwd fs req).
Proof.
  intros Hh Ha Hq Hs.
  assert (Hv : forall f, api_video config cwd f req = json_error 500 m).
  { intros f. unfold api_video, with_middleware. rewrite Hh, Ha. simpl.
    exact (video_handler_Throw config cwd f req p m Hq Hs). }
  assert (Hb : forall f, api_browse config cwd f req = json_error 500 m).
  { intros f. unfold api_browse, with_middleware. rewrite Hh, Ha. simpl.
    exact (browse_handler_Throw config cwd f req p m Hq Hs). }
  rewrite (Hv fs), (Hb fs). repeat split; auto.
Qed.

Lemma rejected_path_answered_500_witness :
  let req := Scenario.request (Some "/etc/passwd") None None in
  let m := "Invalid path: directory traversal detected" in
  api_video Scenario.config Scenario.cwd Scenario.fs req = json_error 500 m
  /\ api_browse Scenario.config Scenario.cwd Scenario.fs req = json_error 500 m
  /\ file_bytes Scenario.fs
       (api_video Scenario.config Scenario.cwd Scenario.fs req) = []
  /\ file_bytes Scenario.fs
       (api_browse Scenario.config Scenario.cwd Scenario.fs req) = []
  /\ (forall fs', api_video Scenario.config Scenario.cwd fs' req
                  = api_video Scenario.config Scenario.cwd Scenario.fs req)
  /\ (forall fs', api_browse Scenario.config Scenario.cwd fs' req
                  = api_browse Scenario.config Scenario.cwd Scenario.fs req).
Proof.
  exact (rejected_path_answered_500 Scenario.config Scenario.cwd Scenario.fs
           (Scenario.request (Some "/etc/passwd") None None) "/etc/passwd"
           "Invalid path: directory traversal detected"
           eq_refl eq_refl eq_refl eq_refl).
Defined.

(** C4 as stated fails.  Against the root [/lib], the request
    [/api/video?path=../../etc/passwd] is answered 500, not 400 or 403 (the
    stripped path [/lib/etc/passwd] does not exist and [stat] rejects); so
    are [/api/video?path=/etc/passwd] and [/api/browse?path=/etc], which
    [sanitizePath] rejects.  And [/api/video?path=../clip.mp4] is answered
    200 with the ten bytes of [/lib/clip.mp4]. *)
Lemma traversal_status_counterexample :
  status (api_video Scenario.config Scenario.cwd Scenario.fs
            (Scenario.request (Some "../../etc/passwd") None None)) = 500%Z
  /\ status (api_video Scenario.config Scenario.cwd Scenario.fs
               (Scenario.request (Some "/etc/passwd") None None)) = 500%Z
  /\ status (api_browse Scenario.config Scenario.cwd Scenario.fs
               (Scenario.request (Some "/etc") None None)) = 500%Z
  /\ Path.resolve Scenario.cwd ["/lib"; "../clip.mp4"] = "/clip.mp4"
  /\ status (api_video Scenario.config Scenario.cwd Clip.fs
               (Scenario.request (Some "../clip.mp4") None None)) = 200%Z
  /\ file_bytes Clip.fs
       (api_video Scenario.config Scenario.cwd Clip.fs
          (Scenario.request (Some "../clip.mp4") None None)) = Clip.bytes.
Proof. repeat split; reflexivity. Qed.

(* ================================================================== *)
(** ** Numbers in range headers *)
(* ================================================================== *)

Module NumFacts.
Import Js JsFacts.

Lemma leading_digits_uint (d : Decimal.uint) (rest : string) :
  leading_digits rest = Decimal.Nil ->
  leading_digits (DecimalString.NilEmpty.string_of_uint d ++ rest) = d.
Proof.
  intros Hrest. induction d; simpl; rewrite ?IHd; auto.
Qed.

Lemma skip_ws_uint (d : Decimal.uint) (rest : string) :
  d <> Decimal.Nil ->
  skip_ws (DecimalString.NilEmpty.string_of_uint d ++ rest)
  = DecimalString.NilEmpty.string_of_uint d ++ rest.
Proof. destruct d; intros H; [congruence | reflexivity ..]. Qed.

Lemma has_dash_uint (d : Decimal.uint) :
  has_char "-" (DecimalString.NilEmpty.string_of_uint d) = false.
Proof. induction d; simpl; auto. Qed.

(** The decimal numeral of a natural number. *)
Lemma toString_nonneg (z : Z) :
  (0 <= z)%Z ->
  exists d, toString z = DecimalString.NilEmpty.string_of_uint d
            /\ d <> Decimal.Nil /\ Z.of_uint d = z.
Proof.
  intros Hz. destruct z as [|p|p]; [| |lia].
  - exists (Decimal.D0 Decimal.Nil). repeat split. discriminate.
  - exists (Pos.to_uint p). repeat split.
    + apply DecimalPos.Unsigned.to_uint_nonnil.
    + unfold Z.of_uint. rewrite DecimalPos.Unsigned.of_to. reflexivity.
Qed.

Lemma toString_no_dash (z : Z) : (0 <= z)%Z -> has_char "-" (toString z) = false.
Proof.
  intros Hz. destruct (toString_nonneg z Hz) as (d & -> & _ & _).
  apply has_dash_uint.
Qed.

Lemma toString_truthy (z : Z) : (0 <= z)%Z -> truthy (toString z) = true.
Proof.
  intros Hz. destruct (toString_nonneg z Hz) as (d & -> & Hd & _).
  destruct d; [congruence | reflexivity ..].
Qed.

(** [parseInt] reads back what [toString] wrote, whatever non-digit
    follows. *)
Lemma parseInt_toString (z : Z) (rest : string) :
  (0 <= z < overflow_threshold)%Z ->
  leading_digits rest = Decimal.Nil ->
  parseInt (toString z ++ rest) = Num z.
Proof.
  intros [Hz Hlt] Hrest.
  destruct (toString_nonneg z Hz) as (d & -> & Hd & <-).
  unfold parseInt. rewrite (skip_ws_uint d rest Hd).
  assert (Hsign :
    (match DecimalString.NilEmpty.string_of_uint d ++ rest with
     | String "-" r => (true, r)
     | String "+" r => (false, r)
     | _ => (false, DecimalString.NilEmpty.string_of_uint d ++ rest)
     end) = (false, DecimalString.NilEmpty.string_of_uint d ++ rest)).
  { destruct d; [congruence | reflexivity ..]. }
  rewrite Hsign, (leading_digits_uint d rest Hrest).
  apply Z.leb_gt in Hlt.
  destruct d; [congruence | rewrite Hlt; reflexivity ..].
Qed.

Lemma safe_below_threshold (z : Z) :
  (z <= 2 ^ 53)%Z -> (z < overflow_threshold)%Z.
Proof.
  intros H. unfold overflow_threshold.
  assert (2 ^ 53 < (2 ^ 54 - 1) * 2 ^ 970)%Z by (vm_compute; reflexivity).
  lia.
Qed.

End NumFacts.

(* ================================================================== *)
(** ** Range requests on [/api/video] *)
(* ================================================================== *)

Section RangeStreaming.

Context {rt : Js.Runtime}.

Import Js JsFacts NumFacts.

Variable config : Config.
Variable cwd : string.
Variable fs : Fs.t.

(** The reply to a range request whose read stream could be opened. *)
Lemma video_range_reply (req : Request) (fullPath : string) (stats : Fs.Stats)
    (r : string) (rs : Fs.ReadStream) :
  serves_video config cwd fs req fullPath stats ->
  range req = Some r ->
  truthy r = true ->
  Fs.createReadStream fullPath (range_start r) (range_end r (Fs.size stats))
    = Ok rs ->
  api_video config cwd fs req
  = {| status := 206;
       headers :=
         [ ("Content-Range",
            HStr ("bytes " ++ number_toString (range_start r) ++ "-"
                  ++ number_toString (range_end r (Fs.size stats)) ++ "/"
                  ++ toString (Fs.size stats)));
           ("Accept-Ranges", HStr "bytes");
           ("Content-Length",
            HNum (add (sub (range_end r (Fs.size stats)) (range_start r))
                    (Num 1)));
           ("Content-Type", HStr (getMimeType fullPath)) ];
       body := Piped rs |}.
Proof.
  intros (Hh & Ha & (p & Hq & Hp & Hs) & Hst & Hf & Hv) Hr Ht Hrs.
  unfold api_video, with_middleware. rewrite Hh, Ha. simpl negb. cbv iota.
  unfold video_handler. rewrite Hq. simpl or_empty. rewrite Hp. simpl negb.
  cbv iota. rewrite Hs. simpl bind. rewrite Hst. simpl bind.
  rewrite Hf, Hv. simpl. rewrite Hr. simpl or_empty. rewrite Ht, Hrs.
  reflexivity.
Qed.

(** The reply to a range request whose read stream could not be opened:
    the constructor throws before any header is written. *)
Lemma video_range_throw (req : Request) (fullPath : string) (stats : Fs.Stats)
    (r m : string) :
  serves_video config cwd fs req fullPath stats ->
  range req = Some r ->
  truthy r = true ->
  Fs.createReadStream fullPath (range_start r) (range_end r (Fs.size stats))
    = Throw m ->
  api_video config cwd fs req = json_error 500 m.
Proof.
  intros (Hh & Ha & (p & Hq & Hp & Hs) & Hst & Hf & Hv) Hr Ht Hrs.
  unfold api_video, with_middleware. rewrite Hh, Ha. simpl negb. cbv iota.
  unfold video_handler. rewrite Hq. simpl or_empty. rewrite Hp. simpl negb.
  cbv iota. rewrite Hs. simpl bind. rewrite Hst. simpl bind.
  rewrite Hf, Hv. simpl. rewrite Hr. simpl or_empty. rewrite Ht, Hrs.
  reflexivity.
Qed.

Lemma range_header_parts (start : Z) (end_ : option Z) :
  (0 <= start)%Z ->
  (forall e, end_ = Some e -> (0 <= e)%Z) ->
  split "-" (remove_first "bytes=" (range_header start end_))
  = [toString start;
     match end_ with Some e => toString e | None => EmptyString end].
Proof.
  intros Hs He. unfold range_header.
  change (remove_first "bytes=" ("bytes=" ++ ?x)) with x.
  change (toString start ++ "-" ++ ?x) with (toString start ++ String "-" x).
  rewrite split_app_sep.
  rewrite (split_no_char "-" (toString start) (toString_no_dash start Hs)).
  rewrite split_no_char; [reflexivity|].
  destruct end_ as [e|]; [apply toString_no_dash; auto | reflexivity].
Qed.

Lemma range_header_start (start : Z) (end_ : option Z) :
  (0 <= start < overflow_threshold)%Z ->
  (forall e, end_ = Some e -> (0 <= e)%Z) ->
  range_start (range_header start end_) = Num start.
Proof.
  intros Hs He. unfold range_start.
  rewrite range_header_parts by (try assumption; lia). simpl nth.
  rewrite <- (append_nil_r (toString start)).
  apply parseInt_toString; [assumption | reflexivity].
Qed.

Lemma range_header_end (start : Z) (end_ : option Z) (fileSize : Z) :
  (0 <= start)%Z ->
  (forall e, end_ = Some e -> (0 <= e < overflow_threshold)%Z) ->
  range_end (range_header start end_) fileSize
  = Num (effective_end end_ fileSize).
Proof.
  intros Hs He. unfold range_end.
  rewrite range_header_parts; [|assumption|intros e E; apply He in E; lia].
  simpl nth_error. destruct end_ as [e|]; [|reflexivity].
  specialize (He e eq_refl).
  rewrite toString_truthy by lia.
  rewrite <- (append_nil_r (toString e)).
  apply parseInt_toString; [assumption | reflexivity].
Qed.

Lemma range_header_truthy (start : Z) (end_ : option Z) :
  truthy (range_header start end_) = true.
Proof. reflexivity. Qed.

(** A span that lies within the file is delivered in full. *)
Lemma stream_bytes_length (p : string) (start e : Z) :
  (0 <= start <= e)%Z ->
  (e < Z.of_nat (List.length (Fs.content fs p)))%Z ->
  Z.of_nat (List.length
    (Fs.stream_bytes fs {| Fs.rs_path := p; Fs.rs_start := start;
                           Fs.rs_end := Some e |}))
  = (e - start + 1)%Z.
Proof.
  intros Hs He. unfold Fs.stream_bytes. simpl.
  rewrite length_firstn, length_skipn. lia.
Qed.

End RangeStreaming.

(** C5.  A range request [bytes=<start>-<end>] or [bytes=<start>-] whose
    span lies within a regular video file of [N] bytes is answered 206 with
    [Content-Range: bytes <start>-<end>/<N>], [Accept-Ranges: bytes],
    [Content-Length] the length of the span and the content type of the
    file; the body is the read stream over exactly that span, which
    delivers [end - start + 1] bytes.  A missing end stands for [N - 1]. *)
Theorem range_request_served {rt : Js.Runtime}
    (config : Config) (cwd : string) (fs : Fs.t) (req : Request)
    (fullPath : string) (stats : Fs.Stats) (start : Z) (end_ : option Z) :
  serves_video config cwd fs req fullPath stats ->
  Z.of_nat (List.length (Fs.content fs fullPath)) = Fs.size stats ->
  (Fs.size stats <= 2 ^ 53)%Z ->
  (0 <= start <= effective_end end_ (Fs.size stats))%Z ->
  (effective_end end_ (Fs.size stats) < Fs.size stats)%Z ->
  range req = Some (range_header start end_) ->
  api_video config cwd fs req
  = {| status := 206;
       headers :=
         [ ("Content-Range",
            HStr ("bytes " ++ Js.toString start ++ "-"
                  ++ Js.toString (effective_end end_ (Fs.size stats)) ++ "/"
                  ++ Js.toString (Fs.size stats)));
           ("Accept-Ranges", HStr "bytes");
           ("Content-Length",
            HNum (Js.Num (effective_end end_ (Fs.size stats) - start + 1)));
           ("Content-Type", HStr (getMimeType fullPath)) ];
       body := Piped {| Fs.rs_path := fullPath; Fs.rs_start := start;
                        Fs.rs_end := Some (effective_end end_ (Fs.size stats)) |} |}
  /\ file_bytes fs (api_video config cwd fs req)
     = firstn (Z.to_nat (effective_end end_ (Fs.size stats) - start + 1))
         (skipn (Z.to_nat start) (Fs.content fs fullPath))
  /\ Z.of_nat (List.length (file_bytes fs (api_video config cwd fs req)))
     = (effective_end end_ (Fs.size stats) - start + 1)%Z.
Proof.
  intros Hserve Hlen Hsize Hstart Hend Hrange.
  set (N := Fs.size stats) in *. set (e := effective_end end_ N) in *.
  assert (He : forall x, end_ = Some x -> (0 <= x < Js.overflow_threshold)%Z).
  { intros x ->. simpl in e. subst e. split; [lia|].
    apply NumFacts.safe_below_threshold. lia. }
  assert (Es : range_start (range_header start end_) = Js.Num start).
  { apply range_header_start.
    - split; [lia|]. apply NumFacts.safe_below_threshold. lia.
    - intros x Hx. apply He in Hx. lia. }
  assert (Ee : range_end (range_header start end_) N = Js.Num e).
  { apply range_header_end; [lia | assumption]. }
  assert (Hrs :
    Fs.createReadStream fullPath (range_start (range_header start end_))
      (range_end (range_header start end_) N)
    = Ok {| Fs.rs_path := fullPath; Fs.rs_start := start; Fs.rs_end := Some e |}).
  { rewrite Es, Ee. unfold Fs.createReadStream, Fs.validateInteger.
    replace ((0 <=? start)%Z && (start <=? 2 ^ 53 - 1)%Z) with true
      by (symmetry; apply andb_true_iff; split; apply Z.leb_le; lia).
    replace ((0 <=? e)%Z && (e <=? 2 ^ 53 - 1)%Z) with true
      by (symmetry; apply andb_true_iff; split; apply Z.leb_le; lia).
    simpl negb. cbv iota.
    replace (e <? start)%Z with false by (symmetry; apply Z.ltb_ge; lia).
    reflexivity. }
  pose proof (video_range_reply config cwd fs req fullPath stats
                (range_header start end_) _ Hserve Hrange
                (range_header_truthy start end_) Hrs) as Hreply.
  fold N in Hreply. rewrite Es, Ee in Hreply.
  replace (Js.add (Js.sub (Js.Num e) (Js.Num start)) (Js.Num 1))
    with (Js.Num (e - start + 1)) in Hreply by reflexivity.
  rewrite Hreply. split; [reflexivity|]. split; [reflexivity|].
  unfold file_bytes. simpl body.
  apply stream_bytes_length; [lia | rewrite Hlen; assumption].
Qed.

Lemma range_request_served_witness :
  api_video Scenario.config Scenario.cwd Clip.fs (Clip.request (Some "bytes=2-5"))
  = {| status := 206;
       headers :=
         [ ("Content-Range", HStr "bytes 2-5/10");
           ("Accept-Ranges", HStr "bytes");
           ("Content-Length", HNum (Js.Num 4));
           ("Content-Type", HStr "video/mp4") ];
       body := Piped {| Fs.rs_path := "/lib/clip.mp4"; Fs.rs_start := 2;
                        Fs.rs_end := Some 5%Z |} |}
  /\ file_bytes Clip.fs
       (api_video Scenario.config Scenario.cwd Clip.fs
          (Clip.request (Some "bytes=2-5")))
     = [Byte.x02; Byte.x03; Byte.x04; Byte.x05]
  /\ Z.of_nat (List.length
       (file_bytes Clip.fs
          (api_video Scenario.config Scenario.cwd Clip.fs
             (Clip.request (Some "bytes=2-5"))))) = 4%Z.
Proof.
  apply (range_request_served Scenario.config Scenario.cwd Clip.fs
           (Clip.request (Some "bytes=2-5")) "/lib/clip.mp4"
           (Scenario.file_stats 10) 2 (Some 5%Z)).
  - repeat split; try reflexivity.
    exists "clip.mp4". repeat split; reflexivity.
  - reflexivity.
  - simpl. lia.
  - simpl. lia.
  - simpl. lia.
  - reflexivity.
Defined.

Section RangeUnchecked.

Context {rt : Js.Runtime}.

Import Js JsFacts NumFacts.

Variable config : Config.
Variable cwd : string.

Lemma serves_video_with_range (fs : Fs.t) (req : Request) (fullPath : string)
    (stats : Fs.Stats) (r : option string) :
  serves_video config cwd fs req fullPath stats ->
  serves_video config cwd fs (with_range req r) fullPath stats.
Proof. unfold serves_video. simpl. tauto. Qed.

(** The streaming handler knows four status codes. *)
Lemma video_handler_status (fs : Fs.t) (req : Request) :
  In (status (video_handler config cwd fs req)) [200; 206; 400; 500]%Z.
Proof.
  unfold video_handler.
  destruct (negb (truthy (or_empty (query_path req)))); [simpl; auto|].
  destruct (sanitizePath config cwd (or_empty (query_path req))); [|simpl; auto].
  simpl bind. destruct (Fs.stat fs a); [|simpl; auto]. simpl bind.
  destruct (negb (Fs.stats_isFile a0) || negb (isVideoFile config a));
    [simpl; auto|].
  destruct (truthy (or_empty (range req))); [|simpl; auto].
  destruct (Fs.createReadStream a _ _); simpl; auto.
Qed.

Lemma api_video_status (fs : Fs.t) (req : Request) :
  In (status (api_video config cwd fs req)) [200; 206; 400; 401; 403; 500]%Z.
Proof.
  unfold api_video, with_middleware.
  destruct (negb (host_allowed (host req))); [simpl; auto 6|].
  destruct (negb (authenticated req)); [simpl; auto 6|].
  pose proof (video_handler_status fs req) as H. simpl in *. intuition.
Qed.

End RangeUnchecked.

(** C1, as the code has it.  The handler never answers 416: the only
    status codes of [/api/video] are 200, 206, 400, 401, 403 and 500.  The
    numbers of a range header are handed to the read stream as they are.  On
    a regular video file of [N] bytes the header [bytes=N-(N+10)] is
    answered 206 with [Content-Range: bytes N-(N+10)/N] and
    [Content-Length: 11] over a read stream that starts at offset [N], past
    the last byte, and delivers nothing; a header whose start is not a
    number makes the stream constructor throw and is answered 500 with the
    message of that error. *)
Theorem range_past_end_answered_206 {rt : Js.Runtime}
    (config : Config) (cwd : string) (fs : Fs.t) (req : Request)
    (fullPath : string) (stats : Fs.Stats) :
  serves_video config cwd fs req fullPath stats ->
  Z.of_nat (List.length (Fs.content fs fullPath)) = Fs.size stats ->
  (Fs.size stats + 10 <= 2 ^ 53 - 1)%Z ->
  range req
    = Some (range_header (Fs.size stats) (Some (Fs.size stats + 10)%Z)) ->
  api_video config cwd fs req
  = {| status := 206;
       headers :=
         [ ("Content-Range",
            HStr ("bytes " ++ Js.toString (Fs.size stats) ++ "-"
                  ++ Js.toString (Fs.size stats + 10) ++ "/"
                  ++ Js.toString (Fs.size stats)));
           ("Accept-Ranges", HStr "bytes");
           ("Content-Length", HNum (Js.Num 11));
           ("Content-Type", HStr (getMimeType fullPath)) ];
       body := Piped {| Fs.rs_path := fullPath; Fs.rs_start := Fs.size stats;
                        Fs.rs_end := Some (Fs.size stats + 10)%Z |} |}
  /\ file_bytes fs (api_video config cwd fs req) = []
  /\ (forall r,
        Js.truthy r = true ->
        range_start r = Js.NaN ->
        api_video config cwd fs (with_range req (Some r))
        = json_error 500
            (Js.range_error_message Js.NaN (range_end r (Fs.size stats))))
  /\ (forall fs' req',
        In (status (api_video config cwd fs' req'))
           [200; 206; 400; 401; 403; 500]%Z).
Proof.
  intros Hserve Hlen Hsize Hrange.
  set (N := Fs.size stats) in *.
  assert (HN : (0 <= N)%Z) by lia.
  assert (Es : range_start (range_header N (Some (N + 10)%Z)) = Js.Num N).
  { apply range_header_start.
    - split; [lia|]. apply NumFacts.safe_below_threshold. lia.
    - intros x [= <-]. lia. }
  assert (Ee : range_end (range_header N (Some (N + 10)%Z)) N = Js.Num (N + 10)).
  { apply (range_header_end N (Some (N + 10)%Z) N); [lia|].
    intros x [= <-]. split; [lia|]. apply NumFacts.safe_below_threshold. lia. }
  assert (Hrs :
    Fs.createReadStream fullPath
      (range_start (range_header N (Some (N + 10)%Z)))
      (range_end (range_header N (Some (N + 10)%Z)) N)
    = Ok {| Fs.rs_path := fullPath; Fs.rs_start := N;
            Fs.rs_end := Some (N + 10)%Z |}).
  { rewrite Es, Ee. unfold Fs.createReadStream, Fs.validateInteger.
    replace ((0 <=? N)%Z && (N <=? 2 ^ 53 - 1)%Z) with true
      by (symmetry; apply andb_true_iff; split; apply Z.leb_le; lia).
    replace ((0 <=? N + 10)%Z && (N + 10 <=? 2 ^ 53 - 1)%Z) with true
      by (symmetry; apply andb_true_iff; split; apply Z.leb_le; lia).
    simpl negb. cbv iota.
    replace (N + 10 <? N)%Z with false by (symmetry; apply Z.ltb_ge; lia).
    reflexivity. }
  pose proof (video_range_reply config cwd fs req fullPath stats _ _ Hserve
                Hrange (range_header_truthy N (Some (N + 10)%Z)) Hrs) as Hreply.
  fold N in Hreply. rewrite Es, Ee in Hreply.
  replace (Js.add (Js.sub (Js.Num (N + 10)) (Js.Num N)) (Js.Num 1))
    with (Js.Num 11) in Hreply by (simpl; f_equal; lia).
  rewrite Hreply. split; [reflexivity|]. split; [|split].
  - unfold file_bytes, Fs.stream_bytes. simpl.
    rewrite skipn_all2 by lia. apply firstn_nil.
  - intros r Ht Hs.
    apply (video_range_throw config cwd fs (with_range req (Some r))
             fullPath stats r);
      [apply serves_video_with_range; assumption | reflexivity | assumption |].
    rewrite Hs. reflexivity.
  - intros fs' req'. apply api_video_status.
Qed.

Lemma range_past_end_answered_206_witness :
  api_video Scenario.config Scenario.cwd Clip.fs (Clip.request (Some "bytes=10-20"))
  = {| status := 206;
       headers :=
         [ ("Content-Range", HStr "bytes 10-20/10");
           ("Accept-Ranges", HStr "bytes");
           ("Content-Length", HNum (Js.Num 11));
           ("Content-Type", HStr "video/mp4") ];
       body := Piped {| Fs.rs_path := "/lib/clip.mp4"; Fs.rs_start := 10;
                        Fs.rs_end := Some 20%Z |} |}
  /\ file_bytes Clip.fs
       (api_video Scenario.config Scenario.cwd Clip.fs
          (Clip.request (Some "bytes=10-20"))) = []
  /\ (forall r,
        Js.truthy r = true ->
        range_start r = Js.NaN ->
        api_video Scenario.config Scenario.cwd Clip.fs
          (with_range (Clip.request (Some "bytes=10-20")) (Some r))
        = json_error 500 (Js.range_error_message Js.NaN (range_end r 10)))
  /\ (forall fs' req',
        In (status (api_video Scenario.config Scenario.cwd fs' req'))
           [200; 206; 400; 401; 403; 500]%Z).
Proof.
  apply (range_past_end_answered_206 Scenario.config Scenario.cwd Clip.fs
           (Clip.request (Some "bytes=10-20")) "/lib/clip.mp4"
           (Scenario.file_stats 10)).
  - repeat split; try reflexivity.
    exists "clip.mp4". repeat split; reflexivity.
  - reflexivity.
  - simpl. lia.
  - reflexivity.
Defined.

(** C1 as stated fails.  On the ten-byte file [/lib/clip.mp4] the header
    [bytes=10-20], whose start is at the end of the file, is answered 206
    over a read stream opened at offset 10, with an empty body; the
    malformed headers [bytes=abc] and [bytes=-5] are answered 500, and the
    malformed header [bytes=3- 9x], and [bytes=2-5] with a no-break space in
    front of the 2, are answered 206 as if they were [bytes=3-9] and
    [bytes=2-5]. *)
Lemma range_error_counterexample :
  status (api_video Scenario.config Scenario.cwd Clip.fs
            (Clip.request (Some "bytes=10-20"))) = 206%Z
  /\ body (api_video Scenario.config Scenario.cwd Clip.fs
             (Clip.request (Some "bytes=10-20")))
     = Piped {| Fs.rs_path := "/lib/clip.mp4"; Fs.rs_start := 10;
                Fs.rs_end := Some 20%Z |}
  /\ file_bytes Clip.fs
       (api_video Scenario.config Scenario.cwd Clip.fs
          (Clip.request (Some "bytes=10-20"))) = []
  /\ status (api_video Scenario.config Scenario.cwd Clip.fs
               (Clip.request (Some "bytes=abc"))) = 500%Z
  /\ status (api_video Scenario.config Scenario.cwd Clip.fs
               (Clip.request (Some "bytes=-5"))) = 500%Z
  /\ status (api_video Scenario.config Scenario.cwd Clip.fs
               (Clip.request (Some "bytes=3- 9x"))) = 206%Z
  /\ body (api_video Scenario.config Scenario.cwd Clip.fs
             (Clip.request
                (Some ("bytes=" ++ String (ascii_of_nat 160) "2-5"))))
     = Piped {| Fs.rs_path := "/lib/clip.mp4"; Fs.rs_start := 2;
                Fs.rs_end := Some 5%Z |}.
Proof. repeat split; reflexivity. Qed.

(* ================================================================== *)
(** ** Directory names and containment *)
(* ================================================================== *)

Module DirFacts.
Import Js JsFacts Path PathFacts StripFacts ResolveFacts RelativeFacts.

Lemma includes_char (c : ascii) (s : string) :
  includes s (String c EmptyString) = has_char c s.
Proof.
  induction s as [|a s IH]; [reflexivity|].
  simpl. rewrite IH, andb_true_r. reflexivity.
Qed.

Lemma list_ascii_app (a b : string) :
  list_ascii_of_string (a ++ b)
  = (list_ascii_of_string a ++ list_ascii_of_string b)%list.
Proof. induction a as [|x a IH]; simpl; congruence. Qed.

Lemma length_append (a b : string) :
  String.length (a ++ b) = (String.length a + String.length b)%nat.
Proof. induction a as [|x a IH]; simpl; congruence. Qed.

Lemma take_append (a b : string) : take (String.length a) (a ++ b) = a.
Proof. induction a as [|x a IH]; simpl; [destruct b; reflexivity | congruence]. Qed.

(** The backwards scan stops at the first separator in front of a last
    segment. *)
Lemma dirname_scan_tail (xs rest : list ascii) :
  Forall (fun c => Ascii.eqb c "/" = false) xs ->
  forall i ms,
    xs <> [] \/ ms = false ->
    dirname_scan (xs ++ "/"%char :: rest) i ms = Some (i - List.length xs)%nat.
Proof.
  induction 1 as [|c xs Hc Hxs IH]; intros i ms Hms.
  - destruct Hms as [Hms | ->]; [congruence|]. simpl. f_equal. lia.
  - simpl. rewrite Hc. rewrite IH by (right; reflexivity). f_equal. lia.
Qed.

(** The directory name of a rooted path is the path without its last
    segment. *)
Lemma dirname_rooted (segs : list string) (x : string) :
  Forall (fun s => clean_seg s = true) (segs ++ [x]) ->
  dirname ("/" ++ Js.join "/" (segs ++ [x])%list) = "/" ++ Js.join "/" segs.
Proof.
  intros H. apply Forall_app in H as [HS Hx].
  inversion Hx as [|? ? Hx' _]; subst.
  destruct (clean_seg_spec x Hx') as (_ & Hxs & Hxne).
  destruct segs as [|b B].
  - change ("/" ++ Js.join "/" ([] ++ [x])%list) with (String "/" x).
    unfold dirname. rewrite dirname_scan_no_slash; [reflexivity|].
    apply Forall_rev. apply has_char_list. assumption.
  - rewrite join_app_below.
    set (J := Js.join "/" (b :: B)).
    assert (HJ : J <> EmptyString).
    { apply join_nonempty. inversion HS as [|? ? Hb _]; subst.
      apply clean_seg_spec in Hb. tauto. }
    change ("/" ++ J ++ "/" ++ Js.join "/" [x]) with (String "/" (J ++ String "/" x)).
    unfold dirname.
    rewrite list_ascii_app. simpl list_ascii_of_string.
    rewrite rev_app_distr. simpl rev. rewrite <- app_assoc. simpl app.
    rewrite dirname_scan_tail.
    + rewrite length_rev, length_list_ascii, length_append. simpl String.length.
      replace (String.length J + S (String.length x) - String.length x)%nat
        with (S (String.length J)) by lia.
      replace (S (String.length J) =? 1)%nat with false.
      * rewrite andb_false_r. simpl take. rewrite take_append. reflexivity.
      * symmetry. apply Nat.eqb_neq. destruct J; [congruence | simpl; lia].
    + apply Forall_rev. apply has_char_list. assumption.
    + left. destruct x as [|c x]; [congruence|]. simpl.
      intros E. apply (f_equal (@List.length ascii)) in E.
      rewrite length_app in E. simpl in E. lia.
Qed.

(** A rooted path within a rooted directory continues its segments. *)
Lemma within_segments (B segs : list string) :
  B <> [] ->
  Forall (fun s => clean_seg s = true) B ->
  Forall (fun s => clean_seg s = true) segs ->
  within ("/" ++ Js.join "/" B) ("/" ++ Js.join "/" segs) ->
  exists D, segs = (B ++ D)%list.
Proof.
  intros HBne HB Hsegs [E|[rest E]].
  - apply rooted_injective in E; [|assumption|assumption].
    exists []. rewrite app_nil_r. exact E.
  - apply (f_equal (split "/")) in E.
    unfold sep in E.
    change ("/" ++ rest) with (String "/" rest) in E.
    rewrite split_app_sep, (split_absolute B HB), (split_absolute segs Hsegs) in E.
    destruct B as [|b B]; [congruence|].
    destruct segs as [|s segs].
    + pose proof (split_not_nil "/" rest) as Hr.
      destruct (split "/" rest) as [|r rs]; [congruence|].
      apply (f_equal (@List.length string)) in E.
      simpl in E. rewrite length_app in E. simpl in E. lia.
    + injection E as E1 E2. exists (split "/" rest). simpl. congruence.
Qed.

Lemma within_trans (a b c : string) : within a b -> within b c -> within a c.
Proof.
  intros [->|[r1 ->]] [->|[r2 ->]].
  - left. reflexivity.
  - right. eauto.
  - right. eauto.
  - right. exists (r1 ++ sep ++ r2). rewrite !append_assoc. reflexivity.
Qed.

(** Segments added to a rooted directory stay within it. *)
Lemma within_app (B D : list string) :
  B <> [] ->
  within ("/" ++ Js.join "/" B) ("/" ++ Js.join "/" (B ++ D)%list).
Proof.
  intros HB. destruct D as [|d D]; [rewrite app_nil_r; left; reflexivity|].
  destruct B as [|b B]; [congruence|].
  right. exists (Js.join "/" (d :: D)).
  rewrite join_app_below. unfold sep. rewrite !append_assoc. reflexivity.
Qed.

(** A sibling of a rooted directory is not within it. *)
Lemma sibling_not_within (P : list string) (b x : string) :
  Forall (fun s => clean_seg s = true) (P ++ [b]) ->
  Forall (fun s => clean_seg s = true) (P ++ [x]) ->
  x <> b ->
  ~ within ("/" ++ Js.join "/" (P ++ [b])%list) ("/" ++ Js.join "/" (P ++ [x])%list).
Proof.
  intros Hb Hx Hne Hw.
  destruct (within_segments (P ++ [b]) (P ++ [x]) ltac:(destruct P; discriminate)
              Hb Hx Hw) as [D E].
  rewrite <- app_assoc in E. apply app_inv_head in E.
  destruct D; simpl in E; [injection E as E; congruence | discriminate E].
Qed.

End DirFacts.

(* ================================================================== *)
(** ** The recursive search *)
(* ================================================================== *)

Section SearchEquations.

Context {rt : Js.Runtime}.

Variable config : Config.
Variable cwd : string.
Variable fs : Fs.t.

Lemma searchDir_loop_cons
    (self : string -> Z -> SearchState -> option SearchState)
    (lowerQuery dir : string) (d : Z) (item : Fs.Dirent)
    (rest : list Fs.Dirent) (st : SearchState) :
  searchDir_loop config cwd fs self lowerQuery dir d (item :: rest) st
  = if Js.startsWith (Fs.name item) "." then
      searchDir_loop config cwd fs self lowerQuery dir d rest st
    else if Fs.isDirectory item then
      match self (Path.join [dir; Fs.name item]) (d + 1)%Z st with
      | None => None
      | Some st' => searchDir_loop config cwd fs self lowerQuery dir d rest st'
      end
    else if Fs.isFile item && isMediaFile (Fs.name item) then
      if Js.includes (Js.toLowerCase (Fs.name item)) lowerQuery then
        match Fs.stat fs (Path.join [dir; Fs.name item]) with
        | Throw _ => Some (log (Stat (Path.join [dir; Fs.name item])) st)
        | Ok stats =>
            searchDir_loop config cwd fs self lowerQuery dir d rest
              (push (search_result config item
                       (Path.relative cwd (videoDirectory config)
                          (Path.join [dir; Fs.name item])) stats)
                 (log (Stat (Path.join [dir; Fs.name item])) st))
        end
      else searchDir_loop config cwd fs self lowerQuery dir d rest st
    else searchDir_loop config cwd fs self lowerQuery dir d rest st.
Proof. reflexivity. Qed.

Lemma searchDir_S (lowerQuery : string) (maxResults : Z) (fuel : nat)
    (p : string) (d : Z) (st : SearchState) :
  searchDir config cwd fs lowerQuery maxResults (S fuel) p d st
  = if (maxRecursionDepth config <? d)%Z
       || (maxResults <=? Z.of_nat (List.length (results st)))%Z
    then Some st
    else
      match Fs.readdir fs p with
      | Throw _ => Some (log (Readdir p d) st)
      | Ok items =>
          searchDir_loop config cwd fs
            (searchDir config cwd fs lowerQuery maxResults fuel)
            lowerQuery p d items (log (Readdir p d) st)
      end.
Proof. reflexivity. Qed.

End SearchEquations.

Section SearchInvariant.

Context {rt : Js.Runtime}.

Variable config : Config.
Variable cwd : string.
Variable fs : Fs.t.
Variable lowerQuery : string.
Variable maxResults : Z.
Variable startPath : string.

Lemma visible_below_nonneg (p : string) (d : Z) :
  visible_below fs startPath p d -> (0 <= d)%Z.
Proof. induction 1; lia. Qed.

Lemma visible_below_0 (p : string) :
  visible_below fs startPath p 0 -> p = startPath.
Proof.
  intros H. inversion H as [|q d items item Hq Hread Hin Hn Hdir Hp Hd];
    [reflexivity|].
  apply visible_below_nonneg in Hq. lia.
Qed.

(** [searchDir] and its loop leave the state as it is or extend it. *)
Variable R : SearchResult -> Prop.
Variable E : Event -> Prop.

(** A directory the search may read: visible below the start, not deeper
    than the cap. *)
Let readable (dir : string) (d : Z) : Prop :=
  visible_below fs startPath dir d /\ (d <= maxRecursionDepth config)%Z.

Hypothesis E_readdir : forall dir d, readable dir d -> E (Readdir dir d).

Hypothesis E_stat : forall dir d items item,
  readable dir d ->
  Fs.readdir fs dir = Ok items -> In item items ->
  Js.startsWith (Fs.name item) "." = false ->
  Fs.isFile item = true ->
  E (Stat (Path.join [dir; Fs.name item])).

Hypothesis R_push : forall dir d items item stats,
  readable dir d ->
  Fs.readdir fs dir = Ok items -> In item items ->
  Js.startsWith (Fs.name item) "." = false ->
  Fs.isFile item = true ->
  Js.includes (Js.toLowerCase (Fs.name item)) lowerQuery = true ->
  Fs.stat fs (Path.join [dir; Fs.name item]) = Ok stats ->
  R (search_result config item
       (Path.relative cwd (videoDirectory config)
          (Path.join [dir; Fs.name item])) stats).

Lemma good_log (e : Event) (st : SearchState) :
  E e -> good_state R E st -> good_state R E (log e st).
Proof.
  intros He [Hr Ht]. split; [exact Hr|].
  simpl. apply Forall_app. split; [assumption | constructor; auto].
Qed.

Lemma good_push (r : SearchResult) (st : SearchState) :
  R r -> good_state R E st -> good_state R E (push r st).
Proof.
  intros Hr' [Hr Ht]. split; [|exact Ht].
  simpl. apply Forall_app. split; [assumption | constructor; auto].
Qed.

Lemma searchDir_loop_good
    (self : string -> Z -> SearchState -> option SearchState)
    (dir : string) (d : Z) (all : list Fs.Dirent) :
  readable dir d ->
  Fs.readdir fs dir = Ok all ->
  (forall p st st',
      visible_below fs startPath p (d + 1) ->
      good_state R E st -> self p (d + 1)%Z st = Some st' ->
      good_state R E st') ->
  forall items st st',
    incl items all ->
    good_state R E st ->
    searchDir_loop config cwd fs self lowerQuery dir d items st = Some st' ->
    good_state R E st'.
Proof.
  intros Hdir Hread Hself.
  induction items as [|item rest IH]; intros st st' Hincl Hst Hrun.
  - injection Hrun as <-. assumption.
  - rewrite searchDir_loop_cons in Hrun.
    assert (Hin : In item all) by (apply Hincl; left; reflexivity).
    assert (Hrest : incl rest all) by (intros x Hx; apply Hincl; right; assumption).
    destruct (Js.startsWith (Fs.name item) ".") eqn:Hhid; [eauto|].
    destruct (Fs.isDirectory item) eqn:Hd.
    + destruct (self (Path.join [dir; Fs.name item]) (d + 1)%Z st)
        as [st1|] eqn:Hs; [|discriminate].
      apply (IH st1 st' Hrest); [|assumption].
      apply (Hself (Path.join [dir; Fs.name item]) st st1);
        [|assumption|assumption].
      apply (visible_step fs startPath dir d all item);
        [apply Hdir | assumption ..].
    + destruct (Fs.isFile item) eqn:Hf; simpl andb in Hrun; cbv iota in Hrun;
        [|eauto].
      destruct (Js.includes (Js.toLowerCase (Fs.name item)) lowerQuery) eqn:Hm;
        [|eauto].
      assert (HE : E (Stat (Path.join [dir; Fs.name item]))) by eauto.
      destruct (Fs.stat fs (Path.join [dir; Fs.name item])) as [stats|m] eqn:Hstat.
      * eapply IH; [exact Hrest | | exact Hrun].
        apply good_push; [eauto | apply good_log; assumption].
      * injection Hrun as <-. apply good_log; assumption.
Qed.

Lemma searchDir_good (fuel : nat) :
  forall p d st st',
    visible_below fs startPath p d ->
    good_state R E st ->
    searchDir config cwd fs lowerQuery maxResults fuel p d st = Some st' ->
    good_state R E st'.
Proof.
  induction fuel as [|fuel IH]; intros p d st st' Hvis Hst Hrun;
    [discriminate|].
  rewrite searchDir_S in Hrun.
  destruct (maxRecursionDepth config <? d)%Z eqn:Hdepth; simpl orb in Hrun;
    cbv iota in Hrun.
  { injection Hrun as <-. assumption. }
  apply Z.ltb_ge in Hdepth.
  destruct (maxResults <=? Z.of_nat (List.length (results st)))%Z.
  { injection Hrun as <-. assumption. }
  assert (Hdir : readable p d) by (split; assumption).
  destruct (Fs.readdir fs p) as [items|m] eqn:Hread.
  - eapply (searchDir_loop_good _ p d items Hdir Hread
              (fun q => IH q (d + 1)%Z) items);
      [apply incl_refl | | exact Hrun].
    apply good_log; auto.
  - injection Hrun as <-. apply good_log; auto.
Qed.

End SearchInvariant.

Section SearchFuel.

Context {rt : Js.Runtime}.

Variable config : Config.
Variable cwd : string.
Variable fs : Fs.t.
Variable lowerQuery : string.
Variable maxResults : Z.

(** With a total [self], the loop always comes to an end. *)
Lemma searchDir_loop_total
    (self : string -> Z -> SearchState -> option SearchState)
    (dir : string) (d : Z) :
  (forall p st, exists st', self p (d + 1)%Z st = Some st') ->
  forall items st,
    exists st',
      searchDir_loop config cwd fs self lowerQuery dir d items st = Some st'.
Proof.
  intros Hself. induction items as [|item rest IH]; intros st.
  - simpl. eauto.
  - rewrite searchDir_loop_cons.
    destruct (Js.startsWith (Fs.name item) "."); [apply IH|].
    destruct (Fs.isDirectory item).
    + destruct (Hself (Path.join [dir; Fs.name item]) st) as [st1 ->]. apply IH.
    + destruct (Fs.isFile item && isMediaFile (Fs.name item)); [|apply IH].
      destruct (Js.includes (Js.toLowerCase (Fs.name item)) lowerQuery);
        [|apply IH].
      destruct (Fs.stat fs (Path.join [dir; Fs.name item])); [apply IH | eauto].
Qed.

(** Fuel for the levels still allowed below depth [d], and one more call
    that only finds the cap exceeded. *)
Lemma searchDir_total (fuel : nat) :
  forall p d st,
    (Z.to_nat (maxRecursionDepth config - d + 1) + 1 <= fuel)%nat ->
    exists st',
      searchDir config cwd fs lowerQuery maxResults fuel p d st = Some st'.
Proof.
  induction fuel as [|fuel IH]; intros p d st Hfuel; [lia|].
  rewrite searchDir_S.
  destruct (maxRecursionDepth config <? d)%Z eqn:Hdepth; simpl orb; cbv iota;
    [eauto|].
  apply Z.ltb_ge in Hdepth.
  destruct (maxResults <=? Z.of_nat (List.length (results st)))%Z; [eauto|].
  destruct (Fs.readdir fs p) as [items|m]; [|eauto].
  apply searchDir_loop_total. intros q st1. apply IH. lia.
Qed.

Lemma searchDir_loop_ext
    (self self' : string -> Z -> SearchState -> option SearchState)
    (dir : string) (d : Z) :
  (forall p st st', self p (d + 1)%Z st = Some st' ->
                    self' p (d + 1)%Z st = Some st') ->
  forall items st st',
    searchDir_loop config cwd fs self lowerQuery dir d items st = Some st' ->
    searchDir_loop config cwd fs self' lowerQuery dir d items st = Some st'.
Proof.
  intros Hself. induction items as [|item rest IH]; intros st st' H.
  - assumption.
  - rewrite searchDir_loop_cons in *.
    destruct (Js.startsWith (Fs.name item) "."); [auto|].
    destruct (Fs.isDirectory item).
    + destruct (self (Path.join [dir; Fs.name item]) (d + 1)%Z st)
        as [st1|] eqn:Hs; [|discriminate].
      rewrite (Hself _ _ _ Hs). auto.
    + destruct (Fs.isFile item && isMediaFile (Fs.name item)); [|auto].
      destruct (Js.includes (Js.toLowerCase (Fs.name item)) lowerQuery); [|auto].
      destruct (Fs.stat fs (Path.join [dir; Fs.name item])); auto.
Qed.

(** More fuel does not change a result. *)
Lemma searchDir_fuel_mono (fuel : nat) :
  forall fuel' p d st st',
    (fuel <= fuel')%nat ->
    searchDir config cwd fs lowerQuery maxResults fuel p d st = Some st' ->
    searchDir config cwd fs lowerQuery maxResults fuel' p d st = Some st'.
Proof.
  induction fuel as [|fuel IH]; intros fuel' p d st st' Hle H; [discriminate|].
  destruct fuel' as [|fuel']; [lia|]. rewrite searchDir_S in *.
  destruct ((maxRecursionDepth config <? d)%Z
            || (maxResults <=? Z.of_nat (List.length (results st)))%Z);
    [assumption|].
  destruct (Fs.readdir fs p) as [items|m]; [|assumption].
  eapply searchDir_loop_ext; [|exact H].
  intros q st1 st2. apply IH. lia.
Qed.

End SearchFuel.

(* ================================================================== *)
(** ** The single-level listing *)
(* ================================================================== *)

Section Listing.

Context {rt : Js.Runtime}.

Variable config : Config.
Variable cwd : string.
Variable fs : Fs.t.

Lemma readDirectory_loop_cons (dirPath : string) (item : Fs.Dirent)
    (rest : list Fs.Dirent) (folders : list FolderEntry)
    (files : list FileEntry) :
  readDirectory_loop config cwd fs dirPath (item :: rest) folders files
  = if Js.startsWith (Fs.name item) "." then
      readDirectory_loop config cwd fs dirPath rest folders files
    else if Fs.isDirectory item then
      readDirectory_loop config cwd fs dirPath rest
        (folders ++ [{| folder_name := Fs.name item;
                        folder_path :=
                          Path.relative cwd (videoDirectory config)
                            (Path.join [dirPath; Fs.name item]) |}])%list
        files
    else if Fs.isFile item && isMediaFile (Fs.name item) then
      stats <- Fs.stat fs (Path.join [dirPath; Fs.name item]) ;;
      readDirectory_loop config cwd fs dirPath rest folders
        (files ++ [{| file_name := Fs.name item;
                      file_path :=
                        Path.relative cwd (videoDirectory config)
                          (Path.join [dirPath; Fs.name item]);
                      file_type := getFileType config (Fs.name item);
                      file_size := Fs.size stats;
                      file_modified := Fs.mtime stats |}])%list
    else readDirectory_loop config cwd fs dirPath rest folders files.
Proof. reflexivity. Qed.

(** The loop returns the two arrays, extended by entries that satisfy
    whatever the visible items of the directory guarantee. *)
Lemma readDirectory_loop_inv (PF : FolderEntry -> Prop) (PL : FileEntry -> Prop)
    (dirPath : string) :
  (forall item rel,
      Js.startsWith (Fs.name item) "." = false ->
      PF {| folder_name := Fs.name item; folder_path := rel |}) ->
  (forall item rel ty sz mt,
      Js.startsWith (Fs.name item) "." = false ->
      PL {| file_name := Fs.name item; file_path := rel; file_type := ty;
            file_size := sz; file_modified := mt |}) ->
  forall items folders files l,
    Forall PF folders -> Forall PL files ->
    readDirectory_loop config cwd fs dirPath items folders files = Ok l ->
    exists folders' files',
      l = ListingOk folders' files'
      /\ Forall PF folders' /\ Forall PL files'.
Proof.
  intros HPF HPL.
  induction items as [|item rest IH]; intros folders files l Hf Hl Hrun.
  - injection Hrun as <-. eauto.
  - rewrite readDirectory_loop_cons in Hrun.
    destruct (Js.startsWith (Fs.name item) ".") eqn:Hhid; [eauto|].
    destruct (Fs.isDirectory item).
    + eapply IH; [| exact Hl | exact Hrun].
      apply Forall_app. split; [assumption | constructor; auto].
    + destruct (Fs.isFile item && isMediaFile (Fs.name item)); [|eauto].
      destruct (Fs.stat fs (Path.join [dirPath; Fs.name item])) as [stats|m];
        [|discriminate].
      simpl bind in Hrun.
      eapply IH; [exact Hf | | exact Hrun].
      apply Forall_app. split; [assumption | constructor; auto].
Qed.

Lemma readDirectoryRecursive_Ok_inv (dirPath : string) (depth : Z) (l : Listing) :
  readDirectoryRecursive config cwd fs dirPath depth = Ok l ->
  ((maxRecursionDepth config < depth)%Z
   /\ l = ListingError "Maximum recursion depth exceeded")
  \/ ((depth <= maxRecursionDepth config)%Z
      /\ exists items,
           Fs.readdir fs dirPath = Ok items
           /\ readDirectory_loop config cwd fs dirPath items [] [] = Ok l).
Proof.
  unfold readDirectoryRecursive.
  destruct (maxRecursionDepth config <? depth)%Z eqn:Hd.
  - intros H. injection H as <-. left. apply Z.ltb_lt in Hd. auto.
  - apply Z.ltb_ge in Hd. right. split; [assumption|].
    destruct (Fs.readdir fs dirPath) as [items|m]; simpl bind in H.
    + exists items. split; [reflexivity|].
      destruct (readDirectory_loop config cwd fs dirPath items [] []);
        [congruence | discriminate].
    + discriminate.
Qed.

End Listing.

(** With a negative cap the depth test succeeds at depth 0: the listing of
    any directory is the error object. *)
Lemma negative_cap_listing {rt : Js.Runtime} (config : Config) (cwd : string)
    (fs : Fs.t) (dirPath : string) :
  (maxRecursionDepth config < 0)%Z ->
  readDirectoryRecursive config cwd fs dirPath 0
  = Ok (ListingError "Maximum recursion depth exceeded").
Proof.
  intros H. unfold readDirectoryRecursive.
  apply Z.ltb_lt in H. rewrite H. reflexivity.
Qed.

(** C10.  With a recursion cap that is not negative, the browse endpoint
    never produces the "Maximum recursion depth exceeded" object: it calls
    [readDirectoryRecursive] at depth 0, where the depth test fails, and
    the function is a single loop over the entries that returns the
    [{folders, files}] object or throws.  So every listing that
    [/api/browse] sends is a [{folders, files}] object. *)
Theorem browse_never_depth_error {rt : Js.Runtime}
    (config : Config) (cwd : string) (fs : Fs.t) (req : Request) :
  (0 <= maxRecursionDepth config)%Z ->
  (forall l, body (api_browse config cwd fs req) = JsonListing l ->
             exists folders files, l = ListingOk folders files)
  /\ (forall dirPath e,
        readDirectoryRecursive config cwd fs dirPath 0 <> Ok (ListingError e)).
Proof.
  intros Hcap.
  assert (Hrd : forall dirPath l,
            readDirectoryRecursive config cwd fs dirPath 0 = Ok l ->
            exists folders files, l = ListingOk folders files).
  { intros dirPath l H.
    apply readDirectoryRecursive_Ok_inv in H.
    destruct H as [[Hd _]|[_ (items & _ & Hloop)]]; [lia|].
    destruct (readDirectory_loop_inv config cwd fs (fun _ => True) (fun _ => True)
                dirPath (fun _ _ _ => I) (fun _ _ _ _ _ _ => I)
                items [] [] l (Forall_nil _) (Forall_nil _) Hloop)
      as (folders & files & -> & _).
    eauto. }
  split.
  - intros l. unfold api_browse, with_middleware.
    destruct (negb (host_allowed (host req))); [discriminate|].
    destruct (negb (authenticated req)); [discriminate|].
    unfold browse_handler.
    destruct (sanitizePath config cwd _) as [fullPath|m]; [|discriminate].
    simpl bind. destruct (Fs.stat fs fullPath) as [stats|m]; [|discriminate].
    simpl bind. destruct (negb (Fs.stats_isDirectory stats)); [discriminate|].
    destruct (readDirectoryRecursive config cwd fs fullPath 0) as [l0|m] eqn:Hl;
      [|discriminate].
    simpl. intros H. injection H as <-. eauto.
  - intros dirPath e H. apply Hrd in H. destruct H as (? & ? & H). discriminate.
Qed.

Lemma browse_never_depth_error_witness :
  (forall l,
      body (api_browse Scenario.config Scenario.cwd Scenario.fs
              (Scenario.request (Some "movies") None None)) = JsonListing l ->
      exists folders files, l = ListingOk folders files)
  /\ (forall dirPath e,
        readDirectoryRecursive Scenario.config Scenario.cwd Scenario.fs dirPath 0
        <> Ok (ListingError e)).
Proof.
  apply (browse_never_depth_error Scenario.config Scenario.cwd Scenario.fs
           (Scenario.request (Some "movies") None None)).
  simpl. lia.
Defined.

(** C10 as stated fails when [config.json] holds a negative
    [maxRecursionDepth]: with the cap at -1 the depth test succeeds at depth
    0, [readDirectoryRecursive] returns the error object without reading the
    directory, and browsing [movies] is answered 200 with that object. *)
Lemma browse_depth_error_counterexample :
  api_browse Scenario.negative_config Scenario.cwd Scenario.fs
    (Scenario.request (Some "movies") None None)
  = json_ok (JsonListing (ListingError "Maximum recursion depth exceeded"))
  /\ status (api_browse Scenario.negative_config Scenario.cwd Scenario.fs
               (Scenario.request (Some "movies") None None)) = 200%Z
  /\ readDirectoryRecursive Scenario.negative_config Scenario.cwd Scenario.fs
       "/lib/movies" 0
     = Ok (ListingError "Maximum recursion depth exceeded").
Proof.
  split; [reflexivity|]. split; [reflexivity|].
  apply negative_cap_listing. reflexivity.
Qed.

(** C6 is what the code means but not what it does: the cap is tested
    only when [searchDir] is entered, not while the entries of a directory
    are visited.  The 101 files of the crowded folder all match [clip], and
    the search with the default cap of 100 returns all 101 of them. *)
Theorem search_overshoots_maxResults {rt : Js.Runtime} :
  exists rs,
    searchVideosRecursive Scenario.config Scenario.cwd Crowded.fs
      "/lib" "clip" default_maxResults = Some rs
    /\ Z.of_nat (List.length rs) = 101%Z
    /\ (default_maxResults < Z.of_nat (List.length rs))%Z
    /\ api_search Scenario.config Scenario.cwd Crowded.fs
         (Scenario.request None (Some "clip") None)
       = Some (json_ok (JsonSearch rs 101)).
Proof.
  eexists. split; [vm_compute; reflexivity|].
  split; [vm_compute; reflexivity|].
  split; [vm_compute; reflexivity|].
  vm_compute. reflexivity.
Qed.

Section SearchEntitled.

Context {rt : Js.Runtime}.

Variable config : Config.
Variable cwd : string.
Variable fs : Fs.t.

(** Every result and every file-system call of a search is one it is
    entitled to. *)
Lemma search_run_entitled (fuel : nat) (startPath query : string)
    (maxResults : Z) (st : SearchState) :
  searchVideosRecursive_run config cwd fs fuel startPath query maxResults
    = Some st ->
  good_state
    (entitled_result config cwd fs startPath (Js.toLowerCase query))
    (entitled_event config fs startPath) st.
Proof.
  intros Hrun. unfold searchVideosRecursive_run in Hrun.
  eapply (searchDir_good config cwd fs (Js.toLowerCase query) maxResults
            startPath _ _);
    [ | | | apply visible_start | | exact Hrun].
  - intros dir d [Hv Hd]. split; assumption.
  - intros dir d items item [Hv Hd] Hread Hin Hhid Hfile.
    exists dir, d, items, item. repeat split; assumption.
  - intros dir d items item stats [Hv Hd] Hread Hin Hhid Hfile Hmatch Hstat.
    exists dir, d, items, item, stats. repeat split; assumption.
  - split; constructor.
Qed.

Lemma search_run_total (startPath query : string) (maxResults : Z) :
  exists st,
    searchVideosRecursive_run config cwd fs (search_fuel config) startPath
      query maxResults = Some st.
Proof.
  apply searchDir_total. unfold search_fuel. lia.
Qed.

End SearchEntitled.

Section SearchGrowth.

Context {rt : Js.Runtime}.

Variable config : Config.
Variable cwd : string.
Variable fs : Fs.t.
Variable lowerQuery : string.
Variable maxResults : Z.

Lemma extends_refl (st : SearchState) : extends st st.
Proof. split; exists []; symmetry; apply app_nil_r. Qed.

Lemma extends_trans (a b c : SearchState) :
  extends a b -> extends b c -> extends a c.
Proof.
  intros [[r1 Hr1] [e1 He1]] [[r2 Hr2] [e2 He2]]. split.
  - exists (r1 ++ r2)%list. rewrite Hr2, Hr1. symmetry. apply app_assoc.
  - exists (e1 ++ e2)%list. rewrite He2, He1. symmetry. apply app_assoc.
Qed.

Lemma extends_log (e : Event) (st : SearchState) : extends st (log e st).
Proof.
  split; [exists []; symmetry; apply app_nil_r | exists [e]; reflexivity].
Qed.

Lemma extends_push (r : SearchResult) (st : SearchState) :
  extends st (push r st).
Proof.
  split; [exists [r]; reflexivity | exists []; symmetry; apply app_nil_r].
Qed.

Lemma extends_count (st st' : SearchState) :
  extends st st' ->
  (List.length (results st) <= List.length (results st'))%nat.
Proof. intros [[r Hr] _]. rewrite Hr, length_app. lia. Qed.

Lemma extends_trace (st st' : SearchState) (e : Event) :
  extends st st' -> In e (trace st) -> In e (trace st').
Proof. intros [_ [es He]] H. rewrite He. apply in_or_app. auto. Qed.

Lemma extends_results (st st' : SearchState) (r : SearchResult) :
  extends st st' -> In r (results st) -> In r (results st').
Proof. intros [[rs Hr] _] H. rewrite Hr. apply in_or_app. auto. Qed.

(** The loop only adds to the state, when the visit of a sub-directory
    does. *)
Lemma searchDir_loop_extends
    (self : string -> Z -> SearchState -> option SearchState)
    (dir : string) (d : Z) :
  (forall p st st', self p (d + 1)%Z st = Some st' -> extends st st') ->
  forall items st st',
    searchDir_loop config cwd fs self lowerQuery dir d items st = Some st' ->
    extends st st'.
Proof.
  intros Hself. induction items as [|item rest IH]; intros st st' Hrun.
  - injection Hrun as <-. apply extends_refl.
  - rewrite searchDir_loop_cons in Hrun.
    destruct (Js.startsWith (Fs.name item) "."); [auto|].
    destruct (Fs.isDirectory item).
    + destruct (self (Path.join [dir; Fs.name item]) (d + 1)%Z st)
        as [st1|] eqn:Hs; [|discriminate].
      eapply extends_trans; [eapply Hself; exact Hs | auto].
    + destruct (Fs.isFile item && isMediaFile (Fs.name item)); [|auto].
      destruct (Js.includes (Js.toLowerCase (Fs.name item)) lowerQuery); [|auto].
      destruct (Fs.stat fs (Path.join [dir; Fs.name item])) as [stats|m].
      * eapply extends_trans; [apply extends_log|].
        eapply extends_trans; [apply extends_push|]. apply IH. exact Hrun.
      * injection Hrun as <-. apply extends_log.
Qed.

(** A visit keeps what was found before it. *)
Lemma searchDir_extends (fuel : nat) :
  forall p d st st',
    searchDir config cwd fs lowerQuery maxResults fuel p d st = Some st' ->
    extends st st'.
Proof.
  induction fuel as [|fuel IH]; intros p d st st' Hrun; [discriminate|].
  rewrite searchDir_S in Hrun.
  destruct ((maxRecursionDepth config <? d)%Z
            || (maxResults <=? Z.of_nat (List.length (results st)))%Z).
  { injection Hrun as <-. apply extends_refl. }
  destruct (Fs.readdir fs p) as [items|m].
  - eapply extends_trans; [apply extends_log|].
    eapply searchDir_loop_extends; [|exact Hrun].
    intros q st1 st2. apply IH.
  - injection Hrun as <-. apply extends_log.
Qed.

End SearchGrowth.

Section SearchComplete.

Context {rt : Js.Runtime}.

Variable config : Config.
Variable cwd : string.
Variable fs : Fs.t.
Variable lowerQuery : string.
Variable maxResults : Z.

Hypothesis Hstat : stat_succeeds fs lowerQuery.

(** The directory [q] was read at depth [e], and every matching file it
    lists is among the results. *)
Let found (q : string) (e : Z) (st : SearchState) : Prop :=
  In (Readdir q e) (trace st)
  /\ forall items item stats,
       Fs.readdir fs q = Ok items -> In item items ->
       Js.startsWith (Fs.name item) "." = false ->
       Fs.isFile item = true ->
       Js.includes (Js.toLowerCase (Fs.name item)) lowerQuery = true ->
       Fs.stat fs (Path.join [q; Fs.name item]) = Ok stats ->
       In (search_result config item
             (Path.relative cwd (videoDirectory config)
                (Path.join [q; Fs.name item])) stats)
          (results st).

Lemma found_extends (q : string) (e : Z) (st st' : SearchState) :
  extends st st' -> found q e st -> found q e st'.
Proof.
  intros Hext [Ht Hr]. split.
  - eapply extends_trace; eassumption.
  - intros items item stats H1 H2 H3 H4 H5 H6.
    eapply extends_results; [eassumption|]. eapply Hr; eassumption.
Qed.

(** The loop enters every visible directory among its items and returns
    every matching file among them. *)
Lemma searchDir_loop_visits
    (self : string -> Z -> SearchState -> option SearchState)
    (dir : string) (d : Z) (all : list Fs.Dirent) :
  Fs.readdir fs dir = Ok all ->
  (forall p st st', self p (d + 1)%Z st = Some st' -> extends st st') ->
  forall items st st',
    incl items all ->
    searchDir_loop config cwd fs self lowerQuery dir d items st = Some st' ->
    (forall item,
        In item items ->
        Js.startsWith (Fs.name item) "." = false ->
        Fs.isDirectory item = true ->
        exists st1 st2,
          self (Path.join [dir; Fs.name item]) (d + 1)%Z st1 = Some st2
          /\ extends st st1 /\ extends st2 st')
    /\ (forall item stats,
          In item items ->
          Js.startsWith (Fs.name item) "." = false ->
          Fs.isFile item = true ->
          Js.includes (Js.toLowerCase (Fs.name item)) lowerQuery = true ->
          Fs.stat fs (Path.join [dir; Fs.name item]) = Ok stats ->
          In (search_result config item
                (Path.relative cwd (videoDirectory config)
                   (Path.join [dir; Fs.name item])) stats)
             (results st')).
Proof.
  intros Hread Hself.
  induction items as [|item rest IH]; intros st st' Hincl Hrun.
  - split; intros ? ? []; contradiction.
  - assert (Hrest : incl rest all)
      by (intros x Hx; apply Hincl; right; assumption).
    assert (Hin : In item all) by (apply Hincl; left; reflexivity).
    rewrite searchDir_loop_cons in Hrun.
    destruct (Js.startsWith (Fs.name item) ".") eqn:Hhid.
    { destruct (IH _ _ Hrest Hrun) as [Hd Hf]. split.
      - intros x [<-|Hx] Hv Hdir; [congruence | auto].
      - intros x stats [<-|Hx] Hv Hfile; [congruence | auto]. }
    destruct (Fs.isDirectory item) eqn:Hdir.
    { destruct (self (Path.join [dir; Fs.name item]) (d + 1)%Z st)
        as [st1|] eqn:Hs; [|discriminate].
      destruct (IH _ _ Hrest Hrun) as [Hd Hf].
      pose proof (Hself _ _ _ Hs) as H01.
      pose proof (searchDir_loop_extends config cwd fs lowerQuery self dir d
                    Hself rest st1 st' Hrun) as H12.
      split.
      - intros x [<-|Hx] Hv Hxd.
        + exists st, st1. split; [exact Hs|]. split; [apply extends_refl | exact H12].
        + destruct (Hd x Hx Hv Hxd) as (a & b & Hab & Ha & Hb).
          exists a, b. split; [exact Hab|]. split; [|exact Hb].
          eapply extends_trans; eassumption.
      - intros x stats [<-|Hx] Hv Hfile; [|auto].
        unfold Fs.isDirectory, Fs.isFile in *.
        destruct (Fs.dirent_kind item); discriminate. }
    assert (Hnodir : forall x, x = item -> Fs.isDirectory x = true -> False)
      by (intros x -> H; congruence).
    destruct (Fs.isFile item) eqn:Hfile; simpl andb in Hrun; cbv iota in Hrun.
    2:{ destruct (IH _ _ Hrest Hrun) as [Hd Hf]. split.
        - intros x [<-|Hx] Hv Hxd; [congruence | auto].
        - intros x stats [<-|Hx] Hv Hxf; [congruence | auto]. }
    destruct (Js.includes (Js.toLowerCase (Fs.name item)) lowerQuery) eqn:Hm.
    2:{ destruct (IH _ _ Hrest Hrun) as [Hd Hf]. split.
        - intros x [<-|Hx] Hv Hxd; [congruence | auto].
        - intros x stats [<-|Hx] Hv Hxf Hxm; [congruence | auto]. }
    pose proof (Hstat dir all Hread) as Hall.
    unfold inspectable in Hall. rewrite Forall_forall in Hall.
    destruct (Hall item Hin Hhid Hfile Hm) as [stats Hst].
    rewrite Hst in Hrun.
    destruct (IH _ _ Hrest Hrun) as [Hd Hf].
    pose proof (searchDir_loop_extends config cwd fs lowerQuery self dir d
                  Hself rest _ st' Hrun) as H12.
    assert (H02 : extends st
              (push (search_result config item
                       (Path.relative cwd (videoDirectory config)
                          (Path.join [dir; Fs.name item])) stats)
                 (log (Stat (Path.join [dir; Fs.name item])) st))).
    { eapply extends_trans; [apply extends_log | apply extends_push]. }
    split.
    + intros x [<-|Hx] Hv Hxd; [congruence|].
      destruct (Hd x Hx Hv Hxd) as (a & b & Hab & Ha & Hb).
      exists a, b. split; [exact Hab|]. split; [|exact Hb].
      eapply extends_trans; eassumption.
    + intros x stats' [<-|Hx] Hv Hxf Hxm Hxs; [|auto].
      rewrite Hst in Hxs. injection Hxs as <-.
      eapply extends_results; [exact H12|].
      simpl. apply in_or_app. right. left. reflexivity.
Qed.

(** A visit that ends below the cap on the results has read every
    directory within the depth cap that is reached through visible
    directories, and has returned every matching file of these. *)
Lemma searchDir_visits (fuel : nat) :
  forall p d st st' names q,
    searchDir config cwd fs lowerQuery maxResults fuel p d st = Some st' ->
    (Z.of_nat (List.length (results st')) < maxResults)%Z ->
    descends fs p names q ->
    (d + Z.of_nat (List.length names) <= maxRecursionDepth config)%Z ->
    found q (d + Z.of_nat (List.length names)) st'.
Proof.
  induction fuel as [|fuel IH]; intros p d st st' names q Hrun Hmax Hq Hcap;
    [discriminate|].
  pose proof (searchDir_extends config cwd fs lowerQuery maxResults _ _ _ _ _
                Hrun) as Hext.
  pose proof (extends_count _ _ Hext) as Hcount.
  rewrite searchDir_S in Hrun.
  replace (maxRecursionDepth config <? d)%Z with false in Hrun
    by (symmetry; apply Z.ltb_ge; lia).
  replace (maxResults <=? Z.of_nat (List.length (results st)))%Z with false
    in Hrun by (symmetry; apply Z.leb_gt; lia).
  simpl orb in Hrun. cbv iota in Hrun.
  destruct (Fs.readdir fs p) as [items|m] eqn:Hread.
  - assert (Hsub : forall x st1 st2,
              searchDir config cwd fs lowerQuery maxResults fuel x (d + 1)%Z st1
                = Some st2 -> extends st1 st2)
      by (intros x st1 st2; apply searchDir_extends).
    destruct (searchDir_loop_visits _ p d items Hread Hsub items _ st'
                (incl_refl _) Hrun) as [Hd Hf].
    pose proof (searchDir_loop_extends config cwd fs lowerQuery _ p d
                  Hsub items _ st' Hrun) as Hloop.
    destruct names as [|n rest].
    + simpl in Hq. subst q. simpl List.length. rewrite Z.add_0_r. split.
      * eapply extends_trace; [exact Hloop|]. simpl.
        apply in_or_app. right. left. reflexivity.
      * intros items' item stats Hr' Hin Hv Hfile Hm Hs.
        rewrite Hread in Hr'. injection Hr' as <-. eapply Hf; eassumption.
    + destruct Hq as [(items' & item & Hr' & Hin & Hn & Hv & Hdir) Hq].
      rewrite Hread in Hr'. injection Hr' as <-. subst n.
      destruct (Hd item Hin Hv Hdir) as (st1 & st2 & Hs & _ & H2).
      eapply found_extends; [exact H2|].
      replace (d + Z.of_nat (List.length (Fs.name item :: rest)))%Z
        with (d + 1 + Z.of_nat (List.length rest))%Z
        by (simpl List.length; lia).
      eapply IH; [exact Hs | | exact Hq | simpl List.length in Hcap; lia].
      pose proof (extends_count _ _ H2). lia.
  - injection Hrun as <-. destruct names as [|n rest].
    + simpl in Hq. subst q. simpl List.length. rewrite Z.add_0_r. split.
      * simpl. apply in_or_app. right. left. reflexivity.
      * intros items item stats Hr'. congruence.
    + destruct Hq as [(items' & item & Hr' & _) _]. congruence.
Qed.

Lemma descends_snoc (p q : string) (names : list string)
    (items : list Fs.Dirent) (item : Fs.Dirent) :
  descends fs p names q ->
  Fs.readdir fs q = Ok items -> In item items ->
  Js.startsWith (Fs.name item) "." = false ->
  Fs.isDirectory item = true ->
  descends fs p (names ++ [Fs.name item]) (Path.join [q; Fs.name item]).
Proof.
  revert p. induction names as [|n rest IH]; intros p Hq Hread Hin Hv Hdir.
  - simpl in Hq. subst q. simpl. split; [|reflexivity].
    exists items, item. auto.
  - destruct Hq as [Hn Hq]. simpl. split; [exact Hn|]. apply IH; assumption.
Qed.

Lemma visible_below_descends (start p : string) (d : Z) :
  visible_below fs start p d ->
  exists names,
    descends fs start names p /\ d = Z.of_nat (List.length names).
Proof.
  induction 1 as [|p d items item Hvis (names & Hn & Hd) Hread Hin Hv Hdir].
  - exists []. split; reflexivity.
  - exists (names ++ [Fs.name item])%list. split.
    + eapply descends_snoc; eassumption.
    + rewrite length_app. simpl. lia.
Qed.

End SearchComplete.

(** C7.  The search terminates: run with the fuel of [search_fuel] it
    returns a state, the same with any larger amount.  A call that finds
    the depth cap exceeded returns normally and leaves what was found as it
    is.  Every directory the search reads is reached from the start through
    [d] visible directories for some [0 <= d <= maxRecursionDepth].  With
    the cap at 0 the only directory read is the start, the only files
    inspected are regular files listed in it, and every result is one of
    them.  And the search does look: with a cap that is not negative and
    room for a result the first thing it does is read the start; and when
    no inspection of a matching file fails and the search ends with fewer than
    [maxResults] results, it has read every directory reached from the start
    through at most [maxRecursionDepth] visible directories, those at depth
    [maxRecursionDepth] included, and has returned every regular file these
    list whose name contains the query. *)
Theorem search_terminates_within_depth {rt : Js.Runtime}
    (config : Config) (cwd : string) (fs : Fs.t)
    (startPath query : string) (maxResults : Z) :
  exists st,
    searchVideosRecursive_run config cwd fs (search_fuel config) startPath
      query maxResults = Some st
    /\ (forall fuel,
          (search_fuel config <= fuel)%nat ->
          searchVideosRecursive_run config cwd fs fuel startPath query
            maxResults = Some st)
    /\ (forall fuel p d st0,
          (maxRecursionDepth config < d)%Z ->
          searchDir config cwd fs (Js.toLowerCase query) maxResults (S fuel)
            p d st0 = Some st0)
    /\ (forall p d,
          In (Readdir p d) (trace st) ->
          visible_below fs startPath p d
          /\ (0 <= d <= maxRecursionDepth config)%Z)
    /\ (maxRecursionDepth config = 0%Z ->
        (forall p d, In (Readdir p d) (trace st) -> p = startPath /\ d = 0%Z)
        /\ (forall p,
              In (Stat p) (trace st) ->
              exists items item,
                Fs.readdir fs startPath = Ok items /\ In item items
                /\ Fs.isFile item = true
                /\ p = Path.join [startPath; Fs.name item])
        /\ (forall r,
              In r (results st) ->
              exists items item,
                Fs.readdir fs startPath = Ok items /\ In item items
                /\ Fs.isFile item = true
                /\ sr_name r = Fs.name item))
    /\ ((0 <= maxRecursionDepth config)%Z -> (0 < maxResults)%Z ->
        exists more, trace st = Readdir startPath 0 :: more)
    /\ (stat_succeeds fs (Js.toLowerCase query) ->
        (Z.of_nat (List.length (results st)) < maxResults)%Z ->
        forall p d,
          visible_below fs startPath p d ->
          (d <= maxRecursionDepth config)%Z ->
          In (Readdir p d) (trace st)
          /\ (forall items item stats,
                Fs.readdir fs p = Ok items -> In item items ->
                Js.startsWith (Fs.name item) "." = false ->
                Fs.isFile item = true ->
                Js.includes (Js.toLowerCase (Fs.name item))
                  (Js.toLowerCase query) = true ->
                Fs.stat fs (Path.join [p; Fs.name item]) = Ok stats ->
                In (search_result config item
                      (Path.relative cwd (videoDirectory config)
                         (Path.join [p; Fs.name item])) stats)
                   (results st))).
Proof.
  destruct (search_run_total config cwd fs startPath query maxResults)
    as [st Hrun].
  exists st. split; [exact Hrun|].
  destruct (search_run_entitled config cwd fs _ _ _ _ _ Hrun) as [HR HE].
  rewrite Forall_forall in HR, HE.
  split; [|split; [|split; [|split; [intros Hcap; split; [|split]|split]]]].
  - intros fuel Hle. unfold searchVideosRecursive_run in *.
    eapply searchDir_fuel_mono; eassumption.
  - intros fuel p d st0 Hd. rewrite searchDir_S.
    apply Z.ltb_lt in Hd. rewrite Hd. reflexivity.
  - intros p d Hin. destruct (HE _ Hin) as [Hv Hd].
    split; [assumption|]. split; [|assumption].
    eapply visible_below_nonneg; eassumption.
  - intros p d Hin. destruct (HE _ Hin) as [Hv Hd].
    pose proof (visible_below_nonneg _ _ _ _ Hv) as H0.
    assert (d = 0%Z) by lia. subst d.
    split; [|reflexivity]. eapply visible_below_0. eassumption.
  - intros p Hin.
    destruct (HE _ Hin) as (dir & d & items & item & Hv & Hd & Hread & Hit & _ & Hf & ->).
    pose proof (visible_below_nonneg _ _ _ _ Hv) as H0.
    assert (d = 0%Z) by lia. subst d.
    apply visible_below_0 in Hv. subst dir. eauto 6.
  - intros r Hin.
    destruct (HR _ Hin)
      as (dir & d & items & item & stats & Hv & Hd & Hread & Hit & _ & Hf & _ & _ & ->).
    pose proof (visible_below_nonneg _ _ _ _ Hv) as H0.
    assert (d = 0%Z) by lia. subst d.
    apply visible_below_0 in Hv. subst dir. eauto 6.
  - intros Hcap Hmax.
    pose proof Hrun as Hrun'. unfold searchVideosRecursive_run, search_fuel in Hrun'.
    replace (Z.to_nat (maxRecursionDepth config) + 2)%nat
      with (S (Z.to_nat (maxRecursionDepth config) + 1)) in Hrun' by lia.
    rewrite searchDir_S in Hrun'.
    replace (maxRecursionDepth config <? 0)%Z with false in Hrun'
      by (symmetry; apply Z.ltb_ge; lia).
    replace (maxResults <=? Z.of_nat (List.length (results
               {| results := []; trace := [] |})))%Z with false in Hrun'
      by (symmetry; apply Z.leb_gt; simpl; lia).
    simpl orb in Hrun'. cbv iota in Hrun'.
    destruct (Fs.readdir fs startPath) as [items|m].
    + apply searchDir_loop_extends in Hrun';
        [|intros q st1 st2; apply searchDir_extends].
      destruct Hrun' as [_ [es He]]. exists es. rewrite He. reflexivity.
    + injection Hrun' as <-. exists []. reflexivity.
  - intros Hstat Hmax p d Hv Hd.
    destruct (visible_below_descends fs startPath p d Hv) as (names & Hn & ->).
    apply (searchDir_visits config cwd fs (Js.toLowerCase query) maxResults
             Hstat (search_fuel config) startPath 0
             {| results := []; trace := [] |} st names p Hrun Hmax Hn).
    lia.
Qed.

Lemma search_terminates_within_depth_witness :
  exists st,
    searchVideosRecursive_run Scenario.flat_config Scenario.cwd Clip.fs
      (search_fuel Scenario.flat_config) "/lib" "clip" 100 = Some st
    /\ (forall fuel,
          (search_fuel Scenario.flat_config <= fuel)%nat ->
          searchVideosRecursive_run Scenario.flat_config Scenario.cwd
            Clip.fs fuel "/lib" "clip" 100 = Some st)
    /\ (forall fuel p d st0,
          (maxRecursionDepth Scenario.flat_config < d)%Z ->
          searchDir Scenario.flat_config Scenario.cwd Clip.fs
            (Js.toLowerCase "clip") 100 (S fuel) p d st0 = Some st0)
    /\ (forall p d,
          In (Readdir p d) (trace st) ->
          visible_below Clip.fs "/lib" p d
          /\ (0 <= d <= maxRecursionDepth Scenario.flat_config)%Z)
    /\ ((forall p d, In (Readdir p d) (trace st) -> p = "/lib" /\ d = 0%Z)
        /\ (forall p,
              In (Stat p) (trace st) ->
              exists items item,
                Fs.readdir Clip.fs "/lib" = Ok items /\ In item items
                /\ Fs.isFile item = true
                /\ p = Path.join ["/lib"; Fs.name item])
        /\ (forall r,
              In r (results st) ->
              exists items item,
                Fs.readdir Clip.fs "/lib" = Ok items /\ In item items
                /\ Fs.isFile item = true
                /\ sr_name r = Fs.name item))
    /\ (exists more, trace st = Readdir "/lib" 0 :: more)
    /\ stat_succeeds Clip.fs (Js.toLowerCase "clip")
    /\ (Z.of_nat (List.length (results st)) < 100)%Z
    /\ (forall p d,
          visible_below Clip.fs "/lib" p d ->
          (d <= maxRecursionDepth Scenario.flat_config)%Z ->
          In (Readdir p d) (trace st)
          /\ (forall items item stats,
                Fs.readdir Clip.fs p = Ok items -> In item items ->
                Js.startsWith (Fs.name item) "." = false ->
                Fs.isFile item = true ->
                Js.includes (Js.toLowerCase (Fs.name item))
                  (Js.toLowerCase "clip") = true ->
                Fs.stat Clip.fs (Path.join [p; Fs.name item]) = Ok stats ->
                In (search_result Scenario.flat_config item
                      (Path.relative Scenario.cwd
                         (videoDirectory Scenario.flat_config)
                         (Path.join [p; Fs.name item])) stats)
                   (results st)))
    /\ st = {| results :=
                 [{| sr_name := "clip.mp4"; sr_path := "clip.mp4";
                     sr_folder := "."; sr_type := "video"; sr_size := 10;
                     sr_modified := 0 |}];
               trace := [Readdir "/lib" 0; Stat "/lib/clip.mp4"] |}.
Proof.
  destruct (search_terminates_within_depth Scenario.flat_config Scenario.cwd
              Clip.fs "/lib" "clip" 100)
    as (st & Hrun & H1 & H2 & H3 & H4 & H5 & H6).
  assert (Hst : st = {| results :=
                          [{| sr_name := "clip.mp4"; sr_path := "clip.mp4";
                              sr_folder := "."; sr_type := "video";
                              sr_size := 10; sr_modified := 0 |}];
                        trace := [Readdir "/lib" 0; Stat "/lib/clip.mp4"] |}).
  { pose proof Hrun as Hrun'. vm_compute in Hrun'. congruence. }
  assert (Hstat : stat_succeeds Clip.fs (Js.toLowerCase "clip")).
  { intros dir items Hread. simpl in Hread.
    destruct (dir =? "/lib") eqn:E; [|discriminate].
    apply String.eqb_eq in E. subst dir. injection Hread as <-.
    constructor; [|constructor]. intros _ _ _. eexists. reflexivity. }
  assert (Hmax : (Z.of_nat (List.length (results st)) < 100)%Z)
    by (rewrite Hst; simpl; lia).
  exists st. split; [exact Hrun|]. split; [exact H1|]. split; [exact H2|].
  split; [exact H3|]. split; [exact (H4 eq_refl)|].
  split; [apply H5; simpl; lia|]. split; [exact Hstat|].
  split; [exact Hmax|]. split; [exact (H6 Hstat Hmax) | exact Hst].
Defined.

Section SearchSegments.

Context {rt : Js.Runtime}.

Variable config : Config.
Variable cwd : string.
Variable fs : Fs.t.
Variable B : list string.

Hypothesis Htidy : tidy fs.
Hypothesis HB : Forall (fun s => clean_seg s = true) B.

Lemma visible_seg_spec (n : string) :
  visible_seg n = true <-> clean_seg n = true /\ Js.startsWith n "." = false.
Proof.
  unfold visible_seg. rewrite andb_true_iff, negb_true_iff. tauto.
Qed.

Lemma visible_segs_clean (D : list string) :
  Forall (fun n => visible_seg n = true) D ->
  Forall (fun s => clean_seg s = true) D.
Proof.
  apply Forall_impl. intros n H. apply visible_seg_spec in H. tauto.
Qed.

Lemma listed_name_clean (p : string) (items : list Fs.Dirent)
    (item : Fs.Dirent) :
  Fs.readdir fs p = Ok items -> In item items ->
  clean_seg (Fs.name item) = true.
Proof.
  intros Hread Hin. pose proof (Htidy p items Hread) as H.
  rewrite Forall_forall in H. apply H. assumption.
Qed.

(** A directory reached through visible directories is the start followed
    by their names. *)
Lemma visible_below_segments (p : string) (d : Z) :
  visible_below fs ("/" ++ Js.join "/" B) p d ->
  exists D,
    Z.of_nat (List.length D) = d
    /\ Forall (fun n => visible_seg n = true) D
    /\ p = "/" ++ Js.join "/" (B ++ D)%list.
Proof.
  induction 1 as [|p d items item Hvis (D & Hd & HD & Hp) Hread Hin Hv Hdir].
  - exists []. rewrite app_nil_r. repeat split. constructor.
  - assert (Hclean : clean_seg (Fs.name item) = true)
      by (eapply listed_name_clean; eassumption).
    exists (D ++ [Fs.name item])%list. split; [|split].
    + rewrite length_app. simpl. lia.
    + apply Forall_app. split; [assumption|]. constructor; [|constructor].
      apply visible_seg_spec. split; assumption.
    + rewrite Hp. rewrite RelativeFacts.join_child.
      * rewrite app_assoc. reflexivity.
      * apply Forall_app. split; [assumption | apply visible_segs_clean; assumption].
      * assumption.
Qed.

(** Such a path is not an entry whose name starts with a dot and does not
    lie below one. *)
Lemma visible_not_below_hidden (D : list string) :
  Forall (fun n => visible_seg n = true) D ->
  ~ below_hidden B ("/" ++ Js.join "/" (B ++ D)%list).
Proof.
  intros HD (D0 & h & HD0 & Hh & Hdot & Hin).
  apply DirFacts.within_segments in Hin.
  - destruct Hin as [D' HD'].
    rewrite <- !app_assoc in HD'. apply app_inv_head in HD'.
    rewrite Forall_forall in HD.
    assert (Hv : visible_seg h = true).
    { apply HD. rewrite HD'. apply in_or_app. right. left. reflexivity. }
    apply visible_seg_spec in Hv. destruct Hv as [_ Hv]. congruence.
  - intros E. apply (f_equal (@List.length string)) in E.
    rewrite !length_app in E. simpl in E. lia.
  - apply Forall_app. split; [assumption|].
    apply Forall_app. split; [assumption | constructor; [assumption|constructor]].
  - apply Forall_app. split; [assumption | apply visible_segs_clean; assumption].
Qed.

(** The paths of the calls and of the results a search is entitled to. *)
Lemma entitled_event_segments (e : Event) :
  entitled_event config fs ("/" ++ Js.join "/" B) e ->
  exists D,
    Forall (fun n => visible_seg n = true) D
    /\ event_path e = "/" ++ Js.join "/" (B ++ D)%list.
Proof.
  destruct e as [p d|p]; simpl.
  - intros [Hv _]. apply visible_below_segments in Hv.
    destruct Hv as (D & _ & HD & ->). eauto.
  - intros (dir & d & items & item & Hv & _ & Hread & Hin & Hhid & _ & ->).
    apply visible_below_segments in Hv. destruct Hv as (D & _ & HD & ->).
    assert (Hclean : clean_seg (Fs.name item) = true)
      by (eapply listed_name_clean; eassumption).
    exists (D ++ [Fs.name item])%list. split.
    + apply Forall_app. split; [assumption|]. constructor; [|constructor].
      apply visible_seg_spec. split; assumption.
    + rewrite RelativeFacts.join_child.
      * rewrite app_assoc. reflexivity.
      * apply Forall_app. split; [assumption | apply visible_segs_clean; assumption].
      * assumption.
Qed.

Lemma entitled_result_segments (lowerQuery : string) (r : SearchResult) :
  entitled_result config cwd fs ("/" ++ Js.join "/" B) lowerQuery r ->
  exists D item stats,
    Forall (fun n => visible_seg n = true) (D ++ [Fs.name item])
    /\ Fs.stat fs ("/" ++ Js.join "/" (B ++ D ++ [Fs.name item])%list) = Ok stats
    /\ r = search_result config item
             (Path.relative cwd (videoDirectory config)
                ("/" ++ Js.join "/" (B ++ D ++ [Fs.name item])%list)) stats.
Proof.
  intros (dir & d & items & item & stats & Hv & _ & Hread & Hin & Hhid
          & _ & _ & Hstat & ->).
  apply visible_below_segments in Hv. destruct Hv as (D & _ & HD & ->).
  assert (Hclean : clean_seg (Fs.name item) = true)
    by (eapply listed_name_clean; eassumption).
  assert (Hjoin : Path.join ["/" ++ Js.join "/" (B ++ D)%list; Fs.name item]
                  = "/" ++ Js.join "/" (B ++ D ++ [Fs.name item])%list).
  { rewrite RelativeFacts.join_child.
    - rewrite <- app_assoc. reflexivity.
    - apply Forall_app. split; [assumption | apply visible_segs_clean; assumption].
    - assumption. }
  rewrite Hjoin in *.
  exists D, item, stats. split; [|split; [assumption | reflexivity]].
  apply Forall_app. split; [assumption|]. constructor; [|constructor].
  apply visible_seg_spec. split; assumption.
Qed.

End SearchSegments.


(** C9.  Every result of a search has as its [folder] the directory name
    of its relative path: [path.dirname] never answers the empty string, so
    the ['Home'] alternative is never taken.  For a match that lies in the
    root itself the relative path is the bare file name and the folder is
    [.]. *)
Theorem root_match_folder_is_dot {rt : Js.Runtime}
    (config : Config) (cwd : string) (fs : Fs.t) (fuel : nat)
    (startPath query : string) (maxResults : Z)
    (st : SearchState) (r : SearchResult) :
  Path.isAbsolute cwd = true ->
  searchVideosRecursive_run config cwd fs fuel startPath query maxResults
    = Some st ->
  In r (results st) ->
  sr_folder r = Path.dirname (sr_path r)
  /\ (forall p, Js.truthy (Path.dirname p) = true)
  /\ (forall item stats,
        clean_seg (Fs.name item) = true ->
        r = search_result config item
              (Path.relative cwd (videoDirectory config)
                 (Path.join [Path.resolve cwd [videoDirectory config];
                             Fs.name item])) stats ->
        sr_path r = Fs.name item /\ sr_folder r = ".").
Proof.
  intros Hcwd Hrun Hin.
  destruct (search_run_entitled config cwd fs _ _ _ _ _ Hrun) as [HR _].
  rewrite Forall_forall in HR.
  split; [|split].
  - destruct (HR _ Hin) as (dir & d & items & item & stats & _ & _ & _ & _ & _ & _ & _ & _ & ->).
    unfold search_result. simpl. rewrite RelativeFacts.dirname_truthy.
    reflexivity.
  - exact RelativeFacts.dirname_truthy.
  - intros item stats Hclean ->.
    rewrite (RelativeFacts.relative_root_child cwd _ _ Hcwd Hclean).
    unfold search_result. simpl. split; [reflexivity|].
    rewrite RelativeFacts.dirname_truthy.
    apply RelativeFacts.dirname_bare.
    apply RelativeFacts.clean_seg_spec in Hclean. tauto.
Qed.

Lemma root_match_folder_is_dot_witness :
  let r := {| sr_name := "clip.mp4"; sr_path := "clip.mp4"; sr_folder := ".";
              sr_type := "video"; sr_size := 10; sr_modified := 0 |} in
  sr_folder r = Path.dirname (sr_path r)
  /\ (forall p, Js.truthy (Path.dirname p) = true)
  /\ (forall item stats,
        clean_seg (Fs.name item) = true ->
        r = search_result Scenario.config item
              (Path.relative Scenario.cwd (videoDirectory Scenario.config)
                 (Path.join [Path.resolve Scenario.cwd
                               [videoDirectory Scenario.config];
                             Fs.name item])) stats ->
        sr_path r = Fs.name item /\ sr_folder r = ".").
Proof.
  exact (root_match_folder_is_dot Scenario.config Scenario.cwd Clip.fs
           (search_fuel Scenario.config) "/lib" "clip" default_maxResults
           {| results :=
                [{| sr_name := "clip.mp4"; sr_path := "clip.mp4";
                    sr_folder := "."; sr_type := "video"; sr_size := 10;
                    sr_modified := 0 |}];
              trace := [Readdir "/lib" 0; Stat "/lib/clip.mp4"] |}
           _ eq_refl eq_refl (or_introl eq_refl)).
Defined.

(* ================================================================== *)
(** ** More on the listing *)
(* ================================================================== *)

Section ListingExact.

Context {rt : Js.Runtime}.

Variable config : Config.
Variable cwd : string.
Variable fs : Fs.t.

Lemma listed_folders_cons (dirPath : string) (item : Fs.Dirent)
    (rest : list Fs.Dirent) :
  listed_folders config cwd dirPath (item :: rest)
  = ((if visible item && Fs.isDirectory item
      then [folder_entry_of config cwd dirPath item] else [])
     ++ listed_folders config cwd dirPath rest)%list.
Proof.
  unfold listed_folders. simpl filter.
  destruct (visible item && Fs.isDirectory item); reflexivity.
Qed.

Lemma listed_files_cons (dirPath : string) (item : Fs.Dirent)
    (rest : list Fs.Dirent) :
  listed_files config cwd fs dirPath (item :: rest)
  = ((if visible item && Fs.isFile item then
        match Fs.stat fs (Path.join [dirPath; Fs.name item]) with
        | Ok stats => [file_entry_of config cwd dirPath item stats]
        | Throw _ => []
        end
      else [])
     ++ listed_files config cwd fs dirPath rest)%list.
Proof. reflexivity. Qed.

Lemma first_stat_error_cons (dirPath : string) (item : Fs.Dirent)
    (rest : list Fs.Dirent) :
  first_stat_error fs dirPath (item :: rest)
  = if visible item && Fs.isFile item then
      match Fs.stat fs (Path.join [dirPath; Fs.name item]) with
      | Ok _ => first_stat_error fs dirPath rest
      | Throw m => Some m
      end
    else first_stat_error fs dirPath rest.
Proof. reflexivity. Qed.

(** The loop of the listing, in closed form: it throws at the first
    visible regular file that cannot be inspected, and otherwise appends
    the visible directories and the visible regular files, in order. *)
Lemma readDirectory_loop_exact (dirPath : string) (items : list Fs.Dirent) :
  forall folders files,
    readDirectory_loop config cwd fs dirPath items folders files
    = match first_stat_error fs dirPath items with
      | Some m => Throw m
      | None =>
          Ok (ListingOk
                (folders ++ listed_folders config cwd dirPath items)
                (files ++ listed_files config cwd fs dirPath items))
      end.
Proof.
  induction items as [|item rest IH]; intros folders files.
  - simpl. rewrite !app_nil_r. reflexivity.
  - rewrite readDirectory_loop_cons, listed_folders_cons, listed_files_cons,
      first_stat_error_cons.
    unfold visible, Fs.isDirectory, Fs.isFile, isMediaFile.
    destruct (Js.startsWith (Fs.name item) "."); simpl negb; simpl andb;
      cbv iota.
    { rewrite IH. reflexivity. }
    destruct (Fs.dirent_kind item); simpl andb; cbv iota.
    + rewrite IH. destruct (first_stat_error fs dirPath rest); [reflexivity|].
      rewrite <- app_assoc. reflexivity.
    + destruct (Fs.stat fs (Path.join [dirPath; Fs.name item])) as [stats|m];
        simpl bind; [|reflexivity].
      rewrite IH. destruct (first_stat_error fs dirPath rest); [reflexivity|].
      rewrite <- app_assoc. reflexivity.
    + rewrite IH. reflexivity.
Qed.

End ListingExact.

Section ListingWhole.

Context {rt : Js.Runtime}.

Variable config : Config.
Variable cwd : string.
Variable fs : Fs.t.

Lemma readDirectoryRecursive_exact (dirPath : string) (depth : Z)
    (items : list Fs.Dirent) :
  (depth <= maxRecursionDepth config)%Z ->
  Fs.readdir fs dirPath = Ok items ->
  readDirectoryRecursive config cwd fs dirPath depth
  = match first_stat_error fs dirPath items with
    | Some m => Throw ("Failed to read directory: " ++ m)
    | None =>
        Ok (ListingOk (listed_folders config cwd dirPath items)
              (listed_files config cwd fs dirPath items))
    end.
Proof.
  intros Hd Hread. unfold readDirectoryRecursive.
  apply Z.ltb_ge in Hd. rewrite Hd, Hread. simpl bind.
  rewrite readDirectory_loop_exact.
  destruct (first_stat_error fs dirPath items); reflexivity.
Qed.

Lemma listed_files_names (dirPath : string) (items : list Fs.Dirent) :
  first_stat_error fs dirPath items = None ->
  map file_name (listed_files config cwd fs dirPath items)
  = map Fs.name (filter (fun item => visible item && Fs.isFile item) items).
Proof.
  induction items as [|item rest IH]; intros H; [reflexivity|].
  rewrite listed_files_cons. rewrite first_stat_error_cons in H.
  simpl filter.
  destruct (visible item && Fs.isFile item).
  - destruct (Fs.stat fs (Path.join [dirPath; Fs.name item])); [|discriminate].
    simpl. rewrite IH by assumption. reflexivity.
  - simpl. auto.
Qed.

Lemma browse_handler_listing (req : Request) (p dirPath : string)
    (stats : Fs.Stats) :
  query_path req = Some p ->
  sanitizePath config cwd p = Ok dirPath ->
  Fs.stat fs dirPath = Ok stats ->
  Fs.stats_isDirectory stats = true ->
  browse_handler config cwd fs req
  = match readDirectoryRecursive config cwd fs dirPath 0 with
    | Ok l => json_ok (JsonListing l)
    | Throw m => json_error 500 m
    end.
Proof.
  intros Hq Hs Hst Hdir. unfold browse_handler. rewrite Hq. simpl or_empty.
  replace (if Js.truthy p then p else EmptyString) with p
    by (destruct p; reflexivity).
  rewrite Hs. simpl bind. rewrite Hst. simpl bind. rewrite Hdir. simpl negb.
  cbv iota. destruct (readDirectoryRecursive config cwd fs dirPath 0); reflexivity.
Qed.

End ListingWhole.

(** X1.  When every visible regular file of a directory can be inspected,
    its listing is exactly this: the folders are the visible directories
    and the files are the visible regular files, both in the order in which
    the directory lists them, each file with the size and date that [stat]
    reports; entries that are neither (symbolic links, devices) and entries
    whose name starts with a dot are left out. *)
Theorem listing_is_visible_entries_in_order {rt : Js.Runtime}
    (config : Config) (cwd : string) (fs : Fs.t)
    (dirPath : string) (depth : Z) (items : list Fs.Dirent) :
  (depth <= maxRecursionDepth config)%Z ->
  Fs.readdir fs dirPath = Ok items ->
  first_stat_error fs dirPath items = None ->
  readDirectoryRecursive config cwd fs dirPath depth
  = Ok (ListingOk (listed_folders config cwd dirPath items)
          (listed_files config cwd fs dirPath items))
  /\ map folder_name (listed_folders config cwd dirPath items)
     = map Fs.name
         (filter (fun item => visible item && Fs.isDirectory item) items)
  /\ map file_name (listed_files config cwd fs dirPath items)
     = map Fs.name
         (filter (fun item => visible item && Fs.isFile item) items)
  /\ (forall f,
        In f (listed_files config cwd fs dirPath items) ->
        exists item stats,
          In item items
          /\ Fs.stat fs (Path.join [dirPath; Fs.name item]) = Ok stats
          /\ f = file_entry_of config cwd dirPath item stats).
Proof.
  intros Hd Hread Hok. split; [|split; [|split]].
  - rewrite (readDirectoryRecursive_exact config cwd fs dirPath depth items Hd Hread).
    rewrite Hok. reflexivity.
  - unfold listed_folders. rewrite map_map. reflexivity.
  - apply listed_files_names. assumption.
  - intros f Hf. unfold listed_files in Hf. apply in_flat_map in Hf.
    destruct Hf as (item & Hin & Hf).
    destruct (visible item && Fs.isFile item); [|destruct Hf].
    destruct (Fs.stat fs (Path.join [dirPath; Fs.name item])) as [stats|m] eqn:E;
      [|destruct Hf].
    destruct Hf as [<-|[]]. eauto.
Qed.

Lemma listing_is_visible_entries_in_order_witness :
  readDirectoryRecursive Scenario.config Scenario.cwd Scenario.fs "/lib" 0
  = Ok (ListingOk
          (listed_folders Scenario.config Scenario.cwd "/lib"
             [Scenario.dirent ".hidden" Fs.Directory;
              Scenario.dirent "movies" Fs.Directory])
          (listed_files Scenario.config Scenario.cwd Scenario.fs "/lib"
             [Scenario.dirent ".hidden" Fs.Directory;
              Scenario.dirent "movies" Fs.Directory]))
  /\ map folder_name
       (listed_folders Scenario.config Scenario.cwd "/lib"
          [Scenario.dirent ".hidden" Fs.Directory;
           Scenario.dirent "movies" Fs.Directory])
     = ["movies"]
  /\ map file_name
       (listed_files Scenario.config Scenario.cwd Scenario.fs "/lib"
          [Scenario.dirent ".hidden" Fs.Directory;
           Scenario.dirent "movies" Fs.Directory])
     = []
  /\ (forall f,
        In f (listed_files Scenario.config Scenario.cwd Scenario.fs "/lib"
                [Scenario.dirent ".hidden" Fs.Directory;
                 Scenario.dirent "movies" Fs.Directory]) ->
        exists item stats,
          In item [Scenario.dirent ".hidden" Fs.Directory;
                   Scenario.dirent "movies" Fs.Directory]
          /\ Fs.stat Scenario.fs (Path.join ["/lib"; Fs.name item]) = Ok stats
          /\ f = file_entry_of Scenario.config Scenario.cwd "/lib" item stats).
Proof.
  apply (listing_is_visible_entries_in_order Scenario.config Scenario.cwd
           Scenario.fs "/lib" 0);
    [simpl; lia | reflexivity | reflexivity].
Defined.



(* ================================================================== *)
(** ** Paths handed out and paths taken back *)
(* ================================================================== *)

Module RoundTripFacts.
Import Js JsFacts Path PathFacts StripFacts ResolveFacts RelativeFacts LegacyFacts.

Lemma strip_without_dotdot (s : string) :
  startsWith s ".." = false -> strip_parent_prefix s = s.
Proof.
  intros H.
  destruct (strip_cases s)
    as [[-> _]|[(s' & -> & _)|[(s' & -> & _)|(E & _ & _)]]];
    try discriminate H.
  exact E.
Qed.

Lemma clean_head_relative (m : string) (M : list string) :
  clean_seg m = true -> isAbsolute (Js.join "/" (m :: M)) = false.
Proof.
  intros Hm. destruct (clean_seg_spec m Hm) as (_ & Hs & Hne).
  destruct M as [|y M]; [|rewrite join_cons2]; [|apply isAbsolute_append; assumption].
  simpl. rewrite <- (append_nil_r m). apply isAbsolute_append; assumption.
Qed.

Lemma endsWithSlash_join (m : string) (M : list string) :
  Forall (fun s => clean_seg s = true) (m :: M) ->
  endsWithSlash (Js.join "/" (m :: M)) = false.
Proof.
  revert m. induction M as [|y M IH]; intros m H.
  - inversion H as [|? ? Hm _]; subst.
    destruct (clean_seg_spec m Hm) as (_ & Hs & _).
    apply endsWithSlash_no_slash. assumption.
  - inversion H as [|? ? Hm HM]; subst.
    rewrite join_cons2.
    assert (Hne : "/" ++ Js.join "/" (y :: M) <> EmptyString) by discriminate.
    rewrite (endsWithSlash_app m _ Hne).
    inversion HM as [|? ? Hy _]; subst.
    destruct (clean_seg_spec y Hy) as (_ & _ & Hyne).
    rewrite (endsWithSlash_app "/" _ (join_nonempty y M Hyne)).
    apply IH. assumption.
Qed.

(** Clean segments joined by [/] are already normalised. *)
Lemma normalize_clean_join (m : string) (M : list string) :
  Forall (fun s => clean_seg s = true) (m :: M) ->
  normalize (Js.join "/" (m :: M)) = Js.join "/" (m :: M).
Proof.
  intros H.
  assert (Hm : clean_seg m = true) by (inversion H; assumption).
  destruct (clean_seg_spec m Hm) as (_ & _ & Hne).
  unfold normalize.
  assert (E0 : (Js.join "/" (m :: M) =? EmptyString) = false).
  { apply String.eqb_neq. apply join_nonempty. assumption. }
  rewrite E0, (clean_head_relative m M Hm), (endsWithSlash_join m M H).
  simpl negb. unfold normalizeString.
  rewrite split_join by (try discriminate; apply clean_no_slash; assumption).
  rewrite normalizeSegs_plain by (apply clean_plain; assumption).
  simpl app. rewrite E0. reflexivity.
Qed.

(** A path below the resolved root, relative to the configured video
    directory, is what lies below the root. *)
Lemma relative_below (cwd videoDir : string) (B D : list string) :
  resolve cwd [videoDir] = "/" ++ Js.join "/" B ->
  Forall (fun s => clean_seg s = true) B ->
  Forall (fun s => clean_seg s = true) D ->
  D <> [] ->
  relative cwd videoDir ("/" ++ Js.join "/" (B ++ D)%list) = Js.join "/" D.
Proof.
  intros EB HB HD Hne.
  assert (HBD : Forall (fun s => clean_seg s = true) (B ++ D)%list)
    by (apply Forall_app; split; assumption).
  assert (Hneq : "/" ++ Js.join "/" (B ++ D)%list <> "/" ++ Js.join "/" B).
  { intros E. apply rooted_injective in E; [|assumption|assumption].
    apply (f_equal (@List.length string)) in E.
    rewrite length_app in E. destruct D; [congruence | simpl in E; lia]. }
  unfold relative.
  assert (E1 : (videoDir =? "/" ++ Js.join "/" (B ++ D)%list) = false).
  { apply String.eqb_neq. intros ->.
    rewrite (resolve_abs_clean cwd _ HBD) in EB. contradiction. }
  rewrite E1, EB, (resolve_abs_clean cwd _ HBD).
  assert (E2 : ("/" ++ Js.join "/" B =? "/" ++ Js.join "/" (B ++ D)%list) = false).
  { apply String.eqb_neq. intros E. apply Hneq. symmetry. exact E. }
  rewrite E2, (abs_segments_clean B HB), (abs_segments_clean _ HBD).
  rewrite drop_common_app. reflexivity.
Qed.

End RoundTripFacts.

Section RoundTrip.

Context {rt : Js.Runtime}.

Import Js JsFacts Path PathFacts StripFacts ResolveFacts RelativeFacts
  LegacyFacts RoundTripFacts.

Variable config : Config.
Variable cwd : string.

(** Clean segments that do not begin with two dots resolve to themselves
    below the root. *)
Lemma sanitizePath_clean_join (B : list string) (m : string) (M : list string) :
  resolve cwd [videoDirectory config] = "/" ++ Js.join "/" B ->
  Forall (fun s => clean_seg s = true) B ->
  B <> [] ->
  Forall (fun s => clean_seg s = true) (m :: M) ->
  startsWith (Js.join "/" (m :: M)) ".." = false ->
  sanitizePath config cwd (Js.join "/" (m :: M))
  = Ok ("/" ++ Js.join "/" (B ++ m :: M)%list).
Proof.
  intros EB HB HBne HD Hdots.
  assert (Hm : clean_seg m = true) by (inversion HD; assumption).
  destruct (clean_seg_spec m Hm) as (_ & _ & Hmne).
  assert (Hjne : Js.join "/" (m :: M) <> EmptyString)
    by (apply join_nonempty; assumption).
  unfold sanitizePath. rewrite EB.
  replace (negb (truthy (Js.join "/" (m :: M)))
           || (Js.join "/" (m :: M) =? EmptyString)) with false.
  2:{ symmetry. apply orb_false_iff. split.
      - destruct (Js.join "/" (m :: M)); [congruence | reflexivity].
      - apply String.eqb_neq. assumption. }
  rewrite (normalize_clean_join m M HD), (strip_without_dotdot _ Hdots).
  rewrite (resolve_below cwd _ B HB (clean_head_relative m M Hm)).
  apply String.eqb_neq in Hjne. rewrite Hjne.
  destruct (split_trailing (m :: M) EmptyString) as [n En];
    [discriminate | apply clean_no_slash; assumption | left; reflexivity |].
  rewrite append_nil_r in En. rewrite En.
  rewrite normalizeSegs_plain_then_empties by (apply clean_plain; assumption).
  destruct B as [|b B]; [congruence|].
  rewrite join_app_below.
  replace (startsWith
             ("/" ++ Js.join "/" (b :: B) ++ "/" ++ Js.join "/" (m :: M))
             (("/" ++ Js.join "/" (b :: B)) ++ sep))
    with true.
  - reflexivity.
  - symmetry. apply startsWith_spec. exists (Js.join "/" (m :: M)).
    unfold sep. rewrite !append_assoc. reflexivity.
Qed.

End RoundTrip.

(** X3.  The relative paths that the listing and the search hand out
    lead back to the entry they were computed from.  For an entry whose
    full path is the root followed by clean segments [D] that do not begin
    with two dots: joining a clean name onto its directory adds the name as
    one more segment; [path.relative] from the configured video directory
    gives the segments [D] joined by [/]; and [sanitizePath] of that
    relative path gives the full path back. *)
Theorem handed_out_path_resolves_back
    (config : Config) (cwd : string) (D : list string) (name : string) :
  Path.isAbsolute cwd = true ->
  Path.resolve cwd [videoDirectory config] <> "/" ->
  Forall (fun s => clean_seg s = true) (D ++ [name]) ->
  Js.startsWith (Js.join "/" (D ++ [name])) ".." = false ->
  Path.join [Js.join "/" (Path.resolve cwd [videoDirectory config] :: D); name]
  = Js.join "/" (Path.resolve cwd [videoDirectory config] :: D ++ [name])
  /\ Path.relative cwd (videoDirectory config)
       (Js.join "/" (Path.resolve cwd [videoDirectory config] :: D ++ [name]))
     = Js.join "/" (D ++ [name])
  /\ sanitizePath config cwd (Js.join "/" (D ++ [name]))
     = Ok (Js.join "/" (Path.resolve cwd [videoDirectory config] :: D ++ [name])).
Proof.
  intros Hcwd Hroot HD Hdots.
  destruct (PathFacts.resolve_normal_form cwd [videoDirectory config] Hcwd)
    as (B & EB & HB).
  assert (HBne : B <> []).
  { intros ->. apply Hroot. exact EB. }
  assert (Hjoin : forall X, X <> [] ->
            Js.join "/" (Path.resolve cwd [videoDirectory config] :: X)
            = "/" ++ Js.join "/" (B ++ X)%list).
  { intros X HX. destruct X as [|x X]; [congruence|].
    destruct B as [|b B]; [congruence|].
    rewrite ResolveFacts.join_app_below, StripFacts.join_cons2, EB.
    rewrite !JsFacts.append_assoc. reflexivity. }
  assert (HDne : (D ++ [name])%list <> []) by (destruct D; discriminate).
  apply Forall_app in HD as HD'. destruct HD' as [HDc Hn].
  inversion Hn as [|? ? Hname _]; subst.
  split; [|split].
  - rewrite (Hjoin _ HDne).
    destruct D as [|d D'].
    + simpl Js.join at 1. rewrite EB.
      apply RelativeFacts.join_child; assumption.
    + rewrite (Hjoin (d :: D')) by discriminate.
      rewrite app_assoc.
      apply RelativeFacts.join_child; [|assumption].
      apply Forall_app. split; assumption.
  - rewrite (Hjoin _ HDne).
    apply RoundTripFacts.relative_below; assumption.
  - rewrite (Hjoin _ HDne).
    destruct (D ++ [name])%list as [|m M] eqn:E; [congruence|].
    apply sanitizePath_clean_join; assumption.
Qed.

Lemma handed_out_path_resolves_back_witness :
  Path.join [Js.join "/" ["/lib"; "movies"]; "a.mp4"]
  = Js.join "/" ["/lib"; "movies"; "a.mp4"]
  /\ Path.relative Scenario.cwd "/lib" (Js.join "/" ["/lib"; "movies"; "a.mp4"])
     = Js.join "/" ["movies"; "a.mp4"]
  /\ sanitizePath Scenario.config Scenario.cwd (Js.join "/" ["movies"; "a.mp4"])
     = Ok (Js.join "/" ["/lib"; "movies"; "a.mp4"]).
Proof.
  apply (handed_out_path_resolves_back Scenario.config Scenario.cwd
           ["movies"] "a.mp4");
    [reflexivity | discriminate | repeat constructor | reflexivity].
Defined.

(* ================================================================== *)
(** ** The middleware in front of the routes *)
(* ================================================================== *)

Module HostFacts.
Import Js JsFacts.

(** The first piece of a split is what stands before the first
    separator. *)
Lemma split_head (c : ascii) (s : string) :
  has_char c (hd EmptyString (split c s)) = false
  /\ (s = hd EmptyString (split c s)
      \/ exists r, s = hd EmptyString (split c s) ++ String c r).
Proof.
  induction s as [|a s [IH1 IH2]]; [split; [reflexivity | left; reflexivity]|].
  simpl. destruct (Ascii.eqb a c) eqn:Ea.
  - apply Ascii.eqb_eq in Ea. subst a. simpl.
    split; [reflexivity|]. right. exists s. reflexivity.
  - pose proof (split_not_nil c s) as Hne.
    destruct (split c s) as [|h t]; [congruence|].
    simpl in *. rewrite Ea, IH1. split; [reflexivity|].
    destruct IH2 as [->|[r ->]]; [left; reflexivity|].
    right. exists r. reflexivity.
Qed.

Lemma split_head_of (c : ascii) (h r : string) :
  has_char c h = false ->
  hd EmptyString (split c h) = h
  /\ hd EmptyString (split c (h ++ String c r)) = h.
Proof.
  intros Hh. rewrite split_app_sep, (split_no_char c h Hh). split; reflexivity.
Qed.

Lemma array_includes_two (a b x : string) :
  array_includes [a; b] x = true <-> x = a \/ x = b.
Proof.
  unfold array_includes. simpl. rewrite !orb_true_iff, !String.eqb_eq.
  intuition discriminate.
Qed.

End HostFacts.

(** X4.  Only requests addressed to [127.0.0.1] or [localhost], with or
    without something after a colon, get past the network-isolation
    middleware; a request with any other [Host], or none, is answered 403
    by the three routes whatever its session and the state of the
    library, and one that passes without an authenticated session is
    answered 401 before its parameters are looked at. *)
Theorem only_local_hosts_pass {rt : Js.Runtime}
    (config : Config) (cwd : string) (fs : Fs.t) (req : Request) :
  (host_allowed (host req) = true <->
     exists name,
       (name = "127.0.0.1" \/ name = "localhost")
       /\ (host req = Some name
           \/ exists port, host req = Some (name ++ ":" ++ port)))
  /\ (host_allowed (host req) = false ->
      api_browse config cwd fs req = json_error 403 "Access denied"
      /\ api_search config cwd fs req = Some (json_error 403 "Access denied")
      /\ api_video config cwd fs req = json_error 403 "Access denied")
  /\ (host_allowed (host req) = true -> authenticated req = false ->
      api_browse config cwd fs req = json_error 401 "Unauthorized"
      /\ api_search config cwd fs req = Some (json_error 401 "Unauthorized")
      /\ api_video config cwd fs req = json_error 401 "Unauthorized").
Proof.
  split; [|split].
  - unfold host_allowed. rewrite HostFacts.array_includes_two. split.
    + intros H. destruct (host req) as [s|].
      2:{ destruct H as [H|H]; discriminate H. }
      destruct s as [|a s]; [destruct H as [H|H]; discriminate H|].
      simpl Js.truthy in H. cbv iota in H.
      destruct (HostFacts.split_head ":" (String a s)) as [_ Hs].
      set (h := hd EmptyString (Js.split ":" (String a s))) in *.
      exists h. split; [exact H|].
      destruct Hs as [Hs|[r Hs]]; [left | right; exists r]; rewrite Hs at 1;
        reflexivity.
    + intros (name & Hname & Hhost).
      assert (Hc : has_char ":" name = false)
        by (destruct Hname as [->| ->]; reflexivity).
      assert (Hne : name <> EmptyString)
        by (destruct Hname as [->| ->]; discriminate).
      destruct Hhost as [->|[port ->]].
      * destruct name as [|a n]; [congruence|]. simpl Js.truthy. cbv iota.
        rewrite (proj1 (HostFacts.split_head_of ":" _ EmptyString Hc)).
        exact Hname.
      * destruct name as [|a n]; [congruence|].
        change (String a n ++ ":" ++ port)
          with (String a (n ++ String ":" port)).
        simpl Js.truthy. cbv iota.
        change (String a (n ++ String ":" port))
          with (String a n ++ String ":" port).
        rewrite (proj2 (HostFacts.split_head_of ":" _ port Hc)).
        exact Hname.
  - intros H. unfold api_browse, api_search, api_video, with_middleware.
    rewrite H. repeat split.
  - intros H Ha. unfold api_browse, api_search, api_video, with_middleware.
    rewrite H, Ha. repeat split.
Qed.

(* ================================================================== *)
(** ** The search endpoint *)
(* ================================================================== *)

Module SearchFacts.
Import Js.

Lemma lower_letters_length (s : string) :
  String.length (lower_letters s) = String.length s.
Proof. induction s as [|a s IH]; simpl; congruence. Qed.

Lemma lower_ascii_idem (a : ascii) : lower_ascii (lower_ascii a) = lower_ascii a.
Proof. destruct a as [[] [] [] [] [] [] [] []]; reflexivity. Qed.

Lemma lower_letters_idem (s : string) :
  lower_letters (lower_letters s) = lower_letters s.
Proof.
  induction s as [|a s IH]; simpl; [reflexivity|].
  rewrite lower_ascii_idem, IH. reflexivity.
Qed.

Lemma lower_ascii_below (a : ascii) :
  (nat_of_ascii (lower_ascii a) <? 128)%nat = (nat_of_ascii a <? 128)%nat.
Proof. destruct a as [[] [] [] [] [] [] [] []]; reflexivity. Qed.

Lemma lower_letters_ascii_only (s : string) :
  ascii_only (lower_letters s) = ascii_only s.
Proof.
  induction s as [|a s IH]; simpl; [reflexivity|].
  rewrite lower_ascii_below, IH. reflexivity.
Qed.

(** On ASCII the runtime has no say. *)
Lemma toLowerCase_ascii {rt : Runtime} (s : string) :
  ascii_only s = true -> toLowerCase s = lower_letters s.
Proof. intros H. unfold toLowerCase. rewrite H. reflexivity. Qed.

Lemma string_length_ascii {rt : Runtime} (s : string) :
  ascii_only s = true -> string_length s = String.length s.
Proof. intros H. unfold string_length. rewrite H. reflexivity. Qed.

Lemma toLowerCase_idem_ascii {rt : Runtime} (s : string) :
  ascii_only s = true -> toLowerCase (toLowerCase s) = toLowerCase s.
Proof.
  intros H. rewrite (toLowerCase_ascii s H).
  rewrite toLowerCase_ascii by (rewrite lower_letters_ascii_only; exact H).
  apply lower_letters_idem.
Qed.

Lemma string_length_lower_ascii {rt : Runtime} (s : string) :
  ascii_only s = true -> string_length (toLowerCase s) = string_length s.
Proof.
  intros H. rewrite (toLowerCase_ascii s H), (string_length_ascii s H).
  rewrite string_length_ascii by (rewrite lower_letters_ascii_only; exact H).
  apply lower_letters_length.
Qed.

(** A string of two units or more is not the empty string. *)
Lemma long_truthy {rt : Runtime} (s : string) :
  (string_length s <? 2)%nat = false -> truthy s = true.
Proof. destruct s; [discriminate | reflexivity]. Qed.

End SearchFacts.

Section SearchVariations.

Context {rt : Js.Runtime}.

Variable config : Config.
Variable cwd : string.

(** The loop does not look past a matching file that cannot be
    inspected. *)
Lemma searchDir_loop_cut (fs : Fs.t)
    (self : string -> Z -> SearchState -> option SearchState)
    (lowerQuery dirPath : string) (depth : Z)
    (item : Fs.Dirent) (rest rest' : list Fs.Dirent) (m : string) :
  Js.startsWith (Fs.name item) "." = false ->
  Fs.isFile item = true ->
  Js.includes (Js.toLowerCase (Fs.name item)) lowerQuery = true ->
  Fs.stat fs (Path.join [dirPath; Fs.name item]) = Throw m ->
  forall pre st,
    searchDir_loop config cwd fs self lowerQuery dirPath depth
      (pre ++ item :: rest)%list st
    = searchDir_loop config cwd fs self lowerQuery dirPath depth
        (pre ++ item :: rest')%list st.
Proof.
  intros Hvis Hfile Hmatch Hstat.
  assert (Hdir : Fs.isDirectory item = false).
  { unfold Fs.isFile in Hfile. unfold Fs.isDirectory.
    destruct (Fs.dirent_kind item); [discriminate | reflexivity | reflexivity]. }
  induction pre as [|x pre IH]; intros st.
  - simpl app. rewrite !searchDir_loop_cons.
    rewrite Hvis, Hdir, Hfile, Hmatch, Hstat. reflexivity.
  - rewrite <- !app_comm_cons, !searchDir_loop_cons.
    destruct (Js.startsWith (Fs.name x) "."); [apply IH|].
    destruct (Fs.isDirectory x).
    + destruct (self (Path.join [dirPath; Fs.name x]) (depth + 1)%Z st);
        [apply IH | reflexivity].
    + destruct (Fs.isFile x && isMediaFile (Fs.name x)); [|apply IH].
      destruct (Js.includes (Js.toLowerCase (Fs.name x)) lowerQuery);
        [|apply IH].
      destruct (Fs.stat fs (Path.join [dirPath; Fs.name x])); [apply IH|].
      reflexivity.
Qed.

Lemma searchDir_loop_congr (fs : Fs.t)
    (self self' : string -> Z -> SearchState -> option SearchState)
    (lowerQuery dirPath : string) (depth : Z) :
  (forall p st, self p (depth + 1)%Z st = self' p (depth + 1)%Z st) ->
  forall items st,
    searchDir_loop config cwd fs self lowerQuery dirPath depth items st
    = searchDir_loop config cwd fs self' lowerQuery dirPath depth items st.
Proof.
  intros Hself. induction items as [|x items IH]; intros st; [reflexivity|].
  rewrite !searchDir_loop_cons.
  destruct (Js.startsWith (Fs.name x) "."); [apply IH|].
  destruct (Fs.isDirectory x).
  - rewrite Hself.
    destruct (self' (Path.join [dirPath; Fs.name x]) (depth + 1)%Z st);
      [apply IH | reflexivity].
  - destruct (Fs.isFile x && isMediaFile (Fs.name x)); [|apply IH].
    destruct (Js.includes (Js.toLowerCase (Fs.name x)) lowerQuery); [|apply IH].
    destruct (Fs.stat fs (Path.join [dirPath; Fs.name x])); [apply IH|].
    reflexivity.
Qed.

Lemma searchDir_loop_same_stat (fs fs' : Fs.t)
    (self : string -> Z -> SearchState -> option SearchState)
    (lowerQuery dirPath : string) (depth : Z) :
  (forall p, Fs.stat fs' p = Fs.stat fs p) ->
  forall items st,
    searchDir_loop config cwd fs' self lowerQuery dirPath depth items st
    = searchDir_loop config cwd fs self lowerQuery dirPath depth items st.
Proof.
  intros Hstat. induction items as [|x items IH]; intros st; [reflexivity|].
  rewrite !searchDir_loop_cons, Hstat.
  destruct (Js.startsWith (Fs.name x) "."); [apply IH|].
  destruct (Fs.isDirectory x).
  - destruct (self (Path.join [dirPath; Fs.name x]) (depth + 1)%Z st);
      [apply IH | reflexivity].
  - destruct (Fs.isFile x && isMediaFile (Fs.name x)); [|apply IH].
    destruct (Js.includes (Js.toLowerCase (Fs.name x)) lowerQuery); [|apply IH].
    destruct (Fs.stat fs (Path.join [dirPath; Fs.name x])); [apply IH|].
    reflexivity.
Qed.

(** Where no inspection fails, the loop over a list of entries is the
    loop over its front followed by the loop over its back. *)
Lemma searchDir_loop_app (fs : Fs.t)
    (self : string -> Z -> SearchState -> option SearchState)
    (lowerQuery dirPath : string) (depth : Z)
    (pre rest : list Fs.Dirent) (st : SearchState) :
  inspectable fs lowerQuery dirPath pre ->
  searchDir_loop config cwd fs self lowerQuery dirPath depth
    (pre ++ rest)%list st
  = match searchDir_loop config cwd fs self lowerQuery dirPath depth pre st with
    | Some st1 =>
        searchDir_loop config cwd fs self lowerQuery dirPath depth rest st1
    | None => None
    end.
Proof.
  revert st. induction pre as [|x pre IH]; intros st Hpre; [reflexivity|].
  inversion Hpre as [|? ? Hx Hpre']; subst.
  rewrite <- app_comm_cons, !searchDir_loop_cons.
  destruct (Js.startsWith (Fs.name x) "."); [apply IH; assumption|].
  destruct (Fs.isDirectory x).
  - destruct (self (Path.join [dirPath; Fs.name x]) (depth + 1)%Z st);
      [apply IH; assumption | reflexivity].
  - destruct (Fs.isFile x) eqn:Hf; simpl andb; cbv iota;
      [|apply IH; assumption].
    destruct (Js.includes (Js.toLowerCase (Fs.name x)) lowerQuery) eqn:Hm;
      [|apply IH; assumption].
    destruct (Hx eq_refl eq_refl eq_refl) as [stats Hs]. rewrite Hs.
    apply IH. assumption.
Qed.

(** A directory that cannot be read and an empty one leave the same
    state behind. *)
Lemma searchDir_unreadable (fs fs' : Fs.t) (lowerQuery : string)
    (maxResults : Z) :
  unreadable_as_empty fs fs' ->
  forall fuel p d st,
    searchDir config cwd fs' lowerQuery maxResults fuel p d st
    = searchDir config cwd fs lowerQuery maxResults fuel p d st.
Proof.
  intros [Hstat Hread].
  induction fuel as [|fuel IH]; intros p d st; [reflexivity|].
  rewrite !searchDir_S.
  destruct ((maxRecursionDepth config <? d)%Z
            || (maxResults <=? Z.of_nat (List.length (results st)))%Z);
    [reflexivity|].
  destruct (Hread p) as [E|[[m E] E']].
  - rewrite E. destruct (Fs.readdir fs p) as [items|m]; [|reflexivity].
    rewrite (searchDir_loop_same_stat fs fs' _ _ _ _ Hstat).
    apply searchDir_loop_congr. intros q st1. apply IH.
  - rewrite E, E'. reflexivity.
Qed.

Lemma unreadable_emptied_spec (fs : Fs.t) :
  unreadable_as_empty fs (unreadable_emptied fs).
Proof.
  split; [reflexivity|]. intros p. simpl.
  destruct (Fs.readdir fs p) as [items|m]; [left; reflexivity|].
  right. split; [exists m|]; reflexivity.
Qed.

End SearchVariations.

(** X5.  The search endpoint always answers a request whose [path] is a
    string or absent, and never with an error of the file system: its
    status is 200, 401, 403 or 500, and 500 carries the
    message of a rejected [path] parameter or, when [q] is not a string
    because it was given more than once or with brackets, the message of
    the [TypeError] of [query.toLowerCase].  The [count] of an answer is the
    length of its [results]; every result has a name that contains the
    query, both lower-cased, and the type [getFileType] gives its name.  A
    missing or empty query and one whose [length] is below two are answered
    with no results before the [path] parameter is looked at. *)
Theorem search_always_answers {rt : Js.Runtime}
    (config : Config) (cwd : string) (fs : Fs.t) (req : Request) :
  exists resp,
    api_search config cwd fs req = Some resp
    /\ In (status resp) [200; 401; 403; 500]%Z
    /\ (status resp = 500%Z ->
        (exists m,
            sanitizePath config cwd (or_empty (query_path req)) = Throw m
            /\ resp = json_error 500 m)
        \/ ((forall q, query_q req <> Some (QString q))
            /\ resp = json_error 500 "query.toLowerCase is not a function"))
    /\ (forall rs n,
          body resp = JsonSearch rs n ->
          n = Z.of_nat (List.length rs)
          /\ Forall (fun r =>
               exists q,
                 query_q req = Some (QString q)
                 /\ Js.includes (Js.toLowerCase (sr_name r))
                      (Js.toLowerCase q) = true
                 /\ sr_type r = getFileType config (sr_name r)) rs)
    /\ (host_allowed (host req) = true -> authenticated req = true ->
        query_falsy (query_or_empty (query_q req))
        || query_short (query_or_empty (query_q req)) = true ->
        resp = json_ok (JsonSearch [] 0)).
Proof.
  unfold api_search, with_middleware.
  destruct (host_allowed (host req)); simpl negb; cbv iota.
  2:{ eexists. split; [reflexivity|]. simpl.
      repeat split; try discriminate; auto. }
  destruct (authenticated req); simpl negb; cbv iota.
  2:{ eexists. split; [reflexivity|]. simpl.
      repeat split; try discriminate; auto. }
  unfold search_handler.
  destruct (query_falsy (query_or_empty (query_q req))
            || query_short (query_or_empty (query_q req))) eqn:Hshort.
  { eexists. split; [reflexivity|]. simpl.
    split; [auto|]. split; [discriminate|]. split; [|reflexivity].
    intros rs n H. injection H as <- <-. split; [reflexivity | constructor]. }
  destruct (sanitizePath config cwd (or_empty (query_path req)))
    as [fullPath|m] eqn:Hsan.
  2:{ eexists. split; [reflexivity|]. simpl.
      split; [auto|].
      split; [intros _; left; exists m; split; reflexivity|].
      split; [discriminate | intros _ _ H; discriminate]. }
  destruct (query_q req) as [[q|n|short]|] eqn:Hq; simpl query_or_empty in *;
    cbv iota.
  - destruct (search_run_total config cwd fs fullPath q default_maxResults)
      as [st Hrun].
    unfold searchVideosRecursive. rewrite Hrun. simpl option_map. cbv iota.
    eexists. split; [reflexivity|]. simpl.
    split; [auto|]. split; [discriminate|].
    split; [|intros _ _ H; discriminate].
    intros rs n H. injection H as <- <-. split; [reflexivity|].
    destruct (search_run_entitled config cwd fs _ _ _ _ _ Hrun) as [Hres _].
    eapply Forall_impl; [|exact Hres].
    intros r (dir & d & items & item & stats & _ & _ & _ & _ & _ & _
              & Hmatch & _ & ->).
    exists q. split; [reflexivity|]. split; [exact Hmatch | reflexivity].
  - eexists. split; [reflexivity|]. simpl.
    split; [auto|].
    split; [intros _; right; split; [intros q; discriminate | reflexivity]|].
    split; [discriminate | intros _ _ H; discriminate].
  - eexists. split; [reflexivity|]. simpl.
    split; [auto|].
    split; [intros _; right; split; [intros q; discriminate | reflexivity]|].
    split; [discriminate | intros _ _ H; discriminate].
  - discriminate.
Qed.

(** X6.  The letter case of the query does not matter: two queries that
    agree once lower-cased give the same results in
    [searchVideosRecursive], and the endpoint answers them alike when both
    have a [length] of two or more, or both less.  A query of ASCII
    characters is answered as its lower-cased form is. *)
Theorem search_ignores_query_case {rt : Js.Runtime}
    (config : Config) (cwd : string) (fs : Fs.t) (req : Request)
    (q q' : string) :
  Js.toLowerCase q = Js.toLowerCase q' ->
  (forall startPath maxResults,
      searchVideosRecursive config cwd fs startPath q maxResults
      = searchVideosRecursive config cwd fs startPath q' maxResults)
  /\ ((Js.string_length q <? 2)%nat = (Js.string_length q' <? 2)%nat ->
      api_search config cwd fs (with_query req (Some q))
      = api_search config cwd fs (with_query req (Some q')))
  /\ (Js.ascii_only q = true ->
      api_search config cwd fs (with_query req (Some q))
      = api_search config cwd fs (with_query req (Some (Js.toLowerCase q)))).
Proof.
  intros H.
  assert (Hrun : forall a b, Js.toLowerCase a = Js.toLowerCase b ->
            forall startPath maxResults,
              searchVideosRecursive config cwd fs startPath a maxResults
              = searchVideosRecursive config cwd fs startPath b maxResults).
  { intros a b E startPath maxResults.
    unfold searchVideosRecursive, searchVideosRecursive_run.
    rewrite E. reflexivity. }
  assert (Hapi : forall a b, Js.toLowerCase a = Js.toLowerCase b ->
            (Js.string_length a <? 2)%nat = (Js.string_length b <? 2)%nat ->
            api_search config cwd fs (with_query req (Some a))
            = api_search config cwd fs (with_query req (Some b))).
  { intros a b E Hlen.
    unfold api_search, with_middleware, search_handler. simpl.
    rewrite Hlen.
    destruct (Js.string_length b <? 2)%nat eqn:Hb.
    - rewrite !orb_true_r. reflexivity.
    - rewrite (SearchFacts.long_truthy a Hlen), (SearchFacts.long_truthy b Hb).
      simpl.
      destruct (sanitizePath config cwd (or_empty (query_path req)));
        [|reflexivity].
      rewrite (Hrun a b E). reflexivity. }
  split; [apply Hrun; exact H|]. split; [apply Hapi; exact H|].
  intros Hascii. apply Hapi.
  - symmetry. apply SearchFacts.toLowerCase_idem_ascii. exact Hascii.
  - rewrite SearchFacts.string_length_lower_ascii by exact Hascii. reflexivity.
Qed.

Lemma search_ignores_query_case_witness :
  (forall startPath maxResults,
      searchVideosRecursive Scenario.config Scenario.cwd Scenario.fs
        startPath "A.Mp4" maxResults
      = searchVideosRecursive Scenario.config Scenario.cwd Scenario.fs
          startPath "a.MP4" maxResults)
  /\ api_search Scenario.config Scenario.cwd Scenario.fs
       (with_query (Scenario.request None None None) (Some "A.Mp4"))
     = api_search Scenario.config Scenario.cwd Scenario.fs
         (with_query (Scenario.request None None None) (Some "a.MP4"))
  /\ api_search Scenario.config Scenario.cwd Scenario.fs
       (with_query (Scenario.request None None None) (Some "A.Mp4"))
     = api_search Scenario.config Scenario.cwd Scenario.fs
         (with_query (Scenario.request None None None) (Some "a.mp4")).
Proof.
  destruct (search_ignores_query_case Scenario.config Scenario.cwd Scenario.fs
              (Scenario.request None None None) "A.Mp4" "a.MP4" eq_refl)
    as (H1 & H2 & H3).
  split; [exact H1|]. split; [exact (H2 eq_refl) | exact (H3 eq_refl)].
Defined.

(** X7.  The search takes a directory it cannot read for an empty one:
    on a file system that differs only in that such directories are
    empty, the search makes the same calls and returns the same results,
    and the endpoint gives the same answer. *)
Theorem unreadable_directory_searched_as_empty {rt : Js.Runtime}
    (config : Config) (cwd : string) (fs fs' : Fs.t) :
  unreadable_as_empty fs fs' ->
  (forall fuel startPath query maxResults,
      searchVideosRecursive_run config cwd fs' fuel startPath query maxResults
      = searchVideosRecursive_run config cwd fs fuel startPath query maxResults)
  /\ (forall req, api_search config cwd fs' req = api_search config cwd fs req).
Proof.
  intros H.
  assert (Hrun : forall fuel startPath query maxResults,
      searchVideosRecursive_run config cwd fs' fuel startPath query maxResults
      = searchVideosRecursive_run config cwd fs fuel startPath query maxResults).
  { intros. unfold searchVideosRecursive_run.
    apply searchDir_unreadable. exact H. }
  split; [exact Hrun|].
  intros req. unfold api_search, with_middleware, search_handler,
    searchVideosRecursive.
  destruct (sanitizePath config cwd (or_empty (query_path req)));
    [|reflexivity].
  destruct (query_or_empty (query_q req)); [rewrite Hrun|..]; reflexivity.
Qed.

Lemma unreadable_directory_searched_as_empty_witness :
  (forall fuel startPath query maxResults,
      searchVideosRecursive_run Scenario.config Scenario.cwd
        (unreadable_emptied Flaky.fs) fuel startPath query maxResults
      = searchVideosRecursive_run Scenario.config Scenario.cwd Flaky.fs
          fuel startPath query maxResults)
  /\ (forall req,
        api_search Scenario.config Scenario.cwd (unreadable_emptied Flaky.fs) req
        = api_search Scenario.config Scenario.cwd Flaky.fs req).
Proof.
  apply (unreadable_directory_searched_as_empty Scenario.config Scenario.cwd
           Flaky.fs (unreadable_emptied Flaky.fs)).
  apply unreadable_emptied_spec.
Defined.

(** X8.  A file that matches the query but cannot be inspected ends the
    visit of its directory: whatever comes after it in the listing is not
    looked at, so the outcome is the same for any other tail.  What the
    entries in front of it gave is kept: when none of them fails in that
    way, the outcome is the state their visit leaves, with the failed call
    added to the log.  And whatever was found before the directory was
    entered is still there. *)
Theorem failed_stat_ends_directory_visit {rt : Js.Runtime}
    (config : Config) (cwd : string) (fs : Fs.t)
    (self : string -> Z -> SearchState -> option SearchState)
    (lowerQuery dirPath : string) (depth : Z)
    (pre : list Fs.Dirent) (item : Fs.Dirent) (rest : list Fs.Dirent)
    (m : string) (st : SearchState) :
  Js.startsWith (Fs.name item) "." = false ->
  Fs.isFile item = true ->
  Js.includes (Js.toLowerCase (Fs.name item)) lowerQuery = true ->
  Fs.stat fs (Path.join [dirPath; Fs.name item]) = Throw m ->
  searchDir_loop config cwd fs self lowerQuery dirPath depth
    (pre ++ item :: rest)%list st
  = searchDir_loop config cwd fs self lowerQuery dirPath depth
      (pre ++ [item])%list st
  /\ (inspectable fs lowerQuery dirPath pre ->
      searchDir_loop config cwd fs self lowerQuery dirPath depth
        (pre ++ item :: rest)%list st
      = option_map (log (Stat (Path.join [dirPath; Fs.name item])))
          (searchDir_loop config cwd fs self lowerQuery dirPath depth pre st))
  /\ ((forall p s s', self p (depth + 1)%Z s = Some s' -> extends s s') ->
      forall st',
        searchDir_loop config cwd fs self lowerQuery dirPath depth
          (pre ++ item :: rest)%list st = Some st' ->
        extends st st').
Proof.
  intros Hvis Hfile Hmatch Hstat.
  split; [apply (searchDir_loop_cut config cwd fs self lowerQuery dirPath depth
                   item rest [] m Hvis Hfile Hmatch Hstat)|].
  assert (Hdir : Fs.isDirectory item = false).
  { unfold Fs.isFile in Hfile. unfold Fs.isDirectory.
    destruct (Fs.dirent_kind item); [discriminate | reflexivity | reflexivity]. }
  split.
  - intros Hpre. rewrite (searchDir_loop_app config cwd fs self lowerQuery
                            dirPath depth pre (item :: rest) st Hpre).
    destruct (searchDir_loop config cwd fs self lowerQuery dirPath depth pre st)
      as [st1|]; [|reflexivity].
    rewrite searchDir_loop_cons, Hvis, Hdir, Hfile, Hmatch, Hstat.
    reflexivity.
  - intros Hself st'. apply searchDir_loop_extends. exact Hself.
Qed.

Lemma failed_stat_ends_directory_visit_witness :
  searchDir_loop Scenario.config Scenario.cwd Flaky.fs
    (searchDir Scenario.config Scenario.cwd Flaky.fs "mp4" 100 5) "mp4" "/lib" 0
    (Flaky.before_gone
     ++ Flaky.gone :: [Scenario.dirent "last.mp4" Fs.RegularFile])%list
    {| results := []; trace := [] |}
  = searchDir_loop Scenario.config Scenario.cwd Flaky.fs
      (searchDir Scenario.config Scenario.cwd Flaky.fs "mp4" 100 5) "mp4" "/lib" 0
      (Flaky.before_gone ++ [Flaky.gone])%list
      {| results := []; trace := [] |}
  /\ inspectable Flaky.fs "mp4" "/lib" Flaky.before_gone
  /\ searchDir_loop Scenario.config Scenario.cwd Flaky.fs
       (searchDir Scenario.config Scenario.cwd Flaky.fs "mp4" 100 5)
       "mp4" "/lib" 0
       (Flaky.before_gone
        ++ Flaky.gone :: [Scenario.dirent "last.mp4" Fs.RegularFile])%list
       {| results := []; trace := [] |}
     = option_map (log (Stat "/lib/gone.mp4"))
         (searchDir_loop Scenario.config Scenario.cwd Flaky.fs
            (searchDir Scenario.config Scenario.cwd Flaky.fs "mp4" 100 5)
            "mp4" "/lib" 0 Flaky.before_gone {| results := []; trace := [] |})
  /\ map sr_path
       (match
          searchDir_loop Scenario.config Scenario.cwd Flaky.fs
            (searchDir Scenario.config Scenario.cwd Flaky.fs "mp4" 100 5)
            "mp4" "/lib" 0
            (Flaky.before_gone
             ++ Flaky.gone :: [Scenario.dirent "last.mp4" Fs.RegularFile])%list
            {| results := []; trace := [] |}
        with
        | Some st' => results st'
        | None => []
        end)
     = ["first.mp4"; "sub/deep.mp4"]
  /\ (forall st',
        searchDir_loop Scenario.config Scenario.cwd Flaky.fs
          (searchDir Scenario.config Scenario.cwd Flaky.fs "mp4" 100 5)
          "mp4" "/lib" 0
          (Flaky.before_gone
           ++ Flaky.gone :: [Scenario.dirent "last.mp4" Fs.RegularFile])%list
          {| results := []; trace := [] |} = Some st' ->
        extends {| results := []; trace := [] |} st').
Proof.
  assert (Hpre : inspectable Flaky.fs "mp4" "/lib" Flaky.before_gone).
  { repeat constructor; intros _ Hf _; try discriminate Hf.
    eexists. reflexivity. }
  destruct (failed_stat_ends_directory_visit Scenario.config Scenario.cwd
              Flaky.fs
              (searchDir Scenario.config Scenario.cwd Flaky.fs "mp4" 100 5)
              "mp4" "/lib" 0 Flaky.before_gone Flaky.gone
              [Scenario.dirent "last.mp4" Fs.RegularFile]
              "ENOENT: no such file or directory"
              {| results := []; trace := [] |}
              eq_refl eq_refl eq_refl eq_refl) as (H1 & H2 & H3).
  split; [exact H1|]. split; [exact Hpre|]. split; [exact (H2 Hpre)|].
  split; [reflexivity|].
  apply H3. intros p s s'. apply searchDir_extends.
Defined.

(* ================================================================== *)
(** ** The classification of file names *)
(* ================================================================== *)

Module ExtFacts.
Import Js Path SearchFacts.

Lemma lower_ascii_slash (c : ascii) :
  Ascii.eqb (lower_ascii c) "/" = Ascii.eqb c "/".
Proof. destruct c as [[] [] [] [] [] [] [] []]; reflexivity. Qed.

Lemma lower_ascii_dot (c : ascii) :
  Ascii.eqb (lower_ascii c) "." = Ascii.eqb c ".".
Proof. destruct c as [[] [] [] [] [] [] [] []]; reflexivity. Qed.

Lemma extname_step_lower (st : ext_state) (i : nat) (c : ascii) :
  extname_step st (i, lower_ascii c) = extname_step st (i, c).
Proof.
  unfold extname_step. rewrite lower_ascii_slash, lower_ascii_dot. reflexivity.
Qed.

Lemma list_ascii_lower (s : string) :
  list_ascii_of_string (lower_letters s)
  = map lower_ascii (list_ascii_of_string s).
Proof. induction s as [|a s IH]; simpl; congruence. Qed.

Lemma combine_map_r {A B C : Type} (f : B -> C) (l : list A) (l' : list B) :
  combine l (map f l') = map (fun p => (fst p, f (snd p))) (combine l l').
Proof.
  revert l'. induction l as [|x l IH]; intros [|y l']; simpl; try reflexivity.
  rewrite IH. reflexivity.
Qed.

Lemma indexed_rev_lower (s : string) :
  indexed_rev (lower_letters s)
  = map (fun p => (fst p, lower_ascii (snd p))) (indexed_rev s).
Proof.
  unfold indexed_rev.
  rewrite lower_letters_length, list_ascii_lower, combine_map_r, map_rev.
  reflexivity.
Qed.

Lemma fold_extname_lower (l : list (nat * ascii)) :
  forall st,
    fold_left extname_step (map (fun p => (fst p, lower_ascii (snd p))) l) st
    = fold_left extname_step l st.
Proof.
  induction l as [|[i c] l IH]; intros st; [reflexivity|].
  cbn [map fold_left fst snd]. rewrite extname_step_lower. apply IH.
Qed.

Lemma take_lower (n : nat) (s : string) :
  take n (lower_letters s) = lower_letters (take n s).
Proof.
  revert s. induction n as [|n IH]; intros [|a s]; simpl; try reflexivity.
  rewrite IH. reflexivity.
Qed.

Lemma drop_lower (n : nat) (s : string) :
  drop n (lower_letters s) = lower_letters (drop n s).
Proof.
  revert s. induction n as [|n IH]; intros [|a s]; simpl; try reflexivity.
  apply IH.
Qed.

(** The extension of a name with its letters folded is the extension with
    its letters folded. *)
Lemma extname_lower (p : string) :
  extname (lower_letters p) = lower_letters (extname p).
Proof.
  unfold extname. rewrite indexed_rev_lower, fold_extname_lower.
  destruct (startDot _) as [sd|]; [|reflexivity].
  destruct (ext_end _) as [e|]; [|reflexivity].
  destruct (_ || _); [reflexivity|].
  rewrite take_lower, drop_lower. reflexivity.
Qed.

Lemma ascii_only_take (n : nat) (s : string) :
  ascii_only s = true -> ascii_only (take n s) = true.
Proof.
  revert s. induction n as [|n IH]; intros [|a s]; simpl; try reflexivity.
  intros H. apply andb_true_iff in H as [Ha Hs].
  rewrite Ha. apply IH. exact Hs.
Qed.

Lemma ascii_only_drop (n : nat) (s : string) :
  ascii_only s = true -> ascii_only (drop n s) = true.
Proof.
  revert s. induction n as [|n IH]; intros [|a s]; simpl; try reflexivity;
    try (intros H; exact H).
  intros H. apply andb_true_iff in H as [_ Hs]. apply IH. exact Hs.
Qed.

(** The extension of an ASCII name is ASCII. *)
Lemma extname_ascii_only (p : string) :
  ascii_only p = true -> ascii_only (extname p) = true.
Proof.
  intros H. unfold extname.
  destruct (startDot _) as [sd|]; [|reflexivity].
  destruct (ext_end _) as [e|]; [|reflexivity].
  destruct (_ || _); [reflexivity|].
  apply ascii_only_drop, ascii_only_take. exact H.
Qed.

(** On an ASCII name the lower-cased extension is the extension with its
    letters folded, before and after the name is lower-cased. *)
Lemma lower_extname_ascii {rt : Runtime} (p : string) :
  ascii_only p = true ->
  toLowerCase (extname p) = lower_letters (extname p).
Proof. intros H. apply toLowerCase_ascii, extname_ascii_only, H. Qed.

Lemma lower_extname_lower {rt : Runtime} (p : string) :
  ascii_only p = true ->
  toLowerCase (extname (toLowerCase p)) = toLowerCase (extname p).
Proof.
  intros H. rewrite (toLowerCase_ascii p H), extname_lower.
  rewrite toLowerCase_ascii
    by (rewrite lower_letters_ascii_only; apply extname_ascii_only, H).
  rewrite lower_letters_idem. symmetry. apply lower_extname_ascii, H.
Qed.

Lemma array_includes_In (l : list string) (x : string) :
  array_includes l x = true <-> In x l.
Proof.
  unfold array_includes. rewrite existsb_exists. split.
  - intros (y & Hy & E). apply String.eqb_eq in E. subst. exact Hy.
  - intros H. exists x. split; [exact H | apply String.eqb_refl].
Qed.

End ExtFacts.

(** X9.  The classification of a file name of ASCII characters looks at
    its extension with the letters [A] to [Z] folded: lower-casing such a
    name changes neither whether it is a video or an image, nor its type,
    nor its MIME type.  Such a name is a video exactly through an entry of
    [allowedExtensions] without a capital letter that is its extension once
    folded (an entry with a capital letter matches no such name).  The MIME
    type of any name is one of the [video/] types, also when the table does
    not list its extension. *)
Theorem classification_folds_letter_case {rt : Js.Runtime}
    (config : Config) (filename : string) :
  Js.ascii_only filename = true ->
  isVideoFile config (Js.toLowerCase filename) = isVideoFile config filename
  /\ isImageFile config (Js.toLowerCase filename) = isImageFile config filename
  /\ getFileType config (Js.toLowerCase filename) = getFileType config filename
  /\ getMimeType (Js.toLowerCase filename) = getMimeType filename
  /\ (isVideoFile config filename = true <->
      exists e, In e (allowedExtensions config)
                /\ Js.lower_letters e = e
                /\ Js.lower_letters (Path.extname filename) = e)
  /\ (forall name, Js.startsWith (getMimeType name) "video/" = true).
Proof.
  intros Hascii.
  assert (Hv : isVideoFile config (Js.toLowerCase filename)
               = isVideoFile config filename).
  { unfold isVideoFile. rewrite ExtFacts.lower_extname_lower by exact Hascii.
    reflexivity. }
  assert (Hi : isImageFile config (Js.toLowerCase filename)
               = isImageFile config filename).
  { unfold isImageFile. rewrite ExtFacts.lower_extname_lower by exact Hascii.
    reflexivity. }
  split; [exact Hv|]. split; [exact Hi|]. split; [|split; [|split]].
  - unfold getFileType.
    rewrite Hv, Hi, ExtFacts.lower_extname_lower by exact Hascii.
    reflexivity.
  - unfold getMimeType. rewrite ExtFacts.lower_extname_lower by exact Hascii.
    reflexivity.
  - unfold isVideoFile. rewrite ExtFacts.array_includes_In.
    rewrite (ExtFacts.lower_extname_ascii filename Hascii). split.
    + intros H. exists (Js.lower_letters (Path.extname filename)).
      split; [exact H|].
      split; [apply SearchFacts.lower_letters_idem | reflexivity].
    + intros (e & He & _ & E). rewrite E. exact He.
  - intros name. unfold getMimeType, mimeTypes, lookup.
    repeat match goal with
           | |- context [if ?b then _ else _] => destruct b
           end; reflexivity.
Qed.

Lemma classification_folds_letter_case_witness :
  isVideoFile Scenario.config (Js.toLowerCase "Clip.MP4")
  = isVideoFile Scenario.config "Clip.MP4"
  /\ isImageFile Scenario.config (Js.toLowerCase "Clip.MP4")
     = isImageFile Scenario.config "Clip.MP4"
  /\ getFileType Scenario.config (Js.toLowerCase "Clip.MP4")
     = getFileType Scenario.config "Clip.MP4"
  /\ getMimeType (Js.toLowerCase "Clip.MP4") = getMimeType "Clip.MP4"
  /\ (isVideoFile Scenario.config "Clip.MP4" = true <->
      exists e, In e (allowedExtensions Scenario.config)
                /\ Js.lower_letters e = e
                /\ Js.lower_letters (Path.extname "Clip.MP4") = e)
  /\ (forall name, Js.startsWith (getMimeType name) "video/" = true).
Proof.
  apply (classification_folds_letter_case Scenario.config "Clip.MP4").
  reflexivity.
Defined.

(* ================================================================== *)
(** ** Absolute path parameters *)
(* ================================================================== *)

Section AbsoluteParameter.

Context {rt : Js.Runtime}.

Import Js JsFacts Path PathFacts StripFacts ResolveFacts RelativeFacts
  RoundTripFacts.

Variable config : Config.
Variable cwd : string.

Lemma normalize_rooted (m : string) (M : list string) :
  Forall (fun s => clean_seg s = true) (m :: M) ->
  normalize ("/" ++ Js.join "/" (m :: M)) = "/" ++ Js.join "/" (m :: M).
Proof.
  intros H.
  assert (Hm : clean_seg m = true) by (inversion H; assumption).
  destruct (clean_seg_spec m Hm) as (_ & _ & Hne).
  assert (Hns : normalizeString ("/" ++ Js.join "/" (m :: M)) false
                = Js.join "/" (m :: M)).
  { unfold normalizeString. rewrite (split_absolute (m :: M) H).
    change (normalizeSegs false [] (EmptyString :: m :: M))
      with (normalizeSegs false [] (m :: M)).
    rewrite normalizeSegs_plain by (apply clean_plain; assumption).
    reflexivity. }
  rewrite normalize_absolute; [rewrite Hns; reflexivity | reflexivity | |].
  - rewrite endsWithSlash_app by (apply join_nonempty; assumption).
    apply endsWithSlash_join. assumption.
  - rewrite Hns. apply join_nonempty. assumption.
Qed.

(** An absolute parameter in normal form is resolved to itself. *)
Lemma sanitizePath_rooted (m : string) (M : list string) :
  Forall (fun s => clean_seg s = true) (m :: M) ->
  sanitizePath config cwd ("/" ++ Js.join "/" (m :: M))
  = if negb (startsWith ("/" ++ Js.join "/" (m :: M))
               (resolve cwd [videoDirectory config] ++ sep))
       && negb ("/" ++ Js.join "/" (m :: M) =? resolve cwd [videoDirectory config])
    then Throw "Invalid path: directory traversal detected"
    else Ok ("/" ++ Js.join "/" (m :: M)).
Proof.
  intros H. unfold sanitizePath.
  change (negb (truthy ("/" ++ Js.join "/" (m :: M)))
          || ("/" ++ Js.join "/" (m :: M) =? EmptyString)) with false.
  cbv iota. rewrite (normalize_rooted m M H).
  rewrite (strip_without_dotdot ("/" ++ Js.join "/" (m :: M)))
    by reflexivity.
  assert (E : resolve cwd [resolve cwd [videoDirectory config];
                           "/" ++ Js.join "/" (m :: M)]
              = resolve cwd ["/" ++ Js.join "/" (m :: M)]) by reflexivity.
  rewrite E, (resolve_abs_clean cwd (m :: M) H). reflexivity.
Qed.

End AbsoluteParameter.

(** X10.  An absolute path parameter is taken as it stands, not as a
    path below Root: for a parameter [/s1/.../sn] in normal form,
    [sanitizePath] returns the parameter itself when it is Root or lies
    below Root, and throws the traversal error in every other case. *)
Theorem absolute_parameter_taken_as_is
    (config : Config) (cwd : string) (segs : list string) :
  segs <> [] ->
  Forall (fun s => clean_seg s = true) segs ->
  (within (Path.resolve cwd [videoDirectory config]) ("/" ++ Js.join "/" segs) ->
   sanitizePath config cwd ("/" ++ Js.join "/" segs)
   = Ok ("/" ++ Js.join "/" segs))
  /\ (~ within (Path.resolve cwd [videoDirectory config])
          ("/" ++ Js.join "/" segs) ->
      sanitizePath config cwd ("/" ++ Js.join "/" segs)
      = Throw "Invalid path: directory traversal detected").
Proof.
  intros Hne H. destruct segs as [|m M]; [congruence|].
  rewrite (sanitizePath_rooted config cwd m M H).
  set (p := "/" ++ Js.join "/" (m :: M)).
  set (root := Path.resolve cwd [videoDirectory config]).
  destruct (Js.startsWith p (root ++ Path.sep)) eqn:Es.
  - split; [reflexivity|]. intros Hout. exfalso. apply Hout.
    apply JsFacts.startsWith_spec in Es as [rest Es].
    right. exists rest. rewrite Es. apply JsFacts.append_assoc.
  - destruct (p =? root) eqn:Ee.
    + split; [reflexivity|]. intros Hout. exfalso. apply Hout.
      left. apply String.eqb_eq. exact Ee.
    + split; [|reflexivity]. intros [Hin|[rest Hin]].
      * apply String.eqb_neq in Ee. contradiction.
      * assert (Es' : Js.startsWith p (root ++ Path.sep) = true).
        { apply JsFacts.startsWith_spec. exists rest. rewrite Hin.
          symmetry. apply JsFacts.append_assoc. }
        congruence.
Qed.

Lemma absolute_parameter_taken_as_is_witness :
  (within (Path.resolve Scenario.cwd [videoDirectory Scenario.config])
     ("/" ++ Js.join "/" ["lib"; "movies"]) ->
   sanitizePath Scenario.config Scenario.cwd ("/" ++ Js.join "/" ["lib"; "movies"])
   = Ok ("/" ++ Js.join "/" ["lib"; "movies"]))
  /\ (~ within (Path.resolve Scenario.cwd [videoDirectory Scenario.config])
          ("/" ++ Js.join "/" ["lib"; "movies"]) ->
      sanitizePath Scenario.config Scenario.cwd
        ("/" ++ Js.join "/" ["lib"; "movies"])
      = Throw "Invalid path: directory traversal detected").
Proof.
  apply (absolute_parameter_taken_as_is Scenario.config Scenario.cwd
           ["lib"; "movies"]);
    [discriminate | repeat constructor].
Defined.

(* ================================================================== *)
(** ** The routes that change the library *)
(* ================================================================== *)

Section DeleteFacts.

Context {rt : Js.Runtime}.

Variable config : Config.
Variable cwd : string.
Variable os : Os.t.

(** An [unlink] the delete route may make: of a path inside Root, with
    an allowed video extension, that one of the given paths resolves to. *)
Let allowed_unlink (given : list string) (e : Effect) : Prop :=
  exists filePath fullPath,
    e = Unlink fullPath
    /\ In filePath given
    /\ sanitizePath config cwd filePath = Ok fullPath
    /\ within (Path.resolve cwd [videoDirectory config]) fullPath
    /\ isVideoFile config fullPath = true.

Lemma delete_loop_spec (given : list string) :
  forall paths w results w' results',
    incl paths given ->
    delete_loop config cwd os paths w results = (w', results') ->
    exists new gone lost,
      effects w' = (effects w ++ new)%list
      /\ deleted results' = (deleted results ++ gone)%list
      /\ failed results' = (failed results ++ lost)%list
      /\ Forall (allowed_unlink given) new
      /\ (List.length gone + List.length lost = List.length paths)%nat
      /\ (List.length gone <= List.length new)%nat
      /\ incl gone paths
      /\ incl (map failure_path lost) paths.
Proof.
  induction paths as [|filePath rest IH]; intros w results w' results' Hin H.
  - simpl in H. injection H as <- <-. exists [], [], [].
    rewrite !app_nil_r. repeat split; auto using incl_nil_l.
  - assert (Hrest : incl rest given)
      by (intros x Hx; apply Hin; right; exact Hx).
    assert (Hfail : forall m w0,
              delete_loop config cwd os rest w0
                (push_failed filePath m results) = (w', results') ->
              forall pre, effects w0 = (effects w ++ pre)%list ->
              Forall (allowed_unlink given) pre ->
              exists new gone lost,
                effects w' = (effects w ++ new)%list
                /\ deleted results' = (deleted results ++ gone)%list
                /\ failed results' = (failed results ++ lost)%list
                /\ Forall (allowed_unlink given) new
                /\ (List.length gone + List.length lost
                    = List.length (filePath :: rest))%nat
                /\ (List.length gone <= List.length new)%nat
                /\ incl gone (filePath :: rest)
                /\ incl (map failure_path lost) (filePath :: rest)).
    { intros m w0 H0 pre Hpre Hall.
      destruct (IH _ _ _ _ Hrest H0)
        as (new & gone & lost & E1 & E2 & E3 & Hnew & Hlen & Hle & Hg & Hl).
      exists (pre ++ new)%list, gone,
        ({| failure_path := filePath; failure_error := m |} :: lost).
      simpl in E2, E3. rewrite E1, Hpre, E2, E3, <- !app_assoc.
      repeat split.
      - apply Forall_app. split; assumption.
      - simpl. lia.
      - rewrite length_app. lia.
      - apply incl_tl. exact Hg.
      - simpl. apply incl_cons; [left; reflexivity | apply incl_tl; exact Hl]. }
    simpl in H.
    destruct (sanitizePath config cwd filePath) as [fullPath|m] eqn:Hsan.
    2:{ apply (Hfail m w H []); [symmetry; apply app_nil_r | constructor]. }
    destruct (Fs.stat (world_fs w) fullPath) as [stats|m] eqn:Hstat.
    2:{ apply (Hfail m w H []); [symmetry; apply app_nil_r | constructor]. }
    destruct (negb (Fs.stats_isFile stats) || negb (isVideoFile config fullPath))
      eqn:Hcheck.
    { apply (Hfail _ w H []); [symmetry; apply app_nil_r | constructor]. }
    apply orb_false_iff in Hcheck as [_ Hvideo].
    apply negb_false_iff in Hvideo.
    assert (Hallowed : allowed_unlink given (Unlink fullPath)).
    { exists filePath, fullPath. split; [reflexivity|].
      split; [apply Hin; left; reflexivity|]. split; [exact Hsan|].
      split; [apply (sanitizePath_within config cwd filePath); exact Hsan
             | exact Hvideo]. }
    destruct (Os.unlink os (world_fs w) fullPath) as [fs'|m].
    + destruct (IH _ _ _ _ Hrest H)
        as (new & gone & lost & E1 & E2 & E3 & Hnew & Hlen & Hle & Hg & Hl).
      exists (Unlink fullPath :: new), (filePath :: gone), lost.
      simpl in E1, E2, E3. rewrite E1, E2, E3, <- !app_assoc.
      repeat split.
      * constructor; assumption.
      * simpl. lia.
      * simpl. lia.
      * apply incl_cons; [left; reflexivity | apply incl_tl; exact Hg].
      * apply incl_tl. exact Hl.
    + apply (Hfail m _ H [Unlink fullPath]);
        [reflexivity | constructor; [exact Hallowed | constructor]].
Qed.

End DeleteFacts.


Section RenameFacts.

Context {rt : Js.Runtime}.

Import Js JsFacts Path PathFacts StripFacts ResolveFacts RelativeFacts DirFacts.

Variable config : Config.
Variable cwd : string.

(** What [sanitizePath] returns is an absolute path in normal form. *)
Lemma sanitizePath_normal_form (userPath r : string) :
  isAbsolute cwd = true ->
  sanitizePath config cwd userPath = Ok r ->
  exists segs, r = "/" ++ Js.join "/" segs
               /\ Forall (fun s => clean_seg s = true) segs.
Proof.
  intros Hcwd H.
  destruct (sanitizePath_Ok_inv config cwd userPath r H) as [-> | [-> _]];
    apply resolve_normal_form; assumption.
Qed.

(** A name the rename route accepts is a single clean segment, as long
    as the configuration does not allow names without extension. *)
Lemma accepted_name_clean (newName : string) :
  array_includes (allowedExtensions config) EmptyString = false ->
  truthy newName = true ->
  includes newName "/" = false ->
  isVideoFile config newName = true ->
  clean_seg newName = true.
Proof.
  intros Hext Ht Hslash Hvideo.
  rewrite includes_char in Hslash.
  unfold clean_seg, plain_seg. rewrite Hslash.
  destruct (newName =? EmptyString) eqn:E0.
  { apply String.eqb_eq in E0. subst. discriminate Ht. }
  destruct (newName =? ".") eqn:E1.
  { apply String.eqb_eq in E1. subst. unfold isVideoFile in Hvideo.
    change (toLowerCase (extname ".")) with EmptyString in Hvideo. congruence. }
  destruct (newName =? "..") eqn:E2.
  { apply String.eqb_eq in E2. subst. unfold isVideoFile in Hvideo.
    change (toLowerCase (extname "..")) with EmptyString in Hvideo. congruence. }
  reflexivity.
Qed.

(** Below Root, the directory of a path and a clean name joined to it
    are within Root. *)
Lemma sibling_in_root (B : list string) (oldFullPath newName : string) :
  B <> [] ->
  Forall (fun s => clean_seg s = true) B ->
  (exists segs, oldFullPath = "/" ++ Js.join "/" segs
                /\ Forall (fun s => clean_seg s = true) segs) ->
  within ("/" ++ Js.join "/" B) oldFullPath ->
  oldFullPath <> "/" ++ Js.join "/" B ->
  clean_seg newName = true ->
  within ("/" ++ Js.join "/" B) (dirname oldFullPath)
  /\ Path.join [dirname oldFullPath; newName]
     = dirname oldFullPath ++ "/" ++ newName
  /\ within ("/" ++ Js.join "/" B) (dirname oldFullPath ++ "/" ++ newName)
  /\ dirname (dirname oldFullPath ++ "/" ++ newName) = dirname oldFullPath.
Proof.
  intros HBne HB (segs & -> & Hsegs) Hw Hneq Hname.
  destruct (within_segments B segs HBne HB Hsegs Hw) as [D ->].
  destruct (exists_last (l := D)) as (D' & x & ->).
  { intros ->. rewrite app_nil_r in Hneq. congruence. }
  rewrite app_assoc in *.
  assert (HX : Forall (fun s => clean_seg s = true) (B ++ D')%list).
  { apply Forall_app in Hsegs as [H _]. exact H. }
  assert (HXne : (B ++ D')%list <> []) by (destruct B; [congruence | discriminate]).
  rewrite (dirname_rooted _ x Hsegs).
  assert (Ej : "/" ++ Js.join "/" ((B ++ D') ++ [newName])%list
               = ("/" ++ Js.join "/" (B ++ D')%list) ++ "/" ++ newName).
  { destruct (B ++ D')%list as [|y Y]; [congruence|].
    rewrite join_app_below. simpl Js.join at 3.
    rewrite !append_assoc. reflexivity. }
  assert (Hn : Forall (fun s => clean_seg s = true) ((B ++ D') ++ [newName])%list).
  { apply Forall_app. split; [exact HX | constructor; [exact Hname | constructor]]. }
  split; [apply within_app; exact HBne|].
  split; [rewrite (join_child _ newName HX Hname); exact Ej|].
  rewrite <- Ej. split.
  - rewrite <- app_assoc. apply within_app. exact HBne.
  - apply dirname_rooted. exact Hn.
Qed.

End RenameFacts.

(** X12.  Renaming keeps a file where it is: for a path that resolves
    strictly below Root, whatever the rename route does happens in the
    directory of that path.  Either the request is refused before any
    call is made, or the one [rename] it makes is from the resolved path to
    a path with the same directory name, inside Root, the new name being a
    single segment with an allowed video extension, and nothing else is
    touched but the album table. *)
Theorem rename_stays_in_its_directory {rt : Js.Runtime}
    (config : Config) (cwd : string) (os : Os.t)
    (body : RenameBody) (w : World) (oldPath oldFullPath : string) :
  Path.isAbsolute cwd = true ->
  Path.resolve cwd [videoDirectory config] <> "/" ->
  array_includes (allowedExtensions config) EmptyString = false ->
  rename_path body = Some oldPath ->
  sanitizePath config cwd oldPath = Ok oldFullPath ->
  oldFullPath <> Path.resolve cwd [videoDirectory config] ->
  (fst (rename_handler config cwd os body w) = w
   /\ exists code error,
        snd (rename_handler config cwd os body w) = Refused code error
        /\ In code [400; 500]%Z)
  \/ exists newName newFullPath,
       rename_newName body = Some newName
       /\ has_char "/" newName = false
       /\ isVideoFile config newName = true
       /\ newFullPath = Path.dirname oldFullPath ++ "/" ++ newName
       /\ Path.dirname newFullPath = Path.dirname oldFullPath
       /\ within (Path.resolve cwd [videoDirectory config]) newFullPath
       /\ existsSync (world_fs w) newFullPath = false
       /\ (effects (fst (rename_handler config cwd os body w))
           = (effects w ++ [RenameFile oldFullPath newFullPath])%list
           \/ effects (fst (rename_handler config cwd os body w))
              = (effects w
                 ++ [RenameFile oldFullPath newFullPath;
                     UpdateAlbumPaths
                       (Path.relative cwd (videoDirectory config) newFullPath)
                       oldPath])%list).
Proof.
  intros Hcwd Hroot Hext Hpath Hsan Hneq.
  destruct (PathFacts.resolve_normal_form cwd [videoDirectory config] Hcwd)
    as (B & EB & HB).
  assert (HBne : B <> []) by (intros ->; apply Hroot; exact EB).
  unfold rename_handler. rewrite Hpath. simpl or_empty.
  destruct (negb (Js.truthy oldPath)
            || negb (Js.truthy (or_empty (rename_newName body)))) eqn:Hgiven.
  { left. split; [reflexivity|]. eexists _, _. split; [reflexivity|].
    simpl. auto. }
  apply orb_false_iff in Hgiven as [_ Hname]. apply negb_false_iff in Hname.
  destruct (rename_newName body) as [newName|]; [|discriminate Hname].
  simpl or_empty in *.
  destruct (Js.includes newName "/" || Js.includes newName "\") eqn:Hsep.
  { left. split; [reflexivity|]. eexists _, _. split; [reflexivity|].
    simpl. auto. }
  apply orb_false_iff in Hsep as [Hslash _].
  destruct (isVideoFile config newName) eqn:Hvideo; simpl negb; cbv iota.
  2:{ left. split; [reflexivity|]. eexists _, _. split; [reflexivity|].
      simpl. auto. }
  rewrite Hsan.
  pose proof (accepted_name_clean config newName Hext Hname Hslash Hvideo)
    as Hclean.
  pose proof (sanitizePath_within config cwd oldPath oldFullPath Hsan) as Hw.
  rewrite EB in Hw, Hneq.
  destruct (sibling_in_root B oldFullPath newName HBne HB
              (sanitizePath_normal_form config cwd oldPath oldFullPath Hcwd Hsan)
              Hw Hneq Hclean) as (_ & Ejoin & Hin & Hdir).
  cbv zeta. rewrite Ejoin.
  destruct (existsSync (world_fs w) (Path.dirname oldFullPath ++ "/" ++ newName))
    eqn:Hexists.
  { left. split; [reflexivity|]. eexists _, _. split; [reflexivity|].
    simpl. auto. }
  right. exists newName, (Path.dirname oldFullPath ++ "/" ++ newName).
  split; [reflexivity|].
  split; [rewrite <- DirFacts.includes_char; exact Hslash|].
  split; [exact Hvideo|]. split; [reflexivity|]. split; [exact Hdir|].
  split; [rewrite EB; exact Hin|]. split; [exact Hexists|].
  destruct (Os.rename os (world_fs w) oldFullPath
              (Path.dirname oldFullPath ++ "/" ++ newName)) as [fs'|m].
  - right.
    destruct (Os.update_album_paths os _ oldPath); simpl;
      rewrite <- app_assoc; reflexivity.
  - left. reflexivity.
Qed.

Lemma rename_stays_in_its_directory_witness :
  (fst (rename_handler Scenario.config Scenario.cwd Calm.os
          {| rename_path := Some "movies/a.mp4";
             rename_newName := Some "b.mp4" |} Calm.world) = Calm.world
   /\ exists code error,
        snd (rename_handler Scenario.config Scenario.cwd Calm.os
               {| rename_path := Some "movies/a.mp4";
                  rename_newName := Some "b.mp4" |} Calm.world)
        = Refused code error
        /\ In code [400; 500]%Z)
  \/ exists newName newFullPath,
       Some "b.mp4" = Some newName
       /\ has_char "/" newName = false
       /\ isVideoFile Scenario.config newName = true
       /\ newFullPath = Path.dirname "/lib/movies/a.mp4" ++ "/" ++ newName
       /\ Path.dirname newFullPath = Path.dirname "/lib/movies/a.mp4"
       /\ within (Path.resolve Scenario.cwd [videoDirectory Scenario.config])
            newFullPath
       /\ existsSync (world_fs Calm.world) newFullPath = false
       /\ (effects (fst (rename_handler Scenario.config Scenario.cwd Calm.os
                           {| rename_path := Some "movies/a.mp4";
                              rename_newName := Some "b.mp4" |} Calm.world))
           = (effects Calm.world
              ++ [RenameFile "/lib/movies/a.mp4" newFullPath])%list
           \/ effects (fst (rename_handler Scenario.config Scenario.cwd Calm.os
                              {| rename_path := Some "movies/a.mp4";
                                 rename_newName := Some "b.mp4" |} Calm.world))
              = (effects Calm.world
                 ++ [RenameFile "/lib/movies/a.mp4" newFullPath;
                     UpdateAlbumPaths
                       (Path.relative Scenario.cwd
                          (videoDirectory Scenario.config) newFullPath)
                       "movies/a.mp4"])%list).
Proof.
  apply (rename_stays_in_its_directory Scenario.config Scenario.cwd Calm.os
           {| rename_path := Some "movies/a.mp4";
              rename_newName := Some "b.mp4" |}
           Calm.world "movies/a.mp4" "/lib/movies/a.mp4");
    first [reflexivity | discriminate].
Defined.

Section RootItself.

Context {rt : Js.Runtime}.

Import Js JsFacts Path PathFacts StripFacts ResolveFacts RelativeFacts DirFacts.

Variable config : Config.
Variable cwd : string.

(** The parameter [.] resolves to Root itself. *)
Lemma sanitizePath_dot :
  isAbsolute cwd = true ->
  sanitizePath config cwd "." = Ok (resolve cwd [videoDirectory config]).
Proof.
  intros Hcwd.
  destruct (resolve_normal_form cwd [videoDirectory config] Hcwd)
    as (B & EB & HB).
  unfold sanitizePath. rewrite EB.
  change (negb (truthy ".") || ("." =? EmptyString)) with false. cbv iota.
  change (strip_parent_prefix (normalize ".")) with ".".
  rewrite (resolve_below cwd "." B HB eq_refl).
  change (if "." =? EmptyString then [EmptyString] else split "/" ("." ++ "/"))
    with ["."; EmptyString].
  change (normalizeSegs false (rev B) ["."; EmptyString]) with (rev (rev B)).
  rewrite rev_involutive, String.eqb_refl, andb_false_r. reflexivity.
Qed.

(** One [..] in front of a clean name leads to the sibling of a rooted
    directory. *)
Lemma join_parent_sibling (P : list string) (b x : string) :
  Forall (fun s => clean_seg s = true) (P ++ [b]) ->
  clean_seg x = true ->
  Path.join ["/" ++ Js.join "/" (P ++ [b])%list; "../" ++ x]
  = "/" ++ Js.join "/" (P ++ [x])%list.
Proof.
  intros HB Hx. destruct (clean_seg_spec x Hx) as (Hxp & Hxs & Hxne).
  set (dir := "/" ++ Js.join "/" (P ++ [b])%list).
  assert (Hb : plain_seg b = true).
  { apply Forall_app in HB as [_ Hb]. inversion Hb as [|? ? Hb' _]; subst.
    apply clean_seg_spec in Hb'. tauto. }
  assert (Ej : Path.join [dir; "../" ++ x]
               = normalize ((dir ++ String "/" "..") ++ String "/" x)).
  { unfold Path.join. simpl filter. cbv iota.
    rewrite (append_assoc dir (String "/" "..") (String "/" x)). reflexivity. }
  assert (Eq : normalizeString ((dir ++ String "/" "..") ++ String "/" x) false
               = Js.join "/" (P ++ [x])%list).
  { unfold normalizeString, dir.
    rewrite !split_app_sep, !normalizeSegs_app, normalizeSegs_root by assumption.
    rewrite rev_app_distr. simpl rev. simpl app.
    change (split "/" "..") with [".."].
    assert (Hbd : (b =? "..") = false).
    { unfold plain_seg in Hb. apply andb_true_iff in Hb as [_ Hb].
      apply negb_true_iff in Hb. exact Hb. }
    rewrite Hbd, rev_involutive, (split_no_char "/" x Hxs).
    rewrite normalizeSegs_plain by (constructor; [assumption | constructor]).
    rewrite rev_involutive. reflexivity. }
  rewrite Ej, normalize_absolute, Eq; [reflexivity | reflexivity | |].
  - change (String "/" x) with ("/" ++ x).
    rewrite <- append_assoc, endsWithSlash_app by assumption.
    apply endsWithSlash_no_slash. assumption.
  - rewrite Eq. destruct P as [|p P]; simpl app.
    + assumption.
    + apply join_nonempty. apply Forall_app in HB as [HP _].
      inversion HP as [|? ? Hp _]; subst. apply clean_seg_spec in Hp. tauto.
Qed.

End RootItself.

(** X13.  The rename route does not check that the old path is a file
    below Root: the parameter [.] resolves to Root itself, and the route
    then renames the library directory to a path next to it, outside
    Root. *)
Theorem rename_of_root_leaves_root {rt : Js.Runtime}
    (config : Config) (cwd : string) (os : Os.t) (w : World)
    (newName : string) (stats : Fs.Stats) :
  Path.isAbsolute cwd = true ->
  Path.resolve cwd [videoDirectory config] <> "/" ->
  clean_seg newName = true ->
  Js.includes newName "\" = false ->
  isVideoFile config newName = true ->
  Fs.stat (world_fs w) (Path.resolve cwd [videoDirectory config]) = Ok stats ->
  existsSync (world_fs w)
    (Path.join [Path.dirname (Path.resolve cwd [videoDirectory config]); newName])
  = false ->
  sanitizePath config cwd "." = Ok (Path.resolve cwd [videoDirectory config])
  /\ (exists more,
        effects (fst (rename_handler config cwd os
                        {| rename_path := Some ".";
                           rename_newName := Some newName |} w))
        = (effects w
           ++ RenameFile (Path.resolve cwd [videoDirectory config])
                (Path.join
                   [Path.dirname (Path.resolve cwd [videoDirectory config]);
                    newName])
              :: more)%list)
  /\ ~ within (Path.resolve cwd [videoDirectory config])
         (Path.join
            [Path.dirname (Path.resolve cwd [videoDirectory config]); newName]).
Proof.
  intros Hcwd Hroot Hclean Hback Hvideo Hstat Hexists.
  pose proof (sanitizePath_dot config cwd Hcwd) as Hdot.
  split; [exact Hdot|]. split.
  - unfold rename_handler. simpl or_empty.
    assert (Ht : Js.truthy newName = true).
    { destruct (RelativeFacts.clean_seg_spec newName Hclean) as (_ & _ & Hne).
      destruct newName; [congruence | reflexivity]. }
    assert (Hslash : Js.includes newName "/" = false).
    { rewrite DirFacts.includes_char.
      apply (RelativeFacts.clean_seg_spec newName Hclean). }
    change (Js.truthy ".") with true. rewrite Ht, Hslash, Hback, Hvideo, Hdot.
    simpl negb. simpl orb. cbv iota zeta. rewrite Hexists.
    destruct (Os.rename os _ _ _) as [fs'|m].
    + destruct (Os.update_album_paths os _ _); eexists; simpl;
        rewrite <- app_assoc; reflexivity.
    + eexists. reflexivity.
  - destruct (PathFacts.resolve_normal_form cwd [videoDirectory config] Hcwd)
      as (B & EB & HB).
    destruct (exists_last (l := B)) as (P & b & ->).
    { intros ->. apply Hroot. exact EB. }
    rewrite EB in *.
    rewrite (DirFacts.dirname_rooted P b HB) in *.
    assert (HP : Forall (fun s => clean_seg s = true) P).
    { apply Forall_app in HB as [H _]. exact H. }
    rewrite (RelativeFacts.join_child P newName HP Hclean) in *.
    apply DirFacts.sibling_not_within;
      [exact HB | apply Forall_app; split; [exact HP | repeat constructor; exact Hclean]|].
    intros ->. unfold existsSync in Hexists. rewrite Hstat in Hexists.
    discriminate Hexists.
Qed.

Lemma rename_of_root_leaves_root_witness :
  sanitizePath Scenario.config Scenario.cwd "."
  = Ok (Path.resolve Scenario.cwd [videoDirectory Scenario.config])
  /\ (exists more,
        effects (fst (rename_handler Scenario.config Scenario.cwd Calm.os
                        {| rename_path := Some ".";
                           rename_newName := Some "gone.mp4" |} Calm.world))
        = (effects Calm.world
           ++ RenameFile (Path.resolve Scenario.cwd [videoDirectory Scenario.config])
                (Path.join
                   [Path.dirname
                      (Path.resolve Scenario.cwd [videoDirectory Scenario.config]);
                    "gone.mp4"])
              :: more)%list)
  /\ ~ within (Path.resolve Scenario.cwd [videoDirectory Scenario.config])
         (Path.join
            [Path.dirname
               (Path.resolve Scenario.cwd [videoDirectory Scenario.config]);
             "gone.mp4"]).
Proof.
  apply (rename_of_root_leaves_root Scenario.config Scenario.cwd Calm.os
           Calm.world "gone.mp4" Scenario.dir_stats);
    first [reflexivity | discriminate].
Defined.

Section FolderFacts.

Context {rt : Js.Runtime}.

Import Js JsFacts Path PathFacts StripFacts ResolveFacts RelativeFacts
  LegacyFacts DirFacts.

Variable config : Config.
Variable cwd : string.

(** With a video directory written in normal form, Root is that
    directory, and every resolved path is rooted. *)
Lemma rooted_root :
  rooted (videoDirectory config) ->
  resolve cwd [videoDirectory config] = videoDirectory config.
Proof.
  intros (b & B & E & HB). rewrite E. apply resolve_abs_clean. exact HB.
Qed.

Lemma sanitizePath_rooted_result (userPath r : string) :
  isAbsolute cwd = true ->
  rooted (videoDirectory config) ->
  sanitizePath config cwd userPath = Ok r ->
  rooted r /\ within (videoDirectory config) r.
Proof.
  intros Hcwd Hroot H.
  pose proof (sanitizePath_within config cwd userPath r H) as Hw.
  rewrite (rooted_root Hroot) in Hw. split; [|exact Hw].
  destruct (sanitizePath_normal_form config cwd userPath r Hcwd H)
    as (segs & -> & Hsegs).
  destruct Hroot as (b & B & E & HB). rewrite E in Hw.
  destruct (within_segments (b :: B) segs ltac:(discriminate) HB Hsegs Hw)
    as [D ->].
  exists b, (B ++ D)%list. split; [reflexivity | exact Hsegs].
Qed.

(** A name the folder route accepts has no parent segment in it. *)
Lemma accepted_folder_name (name : string) :
  includes name "/" = false ->
  includes name ".." = false ->
  ~ In ".." (split "/" name).
Proof.
  intros Hslash Hdots. rewrite includes_char in Hslash.
  rewrite (split_no_char "/" name Hslash). intros [E|[]].
  rewrite E in Hdots. discriminate Hdots.
Qed.

End FolderFacts.

(** X14.  A folder is only ever created inside Root.  With the video
    directory written in normal form, the folder route either refuses the
    request without a call, or makes one [mkdir], of the given name joined
    to the resolved parent (to the video directory when no parent is
    given); the name contains no separator and no [..], and the new path
    lies within the parent and so within Root. *)
Theorem folder_created_inside_root
    (config : Config) (cwd : string) (os : Os.t)
    (body : FolderBody) (w : World) :
  Path.isAbsolute cwd = true ->
  rooted (videoDirectory config) ->
  (fst (folder_handler config cwd os body w) = w
   /\ exists code error,
        snd (folder_handler config cwd os body w) = Refused code error
        /\ In code [400; 500]%Z)
  \/ exists name basePath,
       folder_new_name body = Some name
       /\ has_char "/" name = false
       /\ Js.includes name "\" = false
       /\ Js.includes name ".." = false
       /\ (if Js.truthy (or_empty (folder_parent body))
           then sanitizePath config cwd (or_empty (folder_parent body))
           else Ok (videoDirectory config)) = Ok basePath
       /\ within (videoDirectory config) basePath
       /\ within basePath (Path.join [basePath; name])
       /\ within (videoDirectory config) (Path.join [basePath; name])
       /\ (clean_seg name = true ->
           Path.join [basePath; name] = basePath ++ "/" ++ name)
       /\ existsSync (world_fs w) (Path.join [basePath; name]) = false
       /\ effects (fst (folder_handler config cwd os body w))
          = (effects w ++ [Mkdir (Path.join [basePath; name])])%list.
Proof.
  intros Hcwd Hroot. unfold folder_handler.
  destruct (negb (Js.truthy (or_empty (folder_new_name body)))) eqn:Hname.
  { left. split; [reflexivity|]. eexists _, _. split; [reflexivity|].
    simpl. auto. }
  apply negb_false_iff in Hname.
  destruct (folder_new_name body) as [name|]; [|discriminate Hname].
  simpl or_empty in *.
  destruct (Js.includes name "/" || Js.includes name "\" || Js.includes name "..")
    eqn:Hchk.
  { left. split; [reflexivity|]. eexists _, _. split; [reflexivity|].
    simpl. auto. }
  apply orb_false_iff in Hchk as [Hchk Hdots].
  apply orb_false_iff in Hchk as [Hslash Hback].
  assert (Hbase : forall basePath,
            (if Js.truthy (or_empty (folder_parent body))
             then sanitizePath config cwd (or_empty (folder_parent body))
             else Ok (videoDirectory config)) = Ok basePath ->
            rooted basePath /\ within (videoDirectory config) basePath).
  { intros basePath H.
    destruct (Js.truthy (or_empty (folder_parent body))).
    - apply (sanitizePath_rooted_result config cwd _ _ Hcwd Hroot H).
    - injection H as <-. split; [exact Hroot | left; reflexivity]. }
  destruct (if Js.truthy (or_empty (folder_parent body))
            then sanitizePath config cwd (or_empty (folder_parent body))
            else Ok (videoDirectory config)) as [basePath|m].
  2:{ left. split; [reflexivity|]. eexists _, _. split; [reflexivity|].
      simpl. auto. }
  destruct (Hbase basePath eq_refl) as [Hrooted Hwithin].
  cbv zeta.
  destruct (existsSync (world_fs w) (Path.join [basePath; name])) eqn:Hexists.
  { left. split; [reflexivity|]. eexists _, _. split; [reflexivity|].
    simpl. auto. }
  pose proof (LegacyFacts.join_within basePath name Hrooted
                (accepted_folder_name name Hslash Hdots)) as Hnew.
  right. exists name, basePath.
  split; [reflexivity|].
  split; [rewrite <- DirFacts.includes_char; exact Hslash|].
  split; [exact Hback|]. split; [exact Hdots|]. split; [reflexivity|].
  split; [exact Hwithin|]. split; [exact Hnew|].
  split; [apply (DirFacts.within_trans _ _ _ Hwithin Hnew)|].
  split.
  - intros Hclean. destruct Hrooted as (b & B & -> & HB).
    rewrite (RelativeFacts.join_child (b :: B) name HB Hclean).
    rewrite ResolveFacts.join_app_below. simpl Js.join at 2.
    rewrite !JsFacts.append_assoc. reflexivity.
  - split; [exact Hexists|].
    destruct (Os.mkdir os (world_fs w) (Path.join [basePath; name]));
      reflexivity.
Qed.

Lemma folder_created_inside_root_witness :
  (fst (folder_handler Scenario.config Scenario.cwd Calm.os
          {| folder_parent := Some "movies"; folder_new_name := Some "new" |}
          Calm.world) = Calm.world
   /\ exists code error,
        snd (folder_handler Scenario.config Scenario.cwd Calm.os
               {| folder_parent := Some "movies"; folder_new_name := Some "new" |}
               Calm.world) = Refused code error
        /\ In code [400; 500]%Z)
  \/ exists name basePath,
       Some "new" = Some name
       /\ has_char "/" name = false
       /\ Js.includes name "\" = false
       /\ Js.includes name ".." = false
       /\ sanitizePath Scenario.config Scenario.cwd "movies" = Ok basePath
       /\ within (videoDirectory Scenario.config) basePath
       /\ within basePath (Path.join [basePath; name])
       /\ within (videoDirectory Scenario.config) (Path.join [basePath; name])
       /\ (clean_seg name = true ->
           Path.join [basePath; name] = basePath ++ "/" ++ name)
       /\ existsSync (world_fs Calm.world) (Path.join [basePath; name]) = false
       /\ effects (fst (folder_handler Scenario.config Scenario.cwd Calm.os
                          {| folder_parent := Some "movies";
                             folder_new_name := Some "new" |} Calm.world))
          = (effects Calm.world ++ [Mkdir (Path.join [basePath; name])])%list.
Proof.
  apply (folder_created_inside_root Scenario.config Scenario.cwd Calm.os
           {| folder_parent := Some "movies"; folder_new_name := Some "new" |}
           Calm.world);
    [reflexivity | exists "lib", []; split; [reflexivity | repeat constructor]].
Defined.

Section UploadFacts.

Context {rt : Js.Runtime}.

Variable config : Config.
Variable cwd : string.
Variable os : Os.t.

(** The write the upload route makes for [file]. *)
Let write_of (uploadDir : string) (file : UploadFile) : Effect :=
  WriteFile (Path.join [uploadDir; filename file]) (data file).

Lemma upload_loop_spec (uploadDir : string) :
  forall fls w results w' results',
    upload_loop os uploadDir fls w results = (w', results') ->
    effects w' = (effects w ++ map (write_of uploadDir) fls)%list
    /\ exists done lost,
         uploaded results' = (uploaded results ++ done)%list
         /\ upload_failed results' = (upload_failed results ++ lost)%list
         /\ (List.length done + List.length lost = List.length fls)%nat
         /\ incl done (map filename fls)
         /\ incl (map upload_failure_filename lost) (map filename fls).
Proof.
  induction fls as [|file rest IH]; intros w results w' results' H.
  - simpl in H. injection H as <- <-. simpl. rewrite app_nil_r.
    split; [reflexivity|]. exists [], []. rewrite !app_nil_r.
    repeat split; auto using incl_nil_l.
  - simpl in H.
    destruct (Os.writeFile os (world_fs w)
                (Path.join [uploadDir; filename file]) (data file))
      as [fs'|m];
      destruct (IH _ _ _ _ H) as (E & done & lost & E1 & E2 & Hlen & Hd & Hl);
      simpl in E, E1, E2; (split; [rewrite E, <- app_assoc; reflexivity|]).
    + exists (filename file :: done), lost.
      rewrite E1, E2, <- app_assoc. repeat split.
      * simpl. lia.
      * simpl. apply incl_cons; [left; reflexivity | apply incl_tl; exact Hd].
      * simpl. apply incl_tl. exact Hl.
    + exists done, ({| upload_failure_filename := filename file;
                       upload_failure_error := m |} :: lost).
      rewrite E1, E2, <- app_assoc. repeat split.
      * simpl. lia.
      * simpl. apply incl_tl. exact Hd.
      * simpl. apply incl_cons; [left; reflexivity | apply incl_tl; exact Hl].
Qed.

End UploadFacts.

(** X15.  When the request carries files and its upload directory
    resolves and exists, the upload route writes every file of the request,
    in order, each at [path.join] of the upload directory and the file name
    as sent, and goes on after a write that fails; it answers with counts
    that add up to the number of files.  A request without files is
    refused with 400, one with a rejected path with 500 and one whose
    directory does not exist with 400, each without a write. *)
Theorem upload_writes_every_file
    (config : Config) (cwd : string) (os : Os.t) (parts : Parts) (w : World) :
  (files parts = [] ->
   upload_parts config cwd os parts w = (w, Refused 400 "No files provided"))
  /\ (forall m,
        files parts <> [] ->
        (if Js.truthy (or_empty (fields_path parts))
         then sanitizePath config cwd (or_empty (fields_path parts))
         else Ok (videoDirectory config)) = Throw m ->
        upload_parts config cwd os parts w = (w, Refused 500 m))
  /\ (forall uploadDir,
        files parts <> [] ->
        (if Js.truthy (or_empty (fields_path parts))
         then sanitizePath config cwd (or_empty (fields_path parts))
         else Ok (videoDirectory config)) = Ok uploadDir ->
        existsSync (world_fs w) uploadDir = false ->
        upload_parts config cwd os parts w
        = (w, Refused 400 "Upload directory does not exist"))
  /\ (forall uploadDir,
        files parts <> [] ->
        (if Js.truthy (or_empty (fields_path parts))
         then sanitizePath config cwd (or_empty (fields_path parts))
         else Ok (videoDirectory config)) = Ok uploadDir ->
        existsSync (world_fs w) uploadDir = true ->
        exists s,
          effects (fst (upload_parts config cwd os parts w))
          = (effects w
             ++ map (fun file =>
                       WriteFile (Path.join [uploadDir; filename file])
                         (data file))
                  (files parts))%list
          /\ snd (upload_parts config cwd os parts w) = Done s
          /\ (uploaded_count s + upload_failed_count s
              = Z.of_nat (List.length (files parts)))%Z
          /\ uploaded_count s
             = Z.of_nat (List.length (uploaded (upload_details s)))
          /\ upload_failed_count s
             = Z.of_nat (List.length (upload_failed (upload_details s)))
          /\ incl (uploaded (upload_details s)) (map filename (files parts))
          /\ incl (map upload_failure_filename
                     (upload_failed (upload_details s)))
               (map filename (files parts))).
Proof.
  assert (Hsome : files parts <> [] ->
                  (List.length (files parts) =? 0)%nat = false).
  { destruct (files parts); [congruence | reflexivity]. }
  unfold upload_parts. split; [|split; [|split]].
  - intros ->. reflexivity.
  - intros m Hfiles Hdir. rewrite (Hsome Hfiles), Hdir. reflexivity.
  - intros uploadDir Hfiles Hdir Hexists.
    rewrite (Hsome Hfiles), Hdir, Hexists. reflexivity.
  - intros uploadDir Hfiles Hdir Hexists.
    rewrite (Hsome Hfiles), Hdir, Hexists. simpl negb. cbv iota.
    destruct (upload_loop os uploadDir (files parts) w
                {| uploaded := []; upload_failed := [] |})
      as [w' results] eqn:Hloop.
    destruct (upload_loop_spec os uploadDir _ _ _ _ _ Hloop)
      as (E & done & lost & E1 & E2 & Hlen & Hd & Hl).
    simpl in E1, E2. eexists. split; [exact E|].
    split; [reflexivity|]. simpl. rewrite E1, E2.
    repeat split; [lia | exact Hd | exact Hl].
Qed.

Lemma upload_writes_every_file_witness :
  exists s,
    effects (fst (upload_parts Scenario.config Scenario.cwd Calm.os
                    {| fields_path := Some "movies";
                       files := [{| filename := "new.mp4";
                                    data := [Byte.x61; Byte.x62] |};
                                 {| filename := "more.mp4";
                                    data := [Byte.x63] |}] |}
                    Calm.world))
    = [WriteFile "/lib/movies/new.mp4" [Byte.x61; Byte.x62];
       WriteFile "/lib/movies/more.mp4" [Byte.x63]]
    /\ snd (upload_parts Scenario.config Scenario.cwd Calm.os
               {| fields_path := Some "movies";
                  files := [{| filename := "new.mp4";
                               data := [Byte.x61; Byte.x62] |};
                            {| filename := "more.mp4";
                               data := [Byte.x63] |}] |}
               Calm.world) = Done s
    /\ (uploaded_count s + upload_failed_count s = 2)%Z
    /\ uploaded (upload_details s) = ["new.mp4"; "more.mp4"].
Proof.
  destruct (upload_writes_every_file Scenario.config Scenario.cwd Calm.os
              {| fields_path := Some "movies";
                 files := [{| filename := "new.mp4";
                              data := [Byte.x61; Byte.x62] |};
                           {| filename := "more.mp4";
                              data := [Byte.x63] |}] |}
              Calm.world) as (_ & _ & _ & H).
  destruct (H "/lib/movies") as (s & He & Hs & Hc & _);
    [discriminate | reflexivity | reflexivity |].
  exists s. split; [exact He|]. split; [exact Hs|]. split; [exact Hc|].
  simpl in Hs. injection Hs as <-. reflexivity.
Defined.

(** X16.  The file name of an upload is not confined: it is joined to
    the upload directory as it was sent.  A file named [../x] uploaded
    into Root (the path [.]) is written next to Root, outside it. *)
Theorem upload_name_leaves_root
    (config : Config) (cwd : string) (os : Os.t) (w : World)
    (x : string) (bytes : list Byte.byte) (stats : Fs.Stats) :
  Path.isAbsolute cwd = true ->
  Path.resolve cwd [videoDirectory config] <> "/" ->
  clean_seg x = true ->
  Fs.stat (world_fs w) (Path.resolve cwd [videoDirectory config]) = Ok stats ->
  Path.join [Path.resolve cwd [videoDirectory config]; "../" ++ x]
  <> Path.resolve cwd [videoDirectory config] ->
  effects (fst (upload_parts config cwd os
                  {| fields_path := Some ".";
                     files := [{| filename := "../" ++ x; data := bytes |}] |} w))
  = (effects w
     ++ [WriteFile
           (Path.join [Path.resolve cwd [videoDirectory config];
                       ("../" ++ x)%string])
           bytes])%list
  /\ Path.join [Path.resolve cwd [videoDirectory config]; "../" ++ x]
     = Path.join [Path.dirname (Path.resolve cwd [videoDirectory config]); x]
  /\ ~ within (Path.resolve cwd [videoDirectory config])
         (Path.join [Path.resolve cwd [videoDirectory config]; "../" ++ x]).
Proof.
  intros Hcwd Hroot Hclean Hstat Hother.
  split.
  - unfold upload_parts. simpl or_empty. simpl files.
    change (List.length [{| filename := "../" ++ x; data := bytes |}] =? 0)%nat
      with false.
    change (Js.truthy ".") with true. cbv iota.
    rewrite (sanitizePath_dot config cwd Hcwd).
    unfold existsSync. rewrite Hstat. simpl negb. cbv iota.
    simpl upload_loop.
    destruct (Os.writeFile os _ _ _); reflexivity.
  - destruct (PathFacts.resolve_normal_form cwd [videoDirectory config] Hcwd)
      as (B & EB & HB).
    destruct (exists_last (l := B)) as (P & b & ->).
    { intros ->. apply Hroot. exact EB. }
    rewrite EB in *.
    assert (HP : Forall (fun s => clean_seg s = true) P).
    { apply Forall_app in HB as [H _]. exact H. }
    rewrite (join_parent_sibling P b x HB Hclean) in *.
    rewrite (DirFacts.dirname_rooted P b HB).
    rewrite (RelativeFacts.join_child P x HP Hclean).
    split; [reflexivity|].
    apply DirFacts.sibling_not_within;
      [exact HB | apply Forall_app; split; [exact HP | repeat constructor; exact Hclean]|].
    intros ->. apply Hother. reflexivity.
Qed.

Lemma upload_name_leaves_root_witness :
  effects (fst (upload_parts Scenario.config Scenario.cwd Calm.os
                  {| fields_path := Some ".";
                     files := [{| filename := "../" ++ "x.mp4"; data := [] |}] |}
                  Calm.world))
  = (effects Calm.world
     ++ [WriteFile
           (Path.join [Path.resolve Scenario.cwd [videoDirectory Scenario.config];
                       ("../" ++ "x.mp4")%string])
           []])%list
  /\ Path.join [Path.resolve Scenario.cwd [videoDirectory Scenario.config];
                "../" ++ "x.mp4"]
     = Path.join [Path.dirname
                    (Path.resolve Scenario.cwd [videoDirectory Scenario.config]);
                  "x.mp4"]
  /\ ~ within (Path.resolve Scenario.cwd [videoDirectory Scenario.config])
         (Path.join [Path.resolve Scenario.cwd [videoDirectory Scenario.config];
                     "../" ++ "x.mp4"]).
Proof.
  apply (upload_name_leaves_root Scenario.config Scenario.cwd Calm.os
           Calm.world "x.mp4" [] Scenario.dir_stats);
    first [reflexivity | discriminate].
Defined.

(* ================================================================== *)
(** ** The first server *)
(* ================================================================== *)

Module SessionFacts.
Import FirstServer.

Lemma has_set (sessions : Sessions) (fresh t : string) :
  has (set sessions fresh) t = true -> has sessions t = true \/ t = fresh.
Proof.
  unfold set. destruct (has sessions fresh); [auto|].
  unfold has. rewrite existsb_app, orb_true_iff. simpl.
  rewrite orb_false_r, String.eqb_eq. auto.
Qed.

Lemma has_set_same (sessions : Sessions) (fresh : string) :
  has (set sessions fresh) fresh = true.
Proof.
  unfold set. destruct (has sessions fresh) eqn:E; [exact E|].
  unfold has. rewrite existsb_app. simpl.
  rewrite String.eqb_refl, orb_true_r. reflexivity.
Qed.

Lemma has_delete (sessions : Sessions) (token t : string) :
  has (delete sessions token) t = has sessions t && negb (t =? token).
Proof.
  unfold has, delete. induction sessions as [|k sessions IH]; [reflexivity|].
  simpl. destruct (k =? token) eqn:Ek; simpl.
  - rewrite IH. apply String.eqb_eq in Ek. subst k.
    destruct (t =? token); simpl; [rewrite andb_false_r|]; reflexivity.
  - rewrite IH. destruct (t =? k) eqn:Et; simpl; [|reflexivity].
    apply String.eqb_eq in Et. subst t. rewrite Ek. reflexivity.
Qed.

(** A stored token was stored before the call or is the fresh token of a
    login with the configured password. *)
Lemma step_has (configured : string) (sessions : Sessions) (c : Call)
    (t : string) :
  has (fst (step configured sessions c)) t = true ->
  has sessions t = true \/ c = Login (Some configured) t.
Proof.
  destruct c as [[p|] fresh|token|token]; simpl.
  - destruct (p =? configured) eqn:Ep; simpl; [|auto].
    apply String.eqb_eq in Ep. subst p.
    intros H. apply has_set in H as [H| ->]; auto.
  - auto.
  - destruct (requireAuth sessions token); simpl; [|auto].
    rewrite has_delete. intros H. apply andb_true_iff in H as [H _]. auto.
  - destruct (requireAuth sessions token); simpl; auto.
Qed.

Lemma run_app (configured : string) (pre post : list Call) :
  forall sessions,
    fst (run configured sessions (pre ++ post))
    = fst (run configured (fst (run configured sessions pre)) post).
Proof.
  induction pre as [|c pre IH]; intros sessions; [reflexivity|].
  simpl. destruct (step configured sessions c) as [s1 code] eqn:Es.
  specialize (IH s1).
  destruct (run configured s1 (pre ++ post)) as [f1 c1].
  destruct (run configured s1 pre) as [f2 c2]. simpl in *.
  exact IH.
Qed.

Lemma run_has (configured : string) (calls : list Call) (t : string) :
  forall sessions,
    has (fst (run configured sessions calls)) t = true ->
    has sessions t = true \/ In (Login (Some configured) t) calls.
Proof.
  induction calls as [|c calls IH]; intros sessions H; [left; exact H|].
  simpl in H. destruct (step configured sessions c) as [s1 code] eqn:Es.
  destruct (run configured s1 calls) as [f1 c1] eqn:Er. simpl in H.
  specialize (IH s1). rewrite Er in IH. simpl in IH.
  destruct (IH H) as [H1|H1]; [|right; right; exact H1].
  pose proof (step_has configured sessions c t) as Hs.
  rewrite Es in Hs. destruct (Hs H1) as [H2| ->]; [left; exact H2|].
  right. left. reflexivity.
Qed.

End SessionFacts.

(** X17.  In the first server a protected route runs only for a token
    that an earlier login with the configured password has issued: after
    any calls since the start of the server, a call is let through only
    if its [x-session-token] is the fresh token of such a login.  A login
    makes its token valid, a logout makes it invalid again, and a login
    with another password changes nothing. *)
Theorem sessions_come_from_logins (configured : string) :
  (forall calls token,
      snd (FirstServer.step configured
             (fst (FirstServer.run configured [] calls))
             (FirstServer.Protected token)) = 200%Z ->
      exists t, token = Some t /\ Js.truthy t = true
                /\ In (FirstServer.Login (Some configured) t) calls)
  /\ (forall sessions fresh,
        FirstServer.requireAuth
          (fst (FirstServer.step configured sessions
                  (FirstServer.Login (Some configured) fresh)))
          (Some fresh) = Js.truthy fresh)
  /\ (forall sessions token,
        FirstServer.requireAuth
          (fst (FirstServer.step configured sessions
                  (FirstServer.Logout (Some token))))
          (Some token) = false)
  /\ (forall sessions password fresh,
        password <> Some configured ->
        FirstServer.step configured sessions
          (FirstServer.Login password fresh) = (sessions, 401%Z)).
Proof.
  split; [|split; [|split]].
  - intros calls token H. simpl in H.
    destruct (FirstServer.requireAuth _ token) eqn:Ha; [|discriminate H].
    destruct token as [t|]; [|discriminate Ha]. simpl in Ha.
    apply andb_true_iff in Ha as [Ht Hhas].
    exists t. split; [reflexivity|]. split; [exact Ht|].
    destruct (SessionFacts.run_has configured calls t [] Hhas) as [H0|H0];
      [discriminate H0 | exact H0].
  - intros sessions fresh. simpl. rewrite String.eqb_refl. simpl.
    rewrite SessionFacts.has_set_same. apply andb_true_r.
  - intros sessions token. simpl.
    destruct (Js.truthy token && FirstServer.has sessions token) eqn:Ha; simpl.
    + rewrite SessionFacts.has_delete, String.eqb_refl.
      simpl. rewrite !andb_false_r. reflexivity.
    + exact Ha.
  - intros sessions [p|] fresh Hp; simpl; [|reflexivity].
    destruct (p =? configured) eqn:Ep; [|reflexivity].
    apply String.eqb_eq in Ep. subst p. congruence.
Qed.

Section FirstListing.

Context {rt : Js.Runtime}.

Variable config : Config.
Variable cwd : string.
Variable fs : Fs.t.

Lemma first_loop_cons (dirPath : string) (item : Fs.Dirent)
    (rest : list Fs.Dirent) (folders : list FolderEntry)
    (files : list FirstServer.FileEntry) :
  FirstServer.readDirectory_loop config cwd fs dirPath (item :: rest) folders files
  = if Js.startsWith (Fs.name item) "." then
      FirstServer.readDirectory_loop config cwd fs dirPath rest folders files
    else if Fs.isDirectory item then
      FirstServer.readDirectory_loop config cwd fs dirPath rest
        (folders ++ [{| folder_name := Fs.name item;
                        folder_path :=
                          Path.relative cwd (videoDirectory config)
                            (Path.join [dirPath; Fs.name item]) |}])%list
        files
    else if Fs.isFile item && isVideoFile config (Fs.name item) then
      stats <- Fs.stat fs (Path.join [dirPath; Fs.name item]) ;;
      FirstServer.readDirectory_loop config cwd fs dirPath rest folders
        (files ++ [{| FirstServer.file_name := Fs.name item;
                      FirstServer.file_path :=
                        Path.relative cwd (videoDirectory config)
                          (Path.join [dirPath; Fs.name item]);
                      FirstServer.file_size := Fs.size stats;
                      FirstServer.file_modified := Fs.mtime stats |}])%list
    else FirstServer.readDirectory_loop config cwd fs dirPath rest folders files.
Proof. reflexivity. Qed.

(** The videos among file entries, as the first server shows them. *)
Let videos (files : list FileEntry) : list FirstServer.FileEntry :=
  map without_type (filter (fun f => isVideoFile config (file_name f)) files).

Lemma first_loop_of_second (dirPath : string) (items : list Fs.Dirent) :
  forall folders files folders' files',
    readDirectory_loop config cwd fs dirPath items folders files
    = Ok (ListingOk folders' files') ->
    FirstServer.readDirectory_loop config cwd fs dirPath items folders
      (videos files)
    = Ok (folders', videos files').
Proof.
  induction items as [|item rest IH]; intros folders files folders' files' H.
  - simpl in H. injection H as <- <-. reflexivity.
  - rewrite readDirectory_loop_cons in H. rewrite first_loop_cons.
    destruct (Js.startsWith (Fs.name item) "."); [apply IH; exact H|].
    destruct (Fs.isDirectory item); [apply IH; exact H|].
    unfold isMediaFile in H. rewrite andb_true_r in H.
    destruct (Fs.isFile item); simpl andb; cbv iota; [|apply IH; exact H].
    destruct (Fs.stat fs (Path.join [dirPath; Fs.name item])) as [stats|m];
      simpl bind in *; [|discriminate H].
    apply IH in H. unfold videos in H. rewrite filter_app, map_app in H.
    simpl filter in H.
    destruct (isVideoFile config (Fs.name item)); simpl bind.
    + exact H.
    + simpl in H. rewrite app_nil_r in H. exact H.
Qed.

Lemma first_listing_of_second (dirPath : string) (depth : Z)
    (folders : list FolderEntry) (files : list FileEntry) :
  readDirectoryRecursive config cwd fs dirPath depth
  = Ok (ListingOk folders files) ->
  FirstServer.readDirectoryRecursive config cwd fs dirPath depth
  = Ok (inr (folders, videos files)).
Proof.
  unfold readDirectoryRecursive, FirstServer.readDirectoryRecursive.
  destruct (maxRecursionDepth config <? depth)%Z; [discriminate|].
  destruct (Fs.readdir fs dirPath) as [items|m]; simpl bind; [|discriminate].
  destruct (readDirectory_loop config cwd fs dirPath items [] [])
    as [[e|folders' files']|m] eqn:Hloop; try discriminate.
  intros H. injection H as <- <-.
  pose proof (first_loop_of_second dirPath items [] [] _ _ Hloop) as Hfirst.
  cbn [filter map] in Hfirst. unfold videos at 1 in Hfirst.
  cbn [filter map] in Hfirst. rewrite Hfirst. reflexivity.
Qed.

End FirstListing.

(** X18.  The second server lists what the first one listed, and more:
    where the listing of the second server succeeds, the first server,
    on the same directory, returns the same folders and, of the files,
    exactly those with an allowed video extension, in the same order and
    with the same path, size and date. *)
Theorem first_server_lists_the_videos {rt : Js.Runtime}
    (config : Config) (cwd : string) (fs : Fs.t)
    (dirPath : string) (depth : Z)
    (folders : list FolderEntry) (files : list FileEntry) :
  readDirectoryRecursive config cwd fs dirPath depth
  = Ok (ListingOk folders files) ->
  FirstServer.readDirectoryRecursive config cwd fs dirPath depth
  = Ok (inr (folders,
             map without_type
               (filter (fun f => isVideoFile config (file_name f)) files))).
Proof.
  unfold readDirectoryRecursive, FirstServer.readDirectoryRecursive.
  destruct (maxRecursionDepth config <? depth)%Z; [discriminate|].
  destruct (Fs.readdir fs dirPath) as [items|m]; simpl bind; [|discriminate].
  destruct (readDirectory_loop config cwd fs dirPath items [] [])
    as [[e|folders' files']|m] eqn:Hloop; try discriminate.
  intros H. injection H as <- <-.
  pose proof (first_loop_of_second config cwd fs dirPath items [] [] _ _ Hloop)
    as Hfirst.
  cbn [filter map] in Hfirst. rewrite Hfirst. reflexivity.
Qed.

Lemma first_server_lists_the_videos_witness :
  FirstServer.readDirectoryRecursive Scenario.config Scenario.cwd Scenario.fs
    "/lib/movies" 0
  = Ok (inr ([],
             map without_type
               (filter (fun f => isVideoFile Scenario.config (file_name f))
                  [{| file_name := "a.mp4"; file_path := "movies/a.mp4";
                      file_type := "video"; file_size := 500000;
                      file_modified := 0 |}]))).
Proof.
  apply (first_server_lists_the_videos Scenario.config Scenario.cwd Scenario.fs
           "/lib/movies" 0 []
           [{| file_name := "a.mp4"; file_path := "movies/a.mp4";
               file_type := "video"; file_size := 500000;
               file_modified := 0 |}]).
  reflexivity.
Defined.

Section FirstSanitize.

Import Js JsFacts Path PathFacts StripFacts ResolveFacts RelativeFacts
  RoundTripFacts DirFacts.

(** Joined to a rooted directory, a rooted path goes below it. *)
Lemma join_rooted_below (b : string) (B : list string) (m : string)
    (M : list string) :
  Forall (fun s => clean_seg s = true) (b :: B) ->
  Forall (fun s => clean_seg s = true) (m :: M) ->
  Path.join ["/" ++ Js.join "/" (b :: B); "/" ++ Js.join "/" (m :: M)]
  = ("/" ++ Js.join "/" (b :: B)) ++ "/" ++ Js.join "/" (m :: M).
Proof.
  intros HB HM.
  set (dir := "/" ++ Js.join "/" (b :: B)).
  set (p := "/" ++ Js.join "/" (m :: M)).
  assert (Hm : m <> EmptyString).
  { inversion HM as [|? ? Hm' _]; subst. apply clean_seg_spec in Hm'. tauto. }
  assert (Ej : Path.join [dir; p] = normalize (dir ++ String "/" p))
    by reflexivity.
  assert (Eq : normalizeString (dir ++ String "/" p) false
               = Js.join "/" ((b :: B) ++ m :: M)%list).
  { unfold normalizeString, dir, p.
    rewrite split_app_sep, normalizeSegs_app, normalizeSegs_root by assumption.
    rewrite (split_absolute (m :: M) HM).
    change (normalizeSegs false (rev (b :: B)) (EmptyString :: m :: M))
      with (normalizeSegs false (rev (b :: B)) (m :: M)).
    rewrite normalizeSegs_plain by (apply clean_plain; assumption).
    rewrite rev_involutive. reflexivity. }
  rewrite Ej, normalize_absolute, Eq; [| reflexivity | |].
  - rewrite join_app_below. unfold dir. rewrite !append_assoc. reflexivity.
  - change (String "/" p) with ("/" ++ p).
    rewrite endsWithSlash_app by discriminate.
    unfold p. rewrite !endsWithSlash_app by (try discriminate; apply join_nonempty; exact Hm).
    apply endsWithSlash_join. exact HM.
  - rewrite Eq. rewrite join_app_below. intros E.
    destruct (Js.join "/" (b :: B)); discriminate E.
Qed.

End FirstSanitize.

(** X19.  The first server's [sanitizePath] rejects nothing when the
    video directory is written in normal form: every parameter resolves
    to the video directory or to a path below it.  An absolute parameter
    is taken as a path below the video directory, where the second server
    takes it as it stands. *)
Theorem first_server_rejects_nothing
    (config : Config) (userPath : string) (segs : list string) :
  rooted (videoDirectory config) ->
  segs <> [] ->
  Forall (fun s => clean_seg s = true) segs ->
  (exists r, Legacy.sanitizePath config userPath = Ok r
             /\ within (videoDirectory config) r)
  /\ Legacy.sanitizePath config ("/" ++ Js.join "/" segs)
     = Ok (videoDirectory config ++ "/" ++ Js.join "/" segs).
Proof.
  intros Hroot Hne Hsegs.
  split; [apply LegacyFacts.legacy_result_confined; exact Hroot|].
  destruct segs as [|m M]; [congruence|].
  destruct Hroot as (b & B & E & HB).
  unfold Legacy.sanitizePath.
  rewrite (normalize_rooted m M Hsegs).
  rewrite (RoundTripFacts.strip_without_dotdot ("/" ++ Js.join "/" (m :: M)))
    by reflexivity.
  rewrite E, (join_rooted_below b B m M HB Hsegs).
  replace (Js.startsWith
             (("/" ++ Js.join "/" (b :: B)) ++ "/" ++ Js.join "/" (m :: M))
             ("/" ++ Js.join "/" (b :: B))) with true; [reflexivity|].
  symmetry. apply JsFacts.startsWith_spec. eauto.
Qed.

Lemma first_server_rejects_nothing_witness :
  (exists r, Legacy.sanitizePath Scenario.config "../../etc/passwd" = Ok r
             /\ within (videoDirectory Scenario.config) r)
  /\ Legacy.sanitizePath Scenario.config ("/" ++ Js.join "/" ["etc"; "passwd"])
     = Ok (videoDirectory Scenario.config ++ "/" ++ Js.join "/" ["etc"; "passwd"]).
Proof.
  apply (first_server_rejects_nothing Scenario.config "../../etc/passwd"
           ["etc"; "passwd"]);
    [exists "lib", []; split; [reflexivity | repeat constructor]
    | discriminate | repeat constructor].
Defined.

Section TwoServers.

Context {rt : Js.Runtime}.

Import Js JsFacts Path PathFacts StripFacts ResolveFacts RelativeFacts
  RoundTripFacts DirFacts.

Variable config : Config.
Variable cwd : string.

(** Joined to a rooted directory, clean segments go below it. *)
Lemma join_rooted_relative (b : string) (B : list string) (m : string)
    (M : list string) :
  Forall (fun s => clean_seg s = true) (b :: B) ->
  Forall (fun s => clean_seg s = true) (m :: M) ->
  Path.join ["/" ++ Js.join "/" (b :: B); Js.join "/" (m :: M)]
  = ("/" ++ Js.join "/" (b :: B)) ++ "/" ++ Js.join "/" (m :: M).
Proof.
  intros HB HM.
  set (dir := "/" ++ Js.join "/" (b :: B)).
  set (p := Js.join "/" (m :: M)).
  assert (Hm : m <> EmptyString).
  { inversion HM as [|? ? Hm' _]; subst. apply clean_seg_spec in Hm'. tauto. }
  assert (Hp : p <> EmptyString) by (apply join_nonempty; exact Hm).
  assert (Ej : Path.join [dir; p] = normalize (dir ++ String "/" p)).
  { unfold Path.join. simpl filter.
    destruct p as [|c p']; [congruence | reflexivity]. }
  assert (Eq : normalizeString (dir ++ String "/" p) false
               = Js.join "/" ((b :: B) ++ m :: M)%list).
  { unfold normalizeString, dir, p.
    rewrite split_app_sep, normalizeSegs_app, normalizeSegs_root by assumption.
    rewrite split_join by (try discriminate; apply clean_no_slash; assumption).
    rewrite normalizeSegs_plain by (apply clean_plain; assumption).
    rewrite rev_involutive. reflexivity. }
  rewrite Ej, normalize_absolute, Eq; [| reflexivity | |].
  - rewrite join_app_below. unfold dir. rewrite !append_assoc. reflexivity.
  - change (String "/" p) with ("/" ++ p).
    rewrite !endsWithSlash_app by (try discriminate; exact Hp).
    apply endsWithSlash_join. exact HM.
  - rewrite Eq. rewrite join_app_below. intros E.
    destruct (Js.join "/" (b :: B)); discriminate E.
Qed.

Lemma first_sanitize_relative (m : string) (M : list string) :
  rooted (videoDirectory config) ->
  Forall (fun s => clean_seg s = true) (m :: M) ->
  startsWith (Js.join "/" (m :: M)) ".." = false ->
  Legacy.sanitizePath config (Js.join "/" (m :: M))
  = Ok (videoDirectory config ++ "/" ++ Js.join "/" (m :: M)).
Proof.
  intros (b & B & E & HB) HM Hdots. unfold Legacy.sanitizePath.
  rewrite (normalize_clean_join m M HM), (strip_without_dotdot _ Hdots).
  rewrite E, (join_rooted_relative b B m M HB HM).
  replace (startsWith
             (("/" ++ Js.join "/" (b :: B)) ++ "/" ++ Js.join "/" (m :: M))
             ("/" ++ Js.join "/" (b :: B))) with true; [reflexivity|].
  symmetry. apply startsWith_spec. eauto.
Qed.

Lemma second_sanitize_relative (m : string) (M : list string) :
  isAbsolute cwd = true ->
  rooted (videoDirectory config) ->
  Forall (fun s => clean_seg s = true) (m :: M) ->
  startsWith (Js.join "/" (m :: M)) ".." = false ->
  sanitizePath config cwd (Js.join "/" (m :: M))
  = Ok (videoDirectory config ++ "/" ++ Js.join "/" (m :: M)).
Proof.
  intros Hcwd Hroot HM Hdots.
  pose proof (rooted_root config cwd Hroot) as ER.
  destruct Hroot as (b & B & E & HB).
  rewrite (sanitizePath_clean_join config cwd (b :: B) m M);
    try assumption; try discriminate.
  - rewrite E, join_app_below, !append_assoc. reflexivity.
  - rewrite ER. exact E.
Qed.

Lemma first_sanitize_empty :
  rooted (videoDirectory config) ->
  Legacy.sanitizePath config EmptyString = Ok (videoDirectory config).
Proof.
  intros (b & B & E & HB). unfold Legacy.sanitizePath.
  change (strip_parent_prefix (normalize EmptyString)) with ".".
  assert (Ej : Path.join [videoDirectory config; "."] = videoDirectory config).
  { rewrite E.
    change (Path.join ["/" ++ Js.join "/" (b :: B); "."])
      with (normalize (("/" ++ Js.join "/" (b :: B)) ++ String "/" ".")).
    assert (Eq : normalizeString
                   (("/" ++ Js.join "/" (b :: B)) ++ String "/" ".") false
                 = Js.join "/" (b :: B)).
    { unfold normalizeString.
      rewrite split_app_sep, normalizeSegs_app, normalizeSegs_root by assumption.
      change (split "/" ".") with ["."].
      change (normalizeSegs false (rev (b :: B)) ["."]) with (rev (rev (b :: B))).
      rewrite rev_involutive. reflexivity. }
    assert (Hb : b <> EmptyString).
    { inversion HB as [|? ? Hb' _]; subst. apply clean_seg_spec in Hb'. tauto. }
    rewrite normalize_absolute, Eq; [reflexivity | reflexivity | |].
    - rewrite endsWithSlash_app by discriminate. reflexivity.
    - rewrite Eq. apply join_nonempty. exact Hb. }
  rewrite Ej.
  replace (startsWith (videoDirectory config) (videoDirectory config)) with true;
    [reflexivity|].
  symmetry. apply startsWith_spec. exists EmptyString.
  symmetry. apply append_nil_r.
Qed.

End TwoServers.

(** X20.  The two servers resolve an ordinary path parameter alike.
    With the video directory written in normal form, both versions of
    [sanitizePath] send the empty parameter to the video directory, and a
    parameter of clean segments that does not begin with two dots to the
    video directory followed by [/] and the parameter. *)
Theorem servers_resolve_relative_paths_alike
    (config : Config) (cwd : string) (segs : list string) :
  Path.isAbsolute cwd = true ->
  rooted (videoDirectory config) ->
  segs <> [] ->
  Forall (fun s => clean_seg s = true) segs ->
  Js.startsWith (Js.join "/" segs) ".." = false ->
  Legacy.sanitizePath config EmptyString = Ok (videoDirectory config)
  /\ sanitizePath config cwd EmptyString = Ok (videoDirectory config)
  /\ Legacy.sanitizePath config (Js.join "/" segs)
     = Ok (videoDirectory config ++ "/" ++ Js.join "/" segs)
  /\ sanitizePath config cwd (Js.join "/" segs)
     = Ok (videoDirectory config ++ "/" ++ Js.join "/" segs).
Proof.
  intros Hcwd Hroot Hne Hsegs Hdots. destruct segs as [|m M]; [congruence|].
  split; [apply first_sanitize_empty; exact Hroot|].
  split; [rewrite sanitizePath_empty, (rooted_root config cwd Hroot); reflexivity|].
  split; [apply first_sanitize_relative; assumption|].
  apply second_sanitize_relative; assumption.
Qed.

Lemma servers_resolve_relative_paths_alike_witness :
  Legacy.sanitizePath Scenario.config EmptyString
  = Ok (videoDirectory Scenario.config)
  /\ sanitizePath Scenario.config Scenario.cwd EmptyString
     = Ok (videoDirectory Scenario.config)
  /\ Legacy.sanitizePath Scenario.config (Js.join "/" ["movies"; "a.mp4"])
     = Ok (videoDirectory Scenario.config ++ "/" ++ Js.join "/" ["movies"; "a.mp4"])
  /\ sanitizePath Scenario.config Scenario.cwd (Js.join "/" ["movies"; "a.mp4"])
     = Ok (videoDirectory Scenario.config ++ "/" ++ Js.join "/" ["movies"; "a.mp4"]).
Proof.
  apply (servers_resolve_relative_paths_alike Scenario.config Scenario.cwd
           ["movies"; "a.mp4"]);
    [reflexivity
    | exists "lib", []; split; [reflexivity | repeat constructor]
    | discriminate | repeat constructor | reflexivity].
Defined.

(** X21.  Where the two servers resolve the path parameter alike, their
    video routes answer alike but for one header: the first server labels
    every stream [video/mp4], the second one by the file's extension.
    Status, the other headers, the stream and every error are the same. *)
Theorem video_routes_differ_in_content_type {rt : Js.Runtime}
    (config : Config) (cwd : string) (fs : Fs.t) (req : Request) :
  Legacy.sanitizePath config (or_empty (query_path req))
  = sanitizePath config cwd (or_empty (query_path req)) ->
  FirstRoutes.video_handler config fs req
  = with_content_type "video/mp4" (video_handler config cwd fs req).
Proof.
  intros H. unfold FirstRoutes.video_handler, video_handler. rewrite H.
  destruct (negb (Js.truthy (or_empty (query_path req)))); [reflexivity|].
  destruct (sanitizePath config cwd (or_empty (query_path req)))
    as [fullPath|m]; simpl bind; [|reflexivity].
  destruct (Fs.stat fs fullPath) as [stats|m]; simpl bind; [|reflexivity].
  destruct (negb (Fs.stats_isFile stats) || negb (isVideoFile config fullPath));
    [reflexivity|].
  destruct (Js.truthy (or_empty (range req))); [|reflexivity].
  cbv zeta.
  destruct (Fs.createReadStream fullPath _ _) as [stream|m]; reflexivity.
Qed.

Lemma video_routes_differ_in_content_type_witness :
  FirstRoutes.video_handler Scenario.config Scenario.fs
    (Scenario.request (Some "movies/a.mp4") None (Some "bytes=0-99"))
  = with_content_type "video/mp4"
      (video_handler Scenario.config Scenario.cwd Scenario.fs
         (Scenario.request (Some "movies/a.mp4") None (Some "bytes=0-99"))).
Proof.
  apply (video_routes_differ_in_content_type Scenario.config Scenario.cwd
           Scenario.fs
           (Scenario.request (Some "movies/a.mp4") None (Some "bytes=0-99"))).
  reflexivity.
Defined.

(** X22.  Where the two servers resolve the path parameter alike and the
    second server's browse route does not fail, the first server's browse
    route answers with the same status; for a listing it sends the same
    folders and, of the files, the videos. *)
Theorem browse_routes_show_the_same_videos {rt : Js.Runtime}
    (config : Config) (cwd : string) (fs : Fs.t) (req : Request) :
  Legacy.sanitizePath config (or_empty (query_path req))
  = sanitizePath config cwd (or_empty (query_path req)) ->
  status (browse_handler config cwd fs req) <> 500%Z ->
  FirstRoutes.browse_handler config cwd fs req
  = first_view config (browse_handler config cwd fs req).
Proof.
  intros H Hok. unfold FirstRoutes.browse_handler, browse_handler in *.
  assert (Ep : (if Js.truthy (or_empty (query_path req))
                then or_empty (query_path req) else EmptyString)
               = or_empty (query_path req))
    by (destruct (or_empty (query_path req)); reflexivity).
  cbv zeta in *. rewrite Ep in *. rewrite H.
  destruct (sanitizePath config cwd (or_empty (query_path req)))
    as [fullPath|m]; simpl bind in *; [|exfalso; apply Hok; reflexivity].
  destruct (Fs.stat fs fullPath) as [stats|m]; simpl bind in *;
    [|exfalso; apply Hok; reflexivity].
  destruct (negb (Fs.stats_isDirectory stats)); [reflexivity|].
  destruct (readDirectoryRecursive config cwd fs fullPath 0)
    as [[e|folders files]|m] eqn:Hlist; simpl bind in *;
    [| |exfalso; apply Hok; reflexivity].
  - unfold readDirectoryRecursive in Hlist.
    unfold FirstServer.readDirectoryRecursive.
    destruct (maxRecursionDepth config <? 0)%Z.
    + injection Hlist as <-. reflexivity.
    + destruct (Fs.readdir fs fullPath) as [items|m]; simpl bind in Hlist;
        [|discriminate Hlist].
      destruct (readDirectory_loop config cwd fs fullPath items [] [])
        as [l|m] eqn:Hloop; [|discriminate Hlist].
      injection Hlist as ->. exfalso.
      destruct (readDirectory_loop_inv config cwd fs
                  (fun _ => True) (fun _ => True) fullPath
                  (fun _ _ _ => I) (fun _ _ _ _ _ _ => I)
                  items [] [] _ (Forall_nil _) (Forall_nil _) Hloop)
        as (fo & fi & E & _).
      discriminate E.
  - rewrite (first_listing_of_second config cwd fs fullPath 0 _ _ Hlist).
    reflexivity.
Qed.

Lemma browse_routes_show_the_same_videos_witness :
  FirstRoutes.browse_handler Scenario.config Scenario.cwd Scenario.fs
    (Scenario.request (Some "movies") None None)
  = first_view Scenario.config
      (browse_handler Scenario.config Scenario.cwd Scenario.fs
         (Scenario.request (Some "movies") None None)).
Proof.
  apply (browse_routes_show_the_same_videos Scenario.config Scenario.cwd
           Scenario.fs (Scenario.request (Some "movies") None None));
    [reflexivity | discriminate].
Defined.

(* ================================================================== *)
(** ** The download route *)
(* ================================================================== *)

Module BaseFacts.
Import Js JsFacts Path PathFacts StripFacts ResolveFacts RelativeFacts DirFacts.

Lemma string_of_list_app (xs ys : list ascii) :
  string_of_list_ascii (xs ++ ys)
  = string_of_list_ascii xs ++ string_of_list_ascii ys.
Proof. induction xs as [|x xs IH]; simpl; congruence. Qed.

(** The scan keeps the characters in front of the first separator. *)
Lemma basename_scan_tail (xs rest : list ascii) :
  Forall (fun c => Ascii.eqb c "/" = false) xs ->
  forall ms kept,
    xs <> [] \/ ms = false ->
    basename_scan (xs ++ "/"%char :: rest) ms kept
    = string_of_list_ascii (rev xs) ++ kept.
Proof.
  induction 1 as [|c xs Hc Hxs IH]; intros ms kept Hms.
  - destruct Hms as [Hms | ->]; [congruence | reflexivity].
  - simpl. rewrite Hc, IH by (right; reflexivity).
    rewrite string_of_list_app, append_assoc. reflexivity.
Qed.

(** A rooted path ends with a separator and its last segment, which is
    its base name. *)
Lemma basename_rooted (segs : list string) (x : string) :
  Forall (fun s => clean_seg s = true) (segs ++ [x]) ->
  exists dir,
    "/" ++ Js.join "/" (segs ++ [x])%list = dir ++ "/" ++ x
    /\ basename ("/" ++ Js.join "/" (segs ++ [x])%list) = x.
Proof.
  intros H. apply Forall_app in H as [HS Hx].
  inversion Hx as [|? ? Hx' _]; subst.
  destruct (clean_seg_spec x Hx') as (_ & Hxs & Hxne).
  assert (E : exists dir,
            "/" ++ Js.join "/" (segs ++ [x])%list = dir ++ String "/" x).
  { destruct segs as [|b B].
    - exists EmptyString. reflexivity.
    - exists ("/" ++ Js.join "/" (b :: B)). rewrite join_app_below.
      simpl Js.join at 2. rewrite append_assoc. reflexivity. }
  destruct E as [dir E]. exists dir. split; [exact E|].
  rewrite E. unfold basename.
  rewrite list_ascii_app. simpl list_ascii_of_string.
  rewrite rev_app_distr. simpl rev. rewrite <- app_assoc. simpl app.
  rewrite basename_scan_tail.
  - rewrite rev_involutive, string_of_list_ascii_of_string.
    apply append_nil_r.
  - apply Forall_rev. apply has_char_list. exact Hxs.
  - left. destruct x as [|c x]; [congruence|]. simpl.
    intros E'. apply (f_equal (@List.length ascii)) in E'.
    rewrite length_app in E'. simpl in E'. lia.
Qed.

End BaseFacts.

(** X23.  The download route serves any regular file inside Root, of
    whatever extension, whole: the answer is 200 with the file offered as
    an attachment under the last segment of its path, its size as
    [Content-Length], and a stream of the whole content.  What is not a
    regular file is answered 400, and a file name that [setHeader] refuses
    is answered 500 without a byte of the file. *)
Theorem download_serves_any_file_whole
    (config : Config) (cwd : string) (fs : Fs.t) (header_ok : string -> bool)
    (req : Request) (p fullPath : string) (stats : Fs.Stats) :
  Path.isAbsolute cwd = true ->
  Path.resolve cwd [videoDirectory config] <> "/" ->
  host_allowed (host req) = true ->
  authenticated req = true ->
  query_path req = Some p ->
  Js.truthy p = true ->
  sanitizePath config cwd p = Ok fullPath ->
  Fs.stat fs fullPath = Ok stats ->
  (Fs.stats_isFile stats = false ->
   api_download config cwd fs header_ok req = json_error 400 "Invalid file")
  /\ (Fs.stats_isFile stats = true ->
      exists dir name,
        fullPath = dir ++ "/" ++ name
        /\ has_char "/" name = false
        /\ basename fullPath = name
        /\ (header_ok ("attachment; filename=" ++ quote ++ name ++ quote) = true ->
            header_ok "application/octet-stream" = true ->
            api_download config cwd fs header_ok req
            = {| status := 200;
                 headers :=
                   [ ("Content-Disposition",
                      HStr ("attachment; filename=" ++ quote ++ name ++ quote));
                     ("Content-Type", HStr "application/octet-stream");
                     ("Content-Length", HNum (Js.Num (Fs.size stats))) ];
                 body := Piped (Fs.createReadStreamWhole fullPath) |}
            /\ file_bytes fs (api_download config cwd fs header_ok req)
               = Fs.content fs fullPath)
        /\ (header_ok ("attachment; filename=" ++ quote ++ name ++ quote) = false ->
            status (api_download config cwd fs header_ok req) = 500%Z
            /\ file_bytes fs (api_download config cwd fs header_ok req) = [])).
Proof.
  intros Hcwd Hroot Hhost Hauth Hpath Htruthy Hsan Hstat.
  unfold api_download, with_middleware, download_handler.
  rewrite Hhost, Hauth, Hpath. simpl or_empty. simpl negb. cbv iota.
  rewrite Htruthy, Hsan. simpl negb. cbv iota. cbn [bind]. rewrite Hstat.
  cbn [bind]. split.
  - intros ->. reflexivity.
  - intros ->. simpl negb. cbv iota zeta.
    destruct (PathFacts.resolve_normal_form cwd [videoDirectory config] Hcwd)
      as (B & EB & HB).
    assert (HBne : B <> []) by (intros ->; apply Hroot; exact EB).
    destruct (sanitizePath_normal_form config cwd p fullPath Hcwd Hsan)
      as (segs & -> & Hsegs).
    pose proof (sanitizePath_within config cwd p _ Hsan) as Hw.
    rewrite EB in Hw.
    destruct (DirFacts.within_segments B segs HBne HB Hsegs Hw) as [D ->].
    destruct (exists_last (l := (B ++ D)%list)) as (S & x & E).
    { destruct B; [congruence | discriminate]. }
    rewrite E in *.
    destruct (BaseFacts.basename_rooted S x Hsegs) as (dir & Edir & Ebase).
    exists dir, x. split; [exact Edir|]. split.
    { apply Forall_app in Hsegs as [_ Hx]. inversion Hx as [|? ? Hx' _]; subst.
      apply (RelativeFacts.clean_seg_spec x Hx'). }
    split; [exact Ebase|]. rewrite Ebase. unfold setHeader. split.
    + intros H1 H2. rewrite H1. cbn [bind]. rewrite H2. cbn [bind].
      split; [reflexivity|]. unfold file_bytes, Fs.stream_bytes. simpl.
      reflexivity.
    + intros H1. rewrite H1. cbn [bind]. split; reflexivity.
Qed.

Lemma download_serves_any_file_whole_witness :
  (Fs.stats_isFile (Scenario.file_stats 500000) = false ->
   api_download Scenario.config Scenario.cwd Scenario.fs (fun _ => true)
     (Scenario.request (Some "movies/a.mp4") None None)
   = json_error 400 "Invalid file")
  /\ (Fs.stats_isFile (Scenario.file_stats 500000) = true ->
      exists dir name,
        "/lib/movies/a.mp4" = dir ++ "/" ++ name
        /\ has_char "/" name = false
        /\ basename "/lib/movies/a.mp4" = name
        /\ ((fun _ : string => true)
              ("attachment; filename=" ++ quote ++ name ++ quote) = true ->
            (fun _ : string => true) "application/octet-stream" = true ->
            api_download Scenario.config Scenario.cwd Scenario.fs (fun _ => true)
              (Scenario.request (Some "movies/a.mp4") None None)
            = {| status := 200;
                 headers :=
                   [ ("Content-Disposition",
                      HStr ("attachment; filename=" ++ quote ++ name ++ quote));
                     ("Content-Type", HStr "application/octet-stream");
                     ("Content-Length",
                      HNum (Js.Num (Fs.size (Scenario.file_stats 500000)))) ];
                 body := Piped (Fs.createReadStreamWhole "/lib/movies/a.mp4") |}
            /\ file_bytes Scenario.fs
                 (api_download Scenario.config Scenario.cwd Scenario.fs
                    (fun _ => true)
                    (Scenario.request (Some "movies/a.mp4") None None))
               = Fs.content Scenario.fs "/lib/movies/a.mp4")
        /\ ((fun _ : string => true)
              ("attachment; filename=" ++ quote ++ name ++ quote) = false ->
            status (api_download Scenario.config Scenario.cwd Scenario.fs
                      (fun _ => true)
                      (Scenario.request (Some "movies/a.mp4") None None))
            = 500%Z
            /\ file_bytes Scenario.fs
                 (api_download Scenario.config Scenario.cwd Scenario.fs
                    (fun _ => true)
                    (Scenario.request (Some "movies/a.mp4") None None))
               = [])).
Proof.
  apply (download_serves_any_file_whole Scenario.config Scenario.cwd Scenario.fs
           (fun _ => true) (Scenario.request (Some "movies/a.mp4") None None)
           "movies/a.mp4" "/lib/movies/a.mp4" (Scenario.file_stats 500000));
    first [reflexivity | discriminate].
Defined.

(* ================================================================== *)
(** ** The multipart parser *)
(* ================================================================== *)

Module TextFacts.
Import Js JsFacts DirFacts Text.

Lemma startsWith_app_long (p : string) :
  forall a r,
    (String.length p <= String.length a)%nat ->
    startsWith (a ++ r) p = startsWith a p.
Proof.
  induction p as [|c p IH]; intros a r Hlen; [destruct a; reflexivity|].
  destruct a as [|x a]; [simpl in Hlen; lia|].
  simpl. rewrite IH by (simpl in Hlen; lia). reflexivity.
Qed.

Lemma startsWith_short (p : string) :
  forall s, (String.length s < String.length p)%nat -> startsWith s p = false.
Proof.
  induction p as [|c p IH]; intros s Hlen; [simpl in Hlen; lia|].
  destruct s as [|x s]; [reflexivity|].
  simpl. rewrite IH by (simpl in Hlen; lia). apply andb_false_r.
Qed.

Lemma startsWith_refl_app (p r : string) : startsWith (p ++ r) p = true.
Proof. apply startsWith_spec. eauto. Qed.

Lemma startsWith_refl (p : string) : startsWith p p = true.
Proof.
  induction p as [|c p IH]; [reflexivity|].
  simpl. rewrite Ascii.eqb_refl. exact IH.
Qed.

Lemma indexOf_eq (s pat : string) :
  indexOf s pat
  = if startsWith s pat then Some 0
    else match s with
         | EmptyString => None
         | String _ s' => option_map S (indexOf s' pat)
         end.
Proof. destruct s; reflexivity. Qed.

Lemma indexOf_cons_inv (c : ascii) (s pat : string) (n : nat) :
  indexOf (String c s) pat = Some (S n) ->
  startsWith (String c s) pat = false /\ indexOf s pat = Some n.
Proof.
  rewrite indexOf_eq. destruct (startsWith (String c s) pat); [discriminate|].
  destruct (indexOf s pat) as [k|]; [|discriminate].
  simpl. intros H. injection H as <-. split; reflexivity.
Qed.

Lemma indexOf_cons_None (c : ascii) (s pat : string) :
  indexOf (String c s) pat = None ->
  startsWith (String c s) pat = false /\ indexOf s pat = None.
Proof.
  rewrite indexOf_eq. destruct (startsWith (String c s) pat); [discriminate|].
  destruct (indexOf s pat) as [k|]; [discriminate|]. split; reflexivity.
Qed.

(** What follows the first occurrence does not matter. *)
Lemma indexOf_extend (pat r : string) (x : string) :
  indexOf (x ++ pat) pat = Some (String.length x) ->
  indexOf (x ++ pat ++ r) pat = Some (String.length x).
Proof.
  induction x as [|c x IH]; intros H.
  - simpl append. rewrite indexOf_eq, startsWith_refl_app. reflexivity.
  - simpl append in *. simpl String.length in *.
    apply indexOf_cons_inv in H as [Hs Hi].
    assert (Hs' : startsWith (String c (x ++ pat ++ r)) pat = false).
    { change (String c (x ++ pat ++ r)) with (String c x ++ (pat ++ r)).
      rewrite <- append_assoc, startsWith_app_long
        by (rewrite length_append; lia).
      exact Hs. }
    rewrite indexOf_eq, Hs', (IH Hi). reflexivity.
Qed.

(** Passing a character the pattern does not begin with. *)
Lemma indexOf_nochar (c0 : ascii) (pat' r : string) (x : string) :
  has_char c0 x = false ->
  indexOf (x ++ r) (String c0 pat')
  = option_map (Nat.add (String.length x)) (indexOf r (String c0 pat')).
Proof.
  induction x as [|c x IH]; intros H.
  - simpl. destruct (indexOf r (String c0 pat')); reflexivity.
  - simpl in H. apply orb_false_iff in H as [Hc Hx].
    simpl append. rewrite indexOf_eq.
    simpl startsWith. rewrite Hc. simpl andb. cbv iota.
    rewrite (IH Hx). destruct (indexOf r (String c0 pat')); reflexivity.
Qed.

Lemma indexOf_cons_miss (c : ascii) (s pat : string) :
  startsWith (String c s) pat = false ->
  indexOf (String c s) pat = option_map S (indexOf s pat).
Proof. intros H. rewrite indexOf_eq, H. reflexivity. Qed.

Lemma lastIndexOf_short (pat : string) :
  forall s, (String.length s < String.length pat)%nat ->
            lastIndexOf s pat = None.
Proof.
  induction s as [|c s IH]; intros Hlen.
  - simpl. rewrite startsWith_short by exact Hlen. reflexivity.
  - simpl. rewrite IH by (simpl in Hlen; lia).
    rewrite startsWith_short by exact Hlen. reflexivity.
Qed.

(** A string that ends with the pattern has its last occurrence there. *)
Lemma lastIndexOf_suffix (pat : string) (x : string) :
  pat <> EmptyString ->
  lastIndexOf (x ++ pat) pat = Some (String.length x).
Proof.
  intros Hne. induction x as [|c x IH].
  - simpl append. destruct pat as [|a p]; [congruence|].
    simpl lastIndexOf. rewrite lastIndexOf_short by (simpl; lia).
    rewrite Ascii.eqb_refl, startsWith_refl. reflexivity.
  - simpl. rewrite IH. reflexivity.
Qed.

Lemma drop_append (a b : string) : drop (String.length a) (a ++ b) = b.
Proof. induction a as [|x a IH]; simpl; [destruct b; reflexivity | exact IH]. Qed.

Lemma substring_head (x y : string) :
  substring 0 (String.length x) (x ++ y) = x.
Proof.
  unfold substring. rewrite Nat.min_0_l, Nat.max_0_l, Nat.sub_0_r.
  change (drop 0 (x ++ y)) with (x ++ y). apply take_append.
Qed.

Lemma substring_middle (x d y : string) :
  substring (String.length x) (String.length x + String.length d)
    (x ++ d ++ y) = d.
Proof.
  unfold substring.
  rewrite Nat.min_l, Nat.max_r by lia.
  replace (String.length x + String.length d - String.length x)%nat
    with (String.length d) by lia.
  rewrite drop_append. apply take_append.
Qed.

(** The characters of a separator just found are passed. *)
Lemma split_go_skip (sep : string) (a r : string) :
  r <> EmptyString ->
  split_go sep (a ++ r) (String.length a) = split_go sep r 0.
Proof.
  intros Hr. induction a as [|x a IH]; [reflexivity|].
  simpl. exact IH.
Qed.

Lemma split_go_skip_end (sep : string) (a : string) :
  split_go sep a (String.length a) = [EmptyString].
Proof. induction a as [|x a IH]; [reflexivity | exact IH]. Qed.

Lemma split_go_skip_any (sep : string) (a r : string) :
  split_go sep (a ++ r) (String.length a) = split_go sep r 0.
Proof.
  destruct r as [|c r].
  - rewrite append_nil_r. apply split_go_skip_end.
  - apply split_go_skip. discriminate.
Qed.

(** The text in front of the first separator is the first piece. *)
Lemma split_first (sep r : string) (x : string) :
  sep <> EmptyString ->
  indexOf (x ++ sep) sep = Some (String.length x) ->
  split_go sep (x ++ sep ++ r) 0 = x :: split_go sep r 0.
Proof.
  intros Hsep. induction x as [|c x IH]; intros H.
  - simpl append. destruct sep as [|a p]; [congruence|].
    change (String a p ++ r) with (String a (p ++ r)).
    simpl split_go.
    change (String a (p ++ r)) with (String a p ++ r).
    rewrite startsWith_refl_app, Nat.sub_0_r.
    rewrite split_go_skip_any, Ascii.eqb_refl. reflexivity.
  - simpl append in *. simpl String.length in H.
    apply indexOf_cons_inv in H as [Hs Hi].
    assert (Hs' : startsWith (String c (x ++ sep ++ r)) sep = false).
    { change (String c (x ++ sep ++ r)) with (String c x ++ (sep ++ r)).
      rewrite <- append_assoc, startsWith_app_long
        by (rewrite length_append; lia).
      exact Hs. }
    change (split_go sep (String c (x ++ sep ++ r)) 0)
      with (if startsWith (String c (x ++ sep ++ r)) sep then
              EmptyString :: split_go sep (x ++ sep ++ r) (String.length sep - 1)
            else
              match split_go sep (x ++ sep ++ r) 0 with
              | [] => [String c EmptyString]
              | h :: t => String c h :: t
              end).
    rewrite Hs', (IH Hi). reflexivity.
Qed.

Lemma split_none (sep : string) :
  forall s, indexOf s sep = None -> split_go sep s 0 = [s].
Proof.
  induction s as [|c s IH]; intros H; [reflexivity|].
  apply indexOf_cons_None in H as [Hs Hi].
  simpl split_go. rewrite Hs, (IH Hi). reflexivity.
Qed.

Lemma span_unquoted_run (run rest : string) :
  has_char (ascii_of_nat 34) run = false ->
  span_unquoted (run ++ String (ascii_of_nat 34) rest)
  = (run, String (ascii_of_nat 34) rest).
Proof.
  induction run as [|c run IH]; intros H; [reflexivity|].
  simpl in H. apply orb_false_iff in H as [Hc Hr].
  simpl append. simpl span_unquoted. rewrite Hc, (IH Hr). reflexivity.
Qed.

Lemma match_quoted_eq (key s : string) :
  match_quoted key s
  = match (if startsWith s (key ++ quote) then
             let '(run, rest) :=
               span_unquoted (drop (String.length key + 1) s) in
             if truthy run && startsWith rest quote then Some run else None
           else None) with
    | Some run => Some run
    | None =>
        match s with
        | EmptyString => None
        | String _ s' => match_quoted key s'
        end
    end.
Proof. destruct s; reflexivity. Qed.

Lemma match_quoted_miss (key : string) (c : ascii) (s : string) :
  startsWith (String c s) (key ++ quote) = false ->
  match_quoted key (String c s) = match_quoted key s.
Proof. intros H. rewrite match_quoted_eq, H. reflexivity. Qed.

Lemma match_quoted_hit (key s run rest : string) :
  startsWith s (key ++ quote) = true ->
  drop (String.length key + 1) s = run ++ String (ascii_of_nat 34) rest ->
  has_char (ascii_of_nat 34) run = false ->
  run <> EmptyString ->
  match_quoted key s = Some run.
Proof.
  intros Hs Hd Hq Hne. rewrite match_quoted_eq, Hs, Hd.
  rewrite (span_unquoted_run run rest Hq).
  destruct run as [|c run]; [congruence|]. reflexivity.
Qed.

Lemma trimEnd_keep (c : ascii) (s : string) :
  is_space c = false -> trimEnd (String c s) = String c (trimEnd s).
Proof. intros H. simpl. rewrite H. reflexivity. Qed.

End TextFacts.

Module MultipartFacts.
Import Js JsFacts DirFacts Text TextFacts.

(** For a part whose headers hold no empty line, the headers are what
    stands in front of the first empty line, and the data what stands
    between it and the line break that ends the part. *)
Lemma parse_part_cut (headers data : string)
    (acc : list (string * string) * list UploadFile) :
  negb (truthy (crlf ++ headers ++ crlf ++ crlf ++ data ++ crlf))
  || (trim (crlf ++ headers ++ crlf ++ crlf ++ data ++ crlf) =? "--") = false ->
  indexOf ((crlf ++ headers) ++ crlf ++ crlf) (crlf ++ crlf)
  = Some (String.length (crlf ++ headers)) ->
  parse_part (crlf ++ headers ++ crlf ++ crlf ++ data ++ crlf) acc
  = match match_quoted "name=" (crlf ++ headers) with
    | None => acc
    | Some name =>
        match match_quoted "filename=" (crlf ++ headers) with
        | Some filename =>
            (fst acc,
             (snd acc ++ [{| filename := filename;
                             data := list_byte_of_string data |}])%list)
        | None => ((fst acc ++ [(name, trim data)])%list, snd acc)
        end
    end.
Proof.
  intros Hkept Hblank. unfold parse_part. rewrite Hkept.
  set (text := crlf ++ headers ++ crlf ++ crlf ++ data ++ crlf).
  assert (E1 : text = (crlf ++ headers) ++ (crlf ++ crlf) ++ (data ++ crlf)).
  { unfold text. rewrite !append_assoc. reflexivity. }
  assert (E2 : text = ((crlf ++ headers) ++ crlf ++ crlf) ++ data ++ crlf).
  { unfold text. rewrite !append_assoc. reflexivity. }
  assert (E3 : text = (((crlf ++ headers) ++ crlf ++ crlf) ++ data) ++ crlf).
  { unfold text. rewrite !append_assoc. reflexivity. }
  assert (Hi : indexOf text (crlf ++ crlf) = Some (String.length (crlf ++ headers))).
  { rewrite E1. apply indexOf_extend. exact Hblank. }
  assert (Hl : lastIndexOf text crlf
               = Some (String.length (((crlf ++ headers) ++ crlf ++ crlf) ++ data))).
  { rewrite E3. apply lastIndexOf_suffix. discriminate. }
  rewrite Hi, Hl. cbv zeta.
  assert (Hh : substring 0 (String.length (crlf ++ headers)) text
               = crlf ++ headers).
  { rewrite E1. apply substring_head. }
  assert (Hd : substring (String.length (crlf ++ headers) + 4)
                 (String.length (((crlf ++ headers) ++ crlf ++ crlf) ++ data))
                 text = data).
  { rewrite E2.
    replace (String.length (crlf ++ headers) + 4)%nat
      with (String.length ((crlf ++ headers) ++ crlf ++ crlf))
      by (rewrite (length_append (crlf ++ headers)); reflexivity).
    rewrite (length_append _ data). apply substring_middle. }
  rewrite Hh, Hd. reflexivity.
Qed.

Lemma text_kept (p : Piece) :
  negb (truthy (piece_text p)) || (trim (piece_text p) =? "--") = false.
Proof. destruct p; reflexivity. Qed.

Lemma parse_path_field (value : string)
    (acc : list (string * string) * list UploadFile) :
  parse_part (piece_text (PathField value)) acc
  = ((fst acc ++ [("path", trim value)])%list, snd acc).
Proof.
  unfold piece_text.
  rewrite parse_part_cut;
    [reflexivity | exact (text_kept (PathField value)) | reflexivity].
Qed.

Lemma file_headers_no_empty_line (name mime : string) :
  has_char cr name = false ->
  has_char cr mime = false ->
  indexOf ((crlf ++ piece_headers (FilePart name mime EmptyString))
           ++ crlf ++ crlf) (crlf ++ crlf)
  = Some (String.length (crlf ++ piece_headers (FilePart name mime EmptyString))).
Proof.
  intros Hname Hmime. unfold piece_headers.
  rewrite !append_assoc. cbn [append crlf quote].
  repeat (rewrite indexOf_cons_miss by reflexivity).
  rewrite (indexOf_nochar cr _ _ name Hname).
  cbn [append].
  repeat (rewrite indexOf_cons_miss by reflexivity).
  rewrite (indexOf_nochar cr _ _ mime Hmime).
  rewrite indexOf_eq, startsWith_refl.
  cbn [option_map]. f_equal.
  repeat first [rewrite length_append | progress cbn [String.length]].
  lia.
Qed.

Lemma file_headers_name (name mime : string) :
  match_quoted "name=" (crlf ++ piece_headers (FilePart name mime EmptyString))
  = Some "files".
Proof.
  unfold piece_headers. cbn [append crlf quote].
  repeat (rewrite match_quoted_miss by reflexivity).
  apply (match_quoted_hit "name=" _ "files"
           ("; filename=" ++ quote ++ name ++ quote ++ crlf
            ++ "Content-Type: " ++ mime));
    [reflexivity | reflexivity | reflexivity | discriminate].
Qed.

Lemma file_headers_filename (name mime : string) :
  name <> EmptyString ->
  has_char (ascii_of_nat 34) name = false ->
  match_quoted "filename=" (crlf ++ piece_headers (FilePart name mime EmptyString))
  = Some name.
Proof.
  intros Hne Hq. unfold piece_headers. cbn [append crlf quote].
  repeat (rewrite match_quoted_miss by reflexivity).
  apply (match_quoted_hit "filename=" _ name (crlf ++ "Content-Type: " ++ mime));
    [reflexivity | reflexivity | exact Hq | exact Hne].
Qed.

Lemma parse_file_part (name mime content : string)
    (acc : list (string * string) * list UploadFile) :
  name <> EmptyString ->
  has_char (ascii_of_nat 34) name = false ->
  has_char cr name = false ->
  has_char cr mime = false ->
  parse_part (piece_text (FilePart name mime content)) acc
  = (fst acc,
     (snd acc ++ [{| filename := name;
                     data := list_byte_of_string content |}])%list).
Proof.
  intros Hne Hq Hname Hmime. unfold piece_text.
  change (piece_headers (FilePart name mime content))
    with (piece_headers (FilePart name mime EmptyString)).
  rewrite parse_part_cut.
  - rewrite file_headers_name, (file_headers_filename name mime Hne Hq).
    reflexivity.
  - exact (text_kept (FilePart name mime content)).
  - apply file_headers_no_empty_line; assumption.
Qed.

End MultipartFacts.

Section MultipartBody.

Import Js JsFacts DirFacts Text TextFacts MultipartFacts.

Variable boundary : string.

Let sep : string := "--" ++ boundary.

Lemma concat_cons (x : string) (l : list string) :
  String.concat EmptyString (x :: l) = x ++ String.concat EmptyString l.
Proof. destruct l; simpl; [symmetry; apply append_nil_r | reflexivity]. Qed.

Lemma body_after (ps : list Piece) :
  multipart_body boundary ps = sep ++ after_boundary boundary ("--" ++ crlf) ps.
Proof.
  unfold multipart_body. induction ps as [|p rest IH]; [reflexivity|].
  rewrite map_cons, concat_cons, append_assoc, IH.
  change ("--" ++ boundary ++ piece_text p) with (sep ++ piece_text p).
  change (after_boundary boundary ("--" ++ crlf) (p :: rest))
    with (piece_text p ++ sep ++ after_boundary boundary ("--" ++ crlf) rest).
  rewrite !append_assoc. reflexivity.
Qed.

Lemma open_body_after (ps : list Piece) (p : Piece) :
  String.concat EmptyString
    (map (fun q => "--" ++ boundary ++ piece_text q) (ps ++ [p]))
  = sep ++ after_boundary boundary (piece_text p) ps.
Proof.
  induction ps as [|q rest IH].
  - simpl. reflexivity.
  - rewrite <- app_comm_cons, map_cons, concat_cons, IH.
    change ("--" ++ boundary ++ piece_text q) with (sep ++ piece_text q).
    change (after_boundary boundary (piece_text p) (q :: rest))
      with (piece_text q ++ sep ++ after_boundary boundary (piece_text p) rest).
    rewrite !append_assoc. reflexivity.
Qed.

Lemma split_after (last : string) (ps : list Piece) :
  indexOf last sep = None ->
  Forall (well_formed boundary) ps ->
  split_go sep (after_boundary boundary last ps) 0
  = (map piece_text ps ++ [last])%list.
Proof.
  intros Hend. induction 1 as [|p rest [Hp _] _ IH].
  - apply split_none. exact Hend.
  - change (after_boundary boundary last (p :: rest))
      with (piece_text p ++ sep ++ after_boundary boundary last rest).
    rewrite split_first; [|discriminate | exact Hp].
    rewrite IH. reflexivity.
Qed.

Lemma split_leading (r : string) :
  split_go sep (sep ++ r) 0 = EmptyString :: split_go sep r 0.
Proof.
  apply (split_first sep r EmptyString); [discriminate|].
  simpl. rewrite indexOf_eq, startsWith_refl. reflexivity.
Qed.

(** The pieces of a body between its first and its last boundary line. *)
Lemma inner_pieces_body (ps : list Piece) :
  indexOf ("--" ++ crlf) sep = None ->
  Forall (well_formed boundary) ps ->
  inner_pieces (Text.split sep (multipart_body boundary ps))
  = map piece_text ps.
Proof.
  intros Hend Hps. unfold Text.split.
  rewrite body_after, split_leading, (split_after _ ps Hend Hps).
  unfold inner_pieces. simpl tl. apply removelast_last.
Qed.

(** A body without the closing boundary line: its last part is not
    among the inner pieces. *)
Lemma inner_pieces_open (ps : list Piece) (p : Piece) :
  indexOf (piece_text p) sep = None ->
  Forall (well_formed boundary) ps ->
  inner_pieces
    (Text.split sep
       (String.concat EmptyString
          (map (fun q => "--" ++ boundary ++ piece_text q) (ps ++ [p]))))
  = map piece_text ps.
Proof.
  intros Hlast Hps. unfold Text.split.
  rewrite open_body_after, split_leading, (split_after _ ps Hlast Hps).
  unfold inner_pieces. simpl tl. apply removelast_last.
Qed.

(** The [path] assignments the parts of [ps] make. *)
Let path_fields (ps : list Piece) : list (string * string) :=
  flat_map (fun p =>
              match p with
              | PathField value => [("path", trim value)]
              | FilePart _ _ _ => []
              end) ps.

Lemma parse_pieces (ps : list Piece) :
  Forall (well_formed boundary) ps ->
  forall acc,
    fold_left (fun acc part => parse_part part acc) (map piece_text ps) acc
    = ((fst acc ++ path_fields ps)%list, (snd acc ++ sent_files ps)%list).
Proof.
  induction 1 as [|p rest [_ Hp] _ IH]; intros acc.
  - simpl. rewrite !app_nil_r. destruct acc; reflexivity.
  - simpl map. simpl fold_left. rewrite IH.
    destruct p as [value|name mime content].
    + rewrite parse_path_field. simpl. rewrite <- !app_assoc. reflexivity.
    + destruct Hp as (Hne & Hq & Hcr & Hmime).
      rewrite (parse_file_part name mime content acc Hne Hq Hcr Hmime).
      simpl. rewrite <- !app_assoc. reflexivity.
Qed.

Lemma assigned_path_fields (ps : list Piece) :
  assigned "path" (path_fields ps) = sent_path ps.
Proof.
  induction ps as [|p rest IH]; [reflexivity|].
  destruct p as [value|name mime content].
  - simpl. rewrite IH. destruct (sent_path rest); reflexivity.
  - simpl. rewrite IH. destruct (sent_path rest); reflexivity.
Qed.

Lemma parse_body (ps : list Piece) :
  indexOf ("--" ++ crlf) sep = None ->
  Forall (well_formed boundary) ps ->
  parseMultipartData (multipart_body boundary ps) boundary
  = {| fields_path := sent_path ps; files := sent_files ps |}.
Proof.
  intros Hend Hps. unfold parseMultipartData. cbv zeta. fold sep.
  rewrite (inner_pieces_body ps Hend Hps).
  rewrite (parse_pieces ps Hps). cbn [fst snd app].
  rewrite (assigned_path_fields ps). reflexivity.
Qed.

Lemma parse_open_body (ps : list Piece) (p : Piece) :
  indexOf (piece_text p) sep = None ->
  Forall (well_formed boundary) ps ->
  parseMultipartData
    (String.concat EmptyString
       (map (fun q => "--" ++ boundary ++ piece_text q) (ps ++ [p])))
    boundary
  = {| fields_path := sent_path ps; files := sent_files ps |}.
Proof.
  intros Hlast Hps. unfold parseMultipartData. cbv zeta. fold sep.
  rewrite (inner_pieces_open ps p Hlast Hps).
  rewrite (parse_pieces ps Hps). cbn [fst snd app].
  rewrite (assigned_path_fields ps). reflexivity.
Qed.

(** The boundary the upload route reads from the header. *)
Lemma boundary_of_header :
  indexOf boundary "boundary=" = None ->
  nth_error (Text.split "boundary=" ("multipart/form-data; boundary=" ++ boundary)) 1
  = Some boundary.
Proof.
  intros H. unfold Text.split.
  change ("multipart/form-data; boundary=" ++ boundary)
    with ("multipart/form-data; " ++ "boundary=" ++ boundary).
  rewrite (split_first "boundary=" boundary "multipart/form-data; ");
    [|discriminate | reflexivity].
  rewrite (split_none "boundary=" boundary H). reflexivity.
Qed.

End MultipartBody.

(** X24.  What is sent is what is parsed.  For a request body made of
    [path] fields and files as a browser writes them, closed by the last
    boundary line, where the boundary line occurs in no part, file names
    hold no double quote and no carriage return and media types no
    carriage return, [parseMultipartData] returns the files in the order
    sent, each with its name and exactly its content, whatever bytes that
    holds, and as [path] the trimmed value of the last [path] field. *)
Theorem multipart_round_trip (boundary : string) (ps : list Piece) :
  Text.indexOf ("--" ++ crlf) ("--" ++ boundary) = None ->
  Forall (well_formed boundary) ps ->
  parseMultipartData (multipart_body boundary ps) boundary
  = {| fields_path := sent_path ps; files := sent_files ps |}.
Proof.
  intros Hend Hps. unfold parseMultipartData. cbv zeta.
  rewrite (inner_pieces_body boundary ps Hend Hps).
  rewrite (parse_pieces boundary ps Hps). cbn [fst snd app].
  rewrite (assigned_path_fields ps). reflexivity.
Qed.

Lemma multipart_round_trip_witness :
  parseMultipartData (multipart_body Browser.boundary Browser.pieces)
    Browser.boundary
  = {| fields_path := sent_path Browser.pieces;
       files := sent_files Browser.pieces |}.
Proof.
  apply (multipart_round_trip Browser.boundary Browser.pieces);
    [reflexivity | repeat constructor; discriminate].
Defined.

(** X25.  An upload stores what was sent.  For a request with the
    header [multipart/form-data; boundary=b] and a body of well-formed
    parts under [b], the upload route does what it does for the parts
    sent: if the upload directory is found it writes every file sent, in
    order, with exactly the bytes sent, at [path.join] of that directory
    and the file name. *)
Theorem upload_stores_what_was_sent
    (config : Config) (cwd : string) (os : Os.t) (w : World)
    (boundary : string) (ps : list Piece) :
  Js.truthy boundary = true ->
  Text.indexOf boundary "boundary=" = None ->
  Text.indexOf ("--" ++ crlf) ("--" ++ boundary) = None ->
  Forall (well_formed boundary) ps ->
  upload_handler config cwd os
    (Some ("multipart/form-data; boundary=" ++ boundary))
    (multipart_body boundary ps) w
  = upload_parts config cwd os
      {| fields_path := sent_path ps; files := sent_files ps |} w
  /\ (forall uploadDir,
        (if Js.truthy (or_empty (sent_path ps))
         then sanitizePath config cwd (or_empty (sent_path ps))
         else Ok (videoDirectory config)) = Ok uploadDir ->
        existsSync (world_fs w) uploadDir = true ->
        sent_files ps <> [] ->
        effects (fst (upload_handler config cwd os
                        (Some ("multipart/form-data; boundary=" ++ boundary))
                        (multipart_body boundary ps) w))
        = (effects w
           ++ map (fun file =>
                     WriteFile (Path.join [uploadDir; filename file])
                       (data file))
                (sent_files ps))%list).
Proof.
  intros Hb Hhdr Hend Hps.
  assert (E : upload_handler config cwd os
                (Some ("multipart/form-data; boundary=" ++ boundary))
                (multipart_body boundary ps) w
              = upload_parts config cwd os
                  {| fields_path := sent_path ps; files := sent_files ps |} w).
  { unfold upload_handler. cbv zeta.
    change (or_empty (Some ("multipart/form-data; boundary=" ++ boundary)))
      with ("multipart/form-data; boundary=" ++ boundary).
    replace (negb (Js.truthy ("multipart/form-data; boundary=" ++ boundary))
             || negb (Js.includes ("multipart/form-data; boundary=" ++ boundary)
                        "multipart/form-data")) with false by reflexivity.
    rewrite (boundary_of_header boundary Hhdr), Hb. simpl negb. cbv iota.
    rewrite (parse_body boundary ps Hend Hps). reflexivity. }
  split; [exact E|].
  intros uploadDir Hdir Hexists Hfiles. rewrite E. unfold upload_parts.
  cbn [fields_path files].
  destruct (sent_files ps) as [|f fs'] eqn:Ef; [congruence|].
  cbn [List.length Nat.eqb]. cbv zeta. rewrite Hdir, Hexists.
  simpl negb. cbv iota.
  destruct (upload_loop os uploadDir (f :: fs') w
              {| uploaded := []; upload_failed := [] |}) as [w' results] eqn:Hloop.
  destruct (upload_loop_spec os uploadDir _ _ _ _ _ Hloop) as (Heff & _).
  exact Heff.
Qed.

Lemma upload_stores_what_was_sent_witness :
  upload_handler Scenario.config Scenario.cwd Calm.os
    (Some ("multipart/form-data; boundary=" ++ Browser.boundary))
    (multipart_body Browser.boundary Browser.pieces) Calm.world
  = upload_parts Scenario.config Scenario.cwd Calm.os
      {| fields_path := sent_path Browser.pieces;
         files := sent_files Browser.pieces |} Calm.world
  /\ (forall uploadDir,
        (if Js.truthy (or_empty (sent_path Browser.pieces))
         then sanitizePath Scenario.config Scenario.cwd
                (or_empty (sent_path Browser.pieces))
         else Ok (videoDirectory Scenario.config)) = Ok uploadDir ->
        existsSync (world_fs Calm.world) uploadDir = true ->
        sent_files Browser.pieces <> [] ->
        effects (fst (upload_handler Scenario.config Scenario.cwd Calm.os
                        (Some ("multipart/form-data; boundary="
                               ++ Browser.boundary))
                        (multipart_body Browser.boundary Browser.pieces)
                        Calm.world))
        = (effects Calm.world
           ++ map (fun file =>
                     WriteFile (Path.join [uploadDir; filename file])
                       (data file))
                (sent_files Browser.pieces))%list).
Proof.
  apply (upload_stores_what_was_sent Scenario.config Scenario.cwd Calm.os
           Calm.world Browser.boundary Browser.pieces);
    [reflexivity | reflexivity | reflexivity | repeat constructor; discriminate].
Defined.

(** X26.  A body that lacks the closing boundary line loses its last
    part: the parser hands on the parts in front of it only, so an upload
    of one file in such a body is answered 400 for want of files and
    writes nothing. *)
Theorem unclosed_body_loses_last_part
    (config : Config) (cwd : string) (os : Os.t) (w : World)
    (boundary : string) (ps : list Piece) (p : Piece) :
  Text.indexOf (piece_text p) ("--" ++ boundary) = None ->
  Forall (well_formed boundary) ps ->
  parseMultipartData
    (String.concat EmptyString
       (map (fun q => "--" ++ boundary ++ piece_text q) (ps ++ [p])))
    boundary
  = {| fields_path := sent_path ps; files := sent_files ps |}
  /\ upload_parts config cwd os
       (parseMultipartData ("--" ++ boundary ++ piece_text p) boundary) w
     = (w, Refused 400 "No files provided").
Proof.
  intros Hlast Hps. split; [apply parse_open_body; assumption|].
  pose proof (parse_open_body boundary [] p Hlast (Forall_nil _)) as H.
  change (String.concat EmptyString
            (map (fun q => "--" ++ boundary ++ piece_text q) ([] ++ [p])))
    with ("--" ++ boundary ++ piece_text p) in H.
  rewrite H. reflexivity.
Qed.

Lemma unclosed_body_loses_last_part_witness :
  parseMultipartData
    (String.concat EmptyString
       (map (fun q => "--" ++ Browser.boundary ++ piece_text q)
          ([PathField "movies"] ++ [FilePart "new.mp4" "video/mp4" "abc"])))
    Browser.boundary
  = {| fields_path := sent_path [PathField "movies"];
       files := sent_files [PathField "movies"] |}
  /\ upload_parts Scenario.config Scenario.cwd Calm.os
       (parseMultipartData
          ("--" ++ Browser.boundary
           ++ piece_text (FilePart "new.mp4" "video/mp4" "abc"))
          Browser.boundary) Calm.world
     = (Calm.world, Refused 400 "No files provided").
Proof.
  apply (unclosed_body_loses_last_part Scenario.config Scenario.cwd Calm.os
           Calm.world Browser.boundary [PathField "movies"]
           (FilePart "new.mp4" "video/mp4" "abc"));
    [reflexivity | repeat constructor].
Defined.

(* ================================================================== *)
(** ** What the routes stream *)
(* ================================================================== *)

Section Streams.

Context {rt : Js.Runtime}.

Variable config : Config.
Variable cwd : string.
Variable fs : Fs.t.

Lemma createReadStream_path (p : string) (start end_ : Js.number)
    (rs : Fs.ReadStream) :
  Fs.createReadStream p start end_ = Ok rs -> Fs.rs_path rs = p.
Proof.
  unfold Fs.createReadStream.
  destruct start as [| |s]; try discriminate.
  destruct (negb (Fs.validateInteger (Js.Num s))); [discriminate|].
  destruct end_ as [|[]|e]; try discriminate.
  - intros H. injection H as <-. reflexivity.
  - destruct (negb (Fs.validateInteger (Js.Num e))); [discriminate|].
    destruct (e <? s)%Z; [discriminate|].
    intros H. injection H as <-. reflexivity.
Qed.

Lemma video_handler_stream (req : Request) (rs : Fs.ReadStream) :
  body (video_handler config cwd fs req) = Piped rs ->
  exists p stats,
    query_path req = Some p
    /\ sanitizePath config cwd p = Ok (Fs.rs_path rs)
    /\ Fs.stat fs (Fs.rs_path rs) = Ok stats
    /\ Fs.stats_isFile stats = true
    /\ isVideoFile config (Fs.rs_path rs) = true
    /\ In (status (video_handler config cwd fs req)) [200; 206]%Z.
Proof.
  unfold video_handler.
  destruct (query_path req) as [p|]; simpl or_empty; [|discriminate].
  destruct (negb (Js.truthy p)); [discriminate|].
  destruct (sanitizePath config cwd p) as [fullPath|m] eqn:Hsan;
    cbn [bind]; [|discriminate].
  destruct (Fs.stat fs fullPath) as [stats|m] eqn:Hstat;
    cbn [bind]; [|discriminate].
  destruct (negb (Fs.stats_isFile stats) || negb (isVideoFile config fullPath))
    eqn:Hchk; [discriminate|].
  apply orb_false_iff in Hchk as [Hfile Hvideo].
  apply negb_false_iff in Hfile. apply negb_false_iff in Hvideo.
  destruct (Js.truthy (or_empty (range req))); cbv zeta.
  - destruct (Fs.createReadStream fullPath _ _) as [stream|m] eqn:Hrs;
      cbn [bind catch body]; [|discriminate].
    intros H. injection H as <-.
    rewrite (createReadStream_path _ _ _ _ Hrs).
    exists p, stats. repeat split; try assumption. simpl. auto.
  - cbn [catch body]. intros H. injection H as <-.
    exists p, stats. repeat split; try assumption. simpl. auto.
Qed.

End Streams.

(** X27.  The routes stream nothing but files inside Root.  Every
    stream the video route opens is on a path that [sanitizePath] gave
    for the request, inside Root, that [stat] reports as a regular file and
    that has an allowed video extension; every stream of the download
    route is on a regular file inside Root, from its first byte; the
    browse and search routes open no stream at all. *)
Theorem streams_only_from_root {rt : Js.Runtime}
    (config : Config) (cwd : string) (fs : Fs.t) (header_ok : string -> bool)
    (req : Request) (rs : Fs.ReadStream) :
  (body (api_video config cwd fs req) = Piped rs ->
   exists p stats,
     query_path req = Some p
     /\ sanitizePath config cwd p = Ok (Fs.rs_path rs)
     /\ within (Path.resolve cwd [videoDirectory config]) (Fs.rs_path rs)
     /\ Fs.stat fs (Fs.rs_path rs) = Ok stats
     /\ Fs.stats_isFile stats = true
     /\ isVideoFile config (Fs.rs_path rs) = true
     /\ In (status (api_video config cwd fs req)) [200; 206]%Z)
  /\ (body (api_download config cwd fs header_ok req) = Piped rs ->
      exists p stats,
        query_path req = Some p
        /\ sanitizePath config cwd p = Ok (Fs.rs_path rs)
        /\ within (Path.resolve cwd [videoDirectory config]) (Fs.rs_path rs)
        /\ Fs.stat fs (Fs.rs_path rs) = Ok stats
        /\ Fs.stats_isFile stats = true
        /\ rs = Fs.createReadStreamWhole (Fs.rs_path rs)
        /\ status (api_download config cwd fs header_ok req) = 200%Z)
  /\ body (api_browse config cwd fs req) <> Piped rs
  /\ (forall resp, api_search config cwd fs req = Some resp ->
                   body resp <> Piped rs).
Proof.
  split; [|split; [|split]].
  - unfold api_video, with_middleware.
    destruct (negb (host_allowed (host req))); [discriminate|].
    destruct (negb (authenticated req)); [discriminate|].
    intros H.
    destruct (video_handler_stream config cwd fs req rs H)
      as (p & stats & Hp & Hsan & Hstat & Hfile & Hvideo & Hstatus).
    exists p, stats. repeat split; try assumption.
    apply (sanitizePath_within config cwd p). exact Hsan.
  - unfold api_download, with_middleware.
    destruct (negb (host_allowed (host req))); [discriminate|].
    destruct (negb (authenticated req)); [discriminate|].
    unfold download_handler.
    destruct (query_path req) as [p|]; simpl or_empty; [|discriminate].
    destruct (negb (Js.truthy p)); [discriminate|].
    destruct (sanitizePath config cwd p) as [fullPath|m] eqn:Hsan;
      cbn [bind]; [|discriminate].
    destruct (Fs.stat fs fullPath) as [stats|m] eqn:Hstat;
      cbn [bind]; [|discriminate].
    destruct (Fs.stats_isFile stats) eqn:Hfile; simpl negb; cbv iota;
      [|discriminate].
    cbv zeta. unfold setHeader.
    destruct (header_ok _); cbn [bind]; [|discriminate].
    destruct (header_ok _); cbn [bind]; [|discriminate].
    cbn [catch body status]. intros H. injection H as <-.
    exists p, stats. simpl Fs.rs_path. repeat split; try assumption.
    apply (sanitizePath_within config cwd p). exact Hsan.
  - unfold api_browse, with_middleware.
    destruct (negb (host_allowed (host req))); [discriminate|].
    destruct (negb (authenticated req)); [discriminate|].
    unfold browse_handler. cbv zeta.
    destruct (sanitizePath config cwd _) as [fullPath|m]; cbn [bind];
      [|discriminate].
    destruct (Fs.stat fs fullPath) as [stats|m]; cbn [bind]; [|discriminate].
    destruct (negb (Fs.stats_isDirectory stats)); [discriminate|].
    destruct (readDirectoryRecursive config cwd fs fullPath 0); discriminate.
  - intros resp. unfold api_search, with_middleware.
    destruct (negb (host_allowed (host req)));
      [intros H; injection H as <-; discriminate|].
    destruct (negb (authenticated req));
      [intros H; injection H as <-; discriminate|].
    unfold search_handler.
    destruct (query_falsy _ || _);
      [intros H; injection H as <-; discriminate|].
    destruct (sanitizePath config cwd _);
      [|intros H; injection H as <-; discriminate].
    destruct (query_or_empty (query_q req));
      [|intros H; injection H as <-; discriminate ..].
    destruct (searchVideosRecursive config cwd fs _ _ _);
      [|discriminate].
    intros H. injection H as <-. discriminate.
Qed.
